(* ===== verification/_CoqProject ===== *)
-Q . S2P
Prelude.v
Algorithm.v
Util.v
UrlUtils.v
Double.v
Json.v
Utf8.v
MetaFile.v
LevelDB.v
MetadataStore.v
MetaRefine.v
MetaConc.v
MetaLock.v
MetaScan.v
MetaStat.v
Multipart.v
MultipartLegacy.v
Http.v
Router.v
Singleton.v
Paths.v
CryptoUtils.v
FileSystem.v
FileStore.v
FileCtl.v
UploadSlots.v
FileMerge.v
FileRace.v
UploadRace.v
ChunkRace.v
Confine.v
FileGuard.v
HttpSession.v
SystemCtl.v
Latency.v
Server.v
Answered.v
Main.v
Conformance.v
Timestamp.v
Logger.v
LogBuffer.v
