(* ===== verification/Prelude.v ===== *)
(** * CDFS: a verified model of a small distributed file store

    CDFS is an HTTP file server. A request enters through [server/cServer.cc] and
    [server/HttpSession.cc], is routed by [server/Router.cc] on the method and the path
    that [server/UrlUtils.cc] cuts out of the target, and reaches a handler of
    [controller/FileCtl.cpp] with an [HttpContext] ([server/HttpContext.h]). Uploads
    carry a multipart body ([server/MultipartParser.cc]); the content is written below
    a root directory by [file/filestore.cpp] at a path made from its MD5
    ([file/CryptoUtils.h]), and a record ([file/MetaFile.h]) is stored as JSON in
    LevelDB by [file/MetadataStore.cpp] under three keys (MD5, path, scene and time).
    Large files arrive as numbered chunks and are merged. A status page
    ([controller/SystemCtl.h]) reports counters and what /proc says of the process.
    [test/server_test.cc] has the [main] that puts the parts together.

    ** Files

    - [Prelude]: byte strings with the [std::string] operations the code uses,
      machine integers ([u64], [i32], ...), [outcome] (a value or an exception), decimal
      text ([to_string], [stoi], [stol], [stoul]), shared lemmas and tactics.
    - [Algorithm]: [std::sort] as an interface, with merge sort as an instance.
    - [Util] ([common/util.h]) and [UrlUtils] ([server/UrlUtils.cc]): decoders, target
      and query parsing, byte order.
    - [Double]: the C++ double, by the executable specification of binary64.
    - [Json]: JSON values and the interface of nlohmann/json ([JsonLib], [JsonLaws]), with
      [TaggedJson] as an instance. [Utf8]: the well-formed texts the library accepts.
      [MetaFile]: the records, their JSON form,
      [serialize] and [deserialize].
    - [LevelDB]: the interface of LevelDB ([LevelDB], [LevelDBSpec]), with [MemDB] as an
      instance. [MetadataStore]: every operation of [file/MetadataStore.cpp] as a
      function on the store (database handle and cached statistics).
    - [MetaRefine]: the store refines a map from MD5 to record. [MetaScan]: the loops
      over iterators ([list_dir], [get_uploaded_shard], [repair_stat]). [MetaConc]: any
      number of calls cut into the sections the lock makes atomic, against an abstract
      machine on the map. [MetaLock]: the mutex itself, and that it makes these sections
      atomic. [MetaStat]: the statistics of stores opened over old data.
    - [Multipart], [Http], [Router]: body parser, request context and replies, routing.
      [MultipartLegacy]: the older parser of [server/HttpContext.h] against the new one.
    - [Singleton] ([common/Singleton.h]): threads that ask for the one object of a type.
    - [Paths], [CryptoUtils], [FileSystem], [FileStore]: POSIX paths, digests and names,
      a directory tree with I/O faults, and [file/filestore.cpp] over it.
    - [FileCtl]: the six handlers of [controller/FileCtl.cpp] over the disk, the
      metadata store and the upload counter. [FileMerge]: merging a complete set of
      chunks, from the request to the stored file. [Confine]: where an upload of a
      chunk can write. [FileRace]: threads inside [write_disk]. [UploadRace]: uploads of
      one file (name, content and scene), interleaved at every call of the file
      system and every section of the metadata store. [ChunkRace]: chunks of one file,
      interleaved at every call of the file system. [UploadSlots]: the limit on uploads,
      at every access of its counter. [FileGuard]: the clean-up guard.
    - [HttpSession]: completion handlers, time-out and accept loop as steps of the
      server's state, with the counters of [common/global.cc]; silent clients.
    - [SystemCtl]: the parsing of the /proc files, processor usage, the status page.
      [Latency]: the latency counters, at every atomic access of replies that end and
      status requests at the same time.
    - [Server]: [main] of [test/server_test.cc]: the singleton router with its routes, the
      handlers behind it, the sessions in front of it, and the worker threads, as one
      state with a step relation. [Answered]: which requests get a reply. [Main]: how the
      process ends.
    - [Timestamp], [Logger]: the clock in microseconds, the fixed buffer, the log level
      and output function, and a log line ([common/logStream.*], [common/logger.*]).
      [LogBuffer]: the array and the pointer behind a log line, and [test/test_log.cc].
    - [Conformance]: the repository's unit tests, run on the definitions.

    ** How code becomes definitions

    A method that changes its object is a function from the old state to the new one
    and the result. An exception is [Throw]; a C++ [optional] is [option]. Integers keep
    their width: counters wrap with [u64] or [i32], [size_t] subtraction is [size_sub].
    What a call reads from outside (random number, clock, the bytes a read delivers) is
    an argument. LevelDB, the JSON library, MD5, [std::sort], the order of directory
    entries and the version text of Beast are type-class parameters; the laws the
    theorems use state their documented behaviour, and each has an instance on which the
    witnesses run.

    I/O can fail: the file system carries a list of faults, one consumed by every call
    that reaches the disk (an error, fewer bytes stored than asked, part of a tree
    removed), so a theorem for all file systems covers every pattern of failures. The
    calls of [std::filesystem] without an error code throw then, [exists], [is_directory],
    [file_size] and [remove] included; those with one return. There are no symbolic
    links, and a path is a sequence of names: the byte 0, at which the system calls end
    a path, is an ordinary byte. The message of a [filesystem_error] holds the paths of
    the call; the text of the system's error is a parameter ([FsText]).

    Writes of LevelDB can fail, with or without effect; its reads are assumed to succeed
    ([LevelDBSpec.get_contents]: the code takes any failed read for a missing key).
    Allocation does not fail, so [std::bad_alloc] and the handlers that only it can reach
    (the [catch] of the accept handler) are not modelled.

    [Server] runs each completion handler to its end before the next one starts: any order
    of handlers is covered. Handlers that interleave are the subjects of [MetaConc] (the
    operations of the metadata store that write; below them [MetaLock], with every
    operation of the mutex and every access of the database as a step), [FileRace]
    ([write_disk] on one file), [UploadRace] (whole uploads of one file in one second; in
    different seconds they
    leave two index entries, [MetaConc.concurrent_save_listed_twice], and under different
    names two paths, [MetaConc.concurrent_save_stale_path]), [ChunkRace] (chunks
    of one file), [UploadSlots] and [Latency] (atomic counters, sequentially consistent as
    their default memory order makes them); each of them is a step relation with a step
    per call that other threads can see, and a function of the schedule for the
    witnesses.

    Loops that are not structural take fuel: an iterator loop of the metadata store needs
    more fuel than the database has entries, the multipart loop more than the body has
    bytes, [parseQuery] supplies its own; each bound is proved to be enough (result
    [Some]), so the theorems are about results and not about runs that may not end. The
    theorems that the connections of silent clients end, that no call waits for the
    mutex forever and that the compare-and-exchange loops end are inductions on a rank
    of the state.

    ** What the theorems show

    - Metadata: every sequence of save, delete, status, update and shard calls with
      well-formed arguments refines the abstract map, and takes its error case exactly
      where the database refuses a write ([MetaRefine.run_ops_refines]); look-ups,
      statistics, listings, shard progress and repair are exact with respect to it;
      concurrent calls take effect on the map one after the other, in an order that
      explains every result ([MetaConc.concurrent_calls_linearize]), when one digest
      means one path, scene and time; otherwise the other keys may suffer. The mutex makes
      the sections of these calls atomic, and no call waits for it forever ([MetaLock]).
    - Files: [write_disk] never leaves a mixture of old and new content: whatever call
      fails, and also when it throws, the file is as before, complete or gone, except
      that a failed removal can leave the beginning of the content; concurrent calls
      for one file do not disturb each other unless they draw the same number; saved files
      are read back; uploads are stored, recorded and served, also when the same file
      is uploaded many times at once, and their limit holds; an upload of a chunk writes
      only below the root; chunks that are uploaded in parallel are all stored, and a
      complete set is merged in numeric order and recorded.
    - HTTP: forms and queries mean what an independent specification says, and the two
      form parsers agree; routing prefers exact routes, then the longest prefix; the
      server's connections keep their invariant, and those of silent clients end unless
      a write to one of them stalls; a log statement writes only inside its arrays; a
      singleton is made once.
    - The whole server: no record is lost, but to a save that had looked for it before it
      was there; what is uploaded through the router can be
      downloaded through it; a request with UTF-8 texts is answered unless one of the
      calls outside a [try] throws; the exit code of the process says which of its parts
      failed, and 0 that all its threads did.
    - Status: the numbers of the kernel's files are read back, the processor usage is the
      share between two calls, the highest latency is that since the last call; under
      concurrency the latency counters behave as if every operation on them were atomic,
      no peak is lost, and the loops end.
    - Deviations: theorems of kind error state what the code does where it does not do
      what it means to (merge directory, upload counter, scene check, UTF-8, time-out
      handler, exceptions that end worker threads).

    ** Not modelled

    The bytes on the wire and Beast's HTTP parser (a request arrives as its fields), the
    system calls behind the clock and /proc (their results are inputs), [main.cc], which
    prints a word, declarations without an implementation ([server/node.h],
    [file/MetaFileSet.h]: no bodies to translate), and the commented-out older versions.
    The mutex of the router guards registrations that are all made before the server
    starts. Interleavings of a merge with other handlers on the same directory, and of
    [SystemCtl::last_cpu_], which is unprotected and so a data race without a defined
    outcome, are not modelled. Of the logger's time text, the array that [snprintf] fills
    and the assertion on its length are not: the year has four digits. *)


From stdpp Require Import base list strings gmap sorting numbers.
From Stdlib Require String.
From Stdlib Require Import ZArith Ascii Lia.

#[global] Set Default Goal Selector "1".

(** ** [std::string]

    A [std::string], a [std::string_view] and the contents of a file are byte
    sequences: [list ascii], written [str]. [lit] turns a literal of the source
    into one; the empty string is [[]], the quote and control characters are
    given by their code. *)

Abbreviation str := (list ascii).

Definition lit (s : string) : str := String.list_ascii_of_string s.

Arguments lit !s /.

(** [char] as an [unsigned char] value. *)
Definition code (c : ascii) : nat := nat_of_ascii c.
Definition chr (n : nat) : ascii := ascii_of_nat n.

Definition CR : ascii := chr 13.
Definition LF : ascii := chr 10.
Definition DQUOTE : ascii := chr 34.
Definition CRLF : str := [CR; LF].

(** [s.substr(0, p.size()) == p], also [s.rfind(p, 0) == 0]. *)
Fixpoint starts_with (p s : str) : bool :=
  match p, s with
  | [], _ => true
  | _, [] => false
  | c :: p', d :: s' => if decide (c = d) then starts_with p' s' else false
  end.

(** [std::string::find]: the least position [>= pos] where [p] occurs;
    [None] is [npos]. *)
Fixpoint find0 (p s : str) : option nat :=
  if starts_with p s then Some 0
  else match s with
       | [] => None
       | _ :: s' => S <$> find0 p s'
       end.

Definition find (p s : str) (pos : nat) : option nat :=
  if decide (pos <= length s) then Nat.add pos <$> find0 p (drop pos s) else None.

(** [std::string::find_first_of]. *)
Fixpoint find_first_of0 (cs s : str) : option nat :=
  match s with
  | [] => None
  | c :: s' => if decide (c ∈ cs) then Some 0 else S <$> find_first_of0 cs s'
  end.

Definition find_first_of (cs s : str) (pos : nat) : option nat :=
  if decide (pos <= length s) then Nat.add pos <$> find_first_of0 cs (drop pos s)
  else None.

(** [s.substr(pos)] and [s.substr(pos, n)] for [pos <= s.size()]; [n] is a
    [size_t], so a count that wrapped around takes the rest of the string. *)
Definition substr_from (s : str) (pos : nat) : str := drop pos s.

Definition substr (s : str) (pos : nat) (n : Z) : str :=
  if decide (Z.of_nat (length s - pos) <= n)%Z then drop pos s
  else take (Z.to_nat n) (drop pos s).

(** [s[i] == c], false out of range. *)
Definition char_at (s : str) (i : nat) (c : ascii) : bool :=
  bool_decide (s !! i = Some c).

(** Lexicographic byte order: [memcmp], LevelDB's bytewise comparator and
    [std::less<std::string>]. *)
Fixpoint str_ltb (a b : str) : bool :=
  match a, b with
  | _, [] => false
  | [], _ :: _ => true
  | c :: a', d :: b' =>
      if decide (code c < code d) then true
      else if decide (code d < code c) then false
      else str_ltb a' b'
  end.

Definition str_lt (a b : str) : Prop := str_ltb a b = true.

(** ** Machine integers: [Z] with the wrap-around written out *)

Definition wrap (w : Z) (z : Z) : Z := (z mod 2 ^ w)%Z.
Definition swrap (w : Z) (z : Z) : Z :=
  let u := wrap w z in if decide (u < 2 ^ (w - 1))%Z then u else (u - 2 ^ w)%Z.

Abbreviation u8 := (wrap 8).
Abbreviation u32 := (wrap 32).
Abbreviation u64 := (wrap 64).
Abbreviation i32 := (swrap 32).
Abbreviation i64 := (swrap 64).

(** [size_t] subtraction [a - b]. *)
Definition size_sub (a b : nat) : Z := u64 (Z.of_nat a - Z.of_nat b).

(** ** Outcomes: a value or a C++ exception with its [what()] *)

Inductive outcome (A : Type) : Type :=
| Ok (a : A)
| Throw (what : str).
Arguments Ok {A} a.
Arguments Throw {A} what.

Definition outcome_bind {A B} (m : outcome A) (f : A -> outcome B) : outcome B :=
  match m with Ok a => f a | Throw e => Throw e end.

Declare Scope outcome_scope.
Delimit Scope outcome_scope with outcome.
Notation "'let*' x ':=' m 'in' k" := (outcome_bind m (fun x => k))
  (at level 10, x pattern, m at level 100, k at level 200)
  : outcome_scope.

(** [try { m } catch (...) { h }]. *)
Definition try_catch {A} (m : outcome A) (h : str -> A) : A :=
  match m with Ok a => a | Throw e => h e end.

(** ** Decimal conversion: [std::to_string], [std::stoul], [std::stoi],
    [std::stol] *)

Definition digit (d : Z) : ascii := chr (Z.to_nat (48 + d)).

Definition digit_val (c : ascii) : option Z :=
  let n := code c in
  if decide (48 <= n <= 57) then Some (Z.of_nat n - 48)%Z else None.

Fixpoint dec_aux (fuel : nat) (n : Z) : str :=
  match fuel with
  | O => []
  | S fuel' =>
      if decide (n < 10)%Z then [digit n]
      else dec_aux fuel' (n / 10)%Z ++ [digit (n mod 10)%Z]
  end.

(** A number below [2^k] has at most [k] decimal digits. *)
Definition dec (n : Z) : str := dec_aux (S (Z.to_nat (Z.log2 n))) n.

Definition to_string (z : Z) : str :=
  if decide (z < 0)%Z then chr 45 :: dec (- z)%Z else dec z.

(** [isspace] in the C locale. *)
Definition is_space (c : ascii) : bool :=
  let n := code c in bool_decide (n = 32 \/ 9 <= n <= 13).

Fixpoint skip_spaces (s : str) : str :=
  match s with
  | c :: s' => if is_space c then skip_spaces s' else s
  | [] => []
  end.

(** The longest run of digits at the front of [s], accumulated onto [acc];
    [None] when there is none. *)
Fixpoint read_digits (acc : option Z) (s : str) : option Z :=
  match s with
  | [] => acc
  | c :: s' =>
      match digit_val c with
      | Some d => read_digits (Some (10 * default 0%Z acc + d)%Z) s'
      | None => acc
      end
  end.

(** [strtol]'s grammar in base 10: white space, an optional sign, digits; what
    follows the digits is ignored. *)
Definition read_int (s : str) : option (bool * Z) :=
  match skip_spaces s with
  | c :: s' =>
      if decide (c = chr 45) then pair true <$> read_digits None s'
      else if decide (c = chr 43) then pair false <$> read_digits None s'
      else pair false <$> read_digits None (c :: s')
  | [] => None
  end.

Definition stoi (s : str) : outcome Z :=
  match read_int s with
  | None => Throw (lit "stoi")
  | Some (neg, n) =>
      let v := if neg then (- n)%Z else n in
      if decide (- 2 ^ 31 <= v < 2 ^ 31)%Z then Ok v else Throw (lit "stoi")
  end.

Definition stol (s : str) : outcome Z :=
  match read_int s with
  | None => Throw (lit "stol")
  | Some (neg, n) =>
      let v := if neg then (- n)%Z else n in
      if decide (- 2 ^ 63 <= v < 2 ^ 63)%Z then Ok v else Throw (lit "stol")
  end.

(** [std::stoul]: an [unsigned long]; a minus sign negates modulo [2^64]. *)
Definition stoul (s : str) : outcome Z :=
  match read_int s with
  | None => Throw (lit "stoul")
  | Some (neg, n) =>
      if decide (n < 2 ^ 64)%Z then Ok (if neg then u64 (- n) else n)
      else Throw (lit "stoul")
  end.

(** * Lemmas *)

(** ** Prefixes and searching *)

Lemma starts_with_spec p s : starts_with p s = true <-> p `prefix_of` s.
Proof.
  revert s; induction p as [|c p IH]; intros s.
  { split; [intros _; apply prefix_nil | done]. }
  destruct s as [|d s]; simpl.
  { split; [done | by intros ?%prefix_nil_not]. }
  case_decide as Hcd.
  - subst d. rewrite IH. split; [apply prefix_cons | apply prefix_cons_inv_2].
  - split; [done|]. intros H. by apply prefix_cons_inv_1 in H.
Qed.

Lemma starts_with_app p s : starts_with p (p ++ s) = true.
Proof. apply starts_with_spec. by apply prefix_app_r. Qed.

Lemma starts_with_false p s : starts_with p s = false <-> ~ p `prefix_of` s.
Proof. rewrite <- starts_with_spec. destruct (starts_with p s); naive_solver. Qed.

(** [find0] is the first occurrence. *)
Lemma find0_Some p s i :
  find0 p s = Some i <->
  i <= length s /\ p `prefix_of` drop i s /\ forall j, j < i -> ~ p `prefix_of` drop j s.
Proof.
  revert i; induction s as [|c s IH]; intros i; simpl.
  - destruct (starts_with p []) eqn:E.
    + apply starts_with_spec in E. split.
      * intros [= <-]. repeat split; [lia|done|]. intros j ?; lia.
      * intros (? & _). f_equal; lia.
    + apply starts_with_false in E. split; [done|]. intros (_ & H & _).
      by rewrite drop_nil in H.
  - destruct (starts_with p (c :: s)) eqn:E.
    + apply starts_with_spec in E. split.
      * intros [= <-]. repeat split; [lia|done|]. intros j ?; lia.
      * intros (_ & _ & H). destruct i as [|i]; [done|].
        exfalso. apply (H 0); [lia|done].
    + apply starts_with_false in E. rewrite fmap_Some. setoid_rewrite IH. split.
      * intros (k & (Hk & Hp & Hn) & ->). simpl. repeat split; [lia|done|].
        intros [|j] Hj; simpl; [done|]. apply Hn; lia.
      * intros (Hi & Hp & Hn). destruct i as [|i]; [done|].
        exists i; repeat split; [simpl in *; lia|done|].
        intros j Hj. apply (Hn (S j)); lia.
Qed.

Lemma find0_None p s : find0 p s = None <-> forall j, j <= length s -> ~ p `prefix_of` drop j s.
Proof.
  induction s as [|c s IH]; simpl.
  - destruct (starts_with p []) eqn:E.
    + apply starts_with_spec in E. split; [done|]. intros H; exfalso; by apply (H 0).
    + apply starts_with_false in E. split; [|done]. intros _ j _. by rewrite drop_nil.
  - destruct (starts_with p (c :: s)) eqn:E.
    + apply starts_with_spec in E. split; [done|].
      intros H; exfalso; apply (H 0); [lia|done].
    + apply starts_with_false in E. rewrite fmap_None, IH. split.
      * intros H [|j] Hj; simpl; [done|]. apply H; lia.
      * intros H j Hj. apply (H (S j)); lia.
Qed.

Lemma find0_first p a b :
  (forall j, j < length a -> ~ p `prefix_of` drop j (a ++ p ++ b)) ->
  find0 p (a ++ p ++ b) = Some (length a).
Proof.
  intros H. apply find0_Some. rewrite !length_app. repeat split; [lia| |done].
  rewrite drop_app_length. by apply prefix_app_r.
Qed.

Lemma find0_char_fresh c a : c ∉ a -> find0 [c] a = None.
Proof.
  induction a as [|d a IH]; [done|]. rewrite not_elem_of_cons. intros [Hne Ha]. simpl.
  rewrite decide_False by done. by rewrite IH.
Qed.

Lemma find0_char c a b : c ∉ a -> find0 [c] (a ++ c :: b) = Some (length a).
Proof.
  induction a as [|d a IH]; simpl; intros Ha.
  - by rewrite decide_True.
  - apply not_elem_of_cons in Ha as [Hne Ha]. rewrite decide_False by done.
    by rewrite IH.
Qed.

(** The occurrence found lies inside the string, at or after [pos]. *)
Lemma find_bounds p s pos i :
  find p s pos = Some i -> pos <= i /\ i + length p <= length s.
Proof.
  unfold find. case_decide; [|done]. rewrite fmap_Some.
  intros (k & (Hk & Hp & _)%find0_Some & ->).
  apply prefix_length in Hp. rewrite !length_drop in *. lia.
Qed.

Lemma find_0 p s : find p s 0 = find0 p s.
Proof.
  unfold find. rewrite decide_True by lia. rewrite drop_0. by destruct (find0 p s).
Qed.

Lemma find_char c a b : c ∉ a -> find [c] (a ++ c :: b) 0 = Some (length a).
Proof. intros. rewrite find_0. by apply find0_char. Qed.

(** Searching from the end of a known prefix. *)
Lemma find_app_skip p a b : find p (a ++ b) (length a) = Nat.add (length a) <$> find0 p b.
Proof.
  unfold find. rewrite length_app, decide_True by lia. by rewrite drop_app_length.
Qed.

Lemma find0_here p s : find0 p (p ++ s) = Some 0.
Proof. destruct (p ++ s) eqn:E; simpl; rewrite <- E; by rewrite starts_with_app. Qed.

Lemma find_here p a s : find p (a ++ p ++ s) (length a) = Some (length a).
Proof. rewrite find_app_skip, find0_here. simpl. by rewrite Nat.add_0_r. Qed.

(** An occurrence that ends inside [s] does not depend on what follows. *)
Lemma prefix_drop_app (p s t : str) j :
  j + length p <= length s -> p `prefix_of` drop j (s ++ t) -> p `prefix_of` drop j s.
Proof.
  intros Hj [r Hr]. rewrite drop_app_le in Hr by lia.
  exists (drop (length p) (drop j s)).
  rewrite <- (take_drop (length p) (drop j s)) at 1. f_equal.
  rewrite <- (take_app_le (drop j s) t) by (rewrite length_drop; lia).
  rewrite Hr. by rewrite take_app_length.
Qed.

(** An occurrence contains the characters at its positions. *)
Lemma prefix_drop_elem (p s : str) i j c :
  p `prefix_of` drop j s -> s !! i = Some c -> j <= i < j + length p -> c ∈ p.
Proof.
  intros [r Hr] Hc Hij. replace i with (j + (i - j)) in Hc by lia.
  rewrite <- lookup_drop, Hr, lookup_app_l in Hc by lia. by eapply list_elem_of_lookup_2.
Qed.

(** The first occurrence after [a], when [a] followed by a proper part of [p] has none. *)
Lemma find0_after p a b :
  find0 p (a ++ take (length p - 1) p) = None -> find0 p (a ++ p ++ b) = Some (length a).
Proof.
  intros Hn. rewrite find0_None in Hn. apply find0_first. intros j Hj Hp.
  apply (Hn j); [rewrite length_app; lia|].
  rewrite <- (take_drop (length p - 1) p) in Hp at 2. rewrite <- !app_assoc in Hp.
  rewrite (app_assoc a) in Hp. apply prefix_drop_app in Hp; [done|].
  rewrite length_app, length_take. lia.
Qed.

(** ** Substrings *)

Lemma substr_all s pos n :
  (Z.of_nat (length s - pos) <= n)%Z -> substr s pos n = drop pos s.
Proof. intros. unfold substr. by rewrite decide_True. Qed.

Lemma substr_nat s pos (n : nat) : substr s pos (Z.of_nat n) = take n (drop pos s).
Proof.
  unfold substr. case_decide.
  - rewrite take_ge; [done|]. rewrite length_drop. lia.
  - by rewrite Nat2Z.id.
Qed.

Lemma substr_middle a b c : substr (a ++ b ++ c) (length a) (Z.of_nat (length b)) = b.
Proof. by rewrite substr_nat, drop_app_length, take_app_length. Qed.

Lemma size_sub_le a b :
  b <= a -> (Z.of_nat a < 2 ^ 64)%Z -> size_sub a b = Z.of_nat (a - b).
Proof. intros. unfold size_sub, wrap. rewrite Z.mod_small; lia. Qed.

Lemma size_sub_wraps a b :
  a < b -> (Z.of_nat b < 2 ^ 64)%Z ->
  size_sub a b = (2 ^ 64 - Z.of_nat (b - a))%Z.
Proof.
  intros. unfold size_sub, wrap.
  rewrite <- (Z.mod_small (2 ^ 64 - Z.of_nat (b - a)) (2 ^ 64)) by lia.
  replace (2 ^ 64 - Z.of_nat (b - a))%Z
    with (Z.of_nat a - Z.of_nat b + 1 * 2 ^ 64)%Z by lia.
  by rewrite Z_mod_plus_full.
Qed.

(** ** The byte order *)

Lemma code_inj c d : code c = code d -> c = d.
Proof.
  unfold code. intros H. rewrite <- (ascii_nat_embedding c), H. apply ascii_nat_embedding.
Qed.

Lemma code_bound c : code c < 256.
Proof. apply nat_ascii_bounded. Qed.

Lemma code_chr n : n < 256 -> code (chr n) = n.
Proof. apply nat_ascii_embedding. Qed.

#[global] Instance str_lt_dec a b : Decision (str_lt a b).
Proof. unfold str_lt; apply _. Defined.

Lemma str_lt_cons c a d b :
  str_lt (c :: a) (d :: b) <-> code c < code d \/ (c = d /\ str_lt a b).
Proof.
  unfold str_lt; simpl. repeat case_decide; split; try done.
  - by left.
  - intros [?|[-> _]]; lia.
  - intros H1. right; split; [apply code_inj; lia | done].
  - by intros [?|[_ ?]]; [lia|].
Qed.

Lemma str_lt_irrefl a : ~ str_lt a a.
Proof. induction a as [|c a IH]; [done|]. rewrite str_lt_cons.
  intros [?|[_ ?]]; [lia | done].
Qed.

Lemma str_lt_trans a b c : str_lt a b -> str_lt b c -> str_lt a c.
Proof.
  revert b c; induction a as [|x a IH]; intros [|y b] [|z c]; try done.
  rewrite !str_lt_cons. intros [?|[-> ?]] [?|[<- ?]]; eauto with lia.
Qed.

Lemma str_lt_total a b : str_lt a b \/ a = b \/ str_lt b a.
Proof.
  revert b; induction a as [|x a IH]; intros [|y b]; auto; [by left | by right; right|].
  rewrite !str_lt_cons. destruct (lt_eq_lt_dec (code x) (code y)) as [[?|Hxy]|?]; auto.
  apply code_inj in Hxy as ->. destruct (IH b) as [?|[->|?]]; auto.
Qed.

#[global] Instance str_lt_strict : StrictOrder str_lt.
Proof. split; [intros a; apply str_lt_irrefl | intros a b c; apply str_lt_trans]. Qed.

Lemma str_lt_app p a b : str_lt (p ++ a) (p ++ b) <-> str_lt a b.
Proof.
  induction p as [|c p IH]; [done|]. simpl. rewrite str_lt_cons, IH.
  split; [intros [?|[_ ?]]; [lia|done] | auto].
Qed.

Lemma str_lt_prefix_ge p k : p `prefix_of` k -> ~ str_lt k p.
Proof.
  intros [s ->]. rewrite <- (app_nil_r p) at 2. rewrite str_lt_app. by destruct s.
Qed.

(** The strings with prefix [q ++ [c]] are exactly the interval from it up to
    [q] followed by the next byte. *)
Lemma prefix_interval q c k :
  code c < 255 ->
  (q ++ [c]) `prefix_of` k <->
  ~ str_lt k (q ++ [c]) /\ str_lt k (q ++ [chr (S (code c))]).
Proof.
  intros Hc. split.
  - intros Hk. split; [by apply str_lt_prefix_ge|]. destruct Hk as [s ->].
    rewrite <- app_assoc, str_lt_app. simpl. rewrite str_lt_cons, code_chr by lia. lia.
  - revert k; induction q as [|d q IH]; intros k [Hge Hlt]; simpl in *.
    + destruct k as [|x k]; [done|]. rewrite !str_lt_cons, code_chr in * by lia.
      assert (code x = code c) as ->%code_inj.
      { destruct Hlt as [?|[_ ?]]; [|by destruct k].
        destruct (decide (code x < code c)); [naive_solver|]. lia. }
      apply prefix_cons, prefix_nil.
    + destruct k as [|x k]; [by destruct Hge|]. rewrite !str_lt_cons in *.
      destruct Hlt as [?|[-> Hlt]]; [naive_solver|].
      apply prefix_cons, IH. naive_solver.
Qed.

(** ** Decimal numerals *)

Definition is_digit (c : ascii) : Prop := 48 <= code c <= 57.

Lemma code_digit d : (0 <= d < 10)%Z -> code (digit d) = Z.to_nat (48 + d).
Proof. intros. unfold digit. apply code_chr. lia. Qed.

Lemma digit_val_digit d : (0 <= d < 10)%Z -> digit_val (digit d) = Some d.
Proof.
  intros. unfold digit_val. rewrite code_digit by done. rewrite decide_True by lia.
  f_equal. lia.
Qed.

Lemma log2_div10 n : (10 <= n)%Z -> Z.to_nat (Z.log2 (n / 10)) < Z.to_nat (Z.log2 n).
Proof.
  intros. assert (Z.log2 (n / 10) < Z.log2 n)%Z; [|pose proof (Z.log2_nonneg (n / 10)); lia].
  apply Z.log2_lt_pow2; [apply Z.div_str_pos; lia|].
  pose proof (Z.log2_spec n ltac:(lia)) as [_ Hn].
  rewrite Z.pow_succ_r in Hn by apply Z.log2_nonneg.
  apply Z.div_lt_upper_bound; lia.
Qed.

(** More fuel does not change the numeral. *)
Lemma dec_aux_fuel f g n :
  (0 <= n)%Z -> Z.to_nat (Z.log2 n) < f -> Z.to_nat (Z.log2 n) < g ->
  dec_aux f n = dec_aux g n.
Proof.
  revert g n; induction f as [|f IH]; intros [|g] n Hn Hf Hg; try lia. simpl.
  case_decide; [done|]. pose proof (log2_div10 n ltac:(lia)).
  f_equal. apply IH; [apply Z.div_pos; lia|lia|lia].
Qed.

Lemma dec_step n :
  (0 <= n)%Z -> dec n = if decide (n < 10)%Z then [digit n] else dec (n / 10) ++ [digit (n mod 10)].
Proof.
  intros Hn. unfold dec at 1. simpl. case_decide; [done|].
  f_equal. pose proof (log2_div10 n ltac:(lia)). unfold dec.
  apply dec_aux_fuel; [apply Z.div_pos; lia|lia|lia].
Qed.

(** Induction along the digits of a numeral. *)
Lemma dec_ind (P : Z -> Prop) :
  (forall n, (0 <= n < 10)%Z -> P n) ->
  (forall n, (10 <= n)%Z -> P (n / 10)%Z -> P n) ->
  forall n, (0 <= n)%Z -> P n.
Proof.
  intros H0 Hs. apply Zlt_0_ind. intros n IH Hn.
  destruct (decide (n < 10)%Z); [by apply H0|]. apply Hs; [lia|]. apply IH.
  split; [apply Z.div_pos; lia|]. apply Z.div_lt; lia.
Qed.

Lemma dec_digits n : (0 <= n)%Z -> Forall is_digit (dec n).
Proof.
  revert n; apply dec_ind; intros n Hn.
  - rewrite dec_step, decide_True by lia. constructor; [|constructor].
    unfold is_digit. rewrite code_digit by lia. lia.
  - intros IH. rewrite dec_step, decide_False by lia. apply Forall_app; split; [done|].
    pose proof (Z.mod_pos_bound n 10 ltac:(lia)). constructor; [|constructor].
    unfold is_digit. rewrite code_digit by lia. lia.
Qed.

Lemma dec_nonempty n : (0 <= n)%Z -> dec n <> [].
Proof.
  intros. rewrite dec_step by done. case_decide; [done|]. by destruct (dec (n / 10)).
Qed.

(** Digits followed by anything that is not a digit read back as accumulated. *)
Lemma read_digits_dec n acc rest :
  (0 <= n)%Z ->
  read_digits (Some acc) (dec n ++ rest) =
  read_digits (Some (acc * 10 ^ Z.of_nat (length (dec n)) + n)%Z) rest.
Proof.
  intros Hn. revert n Hn acc rest.
  apply (dec_ind (fun n => forall acc rest, _)); intros n Hn.
  - intros acc rest. rewrite dec_step, decide_True by lia. simpl.
    rewrite digit_val_digit by lia. do 2 f_equal. simpl. lia.
  - intros IH acc rest. rewrite dec_step, decide_False by lia.
    rewrite <- app_assoc, IH. simpl.
    pose proof (Z.mod_pos_bound n 10 ltac:(lia)).
    rewrite digit_val_digit by lia. do 2 f_equal. rewrite length_app. simpl.
    rewrite Nat2Z.inj_add, Z.pow_add_r by lia. pose proof (Z.div_mod n 10). lia.
Qed.

Lemma read_digits_dec_None n rest :
  (0 <= n)%Z -> read_digits None (dec n ++ rest) = read_digits (Some n) rest.
Proof.
  intros Hn. transitivity (read_digits (Some 0%Z) (dec n ++ rest)).
  - pose proof (dec_digits n Hn) as Hd. pose proof (dec_nonempty n Hn).
    destruct (dec n) as [|c l]; [done|]. simpl. inversion_clear Hd as [|?? Hc].
    unfold digit_val. by rewrite decide_True.
  - by rewrite read_digits_dec.
Qed.

Lemma digit_not_space c : is_digit c -> is_space c = false.
Proof. unfold is_digit, is_space. intros. apply bool_decide_eq_false. lia. Qed.

(** What follows the digits does not matter. *)
Lemma read_int_dec_app n rest :
  (0 <= n)%Z -> (forall c, head rest = Some c -> digit_val c = None) ->
  read_int (dec n ++ rest) = Some (false, n).
Proof.
  intros Hn Hrest. unfold read_int.
  pose proof (dec_digits n Hn) as Hd. pose proof (dec_nonempty n Hn).
  pose proof (read_digits_dec_None n rest Hn) as Hr.
  destruct (dec n) as [|c l]; [done|]. inversion_clear Hd as [|?? Hc].
  rewrite <- app_comm_cons in *. simpl skip_spaces. rewrite digit_not_space by done.
  unfold is_digit in Hc.
  rewrite !decide_False by (intros ->; revert Hc; rewrite code_chr; lia).
  rewrite Hr. destruct rest as [|x rest]; [done|]. cbn [read_digits]. by rewrite Hrest.
Qed.

Lemma read_int_dec n : (0 <= n)%Z -> read_int (dec n) = Some (false, n).
Proof. intros Hn. rewrite <- (app_nil_r (dec n)). by apply read_int_dec_app. Qed.

Lemma skip_spaces_app sp s : forallb is_space sp = true -> skip_spaces (sp ++ s) = skip_spaces s.
Proof.
  induction sp as [|c sp IH]; [done|]. simpl. intros [Hc Hs]%andb_prop. rewrite Hc. by apply IH.
Qed.

(** A number after white space and before something else. *)
Lemma read_int_dec_spaced sp n rest :
  forallb is_space sp = true -> (0 <= n)%Z -> (forall c, head rest = Some c -> digit_val c = None) ->
  read_int (sp ++ dec n ++ rest) = Some (false, n).
Proof.
  intros Hsp Hn Hr. rewrite <- (read_int_dec_app n rest Hn Hr). unfold read_int.
  by rewrite skip_spaces_app.
Qed.

(** [std::stoul(std::to_string(n)) == n] and the same for [std::stoi]. *)
Lemma stoul_to_string n : (0 <= n < 2 ^ 64)%Z -> stoul (to_string n) = Ok n.
Proof.
  intros. unfold stoul, to_string. rewrite decide_False by lia.
  rewrite read_int_dec by lia. by rewrite decide_True by lia.
Qed.

Lemma stoi_to_string n : (0 <= n < 2 ^ 31)%Z -> stoi (to_string n) = Ok n.
Proof.
  intros. unfold stoi, to_string. rewrite decide_False by lia.
  rewrite read_int_dec by lia. by rewrite decide_True by lia.
Qed.

Lemma dec_inj a b : (0 <= a)%Z -> (0 <= b)%Z -> dec a = dec b -> a = b.
Proof.
  intros Ha Hb H. pose proof (read_int_dec a Ha). pose proof (read_int_dec b Hb).
  congruence.
Qed.

(** Numerals of equal length compare as their values. *)
Lemma dec_lt_mono a b rest1 rest2 :
  (0 <= a)%Z -> (0 <= b)%Z -> length (dec a) = length (dec b) -> (a < b)%Z ->
  str_lt (dec a ++ rest1) (dec b ++ rest2).
Proof.
  intros Ha. revert a Ha b rest1 rest2.
  apply (dec_ind (fun a => forall b r1 r2, (0 <= b)%Z ->
    length (dec a) = length (dec b) -> (a < b)%Z -> str_lt (dec a ++ r1) (dec b ++ r2)));
    intros a Ha.
  - intros b r1 r2 Hb. rewrite (dec_step a), (dec_step b) by lia.
    rewrite decide_True by lia. case_decide.
    + intros _ Hab. simpl. rewrite str_lt_cons, !code_digit by lia. lia.
    + rewrite length_app. pose proof (dec_nonempty (b / 10) ltac:(apply Z.div_pos; lia)).
      destruct (dec (b / 10)); simpl; [done|lia].
  - intros IH b r1 r2 Hb. rewrite (dec_step a), (dec_step b) by lia.
    rewrite decide_False by lia. case_decide.
    { rewrite length_app. pose proof (dec_nonempty (a / 10) ltac:(apply Z.div_pos; lia)).
      destruct (dec (a / 10)); simpl; [done|lia]. }
    rewrite !length_app, <- !app_assoc. simpl. intros Hlen Hab.
    pose proof (Z.div_mod a 10). pose proof (Z.div_mod b 10).
    pose proof (Z.mod_pos_bound a 10 ltac:(lia)). pose proof (Z.mod_pos_bound b 10 ltac:(lia)).
    destruct (decide (a / 10 < b / 10)%Z).
    + apply IH; [apply Z.div_pos; lia|lia|done].
    + assert (a / 10 = b / 10)%Z as -> by (pose proof (Z.div_le_mono a b 10); lia).
      rewrite str_lt_app, str_lt_cons, !code_digit by lia. lia.
Qed.

(** ** Machine integers *)

Lemma wrap_range w z : (0 <= w)%Z -> (0 <= wrap w z < 2 ^ w)%Z.
Proof. intros. unfold wrap. apply Z.mod_pos_bound. lia. Qed.

Lemma wrap_small w z : (0 <= z < 2 ^ w)%Z -> wrap w z = z.
Proof. intros. by apply Z.mod_small. Qed.

Lemma wrap_add_l w a b : (0 <= w)%Z -> wrap w (wrap w a + b) = wrap w (a + b).
Proof. intros. unfold wrap. by rewrite Zplus_mod_idemp_l. Qed.

Lemma wrap_wrap w a : (0 <= w)%Z -> wrap w (wrap w a) = wrap w a.
Proof. intros. unfold wrap. by rewrite Zmod_mod. Qed.

Lemma swrap_small w z :
  (0 < w)%Z -> (- 2 ^ (w - 1) <= z < 2 ^ (w - 1))%Z -> swrap w z = z.
Proof.
  intros Hw Hz. assert (2 ^ w = 2 * 2 ^ (w - 1))%Z as Hpow.
  { rewrite <- Z.pow_succ_r by lia. f_equal; lia. }
  unfold swrap, wrap. destruct (decide (0 <= z)%Z).
  - rewrite Z.mod_small by lia. by rewrite decide_True by lia.
  - rewrite <- (Z_mod_plus_full z 1), Z.mod_small by lia.
    rewrite decide_False by lia. lia.
Qed.

Lemma wrap_swrap w z : (0 <= w)%Z -> wrap w (swrap w z) = wrap w z.
Proof.
  intros. unfold swrap. case_decide; [by apply wrap_wrap|]. unfold wrap at 1.
  rewrite <- (Z.mul_1_l (2 ^ w)) at 1. rewrite <- Z.add_opp_r, <- Z.mul_opp_l, Z_mod_plus_full.
  by apply wrap_wrap.
Qed.

Lemma swrap_wrap w z : (0 <= w)%Z -> swrap w (wrap w z) = swrap w z.
Proof. intros. unfold swrap. by rewrite wrap_wrap. Qed.

(** ** Lists *)

Lemma Forall_weaken {A} (P Q : A -> Prop) (l : list A) :
  (forall x, P x -> Q x) -> Forall P l -> Forall Q l.
Proof. intros H. induction 1; constructor; auto. Qed.

(** Elements with distinct keys stay distinct. *)
Lemma NoDup_omap_key {A B K} (g : A -> option B) (f : A -> K) (h : B -> K) l :
  Forall (fun x => forall y, g x = Some y -> f x = h y) l -> NoDup (f <$> l) -> NoDup (omap g l).
Proof.
  induction 1 as [|x l Hx Hl IH]; simpl; [constructor|]. intros [Hn Hnd]%list.NoDup_cons.
  destruct (g x) as [y|] eqn:Hg; [|by apply IH]. constructor; [|by apply IH].
  intros (z & Hz & Hgz)%list_elem_of_omap. apply Hn. rewrite (Hx _ eq_refl).
  rewrite <- (proj1 (list.Forall_forall _ _) Hl z Hz _ Hgz). apply list_elem_of_fmap. eauto.
Qed.

Lemma omap_omap {A B C} (g : A -> option B) (f : B -> option C) (l : list A) :
  omap f (omap g l) = omap (fun x => match g x with Some y => f y | None => None end) l.
Proof.
  induction l as [|x l IH]; [done|]. cbn. destruct (g x) as [y|]; [|exact IH].
  cbn. destruct (f y); [f_equal|]; exact IH.
Qed.

Lemma pair_fst {A B} (p : A * B) (b : B) : snd p = b -> p = (fst p, b).
Proof. by destruct p; simpl; intros ->. Qed.

(** ** Folds *)

Lemma elem_of_list_insert {A} (l : list A) i x y : x ∈ <[i := y]> l -> x = y \/ x ∈ l.
Proof.
  intros [j Hj]%list_elem_of_lookup_1. apply list_lookup_insert_Some in Hj as [(_ & -> & _)|[_ Hj]]; [by left|].
  right. by eapply list_elem_of_lookup_2.
Qed.

(** Replacing an element of a list changes a sum over it by the difference. *)
Lemma sum_list_with_insert {A} (f : A -> nat) l i x y :
  l !! i = Some x -> sum_list_with f (<[i := y]> l) + f x = sum_list_with f l + f y.
Proof.
  revert i. induction l as [|z l IH]; intros [|i] Hi; simplify_eq/=; [lia|].
  specialize (IH i Hi). lia.
Qed.

(** A run is no longer than a measure that every step decreases. *)
Lemma nsteps_measure {A} (R : A -> A -> Prop) (f : A -> nat) n x y :
  (forall a b, R a b -> f b < f a) -> nsteps R n x y -> n + f y <= f x.
Proof. intros Hf. induction 1 as [|n a b c Hab _ IH]; [lia|]. specialize (Hf _ _ Hab). lia. Qed.

Lemma foldl_ext {A B} (f g : A -> B -> A) (l : list B) (a : A) :
  (forall a b, f a b = g a b) -> foldl f a l = foldl g a l.
Proof. intros H. revert a; induction l as [|b l IH]; intros a; simpl; [done|]. by rewrite H, IH. Qed.

Lemma foldl_map {A B C} (f : A -> C -> A) (g : B -> C) (l : list B) (a : A) :
  foldl f a (g <$> l) = foldl (fun r x => f r (g x)) a l.
Proof. revert a; induction l as [|b l IH]; intros a; simpl; [done|]. by rewrite IH. Qed.

(** ** Automation *)

Create HintDb cdfs.
Create Rewrite HintDb cdfs.
#[export] Hint Rewrite @length_app @length_map @length_replicate @length_drop @length_take : cdfs.

(** Arithmetic on the lengths of concatenations. *)
Ltac solve_length := autorewrite with cdfs; simpl; lia.

(** A decidable goal on concrete data. *)
Ltac by_decide := apply (bool_decide_unpack _); vm_compute; exact I.
