(* ===== verification/Algorithm.v ===== *)
(** [std::sort] of the C++ standard library, as an interface: the order of
    equivalent elements is unspecified, so the sort is a parameter with laws.
    [MergeSort] is a concrete instance. *)

From stdpp Require Import base list sorting numbers.
From Stdlib Require Import ZArith Lia.
From S2P Require Import Prelude.

(** What [std::sort] requires of its comparison. *)
Class StrictWeak {A : Type} (lt : A -> A -> bool) : Prop := {
  lt_asym a b : lt a b = true -> lt b a = false;
  lt_neg_trans a b c : lt a b = false -> lt b c = false -> lt a c = false;
}.

Class StdSort : Type := {
  std_sort : forall {A : Type}, (A -> A -> bool) -> list A -> list A;
  std_sort_perm {A} (lt : A -> A -> bool) l : std_sort lt l ≡ₚ l;
  std_sort_sorted {A} (lt : A -> A -> bool) {W : StrictWeak lt} l :
    StronglySorted (fun a b => lt b a = false) (std_sort lt l);
}.

(** Comparison of a numeric key, descending or ascending. *)
#[global] Instance key_gt_strict {A} (key : A -> nat) :
  StrictWeak (fun a b => bool_decide (key b < key a)).
Proof.
  split; intros *; rewrite ?bool_decide_eq_true, ?bool_decide_eq_false; lia.
Qed.

#[global] Instance Zlt_strict : StrictWeak (fun a b : Z => bool_decide (a < b)%Z).
Proof.
  split; intros *; rewrite ?bool_decide_eq_true, ?bool_decide_eq_false; lia.
Qed.

Lemma StronglySorted_weaken {A} (R R' : A -> A -> Prop) l :
  (forall a b, R a b -> R' a b) -> StronglySorted R l -> StronglySorted R' l.
Proof.
  intros H. induction 1 as [|x l _ IH Hx]; constructor; [done|].
  eapply Forall_weaken; [|exact Hx]. apply H.
Qed.

Lemma std_sort_Z {SS : StdSort} (l : list Z) :
  StronglySorted Z.le (std_sort (fun a b => bool_decide (a < b)%Z) l).
Proof.
  eapply StronglySorted_weaken; [|apply (std_sort_sorted (fun a b => bool_decide (a < b)%Z))].
  intros x y H. rewrite bool_decide_eq_false in H. lia.
Qed.

Lemma seqZ_sorted m n : StronglySorted Z.le (seqZ m n).
Proof.
  unfold seqZ. generalize (Z.to_nat n). intros k. generalize 0 at 1.
  induction k as [|k IH]; intros i; simpl; constructor; [apply IH|].
  apply list.Forall_forall. intros z (j & -> & Hj)%list_elem_of_fmap.
  apply elem_of_seq in Hj. lia.
Qed.

(** Sorting a permutation of consecutive numbers gives them in order. *)
Lemma std_sort_seqZ {SS : StdSort} l m n :
  l ≡ₚ seqZ m n -> std_sort (fun a b => bool_decide (a < b)%Z) l = seqZ m n.
Proof.
  intros Hp. apply (StronglySorted_unique Z.le); [apply std_sort_Z|apply seqZ_sorted|].
  by rewrite std_sort_perm.
Qed.

(** ** A concrete sort *)

Module MergeSort.

Definition le_of {A} (lt : A -> A -> bool) (a b : A) : Prop := lt b a = false.

#[global] Instance le_of_dec {A} (lt : A -> A -> bool) a b : Decision (le_of lt a b).
Proof. unfold le_of; apply _. Defined.

Lemma le_of_total {A} (lt : A -> A -> bool) `{!StrictWeak lt} : Total (le_of lt).
Proof.
  intros a b. unfold le_of. destruct (lt b a) eqn:E; [|by left]. right. by apply lt_asym.
Qed.

Lemma le_of_trans {A} (lt : A -> A -> bool) `{!StrictWeak lt} : Transitive (le_of lt).
Proof. intros a b c Hab Hbc. unfold le_of in *. by eapply lt_neg_trans. Qed.

#[global] Instance merge_std_sort : StdSort.
Proof.
  refine {| std_sort A lt l := merge_sort (le_of lt) l |}.
  - intros. apply merge_sort_Permutation.
  - intros A lt W l. pose proof (le_of_total lt). pose proof (le_of_trans lt).
    apply (StronglySorted_merge_sort (le_of lt)).
Defined.

End MergeSort.
