(* ===== verification/Util.v ===== *)
(** [common/util.h]: hexadecimal digits, the assertion-based URL decoder, verb
    names and the byte-order helpers. *)

From stdpp Require Import base list strings gmap numbers.
From Stdlib Require Import ZArith Ascii Lia.
From S2P Require Import Prelude.

Local Open Scope Z_scope.

(** ** Hexadecimal *)

(** An [unsigned char] is a [Z] below 256. *)
Definition ToHex (x : Z) : Z := u8 (if decide (x > 9) then x + 55 else x + 48).

(** [None] is the failed [assert(0)]. *)
Definition FromHex (x : Z) : option Z :=
  if decide (65 <= x <= 90) then Some (u8 (x - 65 + 10))
  else if decide (97 <= x <= 122) then Some (u8 (x - 97 + 10))
  else if decide (48 <= x <= 57) then Some (u8 (x - 48))
  else None.

Definition uchar (c : ascii) : Z := Z.of_nat (code c).
Definition to_char (z : Z) : ascii := chr (Z.to_nat (u8 z)).

(** [None] is a failed assertion. *)
Fixpoint UrlDecode (s : str) : option str :=
  match s with
  | [] => Some []
  | c :: s' =>
      if decide (c = chr 43) then cons (chr 32) <$> UrlDecode s'
      else if decide (c = chr 37) then
        match s' with
        | h :: l :: s'' =>
            match FromHex (uchar h), FromHex (uchar l) with
            | Some high, Some low => cons (to_char (high * 16 + low)) <$> UrlDecode s''
            | _, _ => None
            end
        | _ => None
        end
      else cons c <$> UrlDecode s'
  end.

(** ** Request methods *)

(** The methods of [boost::beast::http::verb] the program distinguishes. *)
Inductive verb : Type :=
| verb_get | verb_post | verb_put | verb_delete | verb_head
| verb_other (n : nat).

#[global] Instance verb_eq_dec : EqDecision verb.
Proof. solve_decision. Defined.

Definition VerbToString (method : verb) : str :=
  match method with
  | verb_get => lit "GET"
  | verb_post => lit "POST"
  | verb_put => lit "PUT"
  | verb_delete => lit "DELETE"
  | verb_head => lit "HEAD"
  | verb_other _ => lit "UNKNOWN"
  end.

(** ** Byte order *)

(** One round of either loop: [res = (res << 8) | b]. *)
Definition push_byte (res b : Z) : Z := Z.lor (u64 (Z.shiftl res 8)) b.

Definition host_to_net64 (val : Z) : Z :=
  foldl (fun res i => push_byte res (Z.land (Z.shiftr val (i * 8)) 255)) 0 (seqZ 0 8).

Definition net_to_host64 (val : Z) : Z :=
  foldl (fun res i => push_byte res (Z.land (Z.shiftr val ((7 - i) * 8)) 255)) 0 (seqZ 0 8).

(** [htonl] and [ntohl] on a little-endian machine: the four bytes in the opposite
    order. *)
Definition swap32 (val : Z) : Z :=
  Z.lor (Z.lor (Z.shiftl (Z.land val 255) 24) (Z.shiftl (Z.land (Z.shiftr val 8) 255) 16))
        (Z.lor (Z.shiftl (Z.land (Z.shiftr val 16) 255) 8) (Z.land (Z.shiftr val 24) 255)).

Definition host_to_net32 (val : Z) : Z := swap32 val.
Definition net_to_host32 (val : Z) : Z := swap32 val.

Definition time_to_net (val : Z) : Z := host_to_net64 (u64 val).
Definition net_to_time (val : Z) : Z := i64 (net_to_host64 val).

(** ** Specification: a word as its bytes, least significant first *)

Fixpoint to_bytes (n : nat) (v : Z) : list Z :=
  match n with
  | O => []
  | S n' => v mod 256 :: to_bytes n' (v / 256)
  end.

Definition of_bytes (bs : list Z) : Z := foldr (fun b r => b + 256 * r) 0 bs.

Definition is_byte (b : Z) : Prop := 0 <= b < 256.

(** The bytes of a word in the opposite order. *)
Definition byteswap (n : nat) (v : Z) : Z := of_bytes (reverse (to_bytes n v)).
Definition byteswap64 (v : Z) : Z := byteswap 8 v.

(** * Lemmas *)

Lemma to_bytes_bytes n v : Forall is_byte (to_bytes n v).
Proof.
  revert v; induction n as [|n IH]; intros v; simpl; constructor; [|done].
  apply Z.mod_pos_bound; lia.
Qed.

Lemma to_bytes_length n v : length (to_bytes n v) = n.
Proof. revert v; induction n as [|n IH]; intros v; simpl; [done|]. by rewrite IH. Qed.

Lemma of_bytes_range bs : Forall is_byte bs -> 0 <= of_bytes bs < 256 ^ Z.of_nat (length bs).
Proof.
  induction 1 as [|b bs Hb _ IH]; [simpl; lia|]. unfold is_byte in Hb.
  change (length (b :: bs)) with (S (length bs)).
  rewrite Nat2Z.inj_succ, Z.pow_succ_r by lia. simpl. lia.
Qed.

Lemma of_to_bytes n v : 0 <= v < 256 ^ Z.of_nat n -> of_bytes (to_bytes n v) = v.
Proof.
  revert v; induction n as [|n IH]; intros v Hv; [simpl in *; lia|].
  rewrite Nat2Z.inj_succ, Z.pow_succ_r in Hv by lia. simpl. rewrite IH.
  - pose proof (Z.div_mod v 256). lia.
  - split; [apply Z.div_pos; lia|]. apply Z.div_lt_upper_bound; lia.
Qed.

Lemma to_of_bytes bs : Forall is_byte bs -> to_bytes (length bs) (of_bytes bs) = bs.
Proof.
  induction 1 as [|b bs Hb _ IH]; [done|]. unfold is_byte in Hb. simpl.
  rewrite (Z.mul_comm 256), Z_mod_plus_full, Z.div_add, Z.mod_small, Z.div_small by lia.
  by rewrite Z.add_0_l, IH.
Qed.

Lemma of_bytes_app bs cs :
  of_bytes (bs ++ cs) = of_bytes bs + 256 ^ Z.of_nat (length bs) * of_bytes cs.
Proof.
  induction bs as [|b bs IH]; [simpl; lia|].
  change (length (b :: bs)) with (S (length bs)).
  rewrite Nat2Z.inj_succ, Z.pow_succ_r by lia. simpl. rewrite IH. lia.
Qed.

Lemma push_byte_val r b :
  0 <= r < 2 ^ 56 -> is_byte b -> push_byte r b = b + 256 * r.
Proof.
  unfold is_byte. intros Hr Hb. unfold push_byte.
  rewrite Z.shiftl_mul_pow2, wrap_small by lia.
  assert (Z.land (r * 2 ^ 8) b = 0) as Hl.
  { rewrite <- (Z.mod_small b (2 ^ 8)), <- Z.land_ones by lia.
    rewrite (Z.land_comm b), Z.land_assoc, Z.land_ones, Z_mod_mult by lia.
    apply Z.land_0_l. }
  rewrite <- Z.lxor_lor, <- Z.add_nocarry_lxor by done. lia.
Qed.

(** The loop puts the bytes it visits most significant first. *)
Lemma push_bytes acc bs :
  Forall is_byte acc -> Forall is_byte bs -> (length acc + length bs <= 8)%nat ->
  foldl push_byte (of_bytes acc) bs = of_bytes (reverse bs ++ acc).
Proof.
  intros Hacc Hbs. revert acc Hacc. induction Hbs as [|b bs Hb Hbs IH]; intros acc Hacc Hlen.
  { done. }
  rewrite reverse_cons, <- app_assoc. simpl in *.
  rewrite push_byte_val; [| |done].
  - change (b + 256 * of_bytes acc) with (of_bytes (b :: acc)).
    apply IH; [by constructor|simpl; lia].
  - pose proof (of_bytes_range _ Hacc) as Hr. split; [lia|].
    eapply Z.lt_le_trans; [apply Hr|].
    change (2 ^ 56) with (256 ^ Z.of_nat 7). apply Z.pow_le_mono_r; lia.
Qed.

Lemma byte_of_shift v k :
  Z.land (Z.shiftr v (Z.of_nat k * 8)) 255 = v / 256 ^ Z.of_nat k mod 256.
Proof.
  change 255 with (Z.ones 8). rewrite Z.land_ones, Z.shiftr_div_pow2 by lia.
  by rewrite Z.mul_comm, Z.pow_mul_r by lia.
Qed.

Lemma to_bytes_map n v :
  to_bytes n v = (fun k => v / 256 ^ Z.of_nat k mod 256) <$> seq 0 n.
Proof.
  revert v; induction n as [|n IH]; intros v; [done|]. simpl. f_equal.
  - by rewrite Z.div_1_r.
  - rewrite IH, <- fmap_S_seq, <- list_fmap_compose. apply list_fmap_ext.
    intros i k _. simpl. rewrite Nat2Z.inj_succ, Z.pow_succ_r by lia.
    by rewrite Z.div_div by lia.
Qed.

(** Either loop pushes the bytes [g 0], ..., [g 7] in this order. *)
Lemma loop_bytes (g : Z -> Z) bs :
  (g <$> (Z.of_nat <$> seq 0 8)) = bs -> Forall is_byte bs ->
  foldl (fun res i => push_byte res (g i)) 0 (seqZ 0 8) = of_bytes (reverse bs).
Proof.
  intros Hg Hbs. assert (length bs = 8)%nat as Hlen by by rewrite <- Hg.
  pose proof (push_bytes [] bs ltac:(constructor) Hbs ltac:(rewrite Hlen; simpl; lia)) as H.
  rewrite app_nil_r in H. rewrite <- H, <- Hg, foldl_map.
  by change (seqZ 0 8) with (Z.of_nat <$> seq 0 8).
Qed.

Lemma host_to_net64_bytes v : host_to_net64 v = byteswap64 v.
Proof.
  apply (loop_bytes (fun i => Z.land (Z.shiftr v (i * 8)) 255)); [|apply to_bytes_bytes].
  rewrite to_bytes_map, <- list_fmap_compose. apply list_fmap_ext.
  intros i k _. apply byte_of_shift.
Qed.

Lemma net_to_host64_id v : 0 <= v < 2 ^ 64 -> net_to_host64 v = v.
Proof.
  intros Hv. rewrite <- (of_to_bytes 8 v) at 2 by (simpl; lia).
  rewrite <- (reverse_involutive (to_bytes 8 v)).
  apply (loop_bytes (fun i => Z.land (Z.shiftr v ((7 - i) * 8)) 255));
    [|apply Forall_reverse, to_bytes_bytes].
  rewrite to_bytes_map. rewrite <- list_fmap_compose.
  change (reverse ((fun k => v / 256 ^ Z.of_nat k mod 256) <$> seq 0 8))
    with ((fun i => v / 256 ^ Z.of_nat (7 - i) mod 256) <$> seq 0 8).
  apply list_fmap_ext. intros i k [-> Hi]%lookup_seq. simpl in *.
  rewrite <- byte_of_shift. do 2 f_equal. lia.
Qed.

Lemma byteswap_range n v : 0 <= byteswap n v < 256 ^ Z.of_nat n.
Proof.
  unfold byteswap. pose proof (to_bytes_bytes n v) as Hb.
  apply Forall_reverse, of_bytes_range in Hb.
  by rewrite length_reverse, to_bytes_length in Hb.
Qed.

Lemma byteswap64_range v : 0 <= byteswap64 v < 2 ^ 64.
Proof. apply (byteswap_range 8). Qed.

Lemma byteswap_involutive n v : 0 <= v < 256 ^ Z.of_nat n -> byteswap n (byteswap n v) = v.
Proof.
  intros Hv. unfold byteswap.
  rewrite <- (to_bytes_length n v) at 1. rewrite <- length_reverse.
  rewrite to_of_bytes by apply Forall_reverse, to_bytes_bytes.
  rewrite reverse_involutive. by apply of_to_bytes.
Qed.

Lemma byteswap64_involutive v : 0 <= v < 2 ^ 64 -> byteswap64 (byteswap64 v) = v.
Proof. intros Hv. by apply (byteswap_involutive 8). Qed.

(** Shifted into disjoint places, bytes are added. *)
Lemma lor_shiftl a b k : 0 <= k -> 0 <= b < 2 ^ k -> Z.lor (Z.shiftl a k) b = a * 2 ^ k + b.
Proof.
  intros Hk Hb. rewrite Z.shiftl_mul_pow2 by done.
  assert (Z.land (a * 2 ^ k) b = 0) as Hl.
  { rewrite <- (Z.mod_small b (2 ^ k)), <- Z.land_ones by lia.
    rewrite (Z.land_comm b), Z.land_assoc, Z.land_ones, Z_mod_mult by lia.
    apply Z.land_0_l. }
  by rewrite <- Z.lxor_lor, <- Z.add_nocarry_lxor.
Qed.

Lemma swap32_bytes v : swap32 v = byteswap 4 v.
Proof.
  unfold swap32. pose proof (byte_of_shift v 0) as B0. pose proof (byte_of_shift v 1) as B1.
  pose proof (byte_of_shift v 2) as B2. pose proof (byte_of_shift v 3) as B3.
  change (Z.of_nat 0 * 8) with 0 in B0. change (Z.of_nat 1 * 8) with 8 in B1.
  change (Z.of_nat 2 * 8) with 16 in B2. change (Z.of_nat 3 * 8) with 24 in B3.
  rewrite Z.shiftr_0_r in B0. rewrite B0, B1, B2, B3.
  unfold byteswap. rewrite to_bytes_map. cbn [seq fmap list_fmap].
  assert (forall k, 0 <= v / 256 ^ Z.of_nat k mod 256 < 256) as Hm by (intros k; apply Z.mod_pos_bound; lia).
  generalize (Hm 0%nat), (Hm 1%nat), (Hm 2%nat), (Hm 3%nat). clear.
  generalize (v / 256 ^ Z.of_nat 0 mod 256) as b0, (v / 256 ^ Z.of_nat 1 mod 256) as b1,
    (v / 256 ^ Z.of_nat 2 mod 256) as b2, (v / 256 ^ Z.of_nat 3 mod 256) as b3.
  intros b0 b1 b2 b3 H0 H1 H2 H3.
  change (reverse [b0; b1; b2; b3]) with [b3; b2; b1; b0].
  rewrite (lor_shiftl b2 b3 8) by lia.
  rewrite <- Z.lor_assoc, (lor_shiftl b1 (b2 * 2 ^ 8 + b3) 16) by lia.
  rewrite lor_shiftl by lia. unfold of_bytes. simpl. lia.
Qed.

(** * Properties *)

(** [host_to_net64] is the byte swap of a 64-bit word, and applying it twice
    gives the word back. *)
Theorem host_to_net64_swap v :
  0 <= v < 2 ^ 64 ->
  host_to_net64 v = byteswap64 v /\ host_to_net64 (host_to_net64 v) = v.
Proof.
  intros Hv. rewrite !host_to_net64_bytes. split; [done|]. by apply byteswap64_involutive.
Qed.

Lemma host_to_net64_swap_witness :
  0 <= 1680000000 < 2 ^ 64 /\
  host_to_net64 1680000000 = 55206908327362560 /\
  host_to_net64 (host_to_net64 1680000000) = 1680000000.
Proof.
  split; [lia|]. split; [vm_compute; reflexivity|].
  apply (host_to_net64_swap 1680000000); lia.
Defined.

(** The 32-bit helpers undo each other. *)
Theorem net_to_host32_host_to_net32 v :
  0 <= v < 2 ^ 32 -> host_to_net32 v = byteswap 4 v /\ net_to_host32 (host_to_net32 v) = v.
Proof.
  intros Hv. unfold net_to_host32, host_to_net32. rewrite !swap32_bytes. split; [done|].
  by apply (byteswap_involutive 4).
Qed.

(** [net_to_time] does not undo [time_to_net]: [net_to_host64] copies its
    argument, so decoding an encoded time gives the time with its eight bytes
    reversed, and gives the time itself only when the bytes read the same both ways. *)
Theorem net_to_time_time_to_net t :
  - 2 ^ 63 <= t < 2 ^ 63 ->
  net_to_time (time_to_net t) = i64 (byteswap64 (u64 t)) /\
  (net_to_time (time_to_net t) = t <-> byteswap64 (u64 t) = u64 t).
Proof.
  intros Ht. pose proof (byteswap64_range (u64 t)) as Hr.
  assert (net_to_time (time_to_net t) = i64 (byteswap64 (u64 t))) as ->.
  { unfold net_to_time, time_to_net. by rewrite host_to_net64_bytes, net_to_host64_id. }
  split; [done|]. split; intros H.
  - rewrite <- H at 2. rewrite wrap_swrap by lia. symmetry. by apply wrap_small.
  - rewrite H. rewrite swrap_wrap by lia. apply swrap_small; [lia|exact Ht].
Qed.

Lemma net_to_time_time_to_net_witness :
  net_to_time (time_to_net 1680000000) = i64 (byteswap64 (u64 1680000000)) /\
  net_to_time (time_to_net 1680000000) <> 1680000000.
Proof.
  split; [apply (net_to_time_time_to_net 1680000000); lia |].
  intros H. vm_compute in H. discriminate.
Defined.
