(* ===== verification/UrlUtils.v ===== *)
(** [server/UrlUtils.cc]: splitting a request target, percent decoding and
    query parsing, with the splitting and encoding functions they invert. *)

From stdpp Require Import base list strings gmap numbers.
From Stdlib Require Import ZArith Ascii Lia Wf_nat.
From S2P Require Import Prelude Util.

Local Open Scope outcome_scope.

(** ** The source functions *)

(** [UrlUtils::splitTarget]: the out-parameters [path] and [query]. The last
    conditional of the source assigns [""] to an already empty [path]. *)
Definition splitTarget (target : str) : str * str :=
  let target := match find [chr 35] target 0 with
                | Some fragment_pos => substr target 0 (Z.of_nat fragment_pos)
                | None => target
                end in
  match find [chr 63] target 0 with
  | None => (target, [])
  | Some query_pos =>
      (substr target 0 (Z.of_nat query_pos), substr_from target (query_pos + 1))
  end.

Definition isxdigit (c : ascii) : bool :=
  let n := code c in bool_decide (48 <= n <= 57 \/ 65 <= n <= 70 \/ 97 <= n <= 102).

Definition hex_to_val (c : ascii) : nat :=
  let n := code c in
  if decide (48 <= n <= 57) then n - 48
  else if decide (97 <= n <= 102) then 10 + (n - 97)
  else if decide (65 <= n <= 70) then 10 + (n - 65)
  else 0.

(** [UrlUtils::decode]; [Throw] is [UrlParseException]. *)
Fixpoint decode (s : str) : outcome str :=
  match s with
  | [] => Ok []
  | c :: s' =>
      if decide (c = chr 43) then let* r := decode s' in Ok (chr 32 :: r)
      else if decide (c = chr 37) then
        match s' with
        | hex1 :: hex2 :: s'' =>
            if isxdigit hex1 && isxdigit hex2 then
              let* r := decode s'' in
              Ok (chr (hex_to_val hex1 * 16 + hex_to_val hex2) :: r)
            else Throw (lit "Invalid URL encode: " ++ [c; hex1; hex2])
        | _ => Throw (lit "Invalid URL encode: incomplete % sequence (e.g. %2)")
        end
      else let* r := decode s' in Ok (c :: r)
  end.

(** One [pair] of the query: the key is decoded only when there is no [=]. *)
Definition parse_pair (pair : str) : outcome (str * str) :=
  match find [chr 61] pair 0 with
  | None => let* key := decode pair in Ok (key, [])
  | Some pos =>
      let* value := decode (substr_from pair (pos + 1)) in
      Ok (substr pair 0 (Z.of_nat pos), value)
  end.

(** The [while (start < query.size())] loop of [UrlUtils::parseQuery];
    [start = npos] ends it. The result is [None] when the fuel runs out. *)
Fixpoint parseQuery_loop (fuel : nat) (query : str) (start : nat) (params : gmap str str)
  : option (outcome (gmap str str)) :=
  match fuel with
  | O => None
  | S fuel' =>
      if decide (start < length query) then
        let end_ := find [chr 38] query start in
        let pair := match end_ with
                    | None => substr_from query start
                    | Some e => substr query start (size_sub e start)
                    end in
        let next params :=
          match end_ with
          | None => Some (Ok params)
          | Some e => parseQuery_loop fuel' query (e + 1) params
          end in
        if decide (pair = []) then next params
        else match parse_pair pair with
             | Throw e => Some (Throw e)
             | Ok (key, value) => next (<[key := value]> params)
             end
      else Some (Ok params)
  end.

(** [UrlUtils::parseQuery]: a round advances past at least one byte, so
    [length query + 1] rounds are enough ([parseQuery_loop_spec] below). *)
Definition parseQuery (query : str) : outcome (gmap str str) :=
  match query with
  | [] => Ok ∅
  | _ => default (Ok ∅) (parseQuery_loop (S (length query)) query 0 ∅)
  end.

(** ** Specification *)

(** [s] cut at every occurrence of [c]. *)
Fixpoint split_on (c : ascii) (s : str) : list str :=
  match s with
  | [] => [[]]
  | d :: s' =>
      if decide (d = c) then [] :: split_on c s'
      else match split_on c s' with
           | [] => [[d]]
           | p :: ps => (d :: p) :: ps
           end
  end.

(** The value of a hexadecimal digit, of either case. *)
Definition xdigit_value (c : ascii) (v : nat) : Prop :=
  lit "0123456789abcdef" !! v = Some c \/ lit "0123456789ABCDEF" !! v = Some c.

(** What a text stands for: a plus sign for a blank, a percent sign with two
    hexadecimal digits for a byte, any other byte but a percent sign for itself. *)
Inductive decodes : str -> str -> Prop :=
| decodes_nil : decodes [] []
| decodes_plus s r : decodes s r -> decodes (chr 43 :: s) (chr 32 :: r)
| decodes_escape c1 c2 v1 v2 s r :
    xdigit_value c1 v1 -> xdigit_value c2 v2 -> decodes s r ->
    decodes (chr 37 :: c1 :: c2 :: s) (chr (16 * v1 + v2) :: r)
| decodes_char c s r : c <> chr 43 -> c <> chr 37 -> decodes s r -> decodes (c :: s) (c :: r).

(** What a segment of a query stands for. A key before an equals sign is not decoded. *)
Inductive pair_means : str -> str * str -> Prop :=
| pair_value k e v : chr 61 ∉ k -> decodes e v -> pair_means (k ++ chr 61 :: e) (k, v)
| pair_key e k : chr 61 ∉ e -> decodes e k -> pair_means e (k, []).

(** The segments between ampersands, without the empty ones; the last value of a key
    wins. *)
Definition query_means (query : str) (params : gmap str str) : Prop :=
  exists kvs, Forall2 pair_means (filter (fun p => p <> []) (split_on (chr 38) query)) kvs /\
    params = foldl (fun m kv => <[kv.1 := kv.2]> m) ∅ kvs.

(** The rounds of the loop: folding the pairs of a query into a map. *)
Fixpoint add_pairs (pairs : list str) (params : gmap str str) : outcome (gmap str str) :=
  match pairs with
  | [] => Ok params
  | p :: ps =>
      if decide (p = []) then add_pairs ps params
      else let* kv := parse_pair p in add_pairs ps (<[kv.1 := kv.2]> params)
  end.

(** Percent encoding of every byte that is not a letter or a digit. *)
Definition unreserved (c : ascii) : bool :=
  let n := code c in bool_decide (48 <= n <= 57 \/ 65 <= n <= 90 \/ 97 <= n <= 122).

Definition encode_char (c : ascii) : str :=
  if unreserved c then [c]
  else [chr 37; to_char (ToHex (uchar c / 16)); to_char (ToHex (uchar c mod 16))].

Definition url_encode (s : str) : str := mbind encode_char s.

(** [k1=v1&k2=v2...] with encoded values. *)
Definition render_pair (kv : str * str) : str := kv.1 ++ (chr 61 :: url_encode kv.2).

Fixpoint render_query (kvs : list (str * str)) : str :=
  match kvs with
  | [] => []
  | [kv] => render_pair kv
  | kv :: kvs' => render_pair kv ++ (chr 38 :: render_query kvs')
  end.

(** A key a query can carry as it is: not empty at the front, no separator. *)
Definition query_key (k : str) : Prop := (chr 61 ∉ k) /\ (chr 38 ∉ k).

(** * Lemmas *)

Lemma take_find_char c s i :
  find [c] s 0 = Some i -> s = take i s ++ c :: drop (S i) s /\ (c ∉ take i s).
Proof.
  rewrite find_0. revert i; induction s as [|d s IH]; intros i; simpl; [done|].
  case_decide as Hd; simpl.
  - intros [= <-]. subst. by split; [|apply not_elem_of_nil].
  - rewrite fmap_Some. intros (k & [Hs Hn]%IH & ->). simpl. split; [by rewrite <- Hs|].
    by apply not_elem_of_cons.
Qed.

Lemma find_char_None c s : find [c] s 0 = None -> c ∉ s.
Proof.
  rewrite find_0. induction s as [|d s IH]; simpl; intros H; [apply not_elem_of_nil|].
  case_decide as Hd; [done|]. apply fmap_None in H.
  apply not_elem_of_cons. auto.
Qed.

Lemma split_on_nonempty c s : split_on c s <> [].
Proof.
  destruct s as [|d s]; simpl; [done|]. case_decide; [done|]. by destruct (split_on c s).
Qed.

Lemma split_on_fresh c s : c ∉ s -> split_on c s = [s].
Proof.
  induction s as [|d s IH]; intros Hc; [done|]. apply not_elem_of_cons in Hc as [? ?]. simpl.
  rewrite decide_False by done. by rewrite IH.
Qed.

Lemma split_on_app c a b : c ∉ a -> split_on c (a ++ c :: b) = a :: split_on c b.
Proof.
  induction a as [|d a IH]; intros Hc; simpl.
  - by rewrite decide_True.
  - apply not_elem_of_cons in Hc as [? ?]. rewrite decide_False by done. by rewrite IH.
Qed.

Lemma find_char_drop c s pos :
  pos <= length s -> find [c] s pos = Nat.add pos <$> find [c] (drop pos s) 0.
Proof. intros. rewrite find_0. unfold find. by rewrite decide_True. Qed.

(** One round of the loop consumes one segment of the remaining query. *)
Lemma parseQuery_loop_spec fuel query start params :
  (Z.of_nat (length query) < 2 ^ 64)%Z ->
  start <= length query -> length query - start < fuel ->
  parseQuery_loop fuel query start params =
  Some (add_pairs (split_on (chr 38) (drop start query)) params).
Proof.
  intros Hbig. revert start params; induction fuel as [|fuel IH]; intros start params Hs Hf; [lia|].
  simpl. case_decide as Hlt.
  2: { assert (start = length query) as -> by lia. by rewrite drop_all. }
  rewrite find_char_drop by lia.
  destruct (find [chr 38] (drop start query) 0) as [i|] eqn:E; simpl.
  - pose proof (find_bounds _ _ _ _ E) as [_ Hi]. rewrite length_drop in Hi. simpl in Hi.
    apply take_find_char in E as [Hq Hn].
    rewrite size_sub_le, substr_nat by lia.
    replace (start + i - start) with i by lia.
    assert (split_on (chr 38) (drop start query) =
      take i (drop start query) :: split_on (chr 38) (drop (start + i + 1) query)) as ->.
    { rewrite Hq at 1. rewrite split_on_app by done. rewrite drop_drop. do 3 f_equal. lia. }
    simpl.
    case_decide as Hp; [apply IH; lia|].
    destruct (parse_pair _) as [[k v]|e]; simpl; [apply IH; lia|done].
  - apply find_char_None in E. rewrite split_on_fresh by done. simpl. unfold substr_from.
    case_decide; [done|]. by destruct (parse_pair _) as [[k v]|e].
Qed.

Lemma parseQuery_add_pairs query :
  (Z.of_nat (length query) < 2 ^ 64)%Z ->
  parseQuery query = add_pairs (split_on (chr 38) query) ∅.
Proof.
  intros Hq. unfold parseQuery. destruct query as [|c q]; [done|].
  rewrite parseQuery_loop_spec by (simpl in *; lia). done.
Qed.

Lemma xdigit_value_spec c v : xdigit_value c v <-> isxdigit c = true /\ hex_to_val c = v.
Proof.
  split.
  - unfold xdigit_value. do 16 (destruct v as [|v]; [by intros [[= <-]|[= <-]]|]). by intros [H|H].
  - intros [Hx <-]. revert Hx. unfold xdigit_value.
    destruct c as [[] [] [] [] [] [] [] []]; vm_compute; (discriminate || (intros _; auto)).
Qed.

Lemma decode_decodes s r : decode s = Ok r <-> decodes s r.
Proof.
  split.
  - revert r. induction s as [s IH] using (induction_ltof1 _ (@length ascii)); intros r.
    unfold ltof in IH. destruct s as [|c s]; [intros [= <-]; constructor|]. simpl.
    case_decide as H1; [subst c|case_decide as H2; [subst c|]].
    + destruct (decode s) as [r'|] eqn:E; [|done]. intros [= <-]. constructor. by apply IH; [simpl; lia|].
    + destruct s as [|c1 [|c2 s]]; [done..|]. destruct (isxdigit c1 && isxdigit c2) eqn:Hx; [|done].
      apply andb_true_iff in Hx as [Hx1 Hx2].
      destruct (decode s) as [r'|] eqn:E; [|done]. intros [= <-]. rewrite Nat.mul_comm.
      constructor; [by apply xdigit_value_spec..|]. by apply IH; [simpl; lia|].
    + destruct (decode s) as [r'|] eqn:E; [|done]. intros [= <-]. constructor; [done..|].
      by apply IH; [simpl; lia|].
  - induction 1 as [|s r _ IH|c1 c2 v1 v2 s r H1 H2 _ IH|c s r H1 H2 _ IH].
    + done.
    + simpl. by rewrite IH.
    + apply xdigit_value_spec in H1 as [Hx1 <-], H2 as [Hx2 <-].
      change (decode (chr 37 :: c1 :: c2 :: s)) with
        (if isxdigit c1 && isxdigit c2 then
           let* r := decode s in Ok (chr (hex_to_val c1 * 16 + hex_to_val c2) :: r)
         else Throw (lit "Invalid URL encode: " ++ [chr 37; c1; c2])).
      rewrite Hx1, Hx2, IH. cbn [andb outcome_bind]. by rewrite Nat.mul_comm.
    + simpl. rewrite !decide_False, IH by done. done.
Qed.

Lemma parse_pair_means p kv : parse_pair p = Ok kv <-> pair_means p kv.
Proof.
  split.
  - unfold parse_pair. destruct (find [chr 61] p 0) as [i|] eqn:E.
    + apply take_find_char in E as [Hp Hn]. unfold substr_from.
      destruct (decode (drop (i + 1) p)) as [v|] eqn:Hd; [|done]. intros [= <-].
      rewrite substr_nat, drop_0. rewrite Hp at 1. apply pair_value; [done|]. apply decode_decodes.
      by rewrite Nat.add_1_r in Hd.
    + apply find_char_None in E. destruct (decode p) as [k|] eqn:Hd; [|done]. intros [= <-].
      by apply pair_key, decode_decodes.
  - intros [k e v Hk Hd%decode_decodes|e k Hk Hd%decode_decodes]; unfold parse_pair.
    + rewrite find_char by done. unfold substr_from. rewrite <- drop_drop, drop_app_length. simpl.
      rewrite drop_0, Hd. simpl. by rewrite substr_nat, drop_0, take_app_length.
    + rewrite find_0, (find0_char_fresh _ _ Hk). simpl. by rewrite Hd.
Qed.

Lemma add_pairs_means ps params m :
  add_pairs ps params = Ok m <->
  exists kvs, Forall2 pair_means (filter (fun p => p <> []) ps) kvs /\
    m = foldl (fun m kv => <[kv.1 := kv.2]> m) params kvs.
Proof.
  revert params. induction ps as [|p ps IH]; intros params; cbn [add_pairs].
  { split; [intros [= <-]; by exists []|]. intros (kvs & H & ->). by apply Forall2_nil_inv_l in H as ->. }
  rewrite filter_cons. case_decide as Hp.
  { rewrite decide_False by (intros H; by apply H). apply IH. }
  rewrite decide_True by done. destruct (parse_pair p) as [kv|e] eqn:E; simpl.
  - rewrite IH. split.
    + intros (kvs & H & ->). exists (kv :: kvs). split; [|done]. constructor; [by apply parse_pair_means|done].
    + intros (kvs & H & ->). apply Forall2_cons_inv_l in H as (kv' & kvs' & Hkv & H & ->).
      apply parse_pair_means in Hkv. rewrite E in Hkv. injection Hkv as ->. by exists kvs'.
  - split; [done|]. intros (kvs & H & _). apply Forall2_cons_inv_l in H as (kv' & kvs' & Hkv & _).
    apply parse_pair_means in Hkv. congruence.
Qed.

(** C30: [parseQuery] computes what a query stands for, on every query that fits in
    memory: it is cut at each ampersand and empty segments are skipped; a segment with
    an equals sign is cut at the first one, its key taken as it stands and its value
    decoded; a segment without one is a key, which is decoded, with an empty value; the
    last value of a key wins. Decoding reads a plus sign as a blank and a percent sign
    with two hexadecimal digits, of either case, as a byte. The function throws exactly
    when the query stands for nothing, that is when a percent sign in a value or in a
    key without a value is not followed by two digits. The loop ends within its fuel. *)
Theorem parseQuery_spec query params :
  (Z.of_nat (length query) < 2 ^ 64)%Z ->
  parseQuery query = Ok params <-> query_means query params.
Proof. intros Hq. rewrite (parseQuery_add_pairs _ Hq). apply add_pairs_means. Qed.

(** A key before an equals sign is not decoded. *)
Lemma parseQuery_spec_witness :
  query_means (lit "a=1&&a=9%20x&b&%zz=1")
    (<[lit "%zz" := lit "1"]> (<[lit "b" := []]> (<[lit "a" := lit "9 x"]> ∅))).
Proof.
  apply (parseQuery_spec (lit "a=1&&a=9%20x&b&%zz=1")); [simpl; lia | vm_compute; reflexivity].
Defined.

Lemma decode_encode_char c s :
  decode (encode_char c ++ s) = let* r := decode s in Ok (c :: r).
Proof. destruct c as [[] [] [] [] [] [] [] []]; reflexivity. Qed.

Lemma encode_char_safe c d : d ∈ encode_char c -> d <> chr 38 /\ d <> chr 61.
Proof.
  intros Hd. apply list_elem_of_In in Hd. revert Hd.
  destruct c as [[] [] [] [] [] [] [] []]; vm_compute; intuition (subst; discriminate).
Qed.

Lemma url_encode_cons c s : url_encode (c :: s) = encode_char c ++ url_encode s.
Proof. done. Qed.

Lemma decode_url_encode s : decode (url_encode s) = Ok s.
Proof.
  induction s as [|c s IH]; [done|].
  by rewrite url_encode_cons, decode_encode_char, IH.
Qed.

Lemma url_encode_safe s : (chr 38 ∉ url_encode s) /\ (chr 61 ∉ url_encode s).
Proof.
  unfold url_encode. split; intros (c & Hc & _)%list_elem_of_bind; by apply encode_char_safe in Hc as [].
Qed.

Lemma parse_pair_render kv : query_key kv.1 -> parse_pair (render_pair kv) = Ok kv.
Proof.
  destruct kv as [k v]. intros [Hk _]. unfold parse_pair, render_pair. simpl in *.
  rewrite find_0, find0_char by done.
  unfold substr_from. rewrite <- drop_drop, drop_app_length. simpl.
  rewrite drop_0, decode_url_encode. simpl. by rewrite substr_nat, drop_0, take_app_length.
Qed.

Lemma render_pair_safe kv : query_key kv.1 -> (chr 38 ∉ render_pair kv) /\ render_pair kv <> [].
Proof.
  intros [_ Hk]. unfold render_pair. split.
  - rewrite elem_of_app, elem_of_cons. pose proof (url_encode_safe kv.2) as [? _].
    intros [?|[?|?]]; done.
  - by destruct kv.1.
Qed.

Lemma split_render_query kvs :
  kvs <> [] -> Forall (fun kv => query_key kv.1) kvs ->
  split_on (chr 38) (render_query kvs) = render_pair <$> kvs.
Proof.
  induction kvs as [|kv kvs IH]; [done|]. intros _ Hk. inversion_clear Hk as [|?? Hkv Hkvs].
  destruct (render_pair_safe kv Hkv) as [Hs _]. destruct kvs as [|kv' kvs].
  - simpl. by apply split_on_fresh.
  - change (render_query (kv :: kv' :: kvs))
      with (render_pair kv ++ chr 38 :: render_query (kv' :: kvs)).
    rewrite split_on_app by done. by rewrite IH.
Qed.

Lemma add_pairs_render kvs params :
  Forall (fun kv => query_key kv.1) kvs ->
  add_pairs (render_pair <$> kvs) params =
  Ok (foldl (fun m kv => <[kv.1 := kv.2]> m) params kvs).
Proof.
  intros Hk. revert params; induction Hk as [|kv kvs Hkv _ IH]; intros params; [done|]. simpl.
  rewrite decide_False by by apply render_pair_safe. rewrite parse_pair_render by done.
  apply IH.
Qed.

(** Round trip: a query rendered from key-value pairs with percent-encoded
    values parses back to exactly those values, whatever bytes the values hold,
    the last value of a repeated key winning. *)
Theorem parseQuery_render kvs :
  Forall (fun kv => query_key kv.1) kvs ->
  (Z.of_nat (length (render_query kvs)) < 2 ^ 64)%Z ->
  parseQuery (render_query kvs) = Ok (foldl (fun m kv => <[kv.1 := kv.2]> m) ∅ kvs).
Proof.
  intros Hk Hlen. destruct kvs as [|kv kvs]; [done|]. unfold parseQuery.
  destruct (render_query (kv :: kvs)) as [|c q] eqn:E.
  { exfalso. revert E. inversion_clear Hk as [|?? Hkv _].
    destruct (render_pair_safe kv Hkv) as [_ Hn].
    destruct kvs; simpl; [done|]. by destruct (render_pair kv). }
  rewrite parseQuery_loop_spec by (simpl in *; lia). rewrite drop_0, <- E.
  by rewrite split_render_query, add_pairs_render.
Qed.

Lemma parseQuery_render_witness :
  parseQuery (render_query [(lit "k", lit "a&b=c %"); (lit "k", lit "z")]) =
  Ok (<[lit "k" := lit "z"]> (<[lit "k" := lit "a&b=c %"]> ∅)).
Proof.
  rewrite parseQuery_render; [done| |simpl; lia].
  repeat constructor; by_decide.
Defined.

(** The target of a request without the parts that [splitTarget] cuts off. *)
Definition target_of (path query fragment : str) : str :=
  path ++ (chr 63 :: query) ++ (chr 35 :: fragment).

(** [splitTarget] takes a target of the form path?query#fragment apart: the
    path runs to the first question mark, the query from there to the first hash
    sign, and the fragment is dropped. *)
Theorem splitTarget_parts path query fragment :
  (chr 63 ∉ path) -> (chr 35 ∉ path) -> (chr 35 ∉ query) ->
  splitTarget (target_of path query fragment) = (path, query).
Proof.
  intros Hp Hp' Hq. unfold splitTarget, target_of.
  rewrite app_assoc, find_char.
  2: { rewrite elem_of_app, elem_of_cons. by intros [?|[?|?]]. }
  rewrite substr_nat, drop_0, take_app_length, find_char by done.
  rewrite substr_nat, drop_0, take_app_length. unfold substr_from.
  by rewrite <- drop_drop, drop_app_length.
Qed.

Lemma splitTarget_parts_witness :
  splitTarget (lit "/api/user?name=x&age=18#info") = (lit "/api/user", lit "name=x&age=18").
Proof.
  apply (splitTarget_parts (lit "/api/user") (lit "name=x&age=18") (lit "info")); by_decide.
Defined.

Lemma FromHex_xdigit c : isxdigit c = true -> FromHex (uchar c) = Some (Z.of_nat (hex_to_val c)).
Proof. destruct c as [[] [] [] [] [] [] [] []]; vm_compute; congruence. Qed.

Lemma hex_to_val_bound c : hex_to_val c < 16.
Proof. unfold hex_to_val. repeat case_decide; lia. Qed.

(** Whenever [UrlUtils::decode] succeeds, the assertion-based [UrlDecode] of
    [util.h] returns the same string: no assertion fails. *)
Theorem decode_UrlDecode s r : decode s = Ok r -> UrlDecode s = Some r.
Proof.
  revert r; induction s as [s IH] using (induction_ltof1 _ (@length ascii)); intros r.
  unfold ltof in IH. destruct s as [|c s]; [by intros [= <-]|]. simpl.
  assert (forall t k, length t < length (c :: s) -> (let* r := decode t in Ok (k :: r)) = Ok r ->
    cons k <$> UrlDecode t = Some r) as Hrec.
  { intros t k Ht. destruct (decode t) as [r'|] eqn:E; [|done].
    intros [= <-]. by rewrite (IH t Ht r' E). }
  case_decide; [apply Hrec; simpl; lia|]. case_decide; [|apply Hrec; simpl; lia].
  destruct s as [|h [|l s]]; [done|done|].
  destruct (isxdigit h) eqn:Eh; [|done]. destruct (isxdigit l) eqn:El; [|done].
  rewrite (FromHex_xdigit h), (FromHex_xdigit l) by done. simpl andb.
  intros Hd. unfold to_char, wrap.
  pose proof (hex_to_val_bound h). pose proof (hex_to_val_bound l).
  rewrite Z.mod_small by (simpl; lia).
  replace (Z.to_nat (Z.of_nat (hex_to_val h) * 16 + Z.of_nat (hex_to_val l)))
    with (hex_to_val h * 16 + hex_to_val l) by lia.
  apply Hrec; [simpl; lia|done].
Qed.

Lemma decode_UrlDecode_witness : UrlDecode (lit "%2Fpath+test%41") = Some (lit "/path testA").
Proof. apply decode_UrlDecode. vm_compute. reflexivity. Defined.
