(* ===== verification/Double.v ===== *)
(** The C++ [double]: IEEE 754 binary64 with round-to-nearest-even, by the
    standard library's executable specification. *)

From stdpp Require Import base list numbers.
From Stdlib Require Import ZArith SpecFloat Lia.
From S2P Require Import Prelude.

Definition double : Type := spec_float.

#[global] Instance double_eq_dec : EqDecision double.
Proof. solve_decision. Defined.

(** The conversion of an integer, and the operators. *)
Definition double_of (z : Z) : double := binary_normalize 53 1024 z 0 false.
Definition dmul (x y : double) : double := SFmul 53 1024 x y.
Definition ddiv (x y : double) : double := SFdiv 53 1024 x y.

(** [static_cast] to an integer type: towards zero. Outside of the type's range the
    source's behaviour is undefined. *)
Definition truncate (x : double) : Z :=
  match x with
  | S754_finite s m e =>
      let a := Z.shiftl (Z.pos m) e in if s then (- a)%Z else a
  | _ => 0%Z
  end.

(** A number, neither infinite nor NaN, in the format. *)
Definition finite (x : double) : bool :=
  match x with
  | S754_zero _ => true
  | S754_finite _ _ _ => valid_binary 53 1024 x
  | _ => false
  end.
