(* ===== verification/Json.v ===== *)
(** JSON values and the interface of the JSON library (nlohmann/json).

    The library itself is not part of the repository: [JsonLib] declares the two
    entry points the code calls ([json::dump] and [json::parse]) and [JsonLaws]
    the documented behaviour the code relies on. [TaggedJson] is a concrete
    instance that satisfies the laws. *)

From stdpp Require Import base list strings gmap numbers countable.
From Stdlib Require Import ZArith SpecFloat Ascii Lia.
From S2P Require Import Prelude Double.

(** ** Values *)

(** [nlohmann::json]. An object is a [std::map], so its members are kept in
    increasing order of their keys. *)
#[warnings="-register-all"]
Inductive json : Type :=
| JNull
| JBool (b : bool)
| JInt (z : Z)
| JFloat (x : double)
| JStr (s : str)
| JArr (l : list json)
| JObj (m : list (str * json)).

(** [std::map::insert_or_assign] on the members of an object. *)
Fixpoint obj_insert (k : str) (v : json) (m : list (str * json)) : list (str * json) :=
  match m with
  | [] => [(k, v)]
  | (k', v') :: m' =>
      if decide (k = k') then (k, v) :: m'
      else if decide (str_lt k k') then (k, v) :: m
      else (k', v') :: obj_insert k v m'
  end.

(** An object built from an initializer list. *)
Definition mk_obj (l : list (str * json)) : json :=
  JObj (foldr (fun kv => obj_insert kv.1 kv.2) [] l).

Fixpoint members_get (k : str) (m : list (str * json)) : option json :=
  match m with
  | [] => None
  | (k', v) :: m' => if decide (k = k') then Some v else members_get k m'
  end.

(** [j.at(k)] on an object; [None] is the exception. *)
Definition obj_get (k : str) (j : json) : option json :=
  match j with JObj m => members_get k m | _ => None end.

(** ** Well-formedness *)

Fixpoint keys_sorted (ks : list str) : bool :=
  match ks with
  | [] => true
  | k :: ks' =>
      match ks' with
      | [] => true
      | k' :: _ => bool_decide (str_lt k k') && keys_sorted ks'
      end
  end.

(** Integers fit in [int64_t] or [uint64_t], floating-point numbers are finite (the
    others are written as null), members are in key order. *)
Fixpoint json_wf (j : json) : bool :=
  match j with
  | JInt z => bool_decide (- 2 ^ 63 <= z < 2 ^ 64)%Z
  | JFloat x => finite x
  | JArr l => forallb json_wf l
  | JObj m => keys_sorted m.*1 && forallb (fun kv => json_wf kv.2) m
  | _ => true
  end.

(** A continuation byte, and one restricted to a range. *)
Definition in_range (lo hi : nat) (c : ascii) : bool :=
  bool_decide (lo <= code c <= hi).

(** Well-formed UTF-8 (RFC 3629). *)
Fixpoint utf8 (s : str) : bool :=
  match s with
  | [] => true
  | c :: s1 =>
      if in_range 0 127 c then utf8 s1
      else match s1 with
      | [] => false
      | c1 :: s2 =>
          if in_range 194 223 c then in_range 128 191 c1 && utf8 s2
          else match s2 with
          | [] => false
          | c2 :: s3 =>
              if in_range 224 239 c then
                let lo := if decide (code c = 224) then 160 else 128 in
                let hi := if decide (code c = 237) then 159 else 191 in
                in_range lo hi c1 && in_range 128 191 c2 && utf8 s3
              else match s3 with
              | [] => false
              | c3 :: s4 =>
                  if in_range 240 244 c then
                    let lo := if decide (code c = 240) then 144 else 128 in
                    let hi := if decide (code c = 244) then 143 else 191 in
                    in_range lo hi c1 && in_range 128 191 c2 && in_range 128 191 c3 && utf8 s4
                  else false
              end
          end
      end
  end.

Fixpoint json_utf8 (j : json) : bool :=
  match j with
  | JStr s => utf8 s
  | JArr l => forallb json_utf8 l
  | JObj m => forallb (fun kv => utf8 kv.1 && json_utf8 kv.2) m
  | _ => true
  end.

(** ** The library *)

Class JsonLib : Type := {
  dump : json -> outcome str;
  parse : str -> outcome json;
}.

(** Documented behaviour: [dump] throws exactly on strings that are not UTF-8, with
    a message that is; [parse] reads back what [dump] wrote and accepts only UTF-8;
    the empty input is a parse error, and the text of an object with members has a
    colon. *)
Class JsonLaws (J : JsonLib) : Prop := {
  parse_dump j s : json_wf j = true -> dump j = Ok s -> parse s = Ok j;
  dump_utf8 j : json_utf8 j = true -> exists s, dump j = Ok s;
  dump_not_utf8 j : json_utf8 j = false -> exists e, dump j = Throw e /\ utf8 e = true;
  parse_utf8 s j : parse s = Ok j -> json_utf8 j = true;
  parse_empty : exists e, parse [] = Throw e;
  parse_colon s kv m : parse s = Ok (JObj (kv :: m)) -> chr 58 ∈ s;
}.

(** * Lemmas *)

Lemma members_get_insert k k' v m :
  members_get k (obj_insert k' v m) = if decide (k = k') then Some v else members_get k m.
Proof.
  induction m as [|[k0 v0] m IH]; simpl; [by case_decide|].
  repeat (case_decide; simplify_eq/=; try done).
Qed.


Fixpoint assoc (k : str) (l : list (str * json)) : option json :=
  match l with
  | [] => None
  | (k', v) :: l' => if decide (k = k') then Some v else assoc k l'
  end.

(** Looking a member up in an object built from a list. *)
Lemma obj_get_mk_obj k l : obj_get k (mk_obj l) = assoc k l.
Proof.
  unfold mk_obj; simpl. induction l as [|[k' v] l IH]; simpl; [done|].
  rewrite members_get_insert. by rewrite IH.
Qed.

Lemma keys_sorted_cons k ks :
  keys_sorted (k :: ks) = true <-> keys_sorted ks = true /\ Forall (str_lt k) ks.
Proof.
  revert k; induction ks as [|k' ks IH]; intros k.
  { simpl; split; [by repeat constructor|done]. }
  change (keys_sorted (k :: k' :: ks)) with (bool_decide (str_lt k k') && keys_sorted (k' :: ks)).
  rewrite andb_true_iff, bool_decide_eq_true, Forall_cons_iff. split.
  - intros [Hk Hs]. repeat split; [done..|].
    apply IH in Hs as [_ Hs]. eapply Forall_weaken; [|exact Hs]. intros x; by apply str_lt_trans.
  - intros (? & ? & ?). done.
Qed.

Lemma obj_insert_keys k v m x : x ∈ (obj_insert k v m).*1 -> x = k \/ x ∈ m.*1.
Proof.
  induction m as [|[k' v'] m IH]; simpl.
  - rewrite list_elem_of_singleton. auto.
  - repeat case_decide; simpl; rewrite ?elem_of_cons; [tauto..|].
    intros [?|?%IH]; tauto.
Qed.

Lemma obj_insert_sorted k v m :
  keys_sorted m.*1 = true -> keys_sorted (obj_insert k v m).*1 = true.
Proof.
  induction m as [|[k' v'] m IH]; [done|]. intros Hs. simpl.
  change ((k', v') :: m).*1 with (k' :: m.*1) in Hs.
  pose proof Hs as [Hm Hk]%keys_sorted_cons.
  case_decide as H1; [by subst|]. case_decide as H2.
  - apply keys_sorted_cons; split; [done|]. simpl. constructor; [done|].
    eapply Forall_weaken; [|exact Hk]. intros x; by apply str_lt_trans.
  - change (keys_sorted (k' :: (obj_insert k v m).*1) = true).
    apply keys_sorted_cons; split; [by apply IH|]. apply list.Forall_forall.
    intros x [->|Hx]%obj_insert_keys.
    + destruct (str_lt_total k k') as [?|[?|?]]; done.
    + by eapply list.Forall_forall in Hk.
Qed.

Lemma obj_insert_forall (P : str * json -> Prop) k v m :
  P (k, v) -> Forall P m -> Forall P (obj_insert k v m).
Proof.
  intros Hkv. induction 1 as [|[k' v'] m Hp Hm IH]; simpl; [by constructor|].
  repeat case_decide; by repeat constructor.
Qed.

Lemma forallb_Forall {A} (f : A -> bool) l : forallb f l = true <-> Forall (fun x => f x = true) l.
Proof.
  induction l as [|x l IH]; simpl; [by split|]. rewrite andb_true_iff, IH, Forall_cons_iff. done.
Qed.

(** An object built from a list is well formed when its values are. *)
Lemma json_wf_mk_obj l :
  Forall (fun kv => json_wf kv.2 = true) l -> json_wf (mk_obj l) = true.
Proof.
  intros Hl. unfold mk_obj; simpl. apply andb_true_iff; split.
  - clear Hl. induction l as [|[k v] l IH]; [done|]. simpl. by apply obj_insert_sorted.
  - apply forallb_Forall. induction Hl as [|[k v] l Hv Hl IH]; [constructor|].
    simpl. by apply obj_insert_forall.
Qed.

Lemma json_utf8_mk_obj l :
  Forall (fun kv => utf8 kv.1 = true /\ json_utf8 kv.2 = true) l -> json_utf8 (mk_obj l) = true.
Proof.
  intros Hl. unfold mk_obj; simpl. apply forallb_Forall.
  induction Hl as [|[k v] l [Hk Hv] Hl IH]; [constructor|].
  simpl. apply obj_insert_forall; [|done]. simpl in *. by rewrite Hk, Hv.
Qed.

Lemma obj_get_utf8 k j v : json_utf8 j = true -> obj_get k j = Some v -> json_utf8 v = true.
Proof.
  destruct j as [| | | | | |m]; try done. simpl. rewrite forallb_Forall.
  induction 1 as [|[k' v'] m Hp Hm IH]; simpl; [done|].
  case_decide; [|by apply IH]. intros [= <-]. simpl in Hp. by apply andb_true_iff in Hp as [].
Qed.

(** Induction on a value with hypotheses for its elements and members. *)
Section JsonInd.
Variable P : json -> Prop.
Hypothesis HNull : P JNull.
Hypothesis HBool : forall b, P (JBool b).
Hypothesis HInt : forall z, P (JInt z).
Hypothesis HFloat : forall x, P (JFloat x).
Hypothesis HStr : forall s, P (JStr s).
Hypothesis HArr : forall l, Forall P l -> P (JArr l).
Hypothesis HObj : forall m, Forall (fun kv => P kv.2) m -> P (JObj m).

Fixpoint json_nested_ind (j : json) : P j :=
  match j with
  | JNull => HNull
  | JBool b => HBool b
  | JInt z => HInt z
  | JFloat x => HFloat x
  | JStr s => HStr s
  | JArr l =>
      HArr l ((fix go (l : list json) : Forall P l :=
        match l with
        | [] => List.Forall_nil _
        | j :: l' => List.Forall_cons _ _ _ (json_nested_ind j) (go l')
        end) l)
  | JObj m =>
      HObj m ((fix go (m : list (str * json)) : Forall (fun kv => P kv.2) m :=
        match m with
        | [] => List.Forall_nil _
        | kv :: m' => List.Forall_cons _ _ _ (json_nested_ind kv.2) (go m')
        end) m)
  end.
End JsonInd.

(** ** A concrete library *)

(** Values as trees, trees as numbers, numbers as binary strings: every UTF-8
    value has a text, and texts read back. *)
Module TaggedJson.

Definition float_tree (x : double) : list (gen_tree (bool + Z + str)) :=
  match x with
  | S754_zero s => [GenLeaf (inl (inl s))]
  | S754_infinity s => [GenLeaf (inl (inl s)); GenNode 0 []]
  | S754_nan => []
  | S754_finite s m e =>
      [GenLeaf (inl (inl s)); GenLeaf (inl (inr (Z.pos m))); GenLeaf (inl (inr e))]
  end.

Definition tree_float (l : list (gen_tree (bool + Z + str))) : double :=
  match l with
  | [GenLeaf (inl (inl s))] => S754_zero s
  | [GenLeaf (inl (inl s)); GenNode _ _] => S754_infinity s
  | [GenLeaf (inl (inl s)); GenLeaf (inl (inr m)); GenLeaf (inl (inr e))] =>
      S754_finite s (Z.to_pos m) e
  | _ => S754_nan
  end.

Lemma tree_float_tree x : tree_float (float_tree x) = x.
Proof. by destruct x. Qed.

Fixpoint to_tree (j : json) : gen_tree (bool + Z + str) :=
  match j with
  | JNull => GenNode 0 []
  | JBool b => GenLeaf (inl (inl b))
  | JInt z => GenLeaf (inl (inr z))
  | JFloat x => GenNode 4 (float_tree x)
  | JStr s => GenLeaf (inr s)
  | JArr l => GenNode 1 (to_tree <$> l)
  | JObj m => GenNode 2 ((fun kv => GenNode 3 [GenLeaf (inr kv.1); to_tree kv.2]) <$> m)
  end.

Fixpoint of_tree (t : gen_tree (bool + Z + str)) : json :=
  match t with
  | GenLeaf (inl (inl b)) => JBool b
  | GenLeaf (inl (inr z)) => JInt z
  | GenLeaf (inr s) => JStr s
  | GenNode 1 l => JArr (of_tree <$> l)
  | GenNode 2 l =>
      JObj ((fun t => match t with
                      | GenNode _ [GenLeaf (inr k); t'] => (k, of_tree t')
                      | _ => ([], JNull)
                      end) <$> l)
  | GenNode 4 l => JFloat (tree_float l)
  | GenNode _ _ => JNull
  end.

Lemma of_to_tree j : of_tree (to_tree j) = j.
Proof.
  induction j as [| | |x| |l IH|m IH] using json_nested_ind; simpl; try done.
  - by rewrite tree_float_tree.
  - f_equal. rewrite <- list_fmap_compose. rewrite <- (list_fmap_id l) at 2.
    apply list_fmap_ext. intros i j Hj. by apply (Forall_lookup_1 _ _ _ _ IH Hj).
  - f_equal. rewrite <- list_fmap_compose. rewrite <- (list_fmap_id m) at 2.
    apply list_fmap_ext. intros i [k j] Hj. simpl. f_equal.
    by apply (Forall_lookup_1 _ _ _ _ IH Hj).
Qed.

Fixpoint pos_text (p : positive) : str :=
  match p with
  | xH => [chr 46]
  | xO p' => chr 48 :: pos_text p'
  | xI p' => chr 49 :: pos_text p'
  end.

Fixpoint text_pos (s : str) : option positive :=
  match s with
  | [] => None
  | c :: s' =>
      if decide (c = chr 46) then Some xH
      else if decide (c = chr 48) then xO <$> text_pos s'
      else xI <$> text_pos s'
  end.

Lemma text_pos_text p : text_pos (pos_text p) = Some p.
Proof. induction p as [p IH|p IH|]; simpl; by rewrite ?IH. Qed.

Definition dump (j : json) : outcome str :=
  if json_utf8 j then Ok (chr 58 :: pos_text (countable.encode (to_tree j)))
  else Throw (lit "invalid UTF-8 byte").

Definition parse (s : str) : outcome json :=
  match s with
  | [] => Throw (lit "parse error")
  | c :: s' =>
      if decide (c = chr 58) then
        match text_pos s' ≫= countable.decode with
        | Some t => if json_utf8 (of_tree t) then Ok (of_tree t) else Throw (lit "invalid UTF-8 byte")
        | None => Throw (lit "parse error")
        end
      else Throw (lit "parse error")
  end.

#[global] Instance tagged_json : JsonLib := { dump := dump; parse := parse }.

#[global] Instance tagged_json_laws : JsonLaws tagged_json.
Proof.
  split; simpl; unfold dump, parse.
  - intros j s _ H. destruct (json_utf8 j) eqn:Hj; [|done]. injection H as <-.
    simpl. rewrite text_pos_text. simpl. by rewrite decode_encode, of_to_tree, Hj.
  - intros j ->. eauto.
  - intros j ->. by eexists.
  - intros [|c s] j; [done|]. case_decide; [|done]. destruct (_ ≫= _) as [t|]; [|done].
    destruct (json_utf8 (of_tree t)) eqn:Ht; [|done]. by intros [= <-].
  - eauto.
  - intros [|c s] kv m; [done|]. case_decide; [subst|done]. intros _. apply elem_of_cons; by left.
Qed.

End TaggedJson.
