(* ===== verification/Utf8.v ===== *)
(** Well-formed UTF-8 texts: characters, concatenation, and cutting at ASCII bytes. The
    JSON library refuses any other text, so these lemmas decide which replies can be
    sent. *)

From stdpp Require Import base list strings gmap numbers.
From Stdlib Require Import ZArith Ascii Lia.
From S2P Require Import Prelude Json.


Definition ascii7 (c : ascii) : Prop := code c <= 127.

#[global] Instance ascii7_dec c : Decision (ascii7 c).
Proof. unfold ascii7; apply _. Defined.

Lemma in_range_high lo hi c : 128 <= lo -> in_range lo hi c = true -> ~ ascii7 c.
Proof. unfold ascii7, in_range. intros Hlo ?%bool_decide_eq_true. lia. Qed.

Lemma utf8_ascii c s : ascii7 c -> utf8 (c :: s) = utf8 s.
Proof. intros H. simpl. unfold in_range at 1. rewrite bool_decide_true; [done|]. unfold ascii7 in H. lia. Qed.

(** The bytes of one character: any text may follow it, and only its first byte can
    be an ASCII one. *)
Definition one_char (ch : str) : Prop :=
  ch <> [] /\ (forall t, utf8 (ch ++ t) = utf8 t) /\ Forall (fun c => ~ ascii7 c) (tail ch).

Lemma utf8_uncons c s : utf8 (c :: s) = true -> exists ch r, c :: s = ch ++ r /\ one_char ch.
Proof.
  assert (forall x, 128 <= (if decide (code x = 224) then 160 else 128)) as H1 by (intros; case_decide; lia).
  assert (forall x, 128 <= (if decide (code x = 240) then 144 else 128)) as H2 by (intros; case_decide; lia).
  cbn [utf8]. destruct (in_range 0 127 c) eqn:E0.
  { intros _. exists [c], s. split_and!; [done|]. split_and!; [done| |by constructor].
    intros t. cbn [app utf8]. by rewrite E0. }
  destruct s as [|c1 s]; [done|]. destruct (in_range 194 223 c) eqn:E1.
  { intros [Hc1 _]%andb_true_iff. exists [c; c1], s. split; [done|]. split_and!; [done| |].
    - intros t. cbn [app utf8]. by rewrite E0, E1, Hc1.
    - apply Forall_singleton. (eapply in_range_high; [|eassumption]; auto). }
  destruct s as [|c2 s]; [done|]. destruct (in_range 224 239 c) eqn:E2.
  { intros [[Hc1 Hc2]%andb_true_iff _]%andb_true_iff. exists [c; c1; c2], s. split; [done|].
    split_and!; [done| |].
    - intros t. cbn [app utf8]. by rewrite E0, E1, E2, Hc1, Hc2.
    - apply Forall_cons_2, Forall_singleton; (eapply in_range_high; [|eassumption]; auto). }
  destruct s as [|c3 s]; [done|]. destruct (in_range 240 244 c) eqn:E3; [|done].
  intros [[[Hc1 Hc2]%andb_true_iff Hc3]%andb_true_iff _]%andb_true_iff.
  exists [c; c1; c2; c3], s. split; [done|]. split_and!; [done| |].
  - intros t. cbn [app utf8]. by rewrite E0, E1, E2, E3, Hc1, Hc2, Hc3.
  - do 2 (apply Forall_cons_2; [eapply in_range_high; [|eassumption]; auto|]). apply Forall_singleton. (eapply in_range_high; [|eassumption]; auto).
Qed.

(** Induction on the characters of a text. *)
Lemma utf8_ind (P : str -> Prop) :
  P [] -> (forall ch r, one_char ch -> utf8 r = true -> P r -> P (ch ++ r)) ->
  forall s, utf8 s = true -> P s.
Proof.
  intros Hnil Hstep s. induction s as [s IH] using (induction_ltof1 _ (@length ascii)). unfold ltof in IH.
  destruct s as [|c s]; [done|]. intros Hs. destruct (utf8_uncons c s Hs) as (ch & r & E & Hch).
  rewrite E in Hs |- *. pose proof Hch as (Hne & Ht & _). rewrite Ht in Hs. apply Hstep; [done..|].
  apply IH; [|done]. rewrite E, length_app. destruct ch; [done|]. simpl. lia.
Qed.

Lemma utf8_app a b : utf8 a = true -> utf8 b = true -> utf8 (a ++ b) = true.
Proof.
  intros Ha Hb. revert a Ha. apply utf8_ind; [done|]. intros ch r (_ & Ht & _) _ IH.
  by rewrite <- app_assoc, Ht.
Qed.

(** A well-formed text may be cut in front of an ASCII byte. *)
Lemma utf8_cut a c b : ascii7 c -> utf8 (a ++ c :: b) = true -> utf8 a = true /\ utf8 (c :: b) = true.
Proof.
  intros Hc Hs. remember (a ++ c :: b) as s eqn:E. revert s Hs a E.
  apply (utf8_ind (fun s => forall a, s = a ++ c :: b -> utf8 a = true /\ utf8 (c :: b) = true)).
  { by intros []. }
  intros ch r (Hne & Ht & Hhi) Hr IH a E.
  apply app_eq_inv in E as [(k & -> & E)|(k & -> & ->)].
  - destruct a as [|x a].
    + split; [done|]. by rewrite E, Ht.
    + destruct k as [|y k]; simpl in E.
      * specialize (Ht []). rewrite !app_nil_r in Ht. by rewrite Ht, E, Hr.
      * injection E as <- _. simpl in Hhi. apply Forall_app in Hhi as [_ Hhi].
        by apply Forall_cons_1 in Hhi as [Hhi _].
  - rewrite Ht. by apply IH.
Qed.

Lemma utf8_after a c b : ascii7 c -> utf8 (a ++ c :: b) = true -> utf8 b = true.
Proof. intros Hc [_ Hb]%utf8_cut; [|done]. by rewrite utf8_ascii in Hb. Qed.

Lemma utf8_all_ascii s : Forall ascii7 s -> utf8 s = true.
Proof. induction 1 as [|c s Hc _ IH]; [done|]. by rewrite utf8_ascii. Qed.
