(* ===== verification/MetaFile.v ===== *)
(** [file/MetaFile.h]: the metadata records, their JSON form as the
    [NLOHMANN_DEFINE_TYPE_INTRUSIVE] field lists give it, and
    [MetadataStore::serialize] / [deserialize]. *)

From stdpp Require Import base list strings gmap numbers.
From Stdlib Require Import ZArith Ascii Lia.
From S2P Require Import Prelude Double Json.

Local Open Scope outcome_scope.

(** ** Records *)

(** [enum class FileStatus]; [STATUS_VALUE] is any other [int] a cast of a stored
    number can give. *)
Inductive FileStatus : Type :=
| NORMAL | DELETED | CORRUPTED | SYNCING | LOCKED
| STATUS_VALUE (z : Z).

#[global] Instance FileStatus_eq_dec : EqDecision FileStatus.
Proof. solve_decision. Defined.

Definition status_code (st : FileStatus) : Z :=
  match st with
  | NORMAL => 0 | DELETED => 1 | CORRUPTED => 2 | SYNCING => 3 | LOCKED => 4
  | STATUS_VALUE z => z
  end.

Definition status_of_code (z : Z) : FileStatus :=
  match z with
  | 0%Z => NORMAL | 1%Z => DELETED | 2%Z => CORRUPTED | 3%Z => SYNCING | 4%Z => LOCKED
  | _ => STATUS_VALUE z
  end.

Record FileShard : Type := {
  shard_index : Z;      (* uint32_t index *)
  shard_id : str;
  shard_size : Z;       (* uint64_t size *)
  shard_md5 : str;
  shard_path : str;     (* not in the serialized field list *)
}.

#[global] Instance FileShard_eq_dec : EqDecision FileShard.
Proof. solve_decision. Defined.

Record MetaFile : Type := {
  md5 : str;
  path : str;
  name : str;
  domain : str;
  scene : str;
  src : str;
  size : Z;             (* int64_t *)
  mtime : Z;            (* int64_t *)
  status : FileStatus;
  is_sharded : bool;
  shard_std_size : Z;   (* uint64_t *)
  shard_count : Z;      (* uint32_t *)
  shards : list FileShard;
  uploaded_count : Z;   (* int32_t *)
  uploaded_chunks : list Z;  (* uint32_t *)
  peers : list str;
}.

#[global] Instance MetaFile_eq_dec : EqDecision MetaFile.
Proof. solve_decision. Defined.

(** [MetaFile meta;]: the default member initializers. *)
Definition default_meta : MetaFile := {|
  md5 := []; path := []; name := []; domain := []; scene := []; src := [];
  size := 0; mtime := 0; status := NORMAL; is_sharded := false;
  shard_std_size := 0; shard_count := 0; shards := [];
  uploaded_count := 0; uploaded_chunks := []; peers := [] |}.

Definition set_status (st : FileStatus) (m : MetaFile) : MetaFile := {|
  md5 := md5 m; path := path m; name := name m; domain := domain m; scene := scene m;
  src := src m; size := size m; mtime := mtime m; status := st;
  is_sharded := is_sharded m; shard_std_size := shard_std_size m;
  shard_count := shard_count m; shards := shards m; uploaded_count := uploaded_count m;
  uploaded_chunks := uploaded_chunks m; peers := peers m |}.

Record SystemStat : Type := {
  file_count : Z;       (* uint64_t *)
  total_size : Z;       (* uint64_t *)
}.

Definition zero_stat : SystemStat := {| file_count := 0; total_size := 0 |}.

(** ** JSON conversion *)

Definition type_error : str := lit "[json.exception.type_error.302]".
Definition out_of_range : str := lit "[json.exception.out_of_range.403]".

Definition at_ (k : str) (j : json) : outcome json :=
  match j with
  | JObj m => match members_get k m with Some v => Ok v | None => Throw out_of_range end
  | _ => Throw type_error
  end.

Definition get_str (j : json) : outcome str :=
  match j with JStr s => Ok s | _ => Throw type_error end.

Definition get_bool (j : json) : outcome bool :=
  match j with JBool b => Ok b | _ => Throw type_error end.

(** A number cast to the field's type: the 64-bit integers, which are the number types of
    the library, and enumerations take nothing else. *)
Definition get_number (cast : Z -> Z) (j : json) : outcome Z :=
  match j with
  | JInt z => Ok (cast z)
  | JFloat x => Ok (cast (truncate x))
  | _ => Throw type_error
  end.

(** The other integer types take a boolean too, as 0 or 1. *)
Definition get_int (cast : Z -> Z) (j : json) : outcome Z :=
  match j with
  | JBool b => Ok (Z.b2z b)
  | _ => get_number cast j
  end.

Fixpoint outcome_map {A B} (f : A -> outcome B) (l : list A) : outcome (list B) :=
  match l with
  | [] => Ok []
  | x :: l' => let* y := f x in let* ys := outcome_map f l' in Ok (y :: ys)
  end.

Definition get_list {A} (f : json -> outcome A) (j : json) : outcome (list A) :=
  match j with JArr l => outcome_map f l | _ => Throw type_error end.

Definition shard_to_json (s : FileShard) : json := mk_obj
  [ (lit "index", JInt (shard_index s)); (lit "shard_id", JStr (shard_id s));
    (lit "size", JInt (shard_size s)); (lit "md5", JStr (shard_md5 s)) ].

Definition shard_from_json (j : json) : outcome FileShard :=
  let* j_index := at_ (lit "index") j in let* v_index := get_int u32 j_index in
  let* j_id := at_ (lit "shard_id") j in let* v_id := get_str j_id in
  let* j_size := at_ (lit "size") j in let* v_size := get_number u64 j_size in
  let* j_md5 := at_ (lit "md5") j in let* v_md5 := get_str j_md5 in
  Ok {| shard_index := v_index; shard_id := v_id; shard_size := v_size;
        shard_md5 := v_md5; shard_path := [] |}.

Definition meta_to_json (m : MetaFile) : json := mk_obj
  [ (lit "md5", JStr (md5 m)); (lit "path", JStr (path m));
    (lit "name", JStr (name m)); (lit "domain", JStr (domain m));
    (lit "scene", JStr (scene m)); (lit "src", JStr (src m));
    (lit "size", JInt (size m)); (lit "mtime", JInt (mtime m));
    (lit "status", JInt (status_code (status m)));
    (lit "is_sharded", JBool (is_sharded m));
    (lit "shard_std_size", JInt (shard_std_size m));
    (lit "shard_count", JInt (shard_count m));
    (lit "shards", JArr (shard_to_json <$> shards m));
    (lit "uploaded_count", JInt (uploaded_count m));
    (lit "uploaded_chunks", JArr (JInt <$> uploaded_chunks m));
    (lit "peers", JArr (JStr <$> peers m)) ].

Definition meta_from_json (j : json) : outcome MetaFile :=
  let* j1 := at_ (lit "md5") j in let* v1 := get_str j1 in
  let* j2 := at_ (lit "path") j in let* v2 := get_str j2 in
  let* j3 := at_ (lit "name") j in let* v3 := get_str j3 in
  let* j4 := at_ (lit "domain") j in let* v4 := get_str j4 in
  let* j5 := at_ (lit "scene") j in let* v5 := get_str j5 in
  let* j6 := at_ (lit "src") j in let* v6 := get_str j6 in
  let* j7 := at_ (lit "size") j in let* v7 := get_number i64 j7 in
  let* j8 := at_ (lit "mtime") j in let* v8 := get_number i64 j8 in
  let* j9 := at_ (lit "status") j in let* v9 := get_number i32 j9 in
  let* j10 := at_ (lit "is_sharded") j in let* v10 := get_bool j10 in
  let* j11 := at_ (lit "shard_std_size") j in let* v11 := get_number u64 j11 in
  let* j12 := at_ (lit "shard_count") j in let* v12 := get_int u32 j12 in
  let* j13 := at_ (lit "shards") j in let* v13 := get_list shard_from_json j13 in
  let* j14 := at_ (lit "uploaded_count") j in let* v14 := get_int i32 j14 in
  let* j15 := at_ (lit "uploaded_chunks") j in let* v15 := get_list (get_int u32) j15 in
  let* j16 := at_ (lit "peers") j in let* v16 := get_list get_str j16 in
  Ok {| md5 := v1; path := v2; name := v3; domain := v4; scene := v5; src := v6;
        size := v7; mtime := v8; status := status_of_code v9; is_sharded := v10;
        shard_std_size := v11; shard_count := v12; shards := v13;
        uploaded_count := v14; uploaded_chunks := v15; peers := v16 |}.

(** ** [MetadataStore::serialize] and [deserialize] *)

Section Serialize.
Context {J : JsonLib}.

(** A failed [dump] is logged and gives the empty string. *)
Definition serialize (m : MetaFile) : str :=
  try_catch (dump (meta_to_json m)) (fun _ => []).

(** Exceptions of the parser and of the conversion are thrown on. *)
Definition deserialize (s : str) : outcome MetaFile :=
  let* j := parse s in meta_from_json j.

End Serialize.

(** ** Specification *)

(** Every integer fits the type of its field. *)
Definition shard_wf (s : FileShard) : Prop :=
  (0 <= shard_index s < 2 ^ 32)%Z /\ (0 <= shard_size s < 2 ^ 64)%Z.

Definition status_wf (st : FileStatus) : Prop :=
  match st with
  | STATUS_VALUE z => (- 2 ^ 31 <= z < 2 ^ 31)%Z /\ ~ (0 <= z <= 4)%Z
  | _ => True
  end.

Definition meta_wf (m : MetaFile) : Prop :=
  (- 2 ^ 63 <= size m < 2 ^ 63)%Z /\ (- 2 ^ 63 <= mtime m < 2 ^ 63)%Z /\
  status_wf (status m) /\
  (0 <= shard_std_size m < 2 ^ 64)%Z /\ (0 <= shard_count m < 2 ^ 32)%Z /\
  Forall shard_wf (shards m) /\
  (- 2 ^ 31 <= uploaded_count m < 2 ^ 31)%Z /\
  Forall (fun c => 0 <= c < 2 ^ 32)%Z (uploaded_chunks m).

#[global] Instance shard_wf_dec s : Decision (shard_wf s).
Proof. unfold shard_wf; apply _. Defined.
#[global] Instance status_wf_dec st : Decision (status_wf st).
Proof. destruct st; apply _. Defined.
#[global] Instance meta_wf_dec m : Decision (meta_wf m).
Proof. unfold meta_wf; apply _. Defined.

(** Every string is UTF-8. *)
Definition shard_utf8 (s : FileShard) : bool := utf8 (shard_id s) && utf8 (shard_md5 s).

Definition meta_utf8 (m : MetaFile) : bool :=
  utf8 (md5 m) && utf8 (path m) && utf8 (name m) && utf8 (domain m) && utf8 (scene m) &&
  utf8 (src m) && forallb shard_utf8 (shards m) && forallb utf8 (peers m).

(** What a stored record keeps: everything but the paths of the shards. *)
Definition drop_shard_path (s : FileShard) : FileShard :=
  {| shard_index := shard_index s; shard_id := shard_id s; shard_size := shard_size s;
     shard_md5 := shard_md5 s; shard_path := [] |}.

Definition stored (m : MetaFile) : MetaFile := {|
  md5 := md5 m; path := path m; name := name m; domain := domain m; scene := scene m;
  src := src m; size := size m; mtime := mtime m; status := status m;
  is_sharded := is_sharded m; shard_std_size := shard_std_size m;
  shard_count := shard_count m; shards := drop_shard_path <$> shards m;
  uploaded_count := uploaded_count m; uploaded_chunks := uploaded_chunks m;
  peers := peers m |}.

(** * Lemmas *)

Lemma at_mk_obj k l v : assoc k l = Some v -> at_ k (mk_obj l) = Ok v.
Proof.
  intros H. pose proof (obj_get_mk_obj k l) as Hg. unfold at_, obj_get, mk_obj in *.
  by rewrite Hg, H.
Qed.

(** One member read of a conversion, as equations. *)
Lemma bind_at_str {A} k l s (f : str -> outcome A) :
  assoc k l = Some (JStr s) ->
  outcome_bind (at_ k (mk_obj l)) (fun j => outcome_bind (get_str j) f) = f s.
Proof. intros H. by rewrite (at_mk_obj _ _ _ H). Qed.

Lemma bind_at_bool {A} k l b (f : bool -> outcome A) :
  assoc k l = Some (JBool b) ->
  outcome_bind (at_ k (mk_obj l)) (fun j => outcome_bind (get_bool j) f) = f b.
Proof. intros H. by rewrite (at_mk_obj _ _ _ H). Qed.

Lemma bind_at_number {A} k l z cast (f : Z -> outcome A) :
  assoc k l = Some (JInt z) -> cast z = z ->
  outcome_bind (at_ k (mk_obj l)) (fun j => outcome_bind (get_number cast j) f) = f z.
Proof. intros H Hc. rewrite (at_mk_obj _ _ _ H). simpl. by rewrite Hc. Qed.

Lemma bind_at_int {A} k l z cast (f : Z -> outcome A) :
  assoc k l = Some (JInt z) -> cast z = z ->
  outcome_bind (at_ k (mk_obj l)) (fun j => outcome_bind (get_int cast j) f) = f z.
Proof. intros H Hc. rewrite (at_mk_obj _ _ _ H). simpl. by rewrite Hc. Qed.

Lemma bind_at_list {A B} k l js (g : json -> outcome A) xs (f : list A -> outcome B) :
  assoc k l = Some (JArr js) -> outcome_map g js = Ok xs ->
  outcome_bind (at_ k (mk_obj l)) (fun j => outcome_bind (get_list g j) f) = f xs.
Proof. intros H Hm. rewrite (at_mk_obj _ _ _ H). simpl. by rewrite Hm. Qed.

Ltac member := first
  [ erewrite bind_at_str by reflexivity
  | erewrite bind_at_bool by reflexivity
  | erewrite bind_at_number by first [reflexivity | by apply wrap_small | by apply swrap_small]
  | erewrite bind_at_int by first [reflexivity | by apply wrap_small | by apply swrap_small] ].

Lemma shard_from_to_json s : shard_wf s -> shard_from_json (shard_to_json s) = Ok (drop_shard_path s).
Proof.
  intros [Hi Hs]. unfold shard_from_json, shard_to_json. repeat member. reflexivity.
Qed.

Lemma outcome_map_fmap {A B C} (f : B -> outcome C) (g : A -> B) (h : A -> C) l :
  Forall (fun a => f (g a) = Ok (h a)) l -> outcome_map f (g <$> l) = Ok (h <$> l).
Proof.
  induction 1 as [|a l Ha _ IH]; [done|]. simpl. rewrite Ha. simpl.
  change (list_fmap _ _ g l) with (g <$> l). by rewrite IH.
Qed.

Lemma status_code_range st : status_wf st -> (- 2 ^ 31 <= status_code st < 2 ^ 31)%Z.
Proof. destruct st; simpl; lia. Qed.

Lemma status_of_code_code st : status_wf st -> status_of_code (status_code st) = st.
Proof.
  destruct st as [| | | | |z]; simpl; try done. intros [_ Hn].
  destruct z as [|p|p]; [lia| |done]. simpl.
  repeat first [ done | lia | destruct p as [p|p|] ].
Qed.

Lemma shards_from_to l : Forall shard_wf l ->
  outcome_map shard_from_json (shard_to_json <$> l) = Ok (drop_shard_path <$> l).
Proof.
  intros H. apply outcome_map_fmap. eapply Forall_weaken; [|exact H]. apply shard_from_to_json.
Qed.

Lemma chunks_from_to l : Forall (fun c => 0 <= c < 2 ^ 32)%Z l ->
  outcome_map (get_int u32) (JInt <$> l) = Ok l.
Proof.
  intros H. rewrite (outcome_map_fmap _ _ id); [by rewrite list_fmap_id|].
  eapply Forall_weaken; [|exact H]. intros c Hc. simpl. by rewrite wrap_small.
Qed.

Lemma strings_from_to l : outcome_map get_str (JStr <$> l) = Ok l.
Proof. rewrite (outcome_map_fmap _ _ id); [by rewrite list_fmap_id|]. by apply Forall_true. Qed.

Lemma meta_from_to_json m : meta_wf m -> meta_from_json (meta_to_json m) = Ok (stored m).
Proof.
  intros (Hsz & Hmt & Hst & Hss & Hsc & Hsh & Huc & Hch).
  pose proof (status_code_range _ Hst).
  unfold meta_from_json, meta_to_json. repeat member.
  erewrite bind_at_list; [|reflexivity|by apply shards_from_to]. member.
  erewrite bind_at_list; [|reflexivity|by apply chunks_from_to].
  erewrite bind_at_list; [|reflexivity|apply strings_from_to].
  by rewrite status_of_code_code.
Qed.

Lemma shard_json_wf s : shard_wf s -> json_wf (shard_to_json s) = true.
Proof.
  intros [Hi Hs]. apply json_wf_mk_obj.
  repeat constructor; cbn [snd json_wf]; apply bool_decide_eq_true; lia.
Qed.

Lemma meta_json_wf m : meta_wf m -> json_wf (meta_to_json m) = true.
Proof.
  intros (Hsz & Hmt & Hst & Hss & Hsc & Hsh & Huc & Hch).
  pose proof (status_code_range _ Hst). apply json_wf_mk_obj.
  repeat constructor; cbn [snd json_wf];
    try (apply bool_decide_eq_true; lia); apply forallb_Forall, list.Forall_fmap.
  - eapply Forall_weaken; [|exact Hsh]. intros s. apply shard_json_wf.
  - eapply Forall_weaken; [|exact Hch]. cbn beta. intros c Hc.
    cbn [snd json_wf]. apply bool_decide_eq_true. lia.
  - by apply Forall_true.
Qed.

(** A member of a UTF-8 object built from a list is UTF-8. *)
Lemma assoc_utf8 k l v :
  json_utf8 (mk_obj l) = true -> assoc k l = Some v -> json_utf8 v = true.
Proof. intros H Hk. eapply obj_get_utf8; [exact H|]. by rewrite obj_get_mk_obj. Qed.

Lemma forallb_ext {A} (f g : A -> bool) l : (forall x, f x = g x) -> forallb f l = forallb g l.
Proof. intros H. induction l as [|x l IH]; simpl; [done|]. by rewrite H, IH. Qed.

Lemma forallb_fmap {A B} (f : B -> bool) (g : A -> B) l :
  forallb f (g <$> l) = forallb (fun x => f (g x)) l.
Proof. induction l as [|x l IH]; simpl; [done|]. by rewrite <- IH. Qed.

Lemma shard_json_utf8 s : json_utf8 (shard_to_json s) = shard_utf8 s.
Proof.
  apply eq_iff_eq_true. unfold shard_utf8. rewrite andb_true_iff. split.
  - intros H. split.
    + exact (assoc_utf8 (lit "shard_id") _ _ H eq_refl).
    + exact (assoc_utf8 (lit "md5") _ _ H eq_refl).
  - intros [Hi Hm]. apply json_utf8_mk_obj. by repeat constructor.
Qed.

Lemma meta_json_utf8 m : json_utf8 (meta_to_json m) = meta_utf8 m.
Proof.
  apply eq_iff_eq_true. unfold meta_utf8. rewrite !andb_true_iff.
  rewrite <- (forallb_ext _ _ _ shard_json_utf8), <- forallb_fmap.
  assert (forallb utf8 (peers m) = forallb json_utf8 (JStr <$> peers m)) as ->
    by by rewrite forallb_fmap.
  split.
  - intros H. repeat split.
    + exact (assoc_utf8 (lit "md5") _ _ H eq_refl).
    + exact (assoc_utf8 (lit "path") _ _ H eq_refl).
    + exact (assoc_utf8 (lit "name") _ _ H eq_refl).
    + exact (assoc_utf8 (lit "domain") _ _ H eq_refl).
    + exact (assoc_utf8 (lit "scene") _ _ H eq_refl).
    + exact (assoc_utf8 (lit "src") _ _ H eq_refl).
    + exact (assoc_utf8 (lit "shards") _ _ H eq_refl).
    + exact (assoc_utf8 (lit "peers") _ _ H eq_refl).
  - intros Hall. destruct_and! Hall. apply json_utf8_mk_obj.
    repeat constructor; cbn [snd json_utf8]; try done.
    rewrite forallb_fmap. apply forallb_Forall. by apply Forall_true.
Qed.

Section RoundTrip.
Context {J : JsonLib} {JL : JsonLaws J}.

Lemma deserialize_serialize_aux m :
  meta_wf m -> meta_utf8 m = true -> deserialize (serialize m) = Ok (stored m).
Proof.
  intros Hwf Hu. rewrite <- meta_json_utf8 in Hu.
  destruct (dump_utf8 _ Hu) as [s Hs]. unfold serialize, deserialize, try_catch.
  rewrite Hs, (parse_dump _ _ (meta_json_wf _ Hwf) Hs). by apply meta_from_to_json.
Qed.

(** C23: a record whose integers fit their types and whose strings are UTF-8 is
    read back from its stored text unchanged, except that the path of every shard
    comes back empty (it is not among the serialized fields). *)
Theorem deserialize_serialize m :
  meta_wf m -> meta_utf8 m = true ->
  deserialize (serialize m) = Ok (stored m) /\
  (Forall (fun s => shard_path s = []) (shards m) -> stored m = m).
Proof.
  intros Hwf Hu. split; [by apply deserialize_serialize_aux|].
  intros Hs. assert (drop_shard_path <$> shards m = shards m) as Hd.
  { induction Hs as [|[] l Hp _ IH]; [done|]. rewrite fmap_cons, IH. simpl in Hp; by subst. }
  unfold stored. rewrite Hd. by destruct m.
Qed.

Lemma serialize_empty m : meta_utf8 m = false -> serialize m = [].
Proof.
  intros Hu. rewrite <- meta_json_utf8 in Hu. destruct (dump_not_utf8 _ Hu) as (e & He & _).
  unfold serialize, try_catch. by rewrite He.
Qed.

(** A record with a string that is not UTF-8 serializes to the empty string,
    from which no record can be read back. *)
Theorem serialize_not_utf8 m :
  meta_utf8 m = false ->
  serialize m = [] /\ exists e, deserialize (serialize m) = Throw e.
Proof.
  intros Hu. rewrite (serialize_empty _ Hu). split; [done|].
  destruct parse_empty as [e He]. exists e. unfold deserialize. by rewrite He.
Qed.
End RoundTrip.

(** ** Concrete records *)

(** The record of the unit tests. *)
Definition test_meta : MetaFile := {|
  md5 := lit "1234567890abcdef1234567890abcdef"; path := lit "/group1/test.txt";
  name := []; domain := []; scene := lit "default"; src := [];
  size := 1024; mtime := 1680000000; status := NORMAL; is_sharded := false;
  shard_std_size := 0; shard_count := 0; shards := [];
  uploaded_count := 0; uploaded_chunks := []; peers := [] |}.

(** The same with a shard that has a path, and a name in GBK. *)
Definition sharded_meta : MetaFile := {|
  md5 := md5 test_meta; path := path test_meta; name := lit "a.bin"; domain := [];
  scene := lit "default"; src := []; size := 12; mtime := 1680000000; status := SYNCING;
  is_sharded := true; shard_std_size := 10; shard_count := 2;
  shards := [{| shard_index := 0; shard_id := lit "f_0"; shard_size := 10;
                shard_md5 := lit "aa"; shard_path := lit "/data/shards/f_0" |}];
  uploaded_count := 1; uploaded_chunks := [0%Z]; peers := [lit "node_01"] |}.

Definition gbk_meta : MetaFile := {|
  md5 := md5 test_meta; path := path test_meta; name := [chr 213; chr 197; chr 200];
  domain := []; scene := lit "default"; src := []; size := 1024; mtime := 1680000000;
  status := NORMAL; is_sharded := false; shard_std_size := 0; shard_count := 0;
  shards := []; uploaded_count := 0; uploaded_chunks := []; peers := [] |}.

Lemma deserialize_serialize_witness :
  deserialize (J := TaggedJson.tagged_json) (serialize sharded_meta) = Ok (stored sharded_meta) /\
  shard_path <$> shards (stored sharded_meta) = [[]].
Proof.
  split; [|reflexivity].
  apply (deserialize_serialize sharded_meta); [by_decide | vm_compute; reflexivity].
Defined.

Lemma serialize_not_utf8_witness :
  serialize (J := TaggedJson.tagged_json) gbk_meta = [] /\
  exists e, deserialize (J := TaggedJson.tagged_json) (serialize gbk_meta) = Throw e.
Proof. apply serialize_not_utf8. vm_compute. reflexivity. Defined.
