(* ===== verification/LevelDB.v ===== *)
(** The interface of LevelDB: an ordered, persistent map from byte strings to
    byte strings with atomic write batches and snapshot iterators.

    LevelDB is not part of the repository. [LevelDB] declares the calls the code
    makes; [LevelDBSpec] states their documented behaviour through a view of the
    database as a finite map and of an iterator as a position in a sorted
    snapshot. A write can fail, with or without effect; reads are assumed to succeed,
    so [Get] is not ok only for a missing key. [MemDB] is a concrete instance. *)

From stdpp Require Import base list strings gmap sorting numbers.
From Stdlib Require Import ZArith Ascii Lia.
From S2P Require Import Prelude.

(** ** Calls *)

(** The records of a [leveldb::WriteBatch]. *)
Inductive batch_op : Type :=
| BPut (k v : str)
| BDelete (k : str).

Class LevelDB : Type := {
  DB : Type;
  Iter : Type;
  db_get : DB -> str -> option str;             (* [Get]: [None] when not ok *)
  db_write : DB -> list batch_op -> DB * bool;  (* [Write], [Put]: [Status::ok] *)
  new_iterator : DB -> Iter;
  it_valid : Iter -> bool;
  it_key : Iter -> str;
  it_value : Iter -> str;
  it_seek : Iter -> str -> Iter;
  it_seek_to_first : Iter -> Iter;
  it_seek_to_last : Iter -> Iter;
  it_next : Iter -> Iter;
  it_prev : Iter -> Iter;
}.

(** [DB::Put] is [DB::Write] of a batch with one record. *)
Definition db_put {L : LevelDB} (db : DB) (k v : str) : DB * bool := db_write db [BPut k v].

(** ** Documented behaviour *)

Definition apply_op (m : gmap str str) (op : batch_op) : gmap str str :=
  match op with
  | BPut k v => <[k := v]> m
  | BDelete k => delete k m
  end.

Definition apply_batch (b : list batch_op) (m : gmap str str) : gmap str str :=
  foldl apply_op m b.

Definition key_lt (a b : str * str) : Prop := str_lt a.1 b.1.

(** The entries of a database in key order. *)
Definition snapshot_of (m : gmap str str) (l : list (str * str)) : Prop :=
  l ≡ₚ map_to_list m /\ StronglySorted key_lt l.

(** The number of entries before the first key [>= k]. *)
Fixpoint seek_index (k : str) (l : list (str * str)) : nat :=
  match l with
  | [] => 0
  | kv :: l' => if decide (str_lt kv.1 k) then S (seek_index k l') else 0
  end.

(** A position, [None] past the end. *)
Definition clip (l : list (str * str)) (i : nat) : option nat :=
  if decide (i < length l) then Some i else None.

Class LevelDBSpec (L : LevelDB) : Type := {
  contents : DB -> gmap str str;
  it_snap : Iter -> list (str * str);
  it_pos : Iter -> option nat;
  get_contents db k : db_get db k = contents db !! k;
  write_ok db b db' :
    db_write db b = (db', true) -> contents db' = apply_batch b (contents db);
  write_fail db b db' :
    db_write db b = (db', false) ->
    contents db' = contents db \/ contents db' = apply_batch b (contents db);
  iter_new db : snapshot_of (contents db) (it_snap (new_iterator db));
  iter_valid it : it_valid it = bool_decide (is_Some (it_pos it));
  iter_entry it p :
    it_pos it = Some p -> it_snap it !! p = Some (it_key it, it_value it);
  iter_seek it k :
    it_snap (it_seek it k) = it_snap it /\
    it_pos (it_seek it k) = clip (it_snap it) (seek_index k (it_snap it));
  iter_first it :
    it_snap (it_seek_to_first it) = it_snap it /\
    it_pos (it_seek_to_first it) = clip (it_snap it) 0;
  iter_last it :
    it_snap (it_seek_to_last it) = it_snap it /\
    it_pos (it_seek_to_last it) = clip (it_snap it) (length (it_snap it) - 1);
  iter_next it p :
    it_pos it = Some p ->
    it_snap (it_next it) = it_snap it /\ it_pos (it_next it) = clip (it_snap it) (S p);
  iter_prev it p :
    it_pos it = Some p ->
    it_snap (it_prev it) = it_snap it /\
    it_pos (it_prev it) = match p with O => None | S p' => Some p' end;
}.

(** * Lemmas on sorted snapshots *)

Lemma snapshot_lookup m l k v : snapshot_of m l -> (k, v) ∈ l <-> m !! k = Some v.
Proof. intros [Hp _]. by rewrite Hp, elem_of_map_to_list. Qed.

Lemma seek_index_app k a b :
  Forall (fun kv => str_lt kv.1 k) a -> seek_index k (a ++ b) = length a + seek_index k b.
Proof.
  induction 1 as [|kv a Hkv _ IH]; simpl; [done|]. by rewrite decide_True, IH.
Qed.

Lemma seek_index_ge k l :
  Forall (fun kv => ~ str_lt kv.1 k) l -> seek_index k l = 0.
Proof. destruct 1; simpl; [done|]. by rewrite decide_False. Qed.

(** Keys with a given prefix form a block of the snapshot. *)
Definition with_prefix (p : str) (l : list (str * str)) : list (str * str) :=
  filter (fun kv => p `prefix_of` kv.1) l.

Lemma with_prefix_app p a b : with_prefix p (a ++ b) = with_prefix p a ++ with_prefix p b.
Proof. apply list.filter_app. Qed.

Lemma with_prefix_all p l : Forall (fun kv => p `prefix_of` kv.1) l -> with_prefix p l = l.
Proof.
  induction 1 as [|kv l Hkv _ IH]; [done|]. unfold with_prefix in *.
  rewrite filter_cons_True by done. by rewrite IH.
Qed.

Lemma with_prefix_none p l : Forall (fun kv => ~ p `prefix_of` kv.1) l -> with_prefix p l = [].
Proof.
  induction 1 as [|kv l Hkv _ IH]; [done|]. unfold with_prefix in *.
  by rewrite filter_cons_False.
Qed.

(** Splitting a sorted list at a predicate that is downward closed. *)
Lemma sorted_split (P : str * str -> Prop) `{forall x, Decision (P x)} l :
  StronglySorted key_lt l ->
  (forall x y, key_lt x y -> P y -> P x) ->
  exists a b, l = a ++ b /\ Forall P a /\ Forall (fun x => ~ P x) b.
Proof.
  intros Hs Hdown. induction Hs as [|x l Hl IH Hx].
  - exists [], []; repeat constructor.
  - destruct (decide (P x)) as [HP|HP].
    + destruct IH as (a & b & -> & Ha & Hb). exists (x :: a), b. by repeat constructor.
    + exists [], (x :: l). repeat constructor; [done|].
      eapply Forall_weaken; [|exact Hx]. intros y Hxy Hy. by apply HP, (Hdown x y).
Qed.

(** A snapshot around the block of a prefix [q ++ [c]]: what is below it, the
    block, and what is at or above its upper bound. *)
Lemma prefix_block q c l :
  code c < 255 -> StronglySorted key_lt l ->
  let p := q ++ [c] in
  let u := q ++ [chr (S (code c))] in
  exists a b, l = a ++ with_prefix p l ++ b /\
    Forall (fun kv => str_lt kv.1 p) a /\
    Forall (fun kv => p `prefix_of` kv.1) (with_prefix p l) /\
    Forall (fun kv => ~ str_lt kv.1 p) (with_prefix p l ++ b) /\
    Forall (fun kv => str_lt kv.1 u) (a ++ with_prefix p l) /\
    Forall (fun kv => ~ str_lt kv.1 u) b /\
    Forall (fun kv => ~ p `prefix_of` kv.1) a /\ Forall (fun kv => ~ p `prefix_of` kv.1) b.
Proof.
  intros Hc Hs p u.
  assert (str_lt p u) as Hpu.
  { apply str_lt_app, str_lt_cons. left. rewrite code_chr; lia. }
  destruct (sorted_split (fun kv => str_lt kv.1 p) l Hs) as (a & r & -> & Ha & Hr).
  { intros x y; apply str_lt_trans. }
  apply StronglySorted_app_1_r in Hs as Hsr.
  destruct (sorted_split (fun kv => str_lt kv.1 u) r Hsr) as (m & b & -> & Hm & Hb).
  { intros x y; apply str_lt_trans. }
  assert (Forall (fun kv => p `prefix_of` kv.1) m) as Hmp.
  { apply list.Forall_forall. intros kv Hkv. apply prefix_interval; [done|].
    split; [|by eapply list.Forall_forall in Hm].
    eapply list.Forall_forall in Hr; [exact Hr|]. apply elem_of_app; by left. }
  assert (Forall (fun kv => ~ p `prefix_of` kv.1) a) as Hap.
  { eapply Forall_weaken; [|exact Ha]. intros kv Hkv H. by apply str_lt_prefix_ge in H. }
  assert (Forall (fun kv => ~ p `prefix_of` kv.1) b) as Hbp.
  { eapply Forall_weaken; [|exact Hb]. intros kv Hkv H. by apply prefix_interval in H as []. }
  assert (with_prefix p (a ++ m ++ b) = m) as ->.
  { rewrite !with_prefix_app, with_prefix_none, with_prefix_all, with_prefix_none by done.
    by rewrite app_nil_r. }
  exists a, b. repeat split; try done.
  apply list.Forall_app; split; [|done].
  eapply Forall_weaken; [|exact Ha]. intros kv Hkv. exact (str_lt_trans _ _ _ Hkv Hpu).
Qed.

(** ** A concrete database *)

(** A map in memory whose writes fail, leaving it unchanged, once the disk is
    full. *)
Module MemDB.

Record db : Type := { mem : gmap str str; disk_full : bool }.
Record iter : Type := { snap : list (str * str); pos : option nat }.

Definition key_le (a b : str * str) : Prop := ~ str_lt b.1 a.1.

#[global] Instance key_le_dec a b : Decision (key_le a b).
Proof. unfold key_le; apply _. Defined.

Definition sorted_entries (m : gmap str str) : list (str * str) :=
  merge_sort key_le (map_to_list m).

Definition move (it : iter) (p : option nat) : iter := {| snap := snap it; pos := p |}.

Definition cur (it : iter) : str * str := default ([], []) (pos it ≫= fun p => snap it !! p).

(** A position is kept only while it is inside the snapshot. *)
Definition live (it : iter) : option nat := pos it ≫= clip (snap it).

#[global] Instance mem_leveldb : LevelDB := {
  DB := db;
  Iter := iter;
  db_get d k := mem d !! k;
  db_write d b :=
    if disk_full d then (d, false)
    else ({| mem := apply_batch b (mem d); disk_full := false |}, true);
  new_iterator d := {| snap := sorted_entries (mem d); pos := None |};
  it_valid it := bool_decide (is_Some (live it));
  it_key it := (cur it).1;
  it_value it := (cur it).2;
  it_seek it k := move it (Some (seek_index k (snap it)));
  it_seek_to_first it := move it (Some 0);
  it_seek_to_last it := move it (Some (length (snap it) - 1));
  it_next it := move it (S <$> pos it);
  it_prev it := move it (pos it ≫= fun p => match p with O => None | S p' => Some p' end);
}.

#[global] Instance key_le_trans : Transitive key_le.
Proof.
  intros x y z Hxy Hyz Hzx. destruct (str_lt_total y.1 x.1) as [?|[Heq|?]]; [done| |].
  - apply Hyz. by rewrite Heq.
  - apply Hyz. by eapply str_lt_trans.
Qed.

#[global] Instance key_le_total : Total key_le.
Proof.
  intros x y. unfold key_le. destruct (str_lt_total x.1 y.1) as [H|[H|H]].
  - left. intros H'. by eapply str_lt_irrefl, str_lt_trans.
  - left. rewrite H. apply str_lt_irrefl.
  - right. intros H'. by eapply str_lt_irrefl, str_lt_trans.
Qed.

Lemma sorted_entries_snapshot m : snapshot_of m (sorted_entries m).
Proof.
  assert (sorted_entries m ≡ₚ map_to_list m) as Hp by apply merge_sort_Permutation.
  split; [done|].
  assert (NoDup (sorted_entries m).*1) as Hn.
  { rewrite Hp. apply NoDup_fst_map_to_list. }
  pose proof (StronglySorted_merge_sort key_le (map_to_list m)) as Hs.
  fold (sorted_entries m) in Hs. clear Hp.
  induction Hs as [|x l Hl IH Hx]; constructor.
  - apply IH. by inversion Hn.
  - apply list.Forall_forall. intros y Hy. eapply list.Forall_forall in Hx; [|done].
    destruct (str_lt_total x.1 y.1) as [?|[Heq|?]]; [done| |done].
    exfalso. inversion Hn as [|?? Hnin _]; subst. apply Hnin. simpl in *. rewrite Heq.
    apply list_elem_of_fmap. eauto.
Qed.

#[global] Instance mem_leveldb_spec : LevelDBSpec mem_leveldb.
Proof.
  refine {| contents := (mem : @DB mem_leveldb -> _);
            it_snap := (snap : @Iter mem_leveldb -> _);
            it_pos := (live : @Iter mem_leveldb -> _) |}; try done.
  - intros [m []] b db'; simpl; [done|]. by intros [= <-].
  - intros [m []] b db'; simpl; [|done]. intros [= <-]. by left.
  - intros d. apply sorted_entries_snapshot.
  - intros it p. unfold live, cur, clip; simpl. unfold cur.
    destruct (pos it) as [q|]; simpl; [|done]. case_decide as Hq; [|done].
    intros [= ->]. apply lookup_lt_is_Some_2 in Hq as [[k v] Hkv]. by rewrite Hkv.
  - intros it p. unfold live; simpl. destruct (pos it) as [q|]; simpl; [|done].
    unfold clip at 1. case_decide; [|done]. by intros [= ->].
  - intros it p. unfold live; simpl. destruct (pos it) as [q|]; simpl; [|done].
    unfold clip at 1. case_decide as Hq; [|done]. intros [= ->]. split; [done|].
    destruct p as [|p]; [done|]. unfold clip. simpl. by rewrite decide_True by lia.
Defined.

Definition empty : db := {| mem := ∅; disk_full := false |}.

End MemDB.
