(* ===== verification/MetadataStore.v ===== *)
(** [file/MetadataStore.cpp]: the metadata index over LevelDB. Operations are
    functions on the store (database handle and cached statistics); loops over an
    iterator take fuel. [MetaRefine], [MetaConc], [MetaScan] and [MetaStat] hold the theorems. *)

From stdpp Require Import base list strings gmap sorting numbers fin_maps.
From Stdlib Require Import ZArith Ascii Lia.
From S2P Require Import Prelude Json MetaFile LevelDB.

Local Open Scope outcome_scope.

(** ** Configuration *)

(** [config/metaConfig.h]. *)
Record metaConfig : Type := {
  mc_group : str;
  mc_peer_id : str;
  mc_domain : str;
  mc_allow_extensions : list str;
  mc_enable_trim_filename : bool;
  mc_enable_distinct_file : bool;
}.

Definition default_metaConfig : metaConfig := {|
  mc_group := lit "group1";
  mc_peer_id := lit "node_01";
  mc_domain := lit "http://192.168.88.131:8080";
  mc_allow_extensions := [lit ".jpg"; lit ".png"; lit ".txt"; lit ".pdf"];
  mc_enable_trim_filename := true;
  mc_enable_distinct_file := true |}.

(** ** Keys *)

Definition COLON : ascii := chr 58.

Definition is_md5 (s : str) : bool := bool_decide (length s = 32).

Definition path_key (p : str) : str := lit "PATH:" ++ p.

Definition scene_key (sc : str) (mt : Z) (h : str) : str :=
  lit "SCENE:" ++ sc ++ [COLON] ++ to_string mt ++ [COLON] ++ h.

Definition shard_prefix (h : str) : str := lit "Shard:" ++ h ++ [COLON].
Definition shard_key (h : str) (i : Z) : str := shard_prefix h ++ to_string i.

Definition scene_prefix (dir : str) : str := lit "SCENE:" ++ dir ++ [COLON].

(** [upper_bound.back() += 1]. *)
Definition bump_last (s : str) : str :=
  match last s with
  | None => s
  | Some c => take (length s - 1) s ++ [chr (Z.to_nat (u8 (Z.of_nat (code c) + 1)))]
  end.

Section Store.
Context {L : LevelDB} {J : JsonLib}.

(** The members that change: [db_] and [cached_stat_]. *)
Record store : Type := {
  db_ : DB;
  cached_stat_ : SystemStat;
  config_ : metaConfig;
}.

Definition set_db (st : store) (db : DB) : store :=
  {| db_ := db; cached_stat_ := cached_stat_ st; config_ := config_ st |}.

Definition set_stat (st : store) (s : SystemStat) : store :=
  {| db_ := db_ st; cached_stat_ := s; config_ := config_ st |}.

(** [cached_stat_.file_count += dn; cached_stat_.total_size += ds] on [uint64_t]. *)
Definition bump_stat (dn ds : Z) (s : SystemStat) : SystemStat :=
  {| file_count := u64 (file_count s + dn); total_size := u64 (total_size s + ds) |}.

(** The constructor: [opened] is the result of [leveldb::DB::Open]. *)
Definition MetadataStore_new (opened : DB + str) (config : metaConfig) : outcome store :=
  match opened with
  | inr e => Throw (lit "Failed to open LevelDB: " ++ e)
  | inl db => Ok {| db_ := db; cached_stat_ := zero_stat; config_ := config |}
  end.

(** ** Writing *)

(** [save_meta], the look-up made before the lock is taken. *)
Definition save_meta_check (st : store) (m : MetaFile) : bool :=
  bool_decide (is_Some (db_get (db_ st) (md5 m))).

Definition save_batch (m : MetaFile) : list batch_op :=
  [ BPut (md5 m) (serialize m);
    BPut (path_key (path m)) (md5 m);
    BPut (scene_key (scene m) (mtime m) (md5 m)) (md5 m) ].

(** [save_meta], the part under the lock. *)
Definition save_meta_commit (st : store) (m : MetaFile) : store * bool :=
  let '(db', ok) := db_write (db_ st) (save_batch m) in
  let st' := set_db st db' in
  if ok then (set_stat st' (bump_stat 1 (size m) (cached_stat_ st')), true)
  else (st', false).

Definition save_meta (st : store) (m : MetaFile) : store * bool :=
  if save_meta_check st m then (st, true) else save_meta_commit st m.

(** [get_meta]: a key that is not 32 bytes long is a path. *)
Definition get_meta (st : store) (key : str) : option MetaFile :=
  let target := if is_md5 key then Some key else db_get (db_ st) (path_key key) in
  match target with
  | None => None
  | Some target_md5 =>
      match db_get (db_ st) target_md5 with
      | None => None
      | Some val => match deserialize val with Ok m => Some m | Throw _ => None end
      end
  end.

Definition exists_ (st : store) (file_id : str) : bool := bool_decide (is_Some (get_meta st file_id)).

Definition save_meta_shard (st : store) (index : Z) (file_md5 smd5 : str) : store * bool :=
  let value := if decide (smd5 = []) then lit "1" else smd5 in
  let '(db', ok) := db_put (db_ st) (shard_key file_md5 index) value in
  (set_db st db', ok).

(** [update_status]: an exception of [deserialize] leaves the function. *)
Definition update_status (st : store) (h : str) (new_status : FileStatus) : outcome (store * bool) :=
  match db_get (db_ st) h with
  | None => Ok (st, false)
  | Some json_str =>
      let* m := deserialize json_str in
      let '(db', ok) := db_put (db_ st) h (serialize (set_status new_status m)) in
      Ok (set_db st db', ok)
  end.

Definition delete_batch (h : str) (m : MetaFile) : list batch_op :=
  [ BDelete h; BDelete (path_key (path m)); BDelete (scene_key (scene m) (mtime m) h) ].

Definition delete_meta (st : store) (h : str) : store * bool :=
  match db_get (db_ st) h with
  | None => (st, false)
  | Some json_str =>
      match deserialize json_str with
      | Throw _ => (st, false)
      | Ok m =>
          let '(db', ok) := db_write (db_ st) (delete_batch h m) in
          let st' := set_db st db' in
          if ok then (set_stat st' (bump_stat (-1) (- size m) (cached_stat_ st')), true)
          else (st', false)
      end
  end.

Definition update_meta (st : store) (m : MetaFile) : store * bool :=
  let '(st', _) := delete_meta st (md5 m) in save_meta st' m.

Definition get_stat (st : store) : SystemStat := cached_stat_ st.

Definition is_enable_trim_filename (st : store) : bool := mc_enable_trim_filename (config_ st).
Definition get_peer_id (st : store) : str := mc_peer_id (config_ st).
Definition get_domain (st : store) : str := mc_domain (config_ st).

(** ** Scanning. Each loop visits every entry of the iterator's snapshot at most
    once; [fuel] bounds the number of rounds and [None] means it ran out. *)

Fixpoint uploaded_loop (fuel : nat) (prefix : str) (it : Iter) (acc : list Z) : option (list Z) :=
  match fuel with
  | O => None
  | S fuel' =>
      if it_valid it then
        let key := it_key it in
        if starts_with prefix key then
          let acc' := match stoul (substr_from key (length prefix)) with
                      | Ok index => acc ++ [u32 index]
                      | Throw _ => acc
                      end in
          uploaded_loop fuel' prefix (it_next it) acc'
        else Some acc
      else Some acc
  end.

Definition get_uploaded_shard (fuel : nat) (st : store) (file_id : str) : option (list Z) :=
  if decide (file_id = []) then Some []
  else let prefix := shard_prefix file_id in
       uploaded_loop fuel prefix (it_seek (new_iterator (db_ st)) prefix) [].

(** Where [list_dir] starts: [order == 1] is ascending, anything else descending. *)
Definition list_dir_start (order : Z) (prefix : str) (it : Iter) : Iter :=
  if decide (order = 1%Z) then it_seek it prefix
  else
    let it := it_seek it prefix in
    if negb (it_valid it) then it_seek_to_last it
    else
      let it := it_seek it (bump_last prefix) in
      if it_valid it then it_prev it else it_seek_to_last it.

(** [offset] and [limit] are [int]; [results.size() == fetched]. *)
Fixpoint list_dir_loop (fuel : nat) (st : store) (prefix : str) (offset limit order : Z)
    (it : Iter) (skipped fetched : Z) (results : list MetaFile) : option (list MetaFile) :=
  match fuel with
  | O => None
  | S fuel' =>
      if it_valid it then
        if negb (starts_with prefix (it_key it)) then Some results
        else
          let step it := if decide (order = 1%Z) then it_next it else it_prev it in
          if decide (skipped < offset)%Z then
            list_dir_loop fuel' st prefix offset limit order (step it) (skipped + 1) fetched results
          else
            let '(fetched', results') :=
              match get_meta st (it_value it) with
              | Some m => ((fetched + 1)%Z, results ++ [m])
              | None => (fetched, results)
              end in
            if decide (fetched' >= limit /\ limit > 0)%Z then Some results'
            else list_dir_loop fuel' st prefix offset limit order (step it) skipped fetched' results'
      else Some results
  end.

Definition list_dir (fuel : nat) (st : store) (dir : str) (offset limit order : Z)
  : option (list MetaFile) :=
  if decide (offset < 0 \/ limit = 0)%Z then Some []
  else
    let prefix := scene_prefix dir in
    list_dir_loop fuel st prefix offset limit order
      (list_dir_start order prefix (new_iterator (db_ st))) 0 0 [].

Fixpoint repair_loop (fuel : nat) (it : Iter) (count size_ : Z) : option (Z * Z) :=
  match fuel with
  | O => None
  | S fuel' =>
      if it_valid it then
        let '(count', size') :=
          if is_md5 (it_key it) then
            match deserialize (it_value it) with
            | Ok m => if decide (status m = NORMAL) then (u64 (count + 1), u64 (size_ + size m))
                      else (count, size_)
            | Throw _ => (count, size_)
            end
          else (count, size_) in
        repair_loop fuel' (it_next it) count' size'
      else Some (count, size_)
  end.

Definition repair_stat (fuel : nat) (st : store) : option store :=
  match repair_loop fuel (it_seek_to_first (new_iterator (db_ st))) 0 0 with
  | Some (count, size_) => Some (set_stat st {| file_count := count; total_size := size_ |})
  | None => None
  end.

End Store.
Arguments store : clear implicits.
Arguments store {L}.
