(* ===== verification/MetaRefine.v ===== *)
(** The metadata store implements a map from MD5 to record: the abstraction
    relation, the abstract operations, and the refinement theorems. *)

From stdpp Require Import base list strings gmap sorting numbers fin_maps.
From Stdlib Require Import ZArith Ascii Lia.
From S2P Require Import Prelude Json MetaFile LevelDB MetadataStore.

(** ** Keys never collide *)

(** What the code takes an MD5 to be: 32 bytes; a hexadecimal digest has no
    colon, which keeps it apart from the prefixed keys. *)
Definition key_ok (h : str) : Prop := length h = 32 /\ (COLON ∉ h).

#[global] Instance key_ok_dec h : Decision (key_ok h).
Proof. unfold key_ok; apply _. Defined.

Lemma key_ok_path h p : key_ok h -> h <> path_key p.
Proof. intros [_ Hc] ->. apply Hc. unfold path_key. rewrite elem_of_app. left. by_decide. Qed.

Lemma key_ok_scene h s t h' : key_ok h -> h <> scene_key s t h'.
Proof. intros [_ Hc] ->. apply Hc. unfold scene_key. rewrite elem_of_app. left. by_decide. Qed.

Lemma path_key_inj p q : path_key p = path_key q -> p = q.
Proof. apply app_inv_head. Qed.

Lemma path_scene p s t h : path_key p <> scene_key s t h.
Proof. done. Qed.

Lemma app_inj_length_r {A} (l1 l2 k1 k2 : list A) :
  length k1 = length k2 -> l1 ++ k1 = l2 ++ k2 -> k1 = k2.
Proof. intros Hl H. by apply app_inj_2 in H as [_ ?]. Qed.

Lemma scene_key_inj s t h s' t' h' :
  length h = length h' -> scene_key s t h = scene_key s' t' h' -> h = h'.
Proof. unfold scene_key. rewrite !app_assoc. intros Hl. by apply app_inj_length_r. Qed.

Definition is_shard_key (k : str) : Prop := lit "Shard:" `prefix_of` k.

#[global] Instance is_shard_key_dec k : Decision (is_shard_key k).
Proof. unfold is_shard_key; apply _. Defined.

Lemma key_ok_not_shard h : key_ok h -> ~ is_shard_key h.
Proof. intros [_ Hc] [s ->]. apply Hc. rewrite elem_of_app. left. by_decide. Qed.

Lemma path_not_shard p : ~ is_shard_key (path_key p).
Proof. intros [s Hs]. done. Qed.

Lemma scene_not_shard s t h : ~ is_shard_key (scene_key s t h).
Proof. intros [r Hr]. done. Qed.

(** The abstract store: records under their MD5. *)
Abbreviation index := (gmap str MetaFile).

(** ** The entries of a record *)

Section Refine.
Context {L : LevelDB} {S : LevelDBSpec L} {J : JsonLib} {JL : JsonLaws J}.

Definition record_ok (m : MetaFile) : Prop :=
  key_ok (md5 m) /\ meta_wf m /\ meta_utf8 m = true.

Definition entries_of (m : MetaFile) : list (str * str) :=
  [ (md5 m, serialize m); (path_key (path m), md5 m);
    (scene_key (scene m) (mtime m) (md5 m), md5 m) ].

Definition entry (a : index) (k v : str) : Prop :=
  exists m, a !! md5 m = Some m /\ (k, v) ∈ entries_of m.

(** The database contents [c] store exactly the index [a] (and shard notes, whose values are digests). *)
Record Rep (c : gmap str str) (a : index) : Prop := {
  rep_records h m : a !! h = Some m -> md5 m = h /\ record_ok m /\ stored m = m;
  rep_paths h h' m m' :
    a !! h = Some m -> a !! h' = Some m' -> path m = path m' -> h = h';
  rep_entries k v : ~ is_shard_key k -> c !! k = Some v <-> entry a k v;
  rep_shards k v : is_shard_key k -> c !! k = Some v -> COLON ∉ v;
}.

Definition represents (st : store) (a : index) : Prop := Rep (contents (db_ st)) a.

(** No other record has the path of [m]. *)
Definition path_free (a : index) (m : MetaFile) : Prop :=
  forall h m', a !! h = Some m' -> path m' = path m -> h = md5 m.

(** * Lemmas *)

Lemma serialize_stored m : serialize (stored m) = serialize m.
Proof.
  unfold serialize, meta_to_json. simpl. rewrite <- list_fmap_compose. done.
Qed.

Lemma stored_idemp m : stored (stored m) = stored m.
Proof. unfold stored; simpl. f_equal. by rewrite <- list_fmap_compose. Qed.

Lemma record_ok_stored m : record_ok m -> record_ok (stored m).
Proof.
  intros (Hk & Hwf & Hu). split_and!; [done| |].
  - destruct Hwf as (H1 & H2 & H3 & H4 & H5 & Hs & H6 & H7).
    do 5 (split; [assumption|]). split; [|by split].
    apply list.Forall_fmap. eapply Forall_weaken; [|exact Hs]. done.
  - rewrite <- Hu. unfold meta_utf8; simpl. by rewrite forallb_fmap.
Qed.

(** Text without a colon is no record. *)
Lemma deserialize_no_colon s m : COLON ∉ s -> deserialize s <> Ok m.
Proof.
  unfold deserialize. intros Hc. destruct (parse s) as [j|e] eqn:E; [|done]. simpl.
  destruct j as [| | | | | |[|kv l]]; try done.
  exfalso. apply Hc. by eapply parse_colon.
Qed.

Lemma entries_of_keys m k v :
  (k, v) ∈ entries_of m <->
  (k = md5 m /\ v = serialize m) \/ (k = path_key (path m) /\ v = md5 m) \/
  (k = scene_key (scene m) (mtime m) (md5 m) /\ v = md5 m).
Proof.
  unfold entries_of. rewrite !elem_of_cons, elem_of_nil, !pair_equal_spec. tauto.
Qed.

(** Two records that share a key of an entry share their MD5. *)
Lemma entries_of_disjoint m m' k v v' :
  key_ok (md5 m) -> key_ok (md5 m') -> (path m = path m' -> md5 m = md5 m') ->
  (k, v) ∈ entries_of m -> (k, v') ∈ entries_of m' -> md5 m = md5 m'.
Proof.
  intros Hk Hk' Hp. rewrite !entries_of_keys.
  intros [[-> ->]|[[-> ->]|[-> ->]]] [[H ->]|[[H ->]|[H ->]]].
  - done.
  - by apply key_ok_path in H.
  - by apply key_ok_scene in H.
  - by apply eq_sym, key_ok_path in H.
  - by apply Hp, path_key_inj.
  - done.
  - by apply eq_sym, key_ok_scene in H.
  - done.
  - apply scene_key_inj in H; [done|]. by rewrite (proj1 Hk), (proj1 Hk').
Qed.

Lemma entries_of_functional m k v v' :
  key_ok (md5 m) -> (k, v) ∈ entries_of m -> (k, v') ∈ entries_of m -> v = v'.
Proof.
  intros Hk. rewrite !entries_of_keys.
  intros [[-> ->]|[[-> ->]|[-> ->]]] [[H ->]|[[H ->]|[H ->]]]; try done.
  - by apply key_ok_path in H.
  - by apply key_ok_scene in H.
  - by apply eq_sym, key_ok_path in H.
  - by apply eq_sym, key_ok_scene in H.
Qed.

Lemma entries_of_not_shard m k v : key_ok (md5 m) -> (k, v) ∈ entries_of m -> ~ is_shard_key k.
Proof.
  intros Hk. rewrite entries_of_keys. intros [[-> _]|[[-> _]|[-> _]]].
  - by apply key_ok_not_shard.
  - apply path_not_shard.
  - apply scene_not_shard.
Qed.

(** What the batches of [save_meta] and [delete_meta] do to the contents. *)
Lemma save_batch_in m c k v :
  key_ok (md5 m) -> (k, v) ∈ entries_of m -> apply_batch (save_batch m) c !! k = Some v.
Proof.
  intros Hk. pose proof (key_ok_path (md5 m) (path m) Hk).
  pose proof (key_ok_scene (md5 m) (scene m) (mtime m) (md5 m) Hk).
  pose proof (path_scene (path m) (scene m) (mtime m) (md5 m)).
  rewrite entries_of_keys. unfold apply_batch, save_batch; simpl.
  intros [[-> ->]|[[-> ->]|[-> ->]]]; by simplify_map_eq.
Qed.

Lemma save_batch_out m c k :
  (forall v, (k, v) ∉ entries_of m) -> apply_batch (save_batch m) c !! k = c !! k.
Proof.
  setoid_rewrite entries_of_keys. intros H. unfold apply_batch, save_batch; simpl.
  rewrite !lookup_insert_ne; [done|..]; intros <-; eapply H; eauto.
Qed.

Lemma delete_batch_in m c k v :
  (k, v) ∈ entries_of m -> apply_batch (delete_batch (md5 m) m) c !! k = None.
Proof.
  rewrite entries_of_keys. unfold apply_batch, delete_batch; simpl.
  intros [[-> _]|[[-> _]|[-> _]]]; rewrite !lookup_delete_None; auto.
Qed.

Lemma delete_batch_out m c k :
  (forall v, (k, v) ∉ entries_of m) -> apply_batch (delete_batch (md5 m) m) c !! k = c !! k.
Proof.
  setoid_rewrite entries_of_keys. intros H. unfold apply_batch, delete_batch; simpl.
  rewrite !lookup_delete_ne; [done|..]; intros <-; eapply H; eauto.
Qed.

(** Whether a key belongs to the entries of a record. *)
Lemma entries_of_dec m k : (exists v, (k, v) ∈ entries_of m) \/ (forall v, (k, v) ∉ entries_of m).
Proof.
  destruct (decide (k ∈ (entries_of m).*1)) as [H|H].
  - left. apply list_elem_of_fmap in H as [[k' v] [-> H]]. eauto.
  - right. intros v Hv. apply H, list_elem_of_fmap. by exists (k, v).
Qed.

(** The stored record under its MD5. *)
Lemma rep_get c a h : Rep c a -> key_ok h -> c !! h = serialize <$> a !! h.
Proof.
  intros R Hk. apply option_eq. intros v.
  rewrite (rep_entries _ _ R) by by apply key_ok_not_shard.
  rewrite fmap_Some. unfold entry. setoid_rewrite entries_of_keys. split.
  - intros (m & Hm & [[-> ->]|[[-> ->]|[-> ->]]]); [by eauto| |].
    + by destruct (key_ok_path _ _ Hk eq_refl).
    + by destruct (key_ok_scene _ _ _ _ Hk eq_refl).
  - intros (m & Hm & ->). destruct (rep_records _ _ R _ _ Hm) as [<- _]. eauto.
Qed.

Lemma rep_deserialize c a h m :
  Rep c a -> a !! h = Some m -> deserialize (serialize m) = Ok m.
Proof.
  intros R Hm. destruct (rep_records _ _ R _ _ Hm) as (_ & (_ & Hwf & Hu) & Hs).
  rewrite <- Hs at 2. by apply deserialize_serialize_aux.
Qed.

(** A record found by path or by MD5. *)
Definition found (a : index) (key : str) (m : MetaFile) : Prop :=
  a !! md5 m = Some m /\ (if is_md5 key then md5 m = key else path m = key).

Lemma rep_path c a p h :
  Rep c a ->
  c !! path_key p = Some h <-> exists m, a !! h = Some m /\ path m = p.
Proof.
  intros R. rewrite (rep_entries _ _ R) by apply path_not_shard.
  unfold entry. setoid_rewrite entries_of_keys. split.
  - intros (m & Hm & [[H ->]|[[H ->]|[H ->]]]).
    + destruct (rep_records _ _ R _ _ Hm) as (_ & (Hk & _) & _).
      by destruct (key_ok_path _ _ Hk (eq_sym H)).
    + apply path_key_inj in H as ->. eauto.
    + done.
  - intros (m & Hm & <-). destruct (rep_records _ _ R _ _ Hm) as [<- _]. eauto 8.
Qed.

(** A key whose value reads back as a record is the MD5 of that record. *)
Lemma rep_get_md5 c a h m :
  Rep c a -> (exists v, c !! h = Some v /\ deserialize v = Ok m) <-> a !! h = Some m.
Proof.
  intros R. split.
  - intros (v & Hv & Hd). destruct (decide (COLON ∈ v)) as [Hc|Hc].
    2: { by destruct (deserialize_no_colon _ _ Hc Hd). }
    destruct (decide (is_shard_key h)) as [Hs|Hs].
    { by destruct (rep_shards _ _ R _ _ Hs Hv). }
    apply (rep_entries _ _ R) in Hv; [|done].
    destruct Hv as (m' & Hm' & He). pose proof (rep_records _ _ R _ _ Hm') as (_ & (Hk & _) & _).
    apply entries_of_keys in He as [[-> ->]|[[-> ->]|[-> ->]]]; [|by destruct Hk..].
    rewrite (rep_deserialize _ _ _ _ R Hm') in Hd. congruence.
  - intros Hm. pose proof (rep_records _ _ R _ _ Hm) as (<- & (Hk & _) & _).
    exists (serialize m). split; [|by eapply rep_deserialize].
    rewrite (rep_get _ _ _ R Hk), Hm. done.
Qed.

Lemma get_meta_found st a key m : represents st a -> get_meta st key = Some m <-> found a key m.
Proof.
  unfold represents, get_meta, found. intros R. rewrite !get_contents.
  assert (forall h,
    match db_get (db_ st) h with
    | Some val => match deserialize val with Ok m => Some m | Throw _ => None end
    | None => None
    end = Some m <-> a !! h = Some m) as Hg.
  { intros h. rewrite <- (rep_get_md5 (contents (db_ st)) a h m R), get_contents.
    destruct (contents (db_ st) !! h) as [v|]; [|split; [done | by intros (? & ? & _)]].
    destruct (deserialize v) as [m'|e] eqn:E.
    - split; [intros [= ->]; eauto | intros (v' & [= <-] & Hd); congruence].
    - split; [done | intros (v' & [= <-] & Hd); congruence]. }
  unfold is_md5. case_bool_decide as Hl.
  - rewrite Hg. split; [|by intros [? <-]].
    intros Hm. by destruct (rep_records _ _ R _ _ Hm) as [-> _].
  - destruct (contents (db_ st) !! path_key key) as [h|] eqn:E.
    + apply (rep_path _ _ _ _ R) in E as (m' & Hm' & <-).
      pose proof (rep_records _ _ R _ _ Hm') as (<- & ([Hl' _] & _) & _).
      rewrite Hg, Hm'. split; [by intros [= ->]|].
      intros [Hm Hp]. rewrite <- Hm'. by rewrite (rep_paths _ _ R _ _ _ _ Hm Hm' Hp) in Hm.
    + split; [done|]. intros [Hm Hp]. exfalso.
      assert (contents (db_ st) !! path_key key = Some (md5 m)) as Hc; [|congruence].
      apply (rep_path _ _ _ _ R). eauto.
Qed.

(** ** The batches preserve the representation *)

Lemma entries_of_stored m : entries_of (stored m) = entries_of m.
Proof. unfold entries_of. by rewrite serialize_stored. Qed.

(** Records of [a] other than [m] have none of the keys of [m]. *)
Lemma other_entries c a m m' k v v' :
  Rep c a -> record_ok m -> path_free a m -> a !! md5 m' = Some m' -> md5 m' <> md5 m ->
  (k, v) ∈ entries_of m' -> (k, v') ∉ entries_of m.
Proof.
  intros R (Hk & _) Hf Hm' Hne He He'.
  destruct (rep_records _ _ R _ _ Hm') as (_ & (Hk' & _) & _).
  apply Hne. eapply entries_of_disjoint; [done..| |exact He|exact He'].
  intros Hp. by apply (Hf _ _ Hm').
Qed.

Lemma rep_insert c a m :
  Rep c a -> record_ok m -> path_free a m -> a !! md5 m = None ->
  Rep (apply_batch (save_batch m) c) (<[md5 m := stored m]> a).
Proof.
  intros R Hm Hf Hnone. pose proof Hm as (Hk & _). split.
  - intros h m'. rewrite lookup_insert_Some. intros [[<- <-]|[Hne Hm']].
    + split_and!; [done|by apply record_ok_stored|apply stored_idemp].
    + by apply (rep_records _ _ R).
  - intros h h' m1 m2. rewrite !lookup_insert_Some.
    intros [[<- <-]|[Hn1 H1]] [[<- <-]|[Hn2 H2]] Hp; simpl in *.
    + done.
    + symmetry. by apply (Hf _ _ H2).
    + by apply (Hf _ _ H1).
    + by apply (rep_paths _ _ R _ _ _ _ H1 H2).
  - intros k v Hns. destruct (entries_of_dec m k) as [[w Hw]|Hout].
    + rewrite (save_batch_in _ _ _ _ Hk Hw). split.
      * intros [= <-]. exists (stored m). rewrite entries_of_stored. simpl.
        by rewrite lookup_insert_eq.
      * intros (m' & Hm' & He). apply lookup_insert_Some in Hm' as [[Heq <-]|[Hne Hm']].
        -- rewrite entries_of_stored in He. f_equal. by eapply entries_of_functional.
        -- exfalso. eapply other_entries; [exact R|exact Hm|exact Hf|exact Hm'|done|exact He|exact Hw].
    + rewrite save_batch_out by done. rewrite (rep_entries _ _ R) by done. split.
      * intros (m' & Hm' & He). exists m'. split; [|done].
        rewrite lookup_insert_ne; [done|]. congruence.
      * intros (m' & Hm' & He). apply lookup_insert_Some in Hm' as [[Heq <-]|[Hne Hm']].
        -- rewrite entries_of_stored in He. by destruct (Hout v).
        -- by exists m'.
  - intros k v Hs. rewrite save_batch_out; [by apply (rep_shards _ _ R)|].
    intros w Hw. by apply (entries_of_not_shard _ _ _ Hk) in Hw.
Qed.

Lemma rep_delete c a h m :
  Rep c a -> a !! h = Some m -> Rep (apply_batch (delete_batch h m) c) (delete h a).
Proof.
  intros R Hm. pose proof (rep_records _ _ R _ _ Hm) as (<- & Hok & _). pose proof Hok as (Hk & _).
  assert (path_free a m) as Hf.
  { intros h' m' Hm' Hp. by apply (rep_paths _ _ R _ _ _ _ Hm' Hm). }
  split.
  - intros h m'. rewrite lookup_delete_Some. intros [_ ?]. by apply (rep_records _ _ R).
  - intros h h' m1 m2. rewrite !lookup_delete_Some. intros [_ ?] [_ ?]. by apply (rep_paths _ _ R).
  - intros k v Hns. destruct (entries_of_dec m k) as [[w Hw]|Hout].
    + rewrite (delete_batch_in _ _ _ _ Hw). split; [done|].
      intros (m' & Hm' & He). apply lookup_delete_Some in Hm' as [Hne Hm']. exfalso.
      eapply other_entries; [exact R|exact Hok|exact Hf|exact Hm'|done|exact He|exact Hw].
    + rewrite delete_batch_out by done. rewrite (rep_entries _ _ R) by done. split.
      * intros (m' & Hm' & He). exists m'. split; [|done].
        rewrite lookup_delete_ne; [done|]. intros Heq. rewrite <- Heq in Hm'.
        simplify_eq. by destruct (Hout v).
      * intros (m' & [_ Hm']%lookup_delete_Some & He). by exists m'.
  - intros k v Hs. rewrite delete_batch_out; [by apply (rep_shards _ _ R)|].
    intros w Hw. by apply (entries_of_not_shard _ _ _ Hk) in Hw.
Qed.

Lemma set_status_entries st m k v :
  key_ok (md5 m) -> (k, v) ∈ entries_of (set_status st m) <->
  (k = md5 m /\ v = serialize (set_status st m)) \/ (k <> md5 m /\ (k, v) ∈ entries_of m).
Proof.
  intros Hk. rewrite !entries_of_keys. simpl. split.
  - intros [?|[[-> ->]|[-> ->]]]; [by left|right..].
    + split; [|by eauto]. intros H. by destruct (key_ok_path _ _ Hk (eq_sym H)).
    + split; [|by eauto]. intros H. by destruct (key_ok_scene _ _ _ _ Hk (eq_sym H)).
  - intros [?|[Hn [[? _]|?]]]; auto. done.
Qed.

Lemma record_ok_set_status st m : status_wf st -> record_ok m -> record_ok (set_status st m).
Proof.
  intros Hs (Hk & Hwf & Hu). split_and!; [done| |done].
  destruct Hwf as (H1 & H2 & H3 & H4 & H5 & H6 & H7 & H8).
  do 7 (split; [assumption|]). assumption.
Qed.

Lemma rep_status c a h m st :
  Rep c a -> a !! h = Some m -> status_wf st ->
  Rep (<[h := serialize (set_status st m)]> c) (<[h := set_status st m]> a).
Proof.
  intros R Hm Hs. pose proof (rep_records _ _ R _ _ Hm) as (<- & Hok & Hst). pose proof Hok as (Hk & _).
  split.
  - intros h m'. rewrite lookup_insert_Some. intros [[<- <-]|[Hne Hm']].
    + split_and!; [done|by apply record_ok_set_status|]. by rewrite <- Hst at 2.
    + by apply (rep_records _ _ R).
  - intros h h' m1 m2. rewrite !lookup_insert_Some.
    intros [[<- <-]|[Hn1 H1]] [[<- <-]|[Hn2 H2]] Hp; simpl in *; try done.
    + by apply (rep_paths _ _ R _ _ _ _ Hm H2).
    + by apply (rep_paths _ _ R _ _ _ _ H1 Hm).
    + by apply (rep_paths _ _ R _ _ _ _ H1 H2).
  - intros k v Hns. destruct (decide (k = md5 m)) as [->|Hkm].
    + rewrite lookup_insert_eq. split.
      * intros [= <-]. exists (set_status st m). simpl. rewrite lookup_insert_eq. split; [done|].
        apply set_status_entries; auto.
      * intros (m' & Hm' & He). apply lookup_insert_Some in Hm' as [[_ <-]|[Hne Hm']].
        -- apply set_status_entries in He as [[_ ->]|[? _]]; done.
        -- exfalso. apply Hne. symmetry. pose proof (rep_records _ _ R _ _ Hm') as (_ & (Hk' & _) & _).
           eapply entries_of_disjoint; [exact Hk'|exact Hk| |exact He|].
           ++ intros Hp. by apply (rep_paths _ _ R _ _ _ _ Hm' Hm).
           ++ apply entries_of_keys; auto.
    + rewrite lookup_insert_ne, (rep_entries _ _ R) by done. split.
      * intros (m' & Hm' & He). destruct (decide (md5 m' = md5 m)) as [Heq|Hne].
        -- rewrite Heq in Hm'. simplify_eq. exists (set_status st m). simpl.
           rewrite lookup_insert_eq. split; [done|]. apply set_status_entries; auto.
        -- exists m'. by rewrite lookup_insert_ne.
      * intros (m' & Hm' & He). apply lookup_insert_Some in Hm' as [[_ <-]|[Hne Hm']].
        -- exists m. split; [done|]. apply set_status_entries in He as [[? _]|[_ ?]]; done.
        -- by exists m'.
  - intros k v Hsk. rewrite lookup_insert_ne; [by apply (rep_shards _ _ R)|].
    intros <-. by apply key_ok_not_shard in Hk.
Qed.

Lemma rep_shard c a h i v :
  Rep c a -> COLON ∉ v -> Rep (<[shard_key h i := v]> c) a.
Proof.
  intros R Hv. assert (is_shard_key (shard_key h i)) as Hs.
  { unfold is_shard_key, shard_key, shard_prefix. rewrite <- !app_assoc. by apply prefix_app_r. }
  split; [apply R|apply R| |].
  - intros k w Hk. rewrite lookup_insert_ne by (intros <-; done). by apply (rep_entries _ _ R).
  - intros k w Hk. rewrite lookup_insert_Some. intros [[<- <-]|[_ Hw]]; [done|].
    by apply (rep_shards _ _ R _ _ Hk).
Qed.

Lemma rep_empty : Rep ∅ ∅.
Proof.
  split; try done. intros k v _. rewrite lookup_empty. split; [done|].
  by intros (m & Hm & _).
Qed.

(** ** Abstract operations *)

Inductive op : Type :=
| OpSave (m : MetaFile)
| OpDelete (h : str)
| OpStatus (h : str) (st : FileStatus)
| OpUpdate (m : MetaFile)
| OpShard (i : Z) (h d : str).

Definition run_op (st : store) (o : op) : outcome (store * bool) :=
  match o with
  | OpSave m => Ok (save_meta st m)
  | OpDelete h => Ok (delete_meta st h)
  | OpStatus h s => update_status st h s
  | OpUpdate m => Ok (update_meta st m)
  | OpShard i h d => Ok (save_meta_shard st i h d)
  end.

(** Whether the database refuses the write that a call makes. A call that writes
    nothing (a save of a digest that is stored, a deletion or a change of status of a
    digest that is not) cannot fail. *)
Definition record_under (st : store) (h : str) : option MetaFile :=
  match db_get (db_ st) h with
  | Some v => match deserialize v with Ok m => Some m | Throw _ => None end
  | None => None
  end.

Definition refused (st : store) (b : list batch_op) : bool := negb (snd (db_write (db_ st) b)).

Definition save_failed (st : store) (m : MetaFile) : bool :=
  match db_get (db_ st) (md5 m) with Some _ => false | None => refused st (save_batch m) end.

Definition delete_failed (st : store) (h : str) : bool :=
  match record_under st h with Some m => refused st (delete_batch h m) | None => false end.

Definition op_failed (st : store) (o : op) : bool :=
  match o with
  | OpSave m => save_failed st m
  | OpDelete h => delete_failed st h
  | OpStatus h s =>
      match record_under st h with
      | Some m => refused st [BPut h (serialize (set_status s m))]
      | None => false
      end
  | OpUpdate m => delete_failed st (md5 m) || save_failed (fst (delete_meta st (md5 m))) m
  | OpShard i h d => refused st [BPut (shard_key h i) (if decide (d = []) then lit "1" else d)]
  end.

(** A database whose writes succeed, now and after any writes. *)
Definition reliable (db : DB) : Prop :=
  exists P : DB -> Prop, P db /\
    forall d b, P d -> snd (db_write d b) = true /\ P (fst (db_write d b)).

(** What the callers owe: well-formed records whose path no other record has, and
    digests without a colon. *)
Definition op_ok (a : index) (o : op) : Prop :=
  match o with
  | OpSave m | OpUpdate m => record_ok m /\ path_free a m
  | OpDelete _ => True
  | OpStatus h s => key_ok h /\ status_wf s
  | OpShard _ _ d => COLON ∉ d
  end.

(** The effect on the index, with the returned boolean and whether a database
    write failed; a failed write left the index as it was or took effect. *)
Inductive spec_step : index -> op -> bool -> bool -> index -> Prop :=
| spec_save_dup a m m0 :
    a !! md5 m = Some m0 -> spec_step a (OpSave m) true false a
| spec_save a m :
    a !! md5 m = None -> spec_step a (OpSave m) true false (<[md5 m := stored m]> a)
| spec_save_error a m a' :
    a !! md5 m = None -> a' = a \/ a' = <[md5 m := stored m]> a ->
    spec_step a (OpSave m) false true a'
| spec_delete_missing a h :
    a !! h = None -> spec_step a (OpDelete h) false false a
| spec_delete a h m :
    a !! h = Some m -> spec_step a (OpDelete h) true false (delete h a)
| spec_delete_error a h m a' :
    a !! h = Some m -> a' = a \/ a' = delete h a -> spec_step a (OpDelete h) false true a'
| spec_status_missing a h s :
    a !! h = None -> spec_step a (OpStatus h s) false false a
| spec_status a h s m :
    a !! h = Some m -> spec_step a (OpStatus h s) true false (<[h := set_status s m]> a)
| spec_status_error a h s m a' :
    a !! h = Some m -> a' = a \/ a' = <[h := set_status s m]> a ->
    spec_step a (OpStatus h s) false true a'
| spec_update a m b1 e1 a1 b2 e2 a2 :
    spec_step a (OpDelete (md5 m)) b1 e1 a1 -> spec_step a1 (OpSave m) b2 e2 a2 ->
    spec_step a (OpUpdate m) b2 (e1 || e2) a2
| spec_shard a i h d b :
    spec_step a (OpShard i h d) b (negb b) a.

(** The statistics of an index, as 64-bit counters. *)
Definition sum_sizes (a : index) : Z := map_fold (fun _ m acc => (size m + acc)%Z) 0%Z a.

Definition stat_of (a : index) : SystemStat :=
  {| file_count := u64 (Z.of_nat (base.size a)); total_size := u64 (sum_sizes a) |}.

Definition stat_ok (st : store) (a : index) : Prop := get_stat st = stat_of a.

Lemma sum_sizes_insert a h m :
  a !! h = None -> sum_sizes (<[h := m]> a) = (size m + sum_sizes a)%Z.
Proof. intros H. unfold sum_sizes. rewrite map_fold_insert_L; [done| |done]. intros; lia. Qed.

Lemma sum_sizes_delete a h m :
  a !! h = Some m -> sum_sizes (delete h a) = (sum_sizes a - size m)%Z.
Proof. intros H. unfold sum_sizes. rewrite (map_fold_delete_L _ _ h m a); [lia| |done]. intros; lia. Qed.

Lemma stat_of_insert a h m :
  a !! h = None -> stat_of (<[h := m]> a) = bump_stat 1 (size m) (stat_of a).
Proof.
  intros H. unfold stat_of, bump_stat. simpl.
  rewrite map_size_insert_None, sum_sizes_insert by done.
  rewrite !wrap_add_l by lia. f_equal; f_equal; lia.
Qed.

Lemma stat_of_delete a h m :
  a !! h = Some m -> stat_of (delete h a) = bump_stat (-1) (- size m) (stat_of a).
Proof.
  intros H. unfold stat_of, bump_stat. simpl. rewrite !wrap_add_l by lia.
  rewrite (sum_sizes_delete _ _ _ H).
  assert (is_Some (a !! h)) as Hs by (by exists m).
  pose proof (map_size_delete_Some (M:=gmap str) h a Hs) as Hsz.
  f_equal; f_equal. rewrite Hsz.
  assert (base.size a <> 0); [|lia].
  intros Hz. apply map_size_empty_inv in Hz. by subst.
Qed.

Lemma stat_of_status a h m s : a !! h = Some m -> stat_of (<[h := set_status s m]> a) = stat_of a.
Proof.
  intros H. rewrite <- insert_delete_eq, stat_of_insert by apply lookup_delete_eq. simpl.
  rewrite <- (insert_id a h m H) at 2. rewrite <- insert_delete_eq.
  by rewrite stat_of_insert by apply lookup_delete_eq.
Qed.

(** ** Each operation refines the abstract step *)

(** What a call promises on a represented index. *)
Definition refines (st : store) (a : index) (o : op) : Prop :=
  exists st' b a',
    run_op st o = Ok (st', b) /\ spec_step a o b (op_failed st o) a' /\ represents st' a' /\
    (op_failed st o = false -> stat_ok st a -> stat_ok st' a').

Lemma reliable_write db b : reliable db -> snd (db_write db b) = true /\ reliable (fst (db_write db b)).
Proof. intros (P & Hd & HP). destruct (HP db b Hd). split; [done|by exists P]. Qed.

Lemma reliable_not_refused st b : reliable (db_ st) -> refused st b = false.
Proof. intros [H _]%(reliable_write _ b). unfold refused. by rewrite H. Qed.

Lemma reliable_commit st m : reliable (db_ st) -> reliable (db_ (fst (save_meta_commit st m))).
Proof.
  intros [_ H]%(reliable_write _ (save_batch m)). unfold save_meta_commit.
  by destruct (db_write _ _) as [db' []].
Qed.

Lemma reliable_delete st h : reliable (db_ st) -> reliable (db_ (fst (delete_meta st h))).
Proof.
  intros H. unfold delete_meta. destruct (db_get _ _) as [v|]; [|done].
  destruct (deserialize v) as [m|e]; [|done].
  apply (reliable_write _ (delete_batch h m)) in H as [_ H]. by destruct (db_write _ _) as [db' []].
Qed.

(** On a reliable database no call fails, and the database stays reliable. *)
Lemma reliable_op st o st' b :
  reliable (db_ st) -> run_op st o = Ok (st', b) -> op_failed st o = false /\ reliable (db_ st').
Proof.
  assert (forall st m, reliable (db_ st) -> save_failed st m = false) as Hs.
  { intros st1 m H. unfold save_failed. case_match; [done|by apply reliable_not_refused]. }
  assert (forall st h, reliable (db_ st) -> delete_failed st h = false) as Hd.
  { intros st1 h H. unfold delete_failed. case_match; [by apply reliable_not_refused|done]. }
  assert (forall st m, reliable (db_ st) -> reliable (db_ (fst (save_meta st m)))) as Hsm.
  { intros st1 m H. unfold save_meta. case_match; [done|by apply reliable_commit]. }
  intros H. destruct o as [m|h|h s|m|i h d]; cbn [run_op op_failed].
  - intros [= E]. rewrite (Hs _ _ H). split; [done|]. by rewrite <- (f_equal fst E : fst _ = st'); apply Hsm.
  - intros [= E]. rewrite (Hd _ _ H). split; [done|].
    by rewrite <- (f_equal fst E : fst _ = st'); apply reliable_delete.
  - unfold update_status, record_under. destruct (db_get _ _) as [v|]; [|by intros [= <- <-]].
    destruct (deserialize v) as [m|e]; [|done]. simpl. unfold db_put, refused.
    destruct (reliable_write _ [BPut h (serialize (set_status s m))] H) as [Hw Hr].
    destruct (db_write _ _) as [db' ok]. simpl in *. subst ok. by intros [= <- <-].
  - intros [= E]. rewrite (Hd _ _ H), (Hs _ _ (reliable_delete _ _ H)). split; [done|].
    unfold update_meta in E. pose proof (reliable_delete _ (md5 m) H) as H1.
    destruct (delete_meta st (md5 m)) as [st1 b1]. rewrite <- (f_equal fst E : fst _ = st'). by apply Hsm.
  - intros [= E]. split; [by apply reliable_not_refused|]. unfold save_meta_shard, db_put in E.
    destruct (reliable_write _ [BPut (shard_key h i) (if decide (d = []) then lit "1" else d)] H) as [_ Hr].
    destruct (db_write _ _) as [db' ok]. by injection E as <- <-.
Qed.

Lemma save_meta_check_dup st a m :
  represents st a -> key_ok (md5 m) -> save_meta_check st m = bool_decide (is_Some (a !! md5 m)).
Proof.
  intros R Hk. unfold save_meta_check. rewrite get_contents, (rep_get _ _ _ R Hk).
  apply bool_decide_ext. by rewrite fmap_is_Some.
Qed.

Lemma save_meta_refines st a m :
  represents st a -> record_ok m -> path_free a m -> refines st a (OpSave m).
Proof.
  intros R Hm Hf. unfold refines, run_op, op_failed, save_failed, save_meta, refused.
  rewrite (save_meta_check_dup _ _ _ R (proj1 Hm)), get_contents, (rep_get _ _ _ R (proj1 Hm)).
  destruct (a !! md5 m) as [m0|] eqn:Ha; cbn [fmap option_fmap option_map].
  { rewrite bool_decide_true by done. exists st, true, a. eauto using spec_step. }
  rewrite bool_decide_false by (by intros [? [=]]). unfold save_meta_commit.
  pose proof (rep_insert _ _ _ R Hm Hf Ha) as Hins.
  destruct (db_write (db_ st) (save_batch m)) as [db' []] eqn:Hw; cbn [snd negb].
  - eexists _, true, (<[md5 m := stored m]> a). split_and!; eauto using spec_step.
    + unfold represents. simpl. by rewrite (write_ok _ _ _ Hw).
    + intros _. unfold stat_ok, get_stat. simpl. rewrite stat_of_insert by done. by intros ->.
  - destruct (write_fail _ _ _ Hw) as [Hc|Hc].
    + exists (set_db st db'), false, a. unfold represents. simpl. rewrite Hc.
      split_and!; eauto using spec_step; done.
    + exists (set_db st db'), false, (<[md5 m := stored m]> a).
      unfold represents. simpl. rewrite Hc. split_and!; eauto using spec_step; done.
Qed.

(** [get_meta]'s second half, shared by [delete_meta] and [update_status]. *)
Lemma stored_record st a h :
  represents st a ->
  match db_get (db_ st) h with
  | None => a !! h = None
  | Some v => match deserialize v with Ok m => a !! h = Some m | Throw _ => a !! h = None end
  end.
Proof.
  intros R. rewrite get_contents. pose proof (fun m => rep_get_md5 _ _ h m R) as Hg.
  destruct (contents (db_ st) !! h) as [v|] eqn:Hv; [destruct (deserialize v) as [m|e] eqn:Hd|].
  - apply Hg. eauto.
  - destruct (a !! h) as [m|] eqn:Hm; [|done].
    destruct (proj2 (Hg m) eq_refl) as (v' & Hv' & Hd'). simplify_eq. congruence.
  - destruct (a !! h) as [m|] eqn:Hm; [|done].
    destruct (proj2 (Hg m) eq_refl) as (v' & Hv' & _). congruence.
Qed.

Lemma delete_meta_refines st a h : represents st a -> refines st a (OpDelete h).
Proof.
  intros R. unfold refines, run_op, op_failed, delete_failed, record_under, delete_meta, refused.
  pose proof (stored_record _ _ h R) as Hr.
  destruct (db_get (db_ st) h) as [v|].
  2: { exists st, false, a. eauto using spec_step. }
  destruct (deserialize v) as [m|e].
  2: { exists st, false, a. eauto using spec_step. }
  pose proof (rep_delete _ _ _ _ R Hr) as Hdel.
  destruct (db_write (db_ st) (delete_batch h m)) as [db' []] eqn:Hw; cbn [snd negb].
  - eexists _, true, (delete h a). split_and!; eauto using spec_step.
    + unfold represents. simpl. by rewrite (write_ok _ _ _ Hw).
    + intros _. unfold stat_ok, get_stat. simpl. rewrite (stat_of_delete _ _ _ Hr). by intros ->.
  - destruct (write_fail _ _ _ Hw) as [Hc|Hc].
    + exists (set_db st db'), false, a. unfold represents. simpl. rewrite Hc.
      split_and!; eauto using spec_step; done.
    + exists (set_db st db'), false, (delete h a). unfold represents. simpl. rewrite Hc.
      split_and!; eauto using spec_step; done.
Qed.

Lemma update_status_refines st a h s :
  represents st a -> key_ok h -> status_wf s -> refines st a (OpStatus h s).
Proof.
  intros R Hk Hs. unfold refines, run_op, op_failed, record_under, update_status, refused.
  pose proof (stored_record _ _ h R) as Hr. pose proof (rep_get _ _ _ R Hk) as Hg.
  rewrite get_contents in *. destruct (a !! h) as [m|] eqn:Hm; rewrite Hg in *; simpl in *.
  2: { exists st, false, a. eauto using spec_step. }
  rewrite (rep_deserialize _ _ _ _ R Hm) in *. simpl.
  pose proof (rep_status _ _ _ _ _ R Hm Hs) as Hst. unfold db_put.
  destruct (db_write (db_ st) _) as [db' []] eqn:Hw; simpl.
  - exists (set_db st db'), true, (<[h := set_status s m]> a).
    split_and!; eauto using spec_step.
    + unfold represents. simpl. by rewrite (write_ok _ _ _ Hw).
    + intros _. unfold stat_ok, get_stat. simpl. by rewrite (stat_of_status _ _ _ _ Hm).
  - destruct (write_fail _ _ _ Hw) as [Hc|Hc].
    + exists (set_db st db'), false, a. unfold represents. simpl. rewrite Hc.
      split_and!; eauto using spec_step; done.
    + exists (set_db st db'), false, (<[h := set_status s m]> a).
      unfold represents. simpl. rewrite Hc. split_and!; eauto using spec_step; done.
Qed.

Lemma save_shard_refines st a i h d :
  represents st a -> COLON ∉ d -> refines st a (OpShard i h d).
Proof.
  intros R Hd. unfold refines, run_op, op_failed, save_meta_shard, db_put, refused.
  set (v := if decide (d = []) then lit "1" else d).
  assert (COLON ∉ v) as Hv. { subst v. case_decide; [by_decide|done]. }
  pose proof (rep_shard _ _ h i v R Hv) as Hsh.
  destruct (db_write (db_ st) _) as [db' b] eqn:Hw.
  exists (set_db st db'), b, a. split_and!; [done|constructor| |done].
  unfold represents. simpl. destruct b.
  - by rewrite (write_ok _ _ _ Hw).
  - by destruct (write_fail _ _ _ Hw) as [->| ->].
Qed.

Lemma spec_delete_path_free a h b err a' m :
  spec_step a (OpDelete h) b err a' -> path_free a m -> path_free a' m.
Proof.
  intros Hs Hf h' m' Hm'. apply Hf. inversion Hs; subst; try done.
  - by apply lookup_delete_Some in Hm' as [_ ?].
  - destruct H2 as [->| ->]; [done|]. by apply lookup_delete_Some in Hm' as [_ ?].
Qed.

Lemma run_op_refines st a o : represents st a -> op_ok a o -> refines st a o.
Proof.
  intros R. destruct o as [m|h|h s|m|i h d]; simpl.
  - intros [? ?]. by apply save_meta_refines.
  - intros _. by apply delete_meta_refines.
  - intros [? ?]. by apply update_status_refines.
  - intros [Hm Hf]. unfold refines, run_op, update_meta.
    destruct (delete_meta_refines st a (md5 m) R) as (st1 & b1 & a1 & H1 & S1 & R1 & T1).
    pose proof (spec_delete_path_free _ _ _ _ _ _ S1 Hf) as Hf1. injection H1 as H1. cbn [op_failed].
    rewrite H1. destruct (save_meta_refines st1 a1 m R1 Hm Hf1) as (st2 & b2 & a2 & H2 & S2 & R2 & T2).
    exists st2, b2, a2. split_and!; [done|by econstructor|done|].
    intros [? ?]%orb_false_iff ?. auto.
  - by apply save_shard_refines.
Qed.

(** ** Sequences of operations *)

Fixpoint run_ops (st : store) (ops : list op) : outcome (store * list bool) :=
  match ops with
  | [] => Ok (st, [])
  | o :: ops' =>
      outcome_bind (run_op st o) (fun '(st1, b) =>
      outcome_bind (run_ops st1 ops') (fun '(st2, bs) => Ok (st2, b :: bs)))
  end.

(** Which of the calls had their write refused. *)
Fixpoint ops_failed (st : store) (ops : list op) : list bool :=
  match ops with
  | [] => []
  | o :: ops' =>
      op_failed st o :: match run_op st o with Ok (st1, _) => ops_failed st1 ops' | Throw _ => [] end
  end.

(** The steps of the calls, with their results and which of them took the error case. *)
Inductive spec_trace : index -> list op -> list bool -> list bool -> index -> Prop :=
| trace_nil a : spec_trace a [] [] [] a
| trace_cons a o b e a1 ops bs es a2 :
    spec_step a o b e a1 -> spec_trace a1 ops bs es a2 ->
    spec_trace a (o :: ops) (b :: bs) (e :: es) a2.

(** The callers keep their side of [op_ok] in every state they may be in. *)
Fixpoint safe (a : index) (ops : list op) : Prop :=
  match ops with
  | [] => True
  | o :: ops' => op_ok a o /\ forall b e a', spec_step a o b e a' -> safe a' ops'
  end.

Lemma run_ops_refines_aux ops st a :
  represents st a -> safe a ops ->
  exists st' bs a',
    run_ops st ops = Ok (st', bs) /\ spec_trace a ops bs (ops_failed st ops) a' /\ represents st' a' /\
    (true ∉ ops_failed st ops -> stat_ok st a -> stat_ok st' a').
Proof.
  revert st a. induction ops as [|o ops IH]; intros st a R; simpl.
  { intros _. exists st, [], a. eauto using spec_trace. }
  intros [Ho Hsafe]. destruct (run_op_refines _ _ _ R Ho) as (st1 & b & a1 & H1 & S1 & R1 & T1).
  destruct (IH _ _ R1 (Hsafe _ _ _ S1)) as (st2 & bs & a2 & H2 & S2 & R2 & T2).
  exists st2, (b :: bs), a2. rewrite H1. simpl. rewrite H2. simpl.
  split_and!; [done|by econstructor|done|]. intros [Hne ?]%not_elem_of_cons ?.
  apply T2; [done|]. apply T1; [|done]. by destruct (op_failed st o).
Qed.

(** A successful save of a new record extends the index. *)
Lemma save_meta_new st a m st1 :
  represents st a -> record_ok m -> path_free a m -> a !! md5 m = None ->
  save_meta st m = (st1, true) ->
  represents st1 (<[md5 m := stored m]> a) /\ get_meta st1 (md5 m) = Some (stored m).
Proof.
  intros R Hm Hf Ha Hsave.
  destruct (save_meta_refines _ _ _ R Hm Hf) as (st1' & b1 & a1 & H1 & S1 & R1 & _).
  injection H1 as H1. rewrite Hsave in H1. injection H1 as <- <-.
  assert (a1 = <[md5 m := stored m]> a) as -> by (inversion S1; subst; congruence).
  split; [done|]. apply (get_meta_found _ _ _ _ R1). unfold found, is_md5.
  rewrite bool_decide_true by apply Hm. simpl. by rewrite lookup_insert_eq.
Qed.

(** ** Records that are kept *)

(** The record under a digest, if there is one. *)
Lemma get_meta_digest st h : key_ok h ->
  get_meta st h = match contents (db_ st) !! h with
                  | Some v => match deserialize v with Ok m => Some m | Throw _ => None end
                  | None => None
                  end.
Proof. intros [Hl _]. unfold get_meta, is_md5. by rewrite bool_decide_true, get_contents by done. Qed.

(** A digest with a record is found by the look-up of [save_meta]. *)
Lemma save_meta_check_kept st m x :
  key_ok (md5 m) -> get_meta st (md5 m) = Some x -> save_meta_check st m = true.
Proof.
  intros Hk. rewrite get_meta_digest by done. unfold save_meta_check. rewrite get_contents.
  by destruct (contents (db_ st) !! md5 m).
Qed.

(** The locked section of [save_meta] leaves the record under any other digest. *)
Lemma save_meta_commit_keeps st m h :
  key_ok h -> md5 m <> h -> get_meta (fst (save_meta_commit st m)) h = get_meta st h.
Proof.
  intros Hk Hne. rewrite !get_meta_digest by done. unfold save_meta_commit.
  assert (apply_batch (save_batch m) (contents (db_ st)) !! h = contents (db_ st) !! h) as Hb.
  { apply save_batch_out. intros v [[-> _]|[[E _]|[E _]]]%entries_of_keys.
    - done.
    - by apply (key_ok_path h (path m)).
    - by apply (key_ok_scene h (scene m) (mtime m) (md5 m)). }
  destruct (db_write (db_ st) (save_batch m)) as [db' []] eqn:E; cbn [fst db_ set_db set_stat].
  - by rewrite (write_ok _ _ _ E), Hb.
  - destruct (write_fail _ _ _ E) as [-> | ->]; by rewrite ?Hb.
Qed.

(** Saving a record leaves every stored record as it is. *)
Lemma save_meta_keeps st m h x :
  key_ok h -> get_meta st h = Some x -> get_meta (fst (save_meta st m)) h = Some x.
Proof.
  intros Hk Hx. unfold save_meta. destruct (save_meta_check st m) eqn:Hc; [done|].
  rewrite save_meta_commit_keeps; [done..|]. intros <-.
  by rewrite (save_meta_check_kept _ _ _ Hk Hx) in Hc.
Qed.

(** * Properties *)

(** C1: the store implements the map from MD5 to record. Calls of save, delete,
    status, update and shard whose callers keep the conditions of [safe] (digests are
    32 bytes without a colon, the texts of a record are UTF-8 and its numbers fit
    their types, no other stored record has the path of a saved one) run to the end
    without an exception, return what the map returns and leave a database that
    stores exactly the map, whichever of their writes the database refuses: the
    error case of the map is taken by the calls whose write was refused and by no
    others, and leaves the map as it was or changed as by a success. Reads of the
    database succeed. *)
Theorem run_ops_refines ops st a :
  represents st a -> safe a ops ->
  exists st' bs a',
    run_ops st ops = Ok (st', bs) /\ spec_trace a ops bs (ops_failed st ops) a' /\
    represents st' a'.
Proof.
  intros R Hs. destruct (run_ops_refines_aux ops st a R Hs) as (st' & bs & a' & ? & ? & ? & _).
  by exists st', bs, a'.
Qed.

(** C18: on a store opened over an empty database the cached statistics equal, after
    any sequence of calls that keeps the conditions of [safe] and of which the
    database refused no write, the number of records and the sum of their sizes, as
    64-bit counters, for the map the calls lead to without an error. *)
Theorem cached_stat_exact db c st ops :
  MetadataStore_new (inl db) c = Ok st -> contents db = ∅ -> safe ∅ ops ->
  true ∉ ops_failed st ops ->
  exists st' bs a',
    run_ops st ops = Ok (st', bs) /\ spec_trace ∅ ops bs (ops_failed st ops) a' /\ represents st' a' /\
    get_stat st' = stat_of a'.
Proof.
  intros [= <-] Hdb Hs Hf.
  destruct (run_ops_refines_aux ops {| db_ := db; cached_stat_ := zero_stat; config_ := c |} ∅)
    as (st' & bs & a' & ? & ? & ? & Hst); [|done|].
  - unfold represents. simpl. rewrite Hdb. apply rep_empty.
  - exists st', bs, a'. split_and!; [done..|]. by apply Hst.
Qed.

(** [get_meta] finds a record by its MD5, or by its path when the key is not 32
    bytes long, and finds nothing else. *)
Theorem get_meta_spec st a key m :
  represents st a ->
  get_meta st key = Some m <->
  a !! md5 m = Some m /\ (if is_md5 key then md5 m = key else path m = key).
Proof. apply get_meta_found. Qed.

(** A successful [save_meta] of a new record makes it readable under its MD5 and
    its path (unless the path is 32 bytes long), and a successful [delete_meta]
    then makes both look-ups fail. *)
Theorem save_get_delete st a m st1 st2 :
  represents st a -> record_ok m -> path_free a m -> a !! md5 m = None ->
  save_meta st m = (st1, true) -> delete_meta st1 (md5 m) = (st2, true) ->
  get_meta st1 (md5 m) = Some (stored m) /\
  (length (path m) <> 32 -> get_meta st1 (path m) = Some (stored m)) /\
  get_meta st2 (md5 m) = None /\
  (length (path m) <> 32 -> get_meta st2 (path m) = None).
Proof.
  intros R Hm Hf Ha Hsave Hdel. destruct (save_meta_new _ _ _ _ R Hm Hf Ha Hsave) as [R1 Hget].
  destruct (delete_meta_refines _ _ (md5 m) R1) as (st2' & b2 & a2 & H2 & S2 & R2 & _).
  injection H2 as H2. rewrite Hdel in H2. injection H2 as <- <-.
  assert (a2 = a) as ->.
  { inversion S2; subst. by apply delete_insert_id. }
  assert (is_md5 (md5 m) = true) as Hmd by (apply bool_decide_true, Hm).
  split_and!.
  - exact Hget.
  - intros Hl. apply (get_meta_found _ _ _ _ R1). unfold found, is_md5.
    rewrite bool_decide_false by done. simpl. by rewrite lookup_insert_eq.
  - apply eq_None_not_Some. intros [m' Hm']. apply (get_meta_found _ _ _ _ R2) in Hm' as [Hm' Hk].
    rewrite Hmd in Hk. congruence.
  - intros Hl. apply eq_None_not_Some. intros [m' Hm'].
    apply (get_meta_found _ _ _ _ R2) in Hm' as [Hm' Hk]. unfold is_md5 in Hk.
    rewrite bool_decide_false in Hk by done. pose proof (Hf _ _ Hm' Hk). congruence.
Qed.

(** C39: a record with a string that is not UTF-8 is stored as an empty value:
    [save_meta] answers true, but the record cannot be read or deleted, its status
    cannot be changed (the exception of [deserialize] escapes), and every later
    save under the same MD5 is dropped as a duplicate. *)
Theorem save_meta_poisons st m st' :
  key_ok (md5 m) -> meta_utf8 m = false -> db_get (db_ st) (md5 m) = None ->
  save_meta st m = (st', true) ->
  get_meta st' (md5 m) = None /\ delete_meta st' (md5 m) = (st', false) /\
  (forall s, exists e, update_status st' (md5 m) s = Throw e) /\
  (forall m', md5 m' = md5 m -> save_meta st' m' = (st', true)).
Proof.
  intros Hk Hser%serialize_empty Hnone. unfold save_meta, save_meta_check. rewrite Hnone. simpl.
  unfold save_meta_commit. destruct (db_write (db_ st) (save_batch m)) as [db' []] eqn:Hw; [|done].
  intros [= <-].
  assert (db_get db' (md5 m) = Some []) as Hget.
  { rewrite get_contents, (write_ok _ _ _ Hw). apply save_batch_in; [done|].
    apply entries_of_keys. left. by rewrite Hser. }
  assert (exists e, deserialize [] = Throw e) as [e He].
  { unfold deserialize. destruct parse_empty as [e ->]. by exists e. }
  assert (is_md5 (md5 m) = true) as Hmd by (apply bool_decide_true, Hk).
  split_and!.
  - unfold get_meta. rewrite Hmd. simpl. by rewrite Hget, He.
  - unfold delete_meta. simpl. by rewrite Hget, He.
  - intros s. exists e. unfold update_status. simpl. by rewrite Hget, He.
  - intros m' Hm'. rewrite Hm'. simpl. by rewrite Hget.
Qed.

End Refine.

(** * Witnesses: the in-memory database and the tagged JSON codec *)

Import TaggedJson.

Definition fresh_store : store := {|
  db_ := (MemDB.empty : @DB MemDB.mem_leveldb);
  cached_stat_ := zero_stat; config_ := default_metaConfig |}.

Definition demo_ops : list op :=
  [ OpSave test_meta; OpStatus (md5 test_meta) DELETED;
    OpShard 3 (md5 test_meta) (lit "abcd"); OpDelete (md5 test_meta) ].

Lemma fresh_represents : represents fresh_store ∅.
Proof. apply rep_empty. Qed.

Lemma test_meta_ok : record_ok test_meta.
Proof. split_and!; by_decide || by vm_compute. Qed.

Lemma path_free_empty m : path_free ∅ m.
Proof. intros h m'. by rewrite lookup_empty. Qed.

Lemma demo_safe : safe ∅ demo_ops.
Proof.
  split; [split; [apply test_meta_ok|apply path_free_empty]|]. intros ? ? ? _.
  split; [split; by_decide|]. intros ? ? ? _. split; [by_decide|]. intros ? ? ? _. by split.
Qed.

(** The database of the witnesses refuses no write. *)
Lemma mem_reliable : reliable (MemDB.empty : @DB MemDB.mem_leveldb).
Proof.
  exists (fun d => MemDB.disk_full d = false). split; [done|].
  intros [c full] b. simpl. by intros ->.
Qed.

Lemma demo_not_failed : true ∉ ops_failed fresh_store demo_ops.
Proof. by_decide. Qed.

Lemma run_ops_refines_witness :
  represents fresh_store ∅ /\ safe ∅ demo_ops /\
  exists st' bs a',
    run_ops fresh_store demo_ops = Ok (st', bs) /\ spec_trace ∅ demo_ops bs [false; false; false; false] a' /\
    represents st' a'.
Proof.
  split; [exact fresh_represents|]. split; [exact demo_safe|].
  assert (ops_failed fresh_store demo_ops = [false; false; false; false]) as E by (vm_compute; reflexivity).
  rewrite <- E. exact (run_ops_refines demo_ops fresh_store ∅ fresh_represents demo_safe).
Defined.

Lemma cached_stat_exact_witness :
  exists st' bs a',
    run_ops fresh_store demo_ops = Ok (st', bs) /\ spec_trace ∅ demo_ops bs (ops_failed fresh_store demo_ops) a' /\
    represents st' a' /\ get_stat st' = stat_of a'.
Proof.
  apply (cached_stat_exact (MemDB.empty : @DB MemDB.mem_leveldb) default_metaConfig);
    [reflexivity | reflexivity | exact demo_safe | exact demo_not_failed].
Defined.

Definition saved_store : store := fst (save_meta fresh_store test_meta).

Lemma saved_represents : represents saved_store {[md5 test_meta := stored test_meta]}.
Proof.
  apply (rep_insert (MemDB.mem MemDB.empty) ∅ test_meta);
    [apply rep_empty | apply test_meta_ok | apply path_free_empty | done].
Qed.

Lemma get_meta_spec_witness : get_meta saved_store (path test_meta) = Some test_meta.
Proof. apply (get_meta_spec saved_store _ _ _ saved_represents). by_decide. Defined.

Lemma save_get_delete_witness :
  get_meta saved_store (md5 test_meta) = Some (stored test_meta).
Proof.
  refine (proj1 (save_get_delete fresh_store ∅ test_meta saved_store
            (fst (delete_meta saved_store (md5 test_meta))) fresh_represents test_meta_ok
            (path_free_empty _) _ _ _));
    [reflexivity | apply pair_fst; vm_compute; reflexivity..].
Defined.

Lemma save_meta_poisons_witness :
  get_meta (fst (save_meta fresh_store gbk_meta)) (md5 gbk_meta) = None.
Proof.
  refine (proj1 (save_meta_poisons fresh_store gbk_meta
            (fst (save_meta fresh_store gbk_meta)) _ _ _ _));
    [by_decide | vm_compute; reflexivity | reflexivity | apply pair_fst; vm_compute; reflexivity].
Defined.
