(* ===== verification/MetaConc.v ===== *)
(** The metadata store under concurrent calls ([file/MetadataStore.cpp]): each call
    is cut into the sections its lock makes atomic, and any number of threads
    interleave them. [save_meta] looks the record up before it takes the lock, and
    [update_meta] releases the lock between its deletion and its save. *)

From stdpp Require Import base list strings gmap sorting numbers fin_maps.
From Stdlib Require Import ZArith Ascii Lia.
From S2P Require Import Prelude Json MetaFile LevelDB MetadataStore MetaRefine.

Section Conc.
Context {L : LevelDB} {LS : LevelDBSpec L} {J : JsonLib} {JL : JsonLaws J}.

(** ** Threads *)

(** Where a call stands: before its next locked section (for [save_meta], before
    its unlocked look-up), between the look-up and the lock of [save_meta],
    returned, or left by an exception. *)
Inductive thread : Type :=
| Run (o : op)
| Committing (m : MetaFile)
| Finished (b : bool)
| Escaped (e : str).

(** One atomic section of a call. *)
Definition thread_step (st : store) (t : thread) : option (store * thread) :=
  match t with
  | Run (OpSave m) =>
      Some (st, if save_meta_check st m then Finished true else Committing m)
  | Run (OpUpdate m) => Some (fst (delete_meta st (md5 m)), Run (OpSave m))
  | Run o => match run_op st o with
             | Ok (st', b) => Some (st', Finished b)
             | Throw e => Some (st, Escaped e)
             end
  | Committing m => let '(st', b) := save_meta_commit st m in Some (st', Finished b)
  | Finished _ | Escaped _ => None
  end.

Record config : Type := { shared : store; threads : list thread }.

Inductive meta_step : config -> config -> Prop :=
| meta_step_thread st ts i t st' t' :
    ts !! i = Some t -> thread_step st t = Some (st', t') ->
    meta_step {| shared := st; threads := ts |} {| shared := st'; threads := <[i := t']> ts |}.

(** One thread per call. *)
Definition spawn (st : store) (ops : list op) : config :=
  {| shared := st; threads := Run <$> ops |}.

(** The same, as a function of the schedule: a thread that cannot step is skipped. *)
Fixpoint run_schedule (c : config) (sched : list nat) : config :=
  match sched with
  | [] => c
  | i :: sched' =>
      run_schedule
        match threads c !! i with
        | Some t => match thread_step (shared c) t with
                    | Some (st', t') => {| shared := st'; threads := <[i := t']> (threads c) |}
                    | None => c
                    end
        | None => c
        end sched'
  end.

Lemma run_schedule_steps sched c : rtc meta_step c (run_schedule c sched).
Proof.
  revert c. induction sched as [|i sched IH]; intros [st ts]; simpl; [apply rtc_refl|].
  destruct (ts !! i) as [t|] eqn:Hi; [|apply IH].
  destruct (thread_step st t) as [[st' t']|] eqn:Ht; [|apply IH].
  eapply rtc_l; [by eapply meta_step_thread|apply IH].
Qed.

(** ** The abstract machine *)

(** Records with the same index keys. *)
Definition same_keys (m m' : MetaFile) : Prop :=
  md5 m = md5 m' /\ path m = path m' /\ scene m = scene m' /\ mtime m = mtime m'.

(** What one section did: the thread, the call of the index it amounts to, its
    result, whether a write failed, and whether it saved over a record that another
    thread had saved after the look-up. *)
Record event : Type := {
  ev_thread : nat; ev_op : op; ev_res : bool; ev_err : bool; ev_late : bool }.

Inductive abs_step (a : index) : event -> index -> Prop :=
| abs_seq i o b e a' :
    spec_step a o b e a' ->
    abs_step a {| ev_thread := i; ev_op := o; ev_res := b; ev_err := e; ev_late := false |} a'
| abs_late i m m0 b a' :
    a !! md5 m = Some m0 -> same_keys m0 m ->
    a' = <[md5 m := stored m]> a \/ b = false /\ a' = a ->
    abs_step a {| ev_thread := i; ev_op := OpSave m; ev_res := b; ev_err := negb b;
                  ev_late := true |} a'.

Inductive abs_trace (a0 : index) : list event -> index -> Prop :=
| abs_nil : abs_trace a0 [] a0
| abs_snoc tr a e a' : abs_trace a0 tr a -> abs_step a e a' -> abs_trace a0 (tr ++ [e]) a'.

Definition by_thread (i : nat) (tr : list event) : list event :=
  filter (fun e => ev_thread e = i) tr.

(** The calls of the index one call of the store amounts to: [update_meta] is a
    deletion and, later, a save. *)
Definition sections (o : op) : list op :=
  match o with
  | OpUpdate m => [OpDelete (md5 m); OpSave m]
  | _ => [o]
  end.

(** ** What the callers owe *)

Definition saves (o : op) : option MetaFile :=
  match o with OpSave m | OpUpdate m => Some m | _ => None end.

(** Two records that may be saved at once. *)
Definition coherent (m m' : MetaFile) : Prop :=
  (md5 m = md5 m' -> same_keys m m') /\ (path m = path m' -> md5 m = md5 m').

Record conc_ok (a : index) (ops : list op) : Prop := {
  conc_each i o : ops !! i = Some o -> op_ok a o;
  conc_pair i j o o' m m' :
    ops !! i = Some o -> ops !! j = Some o' -> i <> j ->
    saves o = Some m -> saves o' = Some m' -> coherent m m'; }.

(** Two threads that save a record with this digest. *)
Definition saved_twice (ops : list op) (h : str) : Prop :=
  exists i j o o' m m', i <> j /\ ops !! i = Some o /\ ops !! j = Some o' /\
    saves o = Some m /\ saves o' = Some m' /\ md5 m = h /\ md5 m' = h.

(** ** The simulation *)

(** The record a thread is about to write over the index is absent, or another
    thread saved one with the same keys. *)
Definition pending_ok (ops : list op) (a : index) (m : MetaFile) : Prop :=
  forall m0, a !! md5 m = Some m0 -> same_keys m0 m /\ saved_twice ops (md5 m).

(** A thread of call [o], with the events [es] it caused so far. *)
Inductive thread_sim (ops : list op) (a : index) (o : op) : thread -> list event -> Prop :=
| sim_start : thread_sim ops a o (Run o) []
| sim_updating m e :
    o = OpUpdate m -> ev_op e = OpDelete (md5 m) -> thread_sim ops a o (Run (OpSave m)) [e]
| sim_committing m es :
    saves o = Some m -> (ev_op <$> es) ++ [OpSave m] = sections o -> pending_ok ops a m ->
    thread_sim ops a o (Committing m) es
| sim_finished es e :
    ev_op <$> (es ++ [e]) = sections o -> thread_sim ops a o (Finished (ev_res e)) (es ++ [e]).

Record sim (st0 : store) (a0 : index) (ops : list op) (c : config) (tr : list event) (a : index)
  : Prop := {
  sim_trace : abs_trace a0 tr a;
  sim_rep : represents (shared c) a;
  sim_length : length (threads c) = length ops;
  sim_threads i o t :
    ops !! i = Some o -> threads c !! i = Some t -> thread_sim ops a o t (by_thread i tr);
  sim_owner e : e ∈ tr -> exists o, ops !! ev_thread e = Some o /\ ev_op e ∈ sections o;
  sim_paths i o m : ops !! i = Some o -> saves o = Some m -> path_free a m;
  sim_late e : e ∈ tr -> ev_late e = true ->
    exists m, ev_op e = OpSave m /\ saved_twice ops (md5 m);
  sim_errors : reliable (db_ st0) ->
    reliable (db_ (shared c)) /\ Forall (fun e => ev_err e = false) tr;
  sim_stat : stat_ok st0 a0 -> Forall (fun e => ev_err e = false /\ ev_late e = false) tr ->
    stat_ok (shared c) a; }.

(** ** Lemmas on the index *)

Lemma same_keys_refl m : same_keys m m.
Proof. done. Qed.

Lemma same_keys_trans m1 m2 m3 : same_keys m1 m2 -> same_keys m2 m3 -> same_keys m1 m3.
Proof. intros (?&?&?&?) (?&?&?&?). split_and!; congruence. Qed.

Lemma same_keys_sym m m' : same_keys m m' -> same_keys m' m.
Proof. intros (?&?&?&?). by split_and!. Qed.

(** Saving over a record with the same keys replaces it. *)
Lemma rep_overwrite c a m m0 :
  Rep c a -> record_ok m -> path_free a m -> a !! md5 m = Some m0 -> same_keys m0 m ->
  Rep (apply_batch (save_batch m) c) (<[md5 m := stored m]> a).
Proof.
  intros R Hm Hf Ha (Hh & Hp & Hs & Ht).
  pose proof (rep_delete _ _ _ _ R Ha) as Rd.
  assert (path_free (delete (md5 m) a) m) as Hfd.
  { intros h m' [_ Hm']%lookup_delete_Some. by apply Hf. }
  pose proof (rep_insert _ _ _ Rd Hm Hfd (lookup_delete_eq _ _)) as Ri.
  rewrite insert_delete_eq in Ri.
  replace (apply_batch (save_batch m) c) with
    (apply_batch (save_batch m) (apply_batch (delete_batch (md5 m) m0) c)); [done|].
  apply map_eq. intros k. destruct (entries_of_dec m k) as [[v Hv]|Hout].
  - by rewrite !(save_batch_in _ _ _ _ (proj1 Hm) Hv).
  - rewrite !save_batch_out by done. rewrite <- Hh. apply delete_batch_out. intros v Hv.
    rewrite entries_of_keys in Hv. rewrite Hh, Hp, Hs, Ht in Hv.
    destruct Hv as [[-> _]|[[-> _]|[-> _]]]; eapply Hout; apply entries_of_keys; eauto.
Qed.

(** The batch of [save_meta] succeeded, failed without effect, or failed after it. *)
Lemma commit_cases st m st' b :
  save_meta_commit st m = (st', b) ->
  (contents (db_ st') = apply_batch (save_batch m) (contents (db_ st)) \/
   b = false /\ contents (db_ st') = contents (db_ st)) /\
  (b = true -> get_stat st' = bump_stat 1 (size m) (get_stat st)).
Proof.
  unfold save_meta_commit. destruct (db_write _ _) as [db' []] eqn:Hw; intros [= <- <-]; simpl.
  - split; [|done]. left. by apply write_ok in Hw.
  - split; [|done]. apply write_fail in Hw as [?|?]; auto.
Qed.

(** The records an index may gain are the ones its callers save. *)
Lemma spec_step_records a o b e a' h m :
  spec_step a o b e a' -> a' !! h = Some m ->
  (exists m0, a !! h = Some m0 /\ same_keys m0 m) \/
  (exists m1, saves o = Some m1 /\ same_keys m1 m /\ h = md5 m1).
Proof.
  assert (forall (a : index) h h' m s m0, a !! h' = Some m0 ->
    <[h' := set_status s m0]> a !! h = Some m -> exists m0, a !! h = Some m0 /\ same_keys m0 m) as Hst.
  { intros ? ? ? ? ? m0 Hm0 [[<- <-]|[_ ?]]%lookup_insert_Some; [by exists m0|by eauto using same_keys_refl]. }
  assert (forall (a : index) h m m1, <[md5 m1 := stored m1]> a !! h = Some m ->
    (exists m0, a !! h = Some m0 /\ same_keys m0 m) \/ same_keys m1 m /\ h = md5 m1) as Hin.
  { intros ? ? ? m1 [[<- <-]|[_ ?]]%lookup_insert_Some; [by right|left; by eauto using same_keys_refl]. }
  assert (forall (a : index) h h' m, delete h' a !! h = Some m -> exists m0, a !! h = Some m0 /\ same_keys m0 m) as Hdel.
  { intros ? ? ? ? [_ ?]%lookup_delete_Some. by eauto using same_keys_refl. }
  intros Hs. revert h m. induction Hs; intros h' m' Hm'; simpl;
    repeat match goal with H : _ = _ \/ _ = _ |- _ => destruct H as [->| ->] end;
    eauto using same_keys_refl;
    try (destruct (Hin _ _ _ _ Hm') as [?|[? ?]]; by eauto).
  destruct (IHHs2 _ _ Hm') as [(m0 & Hm0 & Hk)|?]; [|by right].
  destruct (IHHs1 _ _ Hm0) as [(m1 & Hm1 & Hk1)|(? & ? & _)]; [|done].
  left. eauto using same_keys_trans.
Qed.

Lemma abs_step_records a ev a' h m :
  abs_step a ev a' -> a' !! h = Some m ->
  (exists m0, a !! h = Some m0 /\ same_keys m0 m) \/
  (exists m1, saves (ev_op ev) = Some m1 /\ same_keys m1 m /\ h = md5 m1).
Proof.
  intros [i o b e a1 Hs|i m1 m0 b a1 Hm0 Hk [->|[_ ->]]] Hm; simpl.
  - by eapply spec_step_records.
  - apply lookup_insert_Some in Hm as [[<- <-]|[_ Hm]]; [|left; by eauto using same_keys_refl].
    right. by exists m1.
  - left. eauto using same_keys_refl.
Qed.

(** ** Each section is one step of the abstract machine, or none *)

Section Step.
Context (st0 : store) (a0 : index) (ops : list op) (Hok : conc_ok a0 ops).

(** A section of the call [o] of thread [i]. *)
Definition event_of (i : nat) (o : op) (e : event) : Prop :=
  ev_thread e = i /\ ev_op e ∈ sections o.

Lemma sections_saves o o1 m : o1 ∈ sections o -> saves o1 = Some m -> saves o = Some m.
Proof.
  destruct o; cbn [sections]; rewrite ?elem_of_cons, ?elem_of_nil; intros Hin; destruct_or! Hin; by subst.
Qed.

Lemma pending_step i j o o' a e a' m :
  ops !! i = Some o -> ops !! j = Some o' -> i <> j -> event_of i o e -> saves o' = Some m ->
  abs_step a e a' -> pending_ok ops a m -> pending_ok ops a' m.
Proof.
  intros Hi Hj Hne [_ Hev] Hm Hs Hp m0 Hm0.
  destruct (abs_step_records _ _ _ _ _ Hs Hm0) as [(m1 & Hm1 & Hk)|(m1 & Hm1 & Hk & Hh)].
  - destruct (Hp _ Hm1) as [Hk1 ?]. eauto using same_keys_trans, same_keys_sym.
  - apply (sections_saves o) in Hm1; [|done]. destruct (conc_pair _ _ Hok i j _ _ _ _ Hi Hj Hne Hm1 Hm) as [Hc _].
    split; [eauto using same_keys_trans, same_keys_sym|].
    exists i, j, o, o', m1, m. by split_and!.
Qed.

Lemma paths_step i j o o' a e a' m :
  ops !! i = Some o -> ops !! j = Some o' -> event_of i o e -> saves o' = Some m ->
  abs_step a e a' -> path_free a m -> path_free a' m.
Proof.
  intros Hi Hj [_ Hev] Hm Hs Hf h m0 Hm0 Hp.
  destruct (abs_step_records _ _ _ _ _ Hs Hm0) as [(m1 & Hm1 & Hk)|(m1 & Hm1 & Hk & ->)].
  - apply (Hf _ _ Hm1). destruct Hk as (_ & -> & _). done.
  - apply (sections_saves o) in Hm1; [|done]. destruct (decide (i = j)) as [->|Hne]; [congruence|].
    destruct (conc_pair _ _ Hok i j _ _ _ _ Hi Hj Hne Hm1 Hm) as [_ Hc].
    apply Hc. destruct Hk as (_ & -> & _). done.
Qed.

Lemma thread_sim_step i j o o' a e a' t es :
  ops !! i = Some o -> ops !! j = Some o' -> i <> j -> event_of i o e ->
  abs_step a e a' -> thread_sim ops a o' t es -> thread_sim ops a' o' t es.
Proof.
  intros Hi Hj Hne Hev Hs [|m e' ? ?|m es' Hm ? ?|es' e' ?];
    eauto using thread_sim, pending_step.
Qed.

Lemma by_thread_snoc i tr e :
  by_thread i (tr ++ [e]) = by_thread i tr ++ (if decide (ev_thread e = i) then [e] else []).
Proof. unfold by_thread. by rewrite filter_app, filter_cons, filter_nil. Qed.

(** A section that shows in the index. *)
Lemma sim_emit st ts tr a i t o st' t' e a' :
  sim st0 a0 ops {| shared := st; threads := ts |} tr a ->
  ts !! i = Some t -> ops !! i = Some o -> event_of i o e -> abs_step a e a' ->
  represents st' a' -> thread_sim ops a' o t' (by_thread i tr ++ [e]) ->
  (ev_late e = true -> exists m, ev_op e = OpSave m /\ saved_twice ops (md5 m)) ->
  (reliable (db_ st) -> ev_err e = false /\ reliable (db_ st')) ->
  (ev_err e = false -> ev_late e = false -> stat_ok st a -> stat_ok st' a') ->
  sim st0 a0 ops {| shared := st'; threads := <[i := t']> ts |} (tr ++ [e]) a'.
Proof.
  intros [Htr Hrep Hlen Hth How Hpa Hla Her Hst] Hi Ho Hev Hs Hrep' Ht' Hlate Herr Hstat. simpl in *.
  split; simpl.
  - by econstructor.
  - done.
  - by rewrite length_insert.
  - intros j o' t1 Hj [(-> & -> & _)|[Hne Ht1]]%list_lookup_insert_Some.
    + rewrite Ho in Hj. injection Hj as <-. rewrite by_thread_snoc, decide_True; [done|apply Hev].
    + rewrite by_thread_snoc, decide_False, app_nil_r by (by rewrite (proj1 Hev)).
      eapply (thread_sim_step i j); eauto.
  - intros e' [He'|He']%elem_of_app; [by apply How|].
    apply list_elem_of_singleton in He' as ->. destruct Hev as [-> Hin]. eauto.
  - intros j o' m Hj Hm. eapply (paths_step i j); eauto.
  - intros e' [He'|He']%elem_of_app; [by apply Hla|].
    apply list_elem_of_singleton in He' as ->. done.
  - intros [Hr Hall]%Her. destruct (Herr Hr). split; [done|]. by apply Forall_app_2, Forall_singleton.
  - intros H0 [Hall Hlast]%Forall_app. apply Forall_singleton in Hlast as [? ?]. auto.
Qed.

(** A section that only looks. *)
Lemma sim_silent st ts tr a i t o t' :
  sim st0 a0 ops {| shared := st; threads := ts |} tr a ->
  ts !! i = Some t -> ops !! i = Some o -> thread_sim ops a o t' (by_thread i tr) ->
  sim st0 a0 ops {| shared := st; threads := <[i := t']> ts |} tr a.
Proof.
  intros [Htr Hrep Hlen Hth How Hpa Hla Her Hst] Hi Ho Ht'. simpl in *. split; simpl; auto.
  - by rewrite length_insert.
  - intros j o' t1 Hj [(-> & -> & _)|[Hne Ht1]]%list_lookup_insert_Some; [|by auto].
    by rewrite Ho in Hj; injection Hj as <-.
Qed.

(** The configuration is simulated by the trace with at most one more event. *)
Definition advances (c : config) (tr : list event) : Prop :=
  exists tr' a', length tr' <= 1 /\ sim st0 a0 ops c (tr ++ tr') a'.

Lemma advances_emit c tr e a' : sim st0 a0 ops c (tr ++ [e]) a' -> advances c tr.
Proof. intros S. exists [e], a'. by split. Qed.

Lemma advances_silent c tr a' : sim st0 a0 ops c tr a' -> advances c tr.
Proof. intros S. exists [], a'. rewrite app_nil_r. split; [simpl; lia|done]. Qed.

(** The look-up of [save_meta]. *)
Lemma sim_check st ts tr a i o m :
  sim st0 a0 ops {| shared := st; threads := ts |} tr a ->
  ts !! i = Some (Run (OpSave m)) -> ops !! i = Some o -> record_ok m -> saves o = Some m ->
  (ev_op <$> by_thread i tr) ++ [OpSave m] = sections o ->
  advances {| shared := st;
    threads := <[i := if save_meta_check st m then Finished true else Committing m]> ts |} tr.
Proof.
  intros S Hi Ho Hm Hsv Hsec.
  rewrite (save_meta_check_dup st _ _ (sim_rep _ _ _ _ _ _ S) (proj1 Hm)).
  destruct (a !! md5 m) as [m0|] eqn:Ha.
  - rewrite bool_decide_true by done.
    set (e := {| ev_thread := i; ev_op := OpSave m; ev_res := true; ev_err := false; ev_late := false |}).
    apply (advances_emit _ _ e a). eapply (sim_emit _ _ _ _ _ _ _ _ _ e); [exact S|exact Hi|exact Ho| | | | | | |]; [| | | |done|done|done].
    + split; [done|]. rewrite <- Hsec. apply elem_of_app. right. by left.
    + apply abs_seq. by econstructor.
    + apply (sim_rep _ _ _ _ _ _ S).
    + apply (sim_finished _ _ _ _ e). by rewrite fmap_app.
  - rewrite bool_decide_false by (by intros [? [=]]).
    apply (advances_silent _ _ a). eapply sim_silent; [exact S|exact Hi|exact Ho|].
    apply sim_committing; [done..|]. intros m0. by rewrite Ha.
Qed.

(** The locked section of [save_meta]. *)
Lemma sim_commit st ts tr a i o m st' b :
  sim st0 a0 ops {| shared := st; threads := ts |} tr a ->
  ts !! i = Some (Committing m) -> ops !! i = Some o -> record_ok m -> saves o = Some m ->
  (ev_op <$> by_thread i tr) ++ [OpSave m] = sections o -> pending_ok ops a m ->
  save_meta_commit st m = (st', b) ->
  advances {| shared := st'; threads := <[i := Finished b]> ts |} tr.
Proof.
  intros S Hi Ho Hm Hsv Hsec Hp Hc0. pose proof Hc0 as [Hc Hstat]%commit_cases.
  pose proof (sim_rep _ _ _ _ _ _ S : represents st a) as R. pose proof (sim_paths _ _ _ _ _ _ S _ _ _ Ho Hsv) as Hf.
  set (late := bool_decide (is_Some (a !! md5 m))).
  set (e := {| ev_thread := i; ev_op := OpSave m; ev_res := b; ev_err := negb b; ev_late := late |}).
  assert (Rep (apply_batch (save_batch m) (contents (db_ st))) (<[md5 m := stored m]> a)) as R'.
  { destruct (a !! md5 m) as [m0|] eqn:Ha; [|by apply rep_insert].
    eapply rep_overwrite; eauto. by apply (Hp m0). }
  assert (exists a', abs_step a e a' /\ represents st' a' /\
            (b = true -> a' = <[md5 m := stored m]> a)) as (a' & Hs & Hr & Hb).
  { assert (forall a', a' = <[md5 m := stored m]> a \/ b = false /\ a' = a -> abs_step a e a') as Habs.
    { intros a' Ha'. unfold e, late. destruct (a !! md5 m) as [m0|] eqn:Ha.
      - rewrite bool_decide_true by done. eapply abs_late; eauto. by apply (Hp m0).
      - rewrite bool_decide_false by (by intros [? [=]]). apply abs_seq.
        destruct b, Ha' as [->|[? ->]]; simpl; try done; eauto using spec_step. }
    unfold represents. destruct Hc as [Hc|[Hb Hc]]; rewrite Hc.
    - exists (<[md5 m := stored m]> a). auto.
    - exists a. split_and!; [by auto|done|by rewrite Hb]. }
  apply (advances_emit _ _ e a'). eapply (sim_emit _ _ _ _ _ _ _ _ _ e); [exact S|exact Hi|exact Ho| |exact Hs|exact Hr| | | |].
  - split; [done|]. rewrite <- Hsec. apply elem_of_app. right. by left.
  - apply (sim_finished _ _ _ _ e). by rewrite fmap_app.
  - simpl. intros [m0 Hm0]%bool_decide_eq_true. exists m. split; [done|]. by apply (Hp m0).
  - simpl. intros Hrl. split; [|by apply (reliable_commit _ m) in Hrl; rewrite Hc0 in Hrl].
    apply (reliable_write _ (save_batch m)) in Hrl as [Hw _]. revert Hc0 Hw. unfold save_meta_commit.
    destruct (db_write _ _) as [db' []]; [|done]. by intros [= _ <-].
  - simpl. intros ->%negb_false_iff Hl. apply bool_decide_eq_false in Hl.
    rewrite (Hb eq_refl). unfold stat_ok. rewrite (Hstat eq_refl).
    rewrite stat_of_insert by (by apply eq_None_not_Some). by intros ->.
Qed.

(** The calls that hold the lock throughout, and the deletion of [update_meta]. *)
Lemma sim_locked st ts tr a i o o1 t t' st' b :
  sim st0 a0 ops {| shared := st; threads := ts |} tr a ->
  ts !! i = Some t -> ops !! i = Some o -> op_ok a o1 -> o1 ∈ sections o ->
  run_op st o1 = Ok (st', b) ->
  (forall e a', ev_op e = o1 -> ev_res e = b -> thread_sim ops a' o t' (by_thread i tr ++ [e])) ->
  advances {| shared := st'; threads := <[i := t']> ts |} tr.
Proof.
  intros S Hi Ho Hok1 Hsv Hrun Ht'.
  destruct (run_op_refines st _ _ (sim_rep _ _ _ _ _ _ S) Hok1) as (st1 & b1 & a' & H1 & Hs & R & Hst).
  rewrite Hrun in H1. injection H1 as <- <-.
  set (e := {| ev_thread := i; ev_op := o1; ev_res := b; ev_err := op_failed st o1; ev_late := false |}).
  apply (advances_emit _ _ e a'). eapply (sim_emit _ _ _ _ _ _ _ _ _ e); [exact S|exact Hi|exact Ho| | |exact R| | | |].
  - by split.
  - by apply abs_seq.
  - by apply Ht'.
  - done.
  - intros Hrl. by apply (reliable_op _ _ _ _ Hrl Hrun).
  - simpl. auto.
Qed.

(** Every section keeps the simulation, and adds at most one event. *)
Lemma sim_step c c' tr a : sim st0 a0 ops c tr a -> meta_step c c' -> advances c' tr.
Proof.
  intros S Hstep. destruct Hstep as [st ts i t st' t' Hi Ht].
  assert (exists o, ops !! i = Some o) as [o Ho].
  { apply lookup_lt_is_Some. rewrite <- (sim_length _ _ _ _ _ _ S). by eapply lookup_lt_Some. }
  pose proof (sim_threads _ _ _ _ _ _ S _ _ _ Ho Hi) as Hsim.
  pose proof (conc_each _ _ Hok _ _ Ho) as Hoo.
  assert (forall m, saves o = Some m -> record_ok m) as Hrec.
  { intros m Hm. destruct o; simplify_eq/=; apply Hoo. }
  inversion Hsim as [E1 E2|m e E1 E2 E3 E4|m es Hsv Hsec Hp E1 E2|es e Hsec E1 E2]; subst t; simpl in Ht.
  - assert (forall b a' e, sections o = [o] -> ev_op e = o -> ev_res e = b ->
      thread_sim ops a' o (Finished b) (by_thread i tr ++ [e])) as Hfin.
    { intros b a' e Hsec He <-. rewrite <- E2. apply (sim_finished _ _ _ [] e). by rewrite Hsec, <- He. }
    destruct o as [m|h|h s|m|n h d]; simpl in Ht.
    + injection Ht as <- <-. eapply sim_check; eauto. by rewrite <- E2.
    + destruct (delete_meta st h) as [st1 b] eqn:Hd. injection Ht as <- <-.
      eapply (sim_locked _ _ _ _ _ _ (OpDelete h)); eauto; [by left|]. simpl. by rewrite Hd.
    + destruct (run_op_refines st a (OpStatus h s) (sim_rep _ _ _ _ _ _ S) Hoo)
        as (st1 & b & ? & Hrun & _). simpl in Hrun. rewrite Hrun in Ht. injection Ht as <- <-.
      eapply (sim_locked _ _ _ _ _ _ (OpStatus h s)); eauto. by left.
    + injection Ht as <- <-.
      eapply (sim_locked _ _ _ _ _ _ (OpDelete (md5 m)) _ _ _ (snd (delete_meta st (md5 m)))); eauto.
      * done.
      * by left.
      * simpl. by destruct (delete_meta _ _).
      * intros e a' He _. rewrite <- E2. by apply sim_updating.
    + destruct (save_meta_shard st n h d) as [st1 b] eqn:Hd. injection Ht as <- <-.
      eapply (sim_locked _ _ _ _ _ _ (OpShard n h d)); eauto; [by left|]. simpl. by rewrite Hd.
  - injection Ht as <- <-. subst o. eapply sim_check; eauto. rewrite <- E4. simpl. by rewrite E2.
  - destruct (save_meta_commit st m) as [st1 b] eqn:Hc. injection Ht as <- <-.
    eapply sim_commit; eauto.
  - done.
Qed.

End Step.

Lemma sim_spawn st a ops :
  conc_ok a ops -> represents st a -> sim st a ops (spawn st ops) [] a.
Proof.
  intros Hok R. split; simpl; [constructor|done|by rewrite length_fmap| | | | |done|done].
  - intros i o t Ho. rewrite list_lookup_fmap, Ho. intros [= <-]. constructor.
  - by intros e ?%elem_of_nil.
  - intros i o m Ho Hm. pose proof (conc_each _ _ Hok _ _ Ho). destruct o; simplify_eq/=; by destruct_and!.
  - by intros e ?%elem_of_nil.
Qed.

Lemma sim_steps st a0 ops c c' tr a :
  conc_ok a0 ops -> rtc meta_step c c' -> sim st a0 ops c tr a ->
  exists tr' a', sim st a0 ops c' (tr ++ tr') a'.
Proof.
  intros Hok Hrun. revert tr a. induction Hrun as [c|c1 c2 c3 H12 _ IH]; intros tr a S.
  { exists [], a. by rewrite app_nil_r. }
  destruct (sim_step st a0 ops Hok _ _ _ _ S H12) as (tr1 & a1 & _ & S1).
  destruct (IH _ _ S1) as (tr2 & a2 & S2). exists (tr1 ++ tr2), a2. by rewrite app_assoc.
Qed.

(** ** Two records under one digest *)

Lemma saved_path_kept m1 m2 c :
  key_ok (md5 m1) -> path m1 <> path m2 -> key_ok (md5 m2) ->
  apply_batch (save_batch m2) (apply_batch (save_batch m1) c) !! path_key (path m1) = Some (md5 m1).
Proof.
  intros Hk Hp Hk2. rewrite save_batch_out.
  - apply save_batch_in; [done|]. apply entries_of_keys. auto.
  - intros v [[H _]|[[H _]|[H _]]]%entries_of_keys.
    + by apply (key_ok_path (md5 m2) (path m1) Hk2).
    + by apply path_key_inj in H.
    + done.
Qed.

(** A path entry without its record is in no representation. *)
Lemma dangling_path_unrepresented st p h :
  contents (db_ st) !! path_key p = Some h -> contents (db_ st) !! h = None ->
  ~ exists a, represents st a.
Proof.
  intros Hp Hn [a R]. apply (rep_path _ _ _ _ R) in Hp as (m & Hm & _).
  destruct (rep_records _ _ R _ _ Hm) as (<- & (Hk & _) & _).
  by rewrite (rep_get _ _ _ R Hk), Hm in Hn.
Qed.

(** Two savers that both look up before either commits. *)
Lemma two_savers_commit m1 m2 st st1 st2 b1 b2 :
  save_meta_check st m1 = false -> save_meta_check st m2 = false ->
  save_meta_commit st m1 = (st1, b1) -> save_meta_commit st1 m2 = (st2, b2) ->
  rtc meta_step (spawn st [OpSave m1; OpSave m2])
    {| shared := st2; threads := [Finished b1; Finished b2] |}.
Proof.
  intros Hc1 Hc2 H1 H2.
  replace {| shared := st2; threads := _ |}
    with (run_schedule (spawn st [OpSave m1; OpSave m2]) [0; 1; 0; 1]); [apply run_schedule_steps|].
  unfold spawn. simpl. rewrite Hc1, Hc2. simpl. rewrite H1. simpl. by rewrite H2.
Qed.

(** ** Records that concurrent saves keep *)

(** A call of [save_meta] that is not already past its look-up of [h]. *)
Definition saves_past (h : str) (t : thread) : Prop :=
  match t with
  | Run (OpSave _) | Finished _ | Escaped _ => True
  | Committing m => md5 m <> h
  | Run _ => False
  end.

Lemma save_step_keeps h x st t st' t' :
  key_ok h -> saves_past h t -> get_meta st h = Some x -> thread_step st t = Some (st', t') ->
  saves_past h t' /\ get_meta st' h = Some x.
Proof.
  intros Hk Ht Hx. destruct t as [[m|?|?|?|?]|m|b|e]; simpl in Ht; try done; simpl.
  - intros [= <- <-]. split; [|done]. destruct (save_meta_check st m) eqn:Hc; [done|].
    intros <-. by rewrite (save_meta_check_kept _ _ _ Hk Hx) in Hc.
  - pose proof (save_meta_commit_keeps st m h Hk Ht) as Hkeep.
    destruct (save_meta_commit st m) as [st1 b]. intros [= <- <-]. split; [done|].
    by rewrite <- Hkeep in Hx.
Qed.

Lemma saves_keep c c' h x :
  key_ok h -> rtc meta_step c c' -> Forall (saves_past h) (threads c) ->
  get_meta (shared c) h = Some x -> get_meta (shared c') h = Some x.
Proof.
  intros Hk. induction 1 as [|c1 c2 c3 Hs _ IH]; [done|]. intros Hall Hx.
  destruct Hs as [st ts i t st' t' Hi Ht]. cbn [threads shared] in *.
  pose proof (Forall_lookup_1 _ _ _ _ Hall Hi) as Hp.
  destruct (save_step_keeps _ _ _ _ _ _ Hk Hp Hx Ht). apply IH; [by apply Forall_insert|done].
Qed.

(** * Properties *)

(** What a configuration shows of the calls [ops] begun on the index [a]: the
    store holds the index [a'] that the events [tr] lead to, and the events of each
    thread are the sections of its call, all of them when the call has returned. *)
Record linearized (st : store) (a : index) (ops : list op) (c : config) (tr : list event)
    (a' : index) : Prop := {
  lin_trace : abs_trace a tr a';
  lin_store : represents (shared c) a';
  lin_calls i o : ops !! i = Some o -> exists t, threads c !! i = Some t /\
    match t with
    | Finished b => ev_op <$> by_thread i tr = sections o /\
                    ev_res <$> last (by_thread i tr) = Some b
    | Escaped _ => False
    | _ => exists rest, (ev_op <$> by_thread i tr) ++ rest = sections o /\ rest <> []
    end;
  lin_owner e : e ∈ tr -> exists o, ops !! ev_thread e = Some o /\ ev_op e ∈ sections o;
  lin_late e : e ∈ tr -> ev_late e = true -> exists m, ev_op e = OpSave m /\ saved_twice ops (md5 m);
  lin_errors : reliable (db_ st) -> Forall (fun e => ev_err e = false) tr;
  lin_stat : stat_ok st a -> Forall (fun e => ev_err e = false /\ ev_late e = false) tr ->
    stat_ok (shared c) a'; }.

Lemma sim_linearized st a ops c tr a' : sim st a ops c tr a' -> linearized st a ops c tr a'.
Proof.
  intros S. split; try apply S; try (by intros H; apply (sim_errors _ _ _ _ _ _ S)). intros i o Ho.
  destruct (lookup_lt_is_Some_2 (threads c) i) as [t Ht].
  { rewrite (sim_length _ _ _ _ _ _ S). by eapply lookup_lt_Some. }
  exists t. split; [done|]. pose proof (sim_threads _ _ _ _ _ _ S _ _ _ Ho Ht) as Hsim.
  inversion Hsim as [E1 E2|m e E1 E2 E3 E4|m es Hsv Hsec Hp E1 E2|es e Hsec E1 E2].
  - exists (sections o). by destruct o.
  - exists [OpSave m]. subst o. simpl. by rewrite E2.
  - by exists [OpSave m].
  - by rewrite Hsec, last_snoc.
Qed.

(** C2: calls of the store that run concurrently behave as if their locked sections
    ran one after the other on the abstract map, provided their callers keep the
    conditions of [conc_ok]: each call keeps [op_ok] on the starting map (digests of
    32 bytes without a colon, UTF-8 records in range, a path no other record has),
    and of any two records that are saved, the same digest means the same path,
    scene and time, and the same path means the same digest. Then in every reachable
    configuration the database stores the map such a sequence leads to, a call that
    has returned contributed all its sections (an update one deletion and one save,
    any other call itself) with the result it returned, no call throws, and the trace
    of an earlier configuration is a beginning of the trace of a later one. A save may
    replace a record saved after its look-up, but only when two threads save the same
    digest. On a database that refuses no write no call fails, and without a replaced
    record the statistics stay exact. *)
Theorem concurrent_calls_linearize st a ops c1 c2 :
  represents st a -> conc_ok a ops ->
  rtc meta_step (spawn st ops) c1 -> rtc meta_step c1 c2 ->
  exists tr1 a1 tr2 a2,
    linearized st a ops c1 tr1 a1 /\ linearized st a ops c2 (tr1 ++ tr2) a2.
Proof.
  intros R Hok H1 H2.
  destruct (sim_steps st a ops _ _ _ _ Hok H1 (sim_spawn _ _ _ Hok R)) as (tr1 & a1 & S1).
  destruct (sim_steps st a ops _ _ _ _ Hok H2 S1) as (tr2 & a2 & S2).
  exists tr1, a1, tr2, a2. split; by apply sim_linearized.
Qed.

(** Two threads that both look a record up before either commits count it
    twice: both calls return true, and the cached statistics grow by two records of
    its size. *)
Theorem concurrent_save_double_count m st st1 st2 :
  save_meta_check st m = false ->
  save_meta_commit st m = (st1, true) -> save_meta_commit st1 m = (st2, true) ->
  exists c, rtc meta_step (spawn st [OpSave m; OpSave m]) c /\
    threads c = [Finished true; Finished true] /\
    get_stat (shared c) = bump_stat 1 (size m) (bump_stat 1 (size m) (get_stat st)).
Proof.
  intros Hc H1 H2. exists {| shared := st2; threads := [Finished true; Finished true] |}.
  split_and!; [|done|].
  - by eapply two_savers_commit.
  - apply commit_cases in H1 as [_ H1], H2 as [_ H2]. simpl. by rewrite H2, H1.
Qed.

(** C37: two threads that save different paths under one digest, both looking it up
    before either commits, leave both path entries: the first path then yields the
    record of the second, and after the record is deleted the first path entry
    remains, in a database that stores no index. *)
Theorem concurrent_save_stale_path m1 m2 st st1 st2 st3 :
  record_ok m1 -> record_ok m2 -> md5 m1 = md5 m2 -> path m1 <> path m2 -> length (path m1) <> 32 ->
  save_meta_check st m1 = false ->
  save_meta_commit st m1 = (st1, true) -> save_meta_commit st1 m2 = (st2, true) ->
  delete_meta st2 (md5 m2) = (st3, true) ->
  rtc meta_step (spawn st [OpSave m1; OpSave m2])
    {| shared := st2; threads := [Finished true; Finished true] |} /\
  get_meta st2 (path m1) = Some (stored m2) /\
  db_get (db_ st3) (path_key (path m1)) = Some (md5 m1) /\ ~ exists a, represents st3 a.
Proof.
  intros Hm1 Hm2 Hh Hp Hl Hc H1 H2 H3.
  assert (save_meta_check st m2 = false) as Hc2.
  { revert Hc. unfold save_meta_check. by rewrite Hh. }
  split; [by eapply two_savers_commit|].
  apply commit_cases in H1 as [[H1|[? _]] _]; [|done]. apply commit_cases in H2 as [[H2|[? _]] _]; [|done].
  pose proof (saved_path_kept m1 m2 (contents (db_ st)) (proj1 Hm1) Hp (proj1 Hm2)) as Hpath.
  rewrite <- H1, <- H2 in Hpath.
  assert (contents (db_ st2) !! md5 m2 = Some (serialize m2)) as Hrec.
  { rewrite H2. apply save_batch_in; [apply Hm2|]. apply entries_of_keys. auto. }
  assert (deserialize (serialize m2) = Ok (stored m2)) as Hd by (apply deserialize_serialize_aux; apply Hm2).
  assert (get_meta st2 (path m1) = Some (stored m2)) as Hg.
  { unfold get_meta, is_md5. rewrite bool_decide_false by done.
    by rewrite get_contents, Hpath, get_contents, Hh, Hrec, Hd. }
  revert H3. unfold delete_meta. rewrite get_contents, Hrec, Hd.
  destruct (db_write _ _) as [db' []] eqn:Hw; [|done]. intros [= <-]. apply write_ok in Hw.
  assert (contents db' !! path_key (path m1) = Some (md5 m1)) as Hkeep.
  { rewrite Hw, <- Hpath. apply (delete_batch_out (stored m2)).
    intros v [[H _]|[[H _]|[H _]]]%entries_of_keys; simpl in H.
    - by apply (key_ok_path (md5 m2) (path m1) (proj1 Hm2)).
    - by apply path_key_inj in H.
    - done. }
  split_and!; [done| |].
  - simpl. by rewrite get_contents.
  - eapply dangling_path_unrepresented; [exact Hkeep|]. simpl. rewrite Hw, Hh.
    apply (delete_batch_in (stored m2) _ _ (serialize m2)). apply entries_of_keys. simpl.
    left. by rewrite serialize_stored.
Qed.

End Conc.

(** * Witnesses: the in-memory database and the tagged JSON codec *)

Import TaggedJson.

(** A save, an update of the same record, a deletion, a status change and a shard. *)
Definition conc_ops : list op :=
  [ OpSave test_meta; OpUpdate test_meta; OpDelete (md5 test_meta);
    OpStatus (md5 test_meta) DELETED; OpShard 3 (md5 test_meta) (lit "abcd") ].

Lemma conc_ops_ok : conc_ok ∅ conc_ops.
Proof.
  assert (Forall (op_ok ∅) conc_ops) as Hok.
  { repeat constructor; try apply test_meta_ok; try apply path_free_empty; by_decide. }
  assert (Forall (fun o => forall m, saves o = Some m -> m = test_meta) conc_ops) as Hsv.
  { repeat constructor; simpl; congruence. }
  rewrite Forall_lookup in Hok, Hsv. split; [exact Hok|].
  intros i j o o' m m' Hi Hj _ Hm Hm'. by rewrite (Hsv _ _ Hi _ Hm), (Hsv _ _ Hj _ Hm').
Qed.

(** The save and the update both find the digest free; the deletion, the status
    change and the shard come between their commits. *)
Definition conc_start : config := spawn fresh_store conc_ops.
Definition conc_mid : config := run_schedule conc_start [1; 0; 1; 0; 2].
Definition conc_end : config := run_schedule conc_mid [1; 3; 4].

Example conc_end_threads :
  threads conc_end = [Finished true; Finished true; Finished true; Finished true; Finished true].
Proof. vm_compute. reflexivity. Qed.

Lemma concurrent_calls_linearize_witness :
  exists tr1 a1 tr2 a2,
    linearized fresh_store ∅ conc_ops conc_mid tr1 a1 /\
    linearized fresh_store ∅ conc_ops conc_end (tr1 ++ tr2) a2 /\
    Forall (fun e => ev_err e = false) (tr1 ++ tr2).
Proof.
  destruct (concurrent_calls_linearize fresh_store ∅ conc_ops conc_mid conc_end fresh_represents
    conc_ops_ok (run_schedule_steps _ _) (run_schedule_steps _ _)) as (tr1 & a1 & tr2 & a2 & H1 & H2).
  exists tr1, a1, tr2, a2. split; [exact H1|]. split; [exact H2|].
  apply (lin_errors _ _ _ _ _ _ H2). exact mem_reliable.
Defined.

Definition saved_once : store := fst (save_meta_commit fresh_store test_meta).

Lemma concurrent_save_double_count_witness :
  exists c, rtc meta_step (spawn fresh_store [OpSave test_meta; OpSave test_meta]) c /\
    threads c = [Finished true; Finished true] /\
    get_stat (shared c) =
      bump_stat 1 (size test_meta) (bump_stat 1 (size test_meta) (get_stat fresh_store)).
Proof.
  apply (concurrent_save_double_count test_meta fresh_store saved_once
           (fst (save_meta_commit saved_once test_meta))); reflexivity.
Defined.

(** The same content uploaded under another name. *)
Definition other_meta : MetaFile := {|
  md5 := md5 test_meta; path := lit "/group1/other.txt"; name := []; domain := [];
  scene := lit "default"; src := []; size := 1024; mtime := 1680000000; status := NORMAL;
  is_sharded := false; shard_std_size := 0; shard_count := 0; shards := [];
  uploaded_count := 0; uploaded_chunks := []; peers := [] |}.

Lemma other_meta_ok : record_ok other_meta.
Proof. split_and!; by_decide || by vm_compute. Qed.

Definition saved_both : store := fst (save_meta_commit saved_once other_meta).
Definition deleted_both : store := fst (delete_meta saved_both (md5 other_meta)).

Lemma concurrent_save_stale_path_witness :
  get_meta saved_both (path test_meta) = Some (stored other_meta) /\ ~ exists a, represents deleted_both a.
Proof.
  assert (save_meta_commit fresh_store test_meta = (saved_once, true)) as H1 by reflexivity.
  assert (save_meta_commit saved_once other_meta = (saved_both, true)) as H2
    by (apply pair_fst; vm_compute; reflexivity).
  assert (delete_meta saved_both (md5 other_meta) = (deleted_both, true)) as H3
    by (unfold deleted_both; apply pair_fst; vm_compute; reflexivity).
  assert (path test_meta <> path other_meta) as Hp by by_decide.
  assert (length (path test_meta) <> 32) as Hl by by_decide.
  pose proof (concurrent_save_stale_path test_meta other_meta fresh_store saved_once saved_both
    deleted_both test_meta_ok other_meta_ok eq_refl Hp Hl eq_refl H1 H2 H3) as (_ & Hg & _ & Hn).
  exact (conj Hg Hn).
Defined.

(** The same upload one second later. *)
Definition later_meta : MetaFile := {|
  md5 := md5 test_meta; path := path test_meta; name := []; domain := [];
  scene := lit "default"; src := []; size := 1024; mtime := 1680000001; status := NORMAL;
  is_sharded := false; shard_std_size := 0; shard_count := 0; shards := [];
  uploaded_count := 0; uploaded_chunks := []; peers := [] |}.

(** Two saves of one content in different seconds, both looking it up before either
    commits, leave two entries in its scene: the listing shows the file twice. *)
Theorem concurrent_save_listed_twice :
  let c := run_schedule (spawn fresh_store [OpSave test_meta; OpSave later_meta]) [0; 1; 0; 1] in
  threads c = [Finished true; Finished true] /\
  list_dir 10 (shared c) (lit "default") 0 10 1 = Some [later_meta; later_meta].
Proof. split; vm_compute; reflexivity. Qed.
