(* ===== verification/MetaLock.v ===== *)
(** The lock of the metadata store ([file/MetadataStore.cpp]): a [std::shared_mutex]
    whose operations are steps of their own, next to every call of LevelDB and every
    update of the cached statistics. The sections that [MetaConc] takes for atomic are
    shown to be so, and no call waits forever.

    The calls are [save_meta], [delete_meta], [update_status], [update_meta],
    [save_meta_shard] and [get_meta]. [list_dir] is not among them: it takes the shared
    lock twice in one thread, which the mutex does not allow. *)

From stdpp Require Import base list strings gmap numbers relations.
From Stdlib Require Import ZArith Ascii Lia.
From S2P Require Import Prelude Json MetaFile LevelDB MetadataStore MetaRefine MetaConc.

(** ** [std::shared_mutex] *)

Record shared_mutex : Type := { exclusive : bool; sharers : nat }.

(** The operations that can wait give [None] then. *)
Definition lock (k : shared_mutex) : option shared_mutex :=
  if exclusive k || bool_decide (0 < sharers k) then None
  else Some {| exclusive := true; sharers := sharers k |}.

Definition unlock (k : shared_mutex) : shared_mutex := {| exclusive := false; sharers := sharers k |}.

Definition lock_shared (k : shared_mutex) : option shared_mutex :=
  if exclusive k then None else Some {| exclusive := false; sharers := S (sharers k) |}.

Definition unlock_shared (k : shared_mutex) : shared_mutex :=
  {| exclusive := exclusive k; sharers := sharers k - 1 |}.

Section Lock.
Context {L : LevelDB} {J : JsonLib}.

(** ** The calls *)

(** Where a call that writes stands. [Begin o]: before its first access, which is the
    look-up in [save_meta] and the lock in the others. From [SaveWrite], [DelRead],
    [StatusRead] and [ShardPut] to [Leave] it holds the lock; [next] is the record that
    [update_meta] saves after its deletion. *)
Inductive writer : Type :=
| Begin (o : op)
| SaveLock (m : MetaFile)
| SaveWrite (m : MetaFile)
| SaveCount (m : MetaFile)
| DelRead (h : str) (next : option MetaFile)
| DelWrite (h : str) (m : MetaFile) (next : option MetaFile)
| DelCount (m : MetaFile) (next : option MetaFile)
| StatusRead (h : str) (s : FileStatus)
| StatusPut (h : str) (s : FileStatus) (m : MetaFile)
| ShardPut (i : Z) (h d : str)
| Leave (b : bool) (next : option MetaFile)
| LeaveThrow (e : str)
| Returned (b : bool)
| Thrown (e : str).

(** Where a call of [get_meta] stands. *)
Inductive reader : Type :=
| Look (key : str)
| LookPath (key : str)
| LookRecord (key h : str)
| LeaveShared (key : str) (r : option MetaFile)
| Found (key : str) (r : option MetaFile).

Definition locked (k : shared_mutex) (st : store) (w : writer) : option (shared_mutex * store * writer) :=
  match lock k with Some k' => Some (k', st, w) | None => None end.

(** One access of a call that writes. *)
Definition writer_step (k : shared_mutex) (st : store) (w : writer)
  : option (shared_mutex * store * writer) :=
  match w with
  | Begin (OpSave m) => Some (k, st, if save_meta_check st m then Returned true else SaveLock m)
  | Begin (OpDelete h) => locked k st (DelRead h None)
  | Begin (OpUpdate m) => locked k st (DelRead (md5 m) (Some m))
  | Begin (OpStatus h s) => locked k st (StatusRead h s)
  | Begin (OpShard i h d) => locked k st (ShardPut i h d)
  | SaveLock m => locked k st (SaveWrite m)
  | SaveWrite m =>
      let '(db', ok) := db_write (db_ st) (save_batch m) in
      Some (k, set_db st db', if ok then SaveCount m else Leave false None)
  | SaveCount m => Some (k, set_stat st (bump_stat 1 (size m) (cached_stat_ st)), Leave true None)
  | DelRead h next =>
      Some (k, st, match db_get (db_ st) h with
                   | None => Leave false next
                   | Some v => match deserialize v with
                               | Ok m => DelWrite h m next
                               | Throw _ => Leave false next
                               end
                   end)
  | DelWrite h m next =>
      let '(db', ok) := db_write (db_ st) (delete_batch h m) in
      Some (k, set_db st db', if ok then DelCount m next else Leave false next)
  | DelCount m next =>
      Some (k, set_stat st (bump_stat (-1) (- size m) (cached_stat_ st)), Leave true next)
  | StatusRead h s =>
      Some (k, st, match db_get (db_ st) h with
                   | None => Leave false None
                   | Some v => match deserialize v with
                               | Ok m => StatusPut h s m
                               | Throw e => LeaveThrow e
                               end
                   end)
  | StatusPut h s m =>
      let '(db', ok) := db_put (db_ st) h (serialize (set_status s m)) in
      Some (k, set_db st db', Leave ok None)
  | ShardPut i h d =>
      let '(db', ok) := db_put (db_ st) (shard_key h i) (if decide (d = []) then lit "1" else d) in
      Some (k, set_db st db', Leave ok None)
  | Leave b next =>
      Some (unlock k, st, match next with None => Returned b | Some m => Begin (OpSave m) end)
  | LeaveThrow e => Some (unlock k, st, Thrown e)
  | Returned _ | Thrown _ => None
  end.

(** One access of [get_meta]. *)
Definition reader_step (k : shared_mutex) (st : store) (r : reader) : option (shared_mutex * reader) :=
  match r with
  | Look key =>
      match lock_shared k with
      | Some k' => Some (k', if is_md5 key then LookRecord key key else LookPath key)
      | None => None
      end
  | LookPath key =>
      Some (k, match db_get (db_ st) (path_key key) with
               | None => LeaveShared key None
               | Some h => LookRecord key h
               end)
  | LookRecord key h =>
      Some (k, LeaveShared key
                 match db_get (db_ st) h with
                 | None => None
                 | Some v => match deserialize v with Ok m => Some m | Throw _ => None end
                 end)
  | LeaveShared key x => Some (unlock_shared k, Found key x)
  | Found _ _ => None
  end.

Record lock_state : Type := {
  mutex : shared_mutex; store_of : store; writers : list writer; readers : list reader }.

Inductive lock_step : lock_state -> lock_state -> Prop :=
| lock_step_writer k st ws rs i w k' st' w' :
    ws !! i = Some w -> writer_step k st w = Some (k', st', w') ->
    lock_step {| mutex := k; store_of := st; writers := ws; readers := rs |}
              {| mutex := k'; store_of := st'; writers := <[i := w']> ws; readers := rs |}
| lock_step_reader k st ws rs j r k' r' :
    rs !! j = Some r -> reader_step k st r = Some (k', r') ->
    lock_step {| mutex := k; store_of := st; writers := ws; readers := rs |}
              {| mutex := k'; store_of := st; writers := ws; readers := <[j := r']> rs |}.

(** One thread per call, the mutex free. *)
Definition lock_init (st : store) (ops : list op) (keys : list str) : lock_state :=
  {| mutex := {| exclusive := false; sharers := 0 |}; store_of := st;
     writers := Begin <$> ops; readers := Look <$> keys |}.

(** * Lemmas *)

(** ** Who holds the mutex *)

Definition holds (w : writer) : bool :=
  match w with
  | Begin _ | SaveLock _ | Returned _ | Thrown _ => false
  | _ => true
  end.

Definition shares (r : reader) : bool :=
  match r with LookPath _ | LookRecord _ _ | LeaveShared _ _ => true | _ => false end.

Definition holders (ws : list writer) : nat := sum_list_with (fun w => Nat.b2n (holds w)) ws.
Definition sharing (rs : list reader) : nat := sum_list_with (fun r => Nat.b2n (shares r)) rs.

(** The state of the mutex is that of the calls. *)
Record mutex_ok (x : lock_state) : Prop := {
  mutex_holders : holders (writers x) = Nat.b2n (exclusive (mutex x));
  mutex_sharing : sharing (readers x) = sharers (mutex x);
  mutex_apart : exclusive (mutex x) = true -> sharers (mutex x) = 0; }.

Lemma sum_b2n_elem {A} (f : A -> bool) l i a :
  l !! i = Some a -> Nat.b2n (f a) <= sum_list_with (fun a => Nat.b2n (f a)) l.
Proof. revert i. induction l as [|b l IH]; intros [|i]; simpl; intros H; simplify_eq; [lia|]. apply IH in H. lia. Qed.

Lemma holder_unique ws i j w w' :
  holders ws <= 1 -> ws !! i = Some w -> ws !! j = Some w' -> holds w = true -> holds w' = true -> i = j.
Proof.
  intros Hle Hi Hj Hw Hw'. destruct (decide (i = j)) as [|Hne]; [done|]. exfalso.
  pose proof (sum_list_with_insert (fun w => Nat.b2n (holds w)) ws i w (Returned true) Hi) as Hs.
  assert (<[i := Returned true]> ws !! j = Some w') as Hj' by by rewrite list_lookup_insert_ne.
  apply (sum_b2n_elem holds) in Hj'. cbv beta in Hs. rewrite Hw in Hs. rewrite Hw' in Hj'. unfold holders in Hle. simpl in *. lia.
Qed.

Lemma holder_exclusive x i w :
  mutex_ok x -> writers x !! i = Some w -> holds w = true -> exclusive (mutex x) = true.
Proof.
  intros M Hi Hw. pose proof (sum_b2n_elem holds _ _ _ Hi) as Hs. fold (holders (writers x)) in Hs.
  rewrite (mutex_holders _ M), Hw in Hs. destruct (exclusive (mutex x)); [done|simpl in Hs; lia].
Qed.

Lemma sharer_counted x j r :
  mutex_ok x -> readers x !! j = Some r -> shares r = true ->
  0 < sharers (mutex x) /\ exclusive (mutex x) = false.
Proof.
  intros M Hj Hr. pose proof (sum_b2n_elem shares _ _ _ Hj) as Hs. fold (sharing (readers x)) in Hs.
  rewrite (mutex_sharing _ M), Hr in Hs. simpl in Hs. split; [lia|].
  destruct (exclusive (mutex x)) eqn:E; [|done]. pose proof (mutex_apart _ M E). lia.
Qed.

Lemma lock_Some k k' : lock k = Some k' ->
  exclusive k = false /\ sharers k = 0 /\ k' = {| exclusive := true; sharers := 0 |}.
Proof.
  unfold lock. destruct (exclusive k); [done|]. simpl. case_bool_decide as Hs; [done|]. intros [= <-].
  assert (sharers k = 0) as -> by lia. done.
Qed.

(** A step takes the mutex, gives it back, or leaves it alone. *)
Lemma writer_step_mutex k st w k' st' w' :
  writer_step k st w = Some (k', st', w') ->
  (holds w = false /\ holds w' = true /\ exclusive k = false /\ sharers k = 0 /\ st' = st /\
   k' = {| exclusive := true; sharers := 0 |}) \/
  (holds w = true /\ holds w' = false /\ st' = st /\ k' = unlock k) \/
  (holds w' = holds w /\ k' = k /\ (holds w = false -> st' = st)).
Proof.
  assert (forall w1, holds w1 = true -> holds w = false -> locked k st w1 = Some (k', st', w') ->
    holds w = false /\ holds w' = true /\ exclusive k = false /\ sharers k = 0 /\ st' = st /\
    k' = {| exclusive := true; sharers := 0 |}) as Hl.
  { intros w1 Hw1 Hw. unfold locked. destruct (lock k) as [k1|] eqn:E; [|done].
    apply lock_Some in E as (? & ? & ->). by intros [= <- <- <-]. }
  destruct w as [[]| | | | | | | | | |b [m|]| | |]; simpl;
    try (intros H; left; by eapply Hl; [| |exact H]);
    repeat case_match; intros; simplify_eq/=; first [by right; left | by right; right].
Qed.

Lemma reader_step_mutex k st r k' r' :
  reader_step k st r = Some (k', r') ->
  exclusive k' = exclusive k /\
  ((shares r = false /\ shares r' = true /\ exclusive k = false /\ sharers k' = S (sharers k)) \/
   (shares r = true /\ shares r' = false /\ sharers k' = sharers k - 1) \/
   (shares r' = shares r /\ sharers k' = sharers k)).
Proof.
  destruct r as [key|key|key h|key x|key x]; simpl; [|intros; simplify_eq/=; (split; [done|]);
    repeat case_match; first [by right; left | by right; right]..].
  unfold lock_shared. destruct (exclusive k) eqn:E; [done|]. intros [= <- <-]. simpl.
  split; [done|]. left. split_and!; [done|by case_match|done|done].
Qed.

Lemma mutex_ok_step x x' : mutex_ok x -> lock_step x x' -> mutex_ok x'.
Proof.
  intros M Hs. pose proof (holder_exclusive x) as Hex. pose proof (sharer_counted x) as Hsh.
  destruct M as [Mh Ms Ma]. destruct Hs as [k st ws rs i w k' st' w' Hi Hw|k st ws rs j r k' r' Hj Hr].
  - specialize (Hex i w ltac:(by constructor) Hi). apply writer_step_mutex in Hw. simpl in *.
    pose proof (sum_list_with_insert (fun w => Nat.b2n (holds w)) ws i w w' Hi) as Hins. cbv beta in Hins.
    unfold holders in *.
    destruct Hw as [(H0 & H1 & E & E0 & _ & ->)|[(H0 & H1 & _ & ->)|(H0 & -> & _)]];
      rewrite ?H0, ?H1 in Hins; constructor; unfold holders in *; simpl in *; try done.
    + rewrite E in Mh. simpl in *. lia.
    + by rewrite Ms.
    + rewrite (Hex H0) in Mh. simpl in *. lia.
    + lia.
  - specialize (Hsh j r ltac:(by constructor) Hj). apply reader_step_mutex in Hr. simpl in *.
    pose proof (sum_list_with_insert (fun r => Nat.b2n (shares r)) rs j r r' Hj) as Hins. cbv beta in Hins.
    unfold sharing in *. destruct Hr as [E Hr]. constructor; unfold sharing in *; simpl.
    + by rewrite E.
    + destruct Hr as [(R & R' & _ & ->)|[(R & R' & ->)|(R & ->)]]; rewrite ?R, ?R' in Hins; simpl in *;
        [lia| |lia]. destruct (Hsh R). lia.
    + rewrite E. intros Ex. pose proof (Ma Ex) as H0.
      destruct Hr as [(_ & _ & Hf & _)|[(_ & _ & ->)|(_ & ->)]]; [congruence|lia|lia].
Qed.

Lemma mutex_ok_init st ops keys : mutex_ok (lock_init st ops keys).
Proof.
  constructor; simpl; [| |done].
  - unfold holders. by induction ops as [|o ops IH].
  - unfold sharing. by induction keys as [|key keys IH].
Qed.

(** ** The sections *)

(** The call as [MetaConc] sees it: a section has taken place when its last access of
    the database has. *)
Definition coarse (w : writer) : thread :=
  match w with
  | Begin o => Run o
  | SaveLock m | SaveWrite m => Committing m
  | SaveCount m => Finished true
  | DelRead h None | DelWrite h _ None => Run (OpDelete h)
  | DelRead _ (Some m) | DelWrite _ _ (Some m) => Run (OpUpdate m)
  | DelCount _ None => Finished true
  | StatusRead h s | StatusPut h s _ => Run (OpStatus h s)
  | ShardPut i h d => Run (OpShard i h d)
  | Leave b None | Returned b => Finished b
  | DelCount _ (Some m) | Leave _ (Some m) => Run (OpSave m)
  | LeaveThrow e | Thrown e => Escaped e
  end.

(** What the call that holds the mutex has still to add to the statistics. *)
Definition settle (w : writer) (st : store) : store :=
  match w with
  | SaveCount m => set_stat st (bump_stat 1 (size m) (cached_stat_ st))
  | DelCount m _ => set_stat st (bump_stat (-1) (- size m) (cached_stat_ st))
  | _ => st
  end.

(** What it has read is still there. *)
Definition writer_ok (st : store) (w : writer) : Prop :=
  match w with
  | DelRead h (Some m) => h = md5 m
  | DelWrite h m next =>
      (exists v, db_get (db_ st) h = Some v /\ deserialize v = Ok m) /\
      match next with Some m' => h = md5 m' | None => True end
  | StatusPut h _ m => exists v, db_get (db_ st) h = Some v /\ deserialize v = Ok m
  | _ => True
  end.

(** An access is no section or one. [sc] is the store that [MetaConc] sees. *)
Lemma writer_sim k st w k' st' w' sc :
  writer_step k st w = Some (k', st', w') -> writer_ok st w -> db_ sc = db_ st ->
  (holds w = true -> sc = settle w st) -> (holds w = false -> holds w' = true -> sc = st) ->
  exists sc', (sc' = sc /\ coarse w' = coarse w \/ thread_step sc (coarse w) = Some (sc', coarse w')) /\
    writer_ok st' w' /\ db_ sc' = db_ st' /\
    (holds w' = true -> sc' = settle w' st') /\ (holds w = true -> holds w' = false -> sc' = st') /\
    (holds w = false -> holds w' = false -> sc' = sc).
Proof.
  assert (forall w1, coarse w1 = coarse w -> settle w1 st = st -> (forall st, writer_ok st w1) ->
    holds w1 = true -> holds w = false ->
    locked k st w1 = Some (k', st', w') -> (holds w = false -> holds w' = true -> sc = st) ->
    exists sc', (sc' = sc /\ coarse w' = coarse w \/ thread_step sc (coarse w) = Some (sc', coarse w')) /\
    writer_ok st' w' /\ db_ sc' = db_ st' /\
    (holds w' = true -> sc' = settle w' st') /\ (holds w = true -> holds w' = false -> sc' = st') /\
    (holds w = false -> holds w' = false -> sc' = sc)) as Hlock.
  { intros w1 Hc Hs Hok H1 H0 Hl Ha. unfold locked in Hl. destruct (lock k); [|done]. injection Hl as <- <- <-.
    rewrite (Ha H0 H1). exists st. rewrite Hs, H1. split_and!; try done. by left. }
  intros Hw Hok Hdb Hh Ha.
  destruct w as [[m|h|h s|m|i h d]|m|m|m|h next|h m next|m next|h s|h s m|i h d|b next|e|b|e];
    simpl in Hw; try (by eapply Hlock; [..|exact Hw|exact Ha]); try specialize (Hh eq_refl); simpl in Hh, Hok.
  - injection Hw as <- <- <-. exists sc. simpl. unfold save_meta_check. rewrite Hdb.
    case_bool_decide; simpl; split_and!; try done; by right.
  - subst sc. destruct (db_write (db_ st) (save_batch m)) as [db' ok] eqn:E. injection Hw as <- <- <-.
    exists (settle (if ok then SaveCount m else Leave false None) (set_db st db')).
    destruct ok; simpl; unfold save_meta_commit; rewrite E; split_and!; try done; by right.
  - subst sc. injection Hw as <- <- <-. eexists. split; [by left|]. by split_and!.
  - subst sc. injection Hw as <- <- <-. exists st.
    destruct (db_get (db_ st) h) as [v|] eqn:E; [destruct (deserialize v) as [m|e] eqn:Ed|];
      destruct next as [m'|]; simpl; unfold delete_meta; rewrite <- ?Hok, ?E, ?Ed; simpl;
      split_and!; try done; eauto.
  - subst sc. destruct Hok as [(v & Hv & Hd) Hn].
    destruct (db_write (db_ st) (delete_batch h m)) as [db' ok] eqn:E. injection Hw as <- <- <-.
    exists (settle (if ok then DelCount m next else Leave false next) (set_db st db')).
    destruct next as [m'|]; destruct ok; simpl; unfold delete_meta; rewrite <- ?Hn, Hv, Hd, E;
      split_and!; try done; by right.
  - subst sc. injection Hw as <- <- <-. eexists. split; [left; split; [done|by destruct next]|]. by split_and!.
  - subst sc. injection Hw as <- <- <-. exists st.
    destruct (db_get (db_ st) h) as [v|] eqn:E; [destruct (deserialize v) as [m|e] eqn:Ed|]; simpl;
      unfold update_status; rewrite ?E; simpl; rewrite ?Ed; split_and!; try done; eauto.
  - subst sc. destruct Hok as (v & Hv & Hd).
    destruct (db_put (db_ st) h (serialize (set_status s m))) as [db' ok] eqn:E. injection Hw as <- <- <-.
    exists (set_db st db'). simpl. unfold update_status. rewrite Hv. simpl. rewrite Hd. simpl. rewrite E.
    split_and!; try done. by right.
  - subst sc. destruct (db_put _ _ _) as [db' ok] eqn:E. injection Hw as <- <- <-.
    exists (set_db st db'). simpl. unfold save_meta_shard. simpl. rewrite E. split_and!; try done. by right.
  - subst sc. injection Hw as <- <- <-. exists st. destruct next as [m|]; simpl; split_and!; try done; by left.
  - subst sc. injection Hw as <- <- <-. exists st. simpl. split_and!; try done. by left.
  - done.
  - done.
Qed.

(** Only the call that holds the mutex has read something. *)
Lemma writer_ok_idle st w : holds w = false -> writer_ok st w.
Proof. by destruct w. Qed.

(** A reader has seen the store of a configuration between [c0] and [c]. *)
Definition seen (c0 c : config) (key : str) (x : option MetaFile) : Prop :=
  exists c1, rtc meta_step c0 c1 /\ rtc meta_step c1 c /\ get_meta (shared c1) key = x.

Definition reader_ok (c0 c : config) (st : store) (r : reader) : Prop :=
  match r with
  | Look _ => True
  | LookPath key => is_md5 key = false
  | LookRecord key h => (if is_md5 key then Some key else db_get (db_ st) (path_key key)) = Some h
  | LeaveShared key x | Found key x => seen c0 c key x
  end.

(** The configuration [c] of sections stands for the state [x]. *)
Record lock_sim (c0 : config) (x : lock_state) (c : config) : Prop := {
  ls_mutex : mutex_ok x;
  ls_run : rtc meta_step c0 c;
  ls_threads : threads c = coarse <$> writers x;
  ls_db : db_ (shared c) = db_ (store_of x);
  ls_holder i w : writers x !! i = Some w -> holds w = true -> shared c = settle w (store_of x);
  ls_free : exclusive (mutex x) = false -> shared c = store_of x;
  ls_writers i w : writers x !! i = Some w -> writer_ok (store_of x) w;
  ls_readers j r : readers x !! j = Some r -> reader_ok c0 c (store_of x) r; }.

Lemma lock_sim_init st ops keys : lock_sim (spawn st ops) (lock_init st ops keys) (spawn st ops).
Proof.
  constructor; simpl; try done.
  - apply mutex_ok_init.
  - by rewrite <- list_fmap_compose.
  - intros i w. rewrite list_lookup_fmap. by destruct (ops !! i); intros [= <-].
  - intros i w. rewrite list_lookup_fmap. by destruct (ops !! i); intros [= <-].
  - intros j r. rewrite list_lookup_fmap. by destruct (keys !! j); intros [= <-].
Qed.

Lemma seen_step c0 c c' key x : rtc meta_step c c' -> seen c0 c key x -> seen c0 c' key x.
Proof. intros Hr (c1 & H0 & H1 & Hx). exists c1. split_and!; [done|by etrans|done]. Qed.

Lemma reader_ok_step c0 c c' st r : rtc meta_step c c' -> reader_ok c0 c st r -> reader_ok c0 c' st r.
Proof. destruct r; simpl; eauto using seen_step. Qed.

Lemma reader_ok_idle c0 c st st' r : shares r = false -> reader_ok c0 c st r -> reader_ok c0 c st' r.
Proof. by destruct r. Qed.

Lemma lock_sim_writer c0 k st ws rs c i w k' st' w' :
  lock_sim c0 {| mutex := k; store_of := st; writers := ws; readers := rs |} c ->
  ws !! i = Some w -> writer_step k st w = Some (k', st', w') ->
  exists c', lock_sim c0 {| mutex := k'; store_of := st'; writers := <[i := w']> ws; readers := rs |} c'.
Proof.
  intros S Hi Hw. set (x := {| mutex := k; store_of := st; writers := ws; readers := rs |}) in S.
  set (x' := {| mutex := k'; store_of := st'; writers := <[i := w']> ws; readers := rs |}).
  assert (mutex_ok x') as M' by (eapply mutex_ok_step; [exact (ls_mutex _ _ _ S)|by econstructor]).
  pose proof S as [M Hrun Hth Hdb Hho Hfr Hwr Hrd]. simpl in *.
  pose proof (writer_step_mutex _ _ _ _ _ _ Hw) as Hm.
  destruct (writer_sim _ _ _ _ _ _ (shared c) Hw (Hwr _ _ Hi) Hdb (Hho _ _ Hi)) as
    (sc' & Hstep & Hok & Hdb' & Hh' & Hrel & Hidle).
  { intros H0 H1. apply Hfr. destruct Hm as [(_ & _ & E & _)|[(E & _)|(E & _)]]; congruence. }
  set (c' := {| shared := sc'; threads := coarse <$> <[i := w']> ws |}).
  assert (rtc meta_step c c') as Hcc.
  { destruct c as [sc ts]. simpl in *. subst ts. unfold c'. rewrite list_fmap_insert.
    destruct Hstep as [[-> ->]|Hs].
    - rewrite list_insert_id; [done|]. by rewrite list_lookup_fmap, Hi.
    - apply rtc_once, (meta_step_thread _ _ _ (coarse w)); [by rewrite list_lookup_fmap, Hi|done]. }
  assert (holders ws <= 1) as Hle.
  { pose proof (mutex_holders _ M) as E. simpl in E. rewrite E. destruct (exclusive k); simpl; lia. }
  assert (forall j w1, j <> i -> ws !! j = Some w1 -> holds w1 = true -> sc' = shared c /\ st' = st) as Hother.
  { intros j w1 Hne Hj H1. destruct (holds w) eqn:Hhw.
    { destruct Hne. by apply (holder_unique ws j i w1 w). }
    pose proof (holder_exclusive x j w1 M Hj H1) as Ex. simpl in Ex.
    destruct Hm as [(_ & _ & E & _)|[(E & _)|(E & _ & Hst)]]; [congruence..|]. split; [|by apply Hst].
    by apply Hidle. }
  exists c'. constructor; simpl; try done.
  - by etrans.
  - intros j w1 [(-> & -> & _)|[Hne Hj]]%list_lookup_insert_Some H1; [by apply Hh'|].
    destruct (Hother j w1) as [-> ->]; [done..|]. by eapply Hho.
  - intros Ex. destruct Hm as [(_ & _ & _ & _ & _ & ->)|[(H0 & H1 & _)|(Heq & -> & Hst)]]; [done|by apply Hrel|].
    assert (holds w = false) as H0.
    { destruct (holds w) eqn:E; [|done]. apply (holder_exclusive x i w M Hi) in E. simpl in E. congruence. }
    rewrite (Hst H0), (Hidle H0) by congruence. by apply Hfr.
  - intros j w1 [(-> & -> & _)|[Hne Hj]]%list_lookup_insert_Some; [done|].
    destruct (holds w1) eqn:H1; [|by apply writer_ok_idle].
    destruct (Hother j w1) as [_ ->]; [done..|]. by eapply Hwr.
  - intros j r Hj. apply (reader_ok_step c0 c); [done|]. pose proof (Hrd _ _ Hj) as Hr.
    destruct (shares r) eqn:Hs; [|by eapply reader_ok_idle].
    destruct (sharer_counted x j r M Hj Hs) as [Hpos Ex]. simpl in *.
    destruct Hm as [(_ & _ & _ & E & _)|[(_ & _ & -> & _)|(_ & _ & Hst)]]; [lia|done|].
    rewrite Hst; [done|]. destruct (holds w) eqn:E; [|done].
    apply (holder_exclusive x i w M Hi) in E. simpl in E. congruence.
Qed.

Lemma lock_sim_reader c0 k st ws rs c j r k' r' :
  lock_sim c0 {| mutex := k; store_of := st; writers := ws; readers := rs |} c ->
  rs !! j = Some r -> reader_step k st r = Some (k', r') ->
  lock_sim c0 {| mutex := k'; store_of := st; writers := ws; readers := <[j := r']> rs |} c.
Proof.
  intros S Hj Hr. set (x := {| mutex := k; store_of := st; writers := ws; readers := rs |}) in S.
  set (x' := {| mutex := k'; store_of := st; writers := ws; readers := <[j := r']> rs |}).
  assert (mutex_ok x') as M' by (eapply mutex_ok_step; [exact (ls_mutex _ _ _ S)|by econstructor]).
  pose proof S as [M Hrun Hth Hdb Hho Hfr Hwr Hrd]. simpl in *.
  pose proof (reader_step_mutex _ _ _ _ _ Hr) as [Hex _].
  assert (shares r = true -> shared c = st) as Hsc.
  { intros Hs. apply Hfr. by destruct (sharer_counted x j r M Hj Hs). }
  assert (reader_ok c0 c st r') as Hok.
  { pose proof (Hrd _ _ Hj) as Hrj.
    assert (forall key res, shared c = st -> get_meta st key = res -> seen c0 c key res) as Hseen.
    { intros key res E Hg. exists c. by rewrite E. }
    destruct r as [key|key|key h|key y|key y]; simpl in Hr, Hrj.
    - destruct (lock_shared k); [|done]. injection Hr as _ <-.
      destruct (is_md5 key) eqn:E; simpl; by rewrite E.
    - injection Hr as _ <-. specialize (Hsc eq_refl).
      destruct (db_get (db_ st) (path_key key)) as [h|] eqn:E; simpl; [by rewrite Hrj|].
      apply Hseen; [done|]. unfold get_meta. by rewrite Hrj, E.
    - injection Hr as _ <-. apply Hseen; [by apply Hsc|]. unfold get_meta. by rewrite Hrj.
    - by injection Hr as _ <-.
    - done. }
  constructor; simpl; try done.
  - rewrite Hex. done.
  - intros j1 r1 [(-> & -> & _)|[_ Hj1]]%list_lookup_insert_Some; [done|by eapply Hrd].
Qed.

Lemma lock_sim_run c0 x x' c : rtc lock_step x x' -> lock_sim c0 x c -> exists c', lock_sim c0 x' c'.
Proof.
  intros Hr. revert c. induction Hr as [x|x y z Hs _ IH]; intros c S; [by exists c|].
  destruct Hs as [k st ws rs i w k' st' w' Hi Hw|k st ws rs j r k' r' Hj Hw].
  - destruct (lock_sim_writer _ _ _ _ _ _ _ _ _ _ _ S Hi Hw) as [c' S']. by eapply IH.
  - eapply IH. by eapply lock_sim_reader.
Qed.

(** ** Waiting *)

Definition writer_done (w : writer) : bool :=
  match w with Returned _ | Thrown _ => true | _ => false end.
Definition reader_done (r : reader) : bool := match r with Found _ _ => true | _ => false end.

(** The accesses a call has still to make, at most. *)
Definition writer_rank (w : writer) : nat :=
  let after (next : option MetaFile) := match next with Some _ => 5 | None => 0 end in
  match w with
  | Begin (OpSave _) => 5
  | Begin (OpDelete _) => 5
  | Begin (OpUpdate _) => 10
  | Begin (OpStatus _ _) => 4
  | Begin (OpShard _ _ _) => 3
  | SaveLock _ => 4
  | SaveWrite _ => 3
  | SaveCount _ => 2
  | DelRead _ next => 4 + after next
  | DelWrite _ _ next => 3 + after next
  | DelCount _ next => 2 + after next
  | StatusRead _ _ => 3
  | StatusPut _ _ _ | ShardPut _ _ _ => 2
  | Leave _ next => 1 + after next
  | LeaveThrow _ => 1
  | Returned _ | Thrown _ => 0
  end.

Definition reader_rank (r : reader) : nat :=
  match r with
  | Look _ => 4 | LookPath _ => 3 | LookRecord _ _ => 2 | LeaveShared _ _ => 1 | Found _ _ => 0
  end.

Definition lock_rank (x : lock_state) : nat :=
  sum_list_with writer_rank (writers x) + sum_list_with reader_rank (readers x).

Lemma writer_step_rank k st w k' st' w' :
  writer_step k st w = Some (k', st', w') -> writer_rank w' < writer_rank w.
Proof.
  destruct w as [[]| | | | | | | | | | | | |]; simpl; unfold locked; repeat case_match; intros; simplify_eq/=; lia.
Qed.

Lemma reader_step_rank k st r k' r' : reader_step k st r = Some (k', r') -> reader_rank r' < reader_rank r.
Proof. destruct r; simpl; repeat case_match; intros; simplify_eq/=; lia. Qed.

Lemma lock_step_rank x x' : lock_step x x' -> lock_rank x' < lock_rank x.
Proof.
  unfold lock_rank. intros [k st ws rs i w k' st' w' Hi Hw|k st ws rs j r k' r' Hj Hr]; simpl.
  - pose proof (sum_list_with_insert writer_rank ws i w w' Hi). apply writer_step_rank in Hw. lia.
  - pose proof (sum_list_with_insert reader_rank rs j r r' Hj). apply reader_step_rank in Hr. lia.
Qed.

Lemma lock_init_rank st ops keys : lock_rank (lock_init st ops keys) <= 10 * length ops + 4 * length keys.
Proof.
  unfold lock_rank, lock_init. simpl.
  assert (sum_list_with writer_rank (Begin <$> ops) <= 10 * length ops) as H1.
  { induction ops as [|o ops IH]; [simpl; lia|]. rewrite fmap_cons. cbn [sum_list_with length].
    assert (writer_rank (Begin o) <= 10) by (destruct o; simpl; lia). lia. }
  assert (sum_list_with reader_rank (Look <$> keys) <= 4 * length keys) as H2.
  { clear. induction keys as [|key keys IH]; [simpl; lia|]. rewrite fmap_cons. simpl in *. lia. }
  lia.
Qed.

(** Who holds the mutex can go on; when it is free, everyone can. *)
Lemma writer_progress k st w :
  holds w = true \/ (exclusive k = false /\ sharers k = 0 /\ writer_done w = false) ->
  is_Some (writer_step k st w).
Proof.
  assert (exclusive k = false /\ sharers k = 0 -> is_Some (lock k)) as Hl.
  { intros [E E0]. unfold lock. by rewrite E, E0. }
  assert (forall w1, is_Some (lock k) -> is_Some (locked k st w1)) as Hld.
  { intros w1 [k1 E]. unfold locked. by rewrite E. }
  destruct w as [[]| | | | | | | | | | | | |]; simpl;
    (intros [H|(? & ? & ?)]; [try done; repeat case_match; eauto|try done; eauto]);
    repeat case_match; eauto.
Qed.

Lemma reader_progress k st r :
  shares r = true \/ (exclusive k = false /\ reader_done r = false) -> is_Some (reader_step k st r).
Proof.
  destruct r; simpl; intros [H|[E H]]; try done; eauto. unfold lock_shared. rewrite E. eauto.
Qed.

Lemma sum_b2n_pos {A} (f : A -> bool) l :
  0 < sum_list_with (fun a => Nat.b2n (f a)) l -> exists i a, l !! i = Some a /\ f a = true.
Proof.
  induction l as [|a l IH]; simpl; [lia|]. destruct (f a) eqn:E; [intros _; by exists 0, a|].
  intros (i & b & Hi & Hb)%IH. by exists (S i), b.
Qed.

(** A state in which nobody can go on is one in which everybody has returned. *)
Lemma lock_stuck x :
  mutex_ok x -> (forall x', ~ lock_step x x') ->
  Forall (fun w => writer_done w = true) (writers x) /\ Forall (fun r => reader_done r = true) (readers x).
Proof.
  intros M Hn. destruct x as [k st ws rs]. pose proof M as [Mh Ms Ma]. simpl in *.
  assert (forall i w, ws !! i = Some w ->
    ~ (holds w = true \/ (exclusive k = false /\ sharers k = 0 /\ writer_done w = false))) as Hws.
  { intros i w Hi H. destruct (writer_progress k st w H) as [[[k' st'] w'] E].
    by eapply Hn, lock_step_writer. }
  assert (forall j r, rs !! j = Some r ->
    ~ (shares r = true \/ (exclusive k = false /\ reader_done r = false))) as Hrs.
  { intros j r Hj H. destruct (reader_progress k st r H) as [[k' r'] E]. by eapply Hn, lock_step_reader. }
  assert (exclusive k = false) as Ex.
  { destruct (exclusive k) eqn:E; [|done]. exfalso.
    destruct (sum_b2n_pos holds ws) as (i & w & Hi & Hw); [unfold holders in Mh; simpl in Mh; lia|].
    by eapply (Hws i w); [|left]. }
  assert (sharers k = 0) as E0.
  { destruct (decide (sharers k = 0)) as [|Hne]; [done|]. exfalso.
    destruct (sum_b2n_pos shares rs) as (j & r & Hj & Hr); [unfold sharing in Ms; lia|].
    by eapply (Hrs j r); [|left]. }
  split; apply Forall_lookup; intros i a Hi; apply not_false_is_true; intros Hf.
  - by eapply Hws; [|right].
  - by eapply Hrs; [|right].
Qed.

Definition key_of (r : reader) : str :=
  match r with
  | Look key | LookPath key | LookRecord key _ | LeaveShared key _ | Found key _ => key
  end.

Lemma lock_run_keys x x' : rtc lock_step x x' -> key_of <$> readers x' = key_of <$> readers x.
Proof.
  induction 1 as [|x y z Hs _ ->]; [done|].
  destruct Hs as [|k st ws rs j r k' r' Hj Hr]; [done|]. simpl. rewrite list_fmap_insert.
  apply list_insert_id. rewrite list_lookup_fmap, Hj. simpl. f_equal.
  destruct r; simpl in Hr; repeat case_match; by simplify_eq/=.
Qed.

(** * Properties *)

(** C3: the mutex makes the sections of [MetaConc] atomic. In every run of any number of
    calls of [save_meta], [delete_meta], [update_status], [update_meta],
    [save_meta_shard] and [get_meta], in which every operation of the mutex, every call
    of LevelDB and every update of the statistics is a step of its own, at most one call
    that writes holds the mutex, and no call of [get_meta] then reads; the state is one
    that [MetaConc] reaches section by section, with the same calls returned with the
    same results, the same database and, when the mutex is free, the same statistics;
    and what a call of [get_meta] has returned is the record of its key in one of the
    stores between the sections. *)
Theorem locked_sections_atomic st ops keys x :
  rtc lock_step (lock_init st ops keys) x ->
  (forall i j w w', writers x !! i = Some w -> writers x !! j = Some w' ->
     holds w = true -> holds w' = true -> i = j) /\
  (forall i j w r, writers x !! i = Some w -> readers x !! j = Some r ->
     holds w = true -> shares r = false) /\
  exists c, rtc meta_step (spawn st ops) c /\ threads c = coarse <$> writers x /\
    db_ (shared c) = db_ (store_of x) /\ (exclusive (mutex x) = false -> shared c = store_of x) /\
    forall j key r, readers x !! j = Some (Found key r) ->
      keys !! j = Some key /\ seen (spawn st ops) c key r.
Proof.
  intros Hr. destruct (lock_sim_run _ _ _ _ Hr (lock_sim_init st ops keys)) as [c S].
  pose proof (ls_mutex _ _ _ S) as M. split_and!.
  - intros i j w w'. apply holder_unique. rewrite (mutex_holders _ M).
    destruct (exclusive (mutex x)); simpl; lia.
  - intros i j w r Hi Hj Hw. apply not_true_is_false. intros Hs.
    pose proof (holder_exclusive _ _ _ M Hi Hw) as Ex. destruct (sharer_counted _ _ _ M Hj Hs). congruence.
  - exists c. split_and!; try apply S. intros j key r Hj. split; [|exact (ls_readers _ _ _ S _ _ Hj)].
    apply lock_run_keys in Hr. simpl in Hr. rewrite <- list_fmap_compose, list_fmap_id in Hr.
    apply (f_equal (lookup j)) in Hr. by rewrite list_lookup_fmap, Hj in Hr.
Qed.

(** C27: no call waits forever for the mutex: a run makes at most ten accesses for every
    call that writes and four for every [get_meta], and where no thread can go on every
    call has returned or thrown, whatever the database answers. *)
Theorem locked_calls_return st ops keys n x :
  nsteps lock_step n (lock_init st ops keys) x ->
  n <= 10 * length ops + 4 * length keys /\
  ((forall x', ~ lock_step x x') ->
   Forall (fun w => writer_done w = true) (writers x) /\ Forall (fun r => reader_done r = true) (readers x)).
Proof.
  intros Hrun. split.
  - apply (nsteps_measure _ lock_rank) in Hrun as Hm; [|apply lock_step_rank].
    pose proof (lock_init_rank st ops keys). lia.
  - apply lock_stuck. assert (rtc lock_step (lock_init st ops keys) x) as Hr by by eapply rtc_nsteps_2.
    destruct (lock_sim_run _ _ _ _ Hr (lock_sim_init st ops keys)) as [c S]. apply S.
Qed.

(** ** Schedules *)

(** The run of a schedule of writers and readers; a thread that waits is skipped. *)
Fixpoint run_locks (x : lock_state) (sched : list (nat + nat)) : lock_state :=
  match sched with
  | [] => x
  | inl i :: sched' =>
      run_locks
        match writers x !! i with
        | Some w => match writer_step (mutex x) (store_of x) w with
                    | Some (k, st, w') =>
                        {| mutex := k; store_of := st; writers := <[i := w']> (writers x); readers := readers x |}
                    | None => x
                    end
        | None => x
        end sched'
  | inr j :: sched' =>
      run_locks
        match readers x !! j with
        | Some r => match reader_step (mutex x) (store_of x) r with
                    | Some (k, r') =>
                        {| mutex := k; store_of := store_of x; writers := writers x;
                           readers := <[j := r']> (readers x) |}
                    | None => x
                    end
        | None => x
        end sched'
  end.

Lemma run_locks_steps sched x : rtc lock_step x (run_locks x sched).
Proof.
  revert x. induction sched as [|[i|j] sched IH]; intros [k st ws rs]; simpl; [done|..].
  - destruct (ws !! i) as [w|] eqn:Hi; [|apply IH].
    destruct (writer_step k st w) as [[[k' st'] w']|] eqn:Hw; [|apply IH].
    eapply rtc_l; [by eapply lock_step_writer|apply IH].
  - destruct (rs !! j) as [r|] eqn:Hj; [|apply IH].
    destruct (reader_step k st r) as [[k' r']|] eqn:Hr; [|apply IH].
    eapply rtc_l; [by eapply lock_step_reader|apply IH].
Qed.

Lemma done_stuck x :
  forallb writer_done (writers x) && forallb reader_done (readers x) = true -> forall x', ~ lock_step x x'.
Proof.
  rewrite andb_true_iff, !forallb_Forall. intros [Hw Hr] x' Hs. rewrite !Forall_lookup in *.
  destruct Hs as [k st ws rs i w k' st' w' Hi E|k st ws rs j r k' r' Hj E]; simpl in *.
  - apply Hw in Hi. by destruct w.
  - apply Hr in Hj. by destruct r.
Qed.

End Lock.

(** * Witnesses *)

Import TaggedJson.

(** An update waits for a save that is between its write and its count, and a look-up
    waits for the update. *)
Definition lock_ops : list op := [OpSave test_meta; OpUpdate test_meta].
Definition lock_keys : list str := [path test_meta].

Definition lock_start : lock_state := lock_init fresh_store lock_ops lock_keys.

Definition lock_sched : list (nat + nat) :=
  [inl 0; inl 0; inl 1; inl 0; inl 1; inr 0; inl 0; inl 0; inl 1; inr 0; inl 1; inl 1; inl 1; inl 1;
   inr 0; inr 0; inl 1; inl 1; inr 0; inr 0; inl 1; inl 1; inl 1; inl 1; inl 1].

Definition lock_end : lock_state := run_locks lock_start lock_sched.

Lemma lock_end_reached : rtc lock_step lock_start lock_end.
Proof. unfold lock_end. apply run_locks_steps. Qed.

Example lock_end_returned :
  writers lock_end = [Returned true; Returned true] /\ readers lock_end = [Found (path test_meta) None].
Proof. split; vm_compute; reflexivity. Qed.

Lemma locked_sections_atomic_witness :
  exists c, rtc meta_step (spawn fresh_store lock_ops) c /\ threads c = [Finished true; Finished true] /\
    seen (spawn fresh_store lock_ops) c (path test_meta) None.
Proof.
  destruct (locked_sections_atomic fresh_store lock_ops lock_keys lock_end lock_end_reached)
    as (_ & _ & c & Hc & Ht & _ & _ & Hseen).
  exists c. destruct lock_end_returned as [Hw Hrd]. split; [exact Hc|]. split.
  - rewrite Ht, Hw. reflexivity.
  - apply (Hseen 0). rewrite Hrd. reflexivity.
Defined.

Lemma locked_calls_return_witness :
  exists n, nsteps lock_step n lock_start lock_end /\ n <= 24 /\
    Forall (fun w => writer_done w = true) (writers lock_end).
Proof.
  destruct (rtc_nsteps_1 lock_start lock_end lock_end_reached) as [n Hn]. exists n.
  destruct (locked_calls_return fresh_store lock_ops lock_keys n lock_end Hn) as [Hle Hdone].
  split; [exact Hn|]. split; [exact Hle|].
  refine (proj1 (Hdone _)). apply done_stuck. destruct lock_end_returned as [-> ->]. reflexivity.
Defined.
