(* ===== verification/MetaScan.v ===== *)
(** The scans of [file/MetadataStore.cpp] against the abstract index: what
    [list_dir], [get_uploaded_shard] and [repair_stat] return, and that a fuel above
    the number of stored entries is enough for each loop. *)

From stdpp Require Import base list strings gmap sorting numbers fin_maps.
From Stdlib Require Import ZArith Ascii Lia.
From S2P Require Import Prelude Json MetaFile LevelDB MetadataStore MetaRefine.

(** ** What an iterator still has to visit *)

Section Cursor.
Context {L : LevelDB} {LS : LevelDBSpec L}.

(** The entries from the current position on, forwards for [order = 1] and
    backwards otherwise. *)
Definition ahead (order : Z) (it : Iter) : list (str * str) :=
  match it_pos it with
  | None => []
  | Some p => if decide (order = 1%Z) then drop p (it_snap it) else reverse (take (S p) (it_snap it))
  end.

Definition advance (order : Z) (it : Iter) : Iter :=
  if decide (order = 1%Z) then it_next it else it_prev it.

Lemma ahead_invalid order it : it_valid it = false -> ahead order it = [].
Proof.
  rewrite iter_valid. unfold ahead. destruct (it_pos it); [|done].
  by rewrite bool_decide_true by eauto.
Qed.

Lemma ahead_clip it it' i :
  it_snap it' = it_snap it -> it_pos it' = clip (it_snap it) i -> ahead 1 it' = drop i (it_snap it).
Proof.
  unfold ahead, clip. intros Hs ->. case_decide; rewrite ?Hs; [done|].
  symmetry. apply drop_ge. lia.
Qed.

Lemma ahead_valid order it :
  it_valid it = true ->
  ahead order it = (it_key it, it_value it) :: ahead order (advance order it).
Proof.
  rewrite iter_valid, bool_decide_eq_true. intros [p Hp].
  pose proof (iter_entry _ _ Hp) as He. unfold advance.
  case_decide as Ho.
  - subst order. destruct (iter_next _ _ Hp) as [Hs Hn]. rewrite (ahead_clip it _ _ Hs Hn).
    unfold ahead. rewrite Hp, decide_True by done. by rewrite (drop_S _ _ _ He).
  - destruct (iter_prev _ _ Hp) as [Hs Hn]. unfold ahead. rewrite Hp, Hn, decide_False by done.
    rewrite (take_S_r _ _ _ He), reverse_snoc. f_equal.
    destruct p as [|p]; [done|]. by rewrite Hs, decide_False.
Qed.

Lemma advance_next it : advance 1 it = it_next it.
Proof. done. Qed.

Lemma iter_fresh_length db : length (it_snap (new_iterator db)) = base.size (contents db).
Proof. destruct (iter_new db) as [Hp _]. by rewrite Hp, length_map_to_list. Qed.

(** Scanning forwards from the start of a block. *)
Lemma ahead_seek_block q c it :
  code c < 255 -> StronglySorted key_lt (it_snap it) ->
  let p := q ++ [c] in
  exists b, ahead 1 (it_seek it p) = with_prefix p (it_snap it) ++ b /\
    Forall (fun kv => p `prefix_of` kv.1) (with_prefix p (it_snap it)) /\
    Forall (fun kv => ~ p `prefix_of` kv.1) b.
Proof.
  intros Hc Hs p.
  destruct (prefix_block q c _ Hc Hs) as (a & b & Hl & Ha & Hp & Hge & _ & _ & _ & Hb).
  fold p in Hl, Ha, Hp, Hge, Hb. destruct (iter_seek it p) as [Hsnap Hpos].
  exists b. split_and!; [|done..]. rewrite (ahead_clip it _ _ Hsnap Hpos).
  rewrite Hl at 1 2. by rewrite seek_index_app, seek_index_ge, Nat.add_0_r, drop_app_length by done.
Qed.

Lemma ahead_last order it :
  order <> 1%Z -> ahead order (it_seek_to_last it) = reverse (it_snap it).
Proof.
  intros Ho. destruct (iter_last it) as [Hs Hp]. unfold ahead. rewrite Hp. unfold clip.
  case_decide as Hl.
  - rewrite decide_False, Hs by done. by rewrite take_ge by lia.
  - destruct (it_snap it); simpl in *; [done|lia].
Qed.

Lemma ahead_prev order it i :
  order <> 1%Z -> it_valid it = true -> it_pos it = clip (it_snap it) i ->
  ahead order (it_prev it) = reverse (take i (it_snap it)).
Proof.
  intros Ho. rewrite iter_valid, bool_decide_eq_true. intros [p Hp] Hi.
  assert (p = i) as ->. { rewrite Hp in Hi. unfold clip in Hi. by case_decide; simplify_eq. }
  destruct (iter_prev _ _ Hp) as [Hs Hn]. unfold ahead. rewrite Hn.
  destruct i as [|i]; [done|]. by rewrite decide_False, Hs.
Qed.

Lemma clip_invalid it i :
  it_valid it = false -> it_pos it = clip (it_snap it) i -> length (it_snap it) <= i.
Proof.
  rewrite iter_valid, bool_decide_eq_false. intros Hv Hp. rewrite Hp in Hv. unfold clip in Hv.
  case_decide; [|lia]. by destruct Hv.
Qed.

(** Scanning backwards from the end of a block, the way [list_dir] gets there. *)
Lemma ahead_start_desc order q c it :
  order <> 1%Z -> code c < 255 -> StronglySorted key_lt (it_snap it) ->
  bump_last (q ++ [c]) = q ++ [chr (S (code c))] ->
  let p := q ++ [c] in
  exists a, ahead order (list_dir_start order p it) = reverse (with_prefix p (it_snap it)) ++ a /\
    Forall (fun kv => p `prefix_of` kv.1) (reverse (with_prefix p (it_snap it))) /\
    Forall (fun kv => ~ p `prefix_of` kv.1) a.
Proof.
  intros Ho Hc Hs Hbump p.
  destruct (prefix_block q c _ Hc Hs) as (a & b & Hl & Ha & Hp & Hge & Hlt & Hbu & Hap & Hbp).
  fold p in Hl, Ha, Hp, Hge, Hap, Hbp, Hlt, Hbu. exists (reverse a).
  rewrite !Forall_reverse. split_and!; [|done..]. rewrite <- reverse_app.
  set (w := with_prefix p (it_snap it)) in *. unfold list_dir_start. rewrite decide_False by done.
  destruct (iter_seek it p) as [Hs1 Hp1]. rewrite <- Hs1 in Hp1.
  assert (seek_index p (it_snap it) = length a) as Hi1.
  { rewrite Hl. by rewrite seek_index_app, seek_index_ge by done. }
  destruct (it_valid (it_seek it p)) eqn:Hv1; simpl.
  - fold p in Hbump. rewrite Hbump. set (u := q ++ [chr (S (code c))]) in *.
    destruct (iter_seek (it_seek it p) u) as [Hs2 Hp2]. rewrite <- Hs2 in Hp2.
    assert (seek_index u (it_snap it) = length (a ++ w)) as Hi2.
    { rewrite Hl, app_assoc. by rewrite seek_index_app, seek_index_ge by done. }
    rewrite Hs2, Hs1, Hi2 in Hp2. destruct (it_valid (it_seek (it_seek it p) u)) eqn:Hv2.
    + rewrite (ahead_prev _ _ (length (a ++ w)) Ho Hv2) by by rewrite Hs2, Hs1.
      rewrite Hs2, Hs1, Hl, app_assoc. by rewrite take_app_length.
    + assert (length (it_snap it) <= length (a ++ w)) as Hle.
      { rewrite <- Hs1, <- Hs2. apply clip_invalid; [done|]. by rewrite Hs2, Hs1. }
      rewrite ahead_last, Hs2, Hs1 by done. f_equal. rewrite Hl in Hle |- *.
      rewrite app_assoc, length_app in Hle. destruct b; simpl in Hle; [|lia].
      by rewrite app_nil_r.
  - assert (length (it_snap it) <= length a) as Hle.
    { rewrite <- Hs1. apply clip_invalid; [done|]. by rewrite Hp1, Hs1, Hi1. }
    rewrite ahead_last, Hs1 by done. f_equal. rewrite Hl in Hle |- *.
    rewrite !length_app in Hle. destruct w; simpl in Hle; [|lia].
    destruct b; simpl in Hle; [|lia]. done.
Qed.
End Cursor.

(** ** [list_dir] *)

(** The first [limit] elements; all of them for a negative limit. *)
Definition first_of {A} (limit : Z) (l : list A) : list A :=
  if decide (limit > 0)%Z then take (Z.to_nat limit) l else l.

Definition page {A} (offset limit : Z) (l : list A) : list A :=
  first_of limit (drop (Z.to_nat offset) l).

Lemma first_of_cons {A} limit (x : A) l :
  (limit > 1 \/ limit < 0)%Z -> first_of limit (x :: l) = x :: first_of (limit - 1) l.
Proof.
  intros H. unfold first_of. repeat case_decide; try lia; [|done].
  replace (Z.to_nat limit) with (S (Z.to_nat (limit - 1))) by lia. done.
Qed.

Lemma first_of_1 {A} (x : A) l : first_of 1 (x :: l) = [x].
Proof. done. Qed.

Section Scan.
Context {L : LevelDB} {LS : LevelDBSpec L} {J : JsonLib} {JL : JsonLaws J}.

Lemma list_dir_loop_spec st p offset limit order fuel it blk tl skipped fetched results :
  ahead order it = blk ++ tl ->
  Forall (fun kv => p `prefix_of` kv.1) blk -> Forall (fun kv => ~ p `prefix_of` kv.1) tl ->
  length (ahead order it) < fuel -> (skipped <= offset)%Z ->
  (0 <= fetched)%Z -> (limit > fetched \/ limit < 0)%Z ->
  list_dir_loop fuel st p offset limit order it skipped fetched results =
  Some (results ++ first_of (limit - fetched)
          (omap (fun kv => get_meta st kv.2) (drop (Z.to_nat (offset - skipped)) blk))).
Proof.
  revert it blk skipped fetched results. induction fuel as [|fuel IH];
    intros it blk skipped fetched results Hit Hblk Htl Hfuel Hsk Hf Hlim; [lia|]. simpl.
  destruct (it_valid it) eqn:Hv.
  2: { apply (ahead_invalid order) in Hv. rewrite Hv in Hit.
       symmetry in Hit. apply app_eq_nil in Hit as [-> _].
       rewrite drop_nil. simpl. unfold first_of. case_decide; by rewrite ?take_nil, app_nil_r. }
  apply (ahead_valid order) in Hv. rewrite Hv in Hit, Hfuel. simpl in Hfuel.
  destruct blk as [|kv blk]; simpl in Hit.
  { destruct (starts_with p (it_key it)) eqn:Hp; simpl.
    - apply starts_with_spec in Hp. subst tl. by apply Forall_cons_iff in Htl as [[] _].
    - rewrite drop_nil. simpl. unfold first_of. case_decide; by rewrite ?take_nil, app_nil_r. }
  apply Forall_cons_iff in Hblk as [Hkv Hblk]. injection Hit as <- Hit. simpl in Hkv.
  apply starts_with_spec in Hkv. rewrite Hkv. simpl. fold (advance order it).
  case_decide as Ho.
  { rewrite (IH _ blk) by (done || lia). f_equal. f_equal. f_equal. f_equal.
    by replace (Z.to_nat (offset - skipped)) with (S (Z.to_nat (offset - (skipped + 1)))) by lia. }
  replace (Z.to_nat (offset - skipped)) with 0 by lia. simpl.
  assert (drop (Z.to_nat (offset - skipped)) blk = blk) as Hd
    by by replace (Z.to_nat (offset - skipped)) with 0 by lia.
  destruct (get_meta st (it_value it)) as [m|] eqn:Hm.
  - case_decide as Hstop.
    + replace (limit - fetched)%Z with 1%Z by lia. by rewrite first_of_1.
    + rewrite (IH _ blk) by (done || lia). rewrite Hd, first_of_cons, <- app_assoc by lia.
      by replace (limit - fetched - 1)%Z with (limit - (fetched + 1))%Z by lia.
  - rewrite decide_False by lia. rewrite (IH _ blk) by (done || lia). by rewrite Hd.
Qed.

Lemma ahead_length order it : length (ahead order it) <= length (it_snap it).
Proof.
  unfold ahead. destruct (it_pos it); simpl; [|lia]. case_decide.
  - rewrite length_drop. lia.
  - rewrite length_reverse, length_take. lia.
Qed.

Lemma list_dir_start_snap order p it : it_snap (list_dir_start order p it) = it_snap it.
Proof.
  assert (forall k j, it_snap (it_seek j k) = it_snap j) as Hseek by (intros; apply iter_seek).
  assert (forall j, it_snap (it_seek_to_last j) = it_snap j) as Hlast by (intros; apply iter_last).
  unfold list_dir_start. case_decide; [done|].
  destruct (it_valid (it_seek it p)); simpl; [|by rewrite Hlast].
  destruct (it_valid (it_seek (it_seek it p) (bump_last p))) eqn:Hv.
  - rewrite iter_valid, bool_decide_eq_true in Hv. destruct Hv as [i Hi].
    destruct (iter_prev _ _ Hi) as [-> _]. by rewrite !Hseek.
  - by rewrite Hlast, !Hseek.
Qed.

(** The entries of a scene, in the order of the listing. *)
Definition scene_block (st : store) (dir : str) : list (str * str) :=
  with_prefix (scene_prefix dir) (it_snap (new_iterator (db_ st))).

Definition in_order {A} (order : Z) (l : list A) : list A :=
  if decide (order = 1%Z) then l else reverse l.

Lemma scene_prefix_snoc dir : scene_prefix dir = (lit "SCENE:" ++ dir) ++ [COLON].
Proof. unfold scene_prefix. by rewrite app_assoc. Qed.

Lemma bump_scene_prefix dir :
  bump_last (scene_prefix dir) = (lit "SCENE:" ++ dir) ++ [chr (Datatypes.S (code COLON))].
Proof.
  rewrite scene_prefix_snoc. generalize (lit "SCENE:" ++ dir). intros q.
  unfold bump_last. rewrite last_snoc, length_app, Nat.add_sub. by rewrite take_app_length.
Qed.

Lemma list_dir_run fuel st dir offset limit order :
  (0 <= offset)%Z -> (limit <> 0)%Z -> base.size (contents (db_ st)) < fuel ->
  list_dir fuel st dir offset limit order =
  Some (first_of limit (omap (fun kv => get_meta st kv.2)
          (drop (Z.to_nat offset) (in_order order (scene_block st dir))))).
Proof.
  intros Hoff Hlim Hfuel. unfold list_dir. rewrite decide_False by lia.
  set (it := new_iterator (db_ st)).
  pose proof (iter_new (db_ st)) as [_ Hsort]. fold it in Hsort.
  assert (exists tl, ahead order (list_dir_start order (scene_prefix dir) it) =
            in_order order (scene_block st dir) ++ tl /\
    Forall (fun kv => scene_prefix dir `prefix_of` kv.1) (in_order order (scene_block st dir)) /\
    Forall (fun kv => ~ scene_prefix dir `prefix_of` kv.1) tl) as (tl & Htl & Hb & Ht).
  { unfold in_order, scene_block. fold it. case_decide as Ho.
    - subst order. rewrite scene_prefix_snoc. by apply ahead_seek_block; [by_decide|].
    - rewrite scene_prefix_snoc. apply ahead_start_desc; [done|by_decide|done|].
      by rewrite <- scene_prefix_snoc, bump_scene_prefix. }
  rewrite (list_dir_loop_spec _ _ _ _ _ _ _ _ _ _ _ _ Htl Hb Ht); [|try lia..].
  - by rewrite !Z.sub_0_r.
  - pose proof (ahead_length order (list_dir_start order (scene_prefix dir) it)) as Hal.
    rewrite list_dir_start_snap in Hal. subst it. rewrite iter_fresh_length in Hal. lia.
Qed.

(** *** The block of a scene, over the abstract index *)

Definition list_key (m : MetaFile) : str := to_string (mtime m) ++ [COLON] ++ md5 m.

Definition scene_entry (m : MetaFile) : str * str :=
  (scene_key (scene m) (mtime m) (md5 m), md5 m).

Lemma prefix_upto_colon x y r :
  COLON ∉ x -> COLON ∉ y -> (x ++ [COLON]) `prefix_of` (y ++ COLON :: r) -> x = y.
Proof.
  revert y. induction x as [|c x IH]; intros [|d y] Hx Hy [s Hs]; simpl in *; [done| | |].
  - injection Hs as -> _. by destruct Hy; left.
  - injection Hs as <- _. by destruct Hx; left.
  - injection Hs as -> Hs. f_equal. apply IH.
    + intros ?. apply Hx. by right.
    + intros ?. apply Hy. by right.
    + by exists s.
Qed.

Lemma scene_prefix_key dir s t h :
  COLON ∉ dir -> COLON ∉ s -> scene_prefix dir `prefix_of` scene_key s t h <-> dir = s.
Proof.
  intros Hd Hs. unfold scene_prefix, scene_key. split.
  - intros Hp%prefix_app_inv. by apply prefix_upto_colon in Hp.
  - intros ->. apply prefix_app. rewrite app_assoc. by apply prefix_app_r.
Qed.

Lemma scene_prefix_colon dir k : scene_prefix dir `prefix_of` k -> COLON ∈ k.
Proof.
  intros [s ->]. unfold scene_prefix. rewrite !elem_of_app. left. left. by_decide.
Qed.

Lemma scene_block_entries st a dir kv :
  represents st a -> (forall h m, a !! h = Some m -> COLON ∉ scene m) -> COLON ∉ dir ->
  kv ∈ scene_block st dir <-> exists m, a !! md5 m = Some m /\ scene m = dir /\ kv = scene_entry m.
Proof.
  intros R Hsc Hd. unfold scene_block, with_prefix. rewrite list_elem_of_filter.
  destruct kv as [k v]. rewrite (snapshot_lookup _ _ _ _ (iter_new (db_ st))). simpl. split.
  - intros [Hp Hk]. assert (~ is_shard_key k) as Hns. { destruct Hp as [s ->]. by intros [r Hr]. }
    apply (rep_entries _ _ R) in Hk as (m & Hm & He); [|done]. exists m.
    pose proof (rep_records _ _ R _ _ Hm) as (_ & ([_ Hc] & _) & _).
    apply entries_of_keys in He as [[-> _]|[[-> _]|[-> ->]]].
    + by apply scene_prefix_colon in Hp.
    + by destruct Hp as [s Hs].
    + apply scene_prefix_key in Hp; [|done|by eapply Hsc]. done.
  - intros (m & Hm & <- & [= -> ->]). split.
    + by apply scene_prefix_key; [eapply Hsc..|].
    + apply (rep_entries _ _ R); [apply scene_not_shard|]. exists m. split; [done|].
      apply entries_of_keys. auto.
Qed.

Lemma omap_all {A B} (g : A -> option B) (e : B -> A) l :
  Forall (fun x => exists y, g x = Some y /\ x = e y) l -> l = e <$> omap g l.
Proof.
  induction 1 as [|x l (y & Hy & Hx) _ IH]; [done|]. simpl. rewrite Hy, Hx at 1.
  rewrite fmap_cons. f_equal. exact IH.
Qed.

Lemma omap_drop_all {A B} (g : A -> option B) (e : B -> A) l n :
  Forall (fun x => exists y, g x = Some y /\ x = e y) l -> omap g (drop n l) = drop n (omap g l).
Proof.
  intros H. revert n. induction H as [|x l (y & Hy & _) _ IH]; intros [|n]; try done.
  simpl. rewrite Hy. apply IH.
Qed.

Lemma omap_reverse {A B} (g : A -> option B) l : omap g (reverse l) = reverse (omap g l).
Proof.
  induction l as [|x l IH]; [done|]. rewrite reverse_cons, omap_app, IH. simpl.
  destruct (g x); simpl; [by rewrite reverse_cons|by rewrite app_nil_r].
Qed.

Definition listed_before (m m' : MetaFile) : Prop := str_lt (list_key m) (list_key m').

Lemma StronglySorted_filter {A} (R : A -> A -> Prop) (P : A -> Prop) `{forall x, Decision (P x)} l :
  StronglySorted R l -> StronglySorted R (filter P l).
Proof.
  induction 1 as [|x l _ IH Hx]; [constructor|]. rewrite filter_cons. case_decide; [|done].
  constructor; [done|]. apply list.Forall_forall. intros y [_ Hy]%list_elem_of_filter.
  exact (proj1 (list.Forall_forall _ _) Hx y Hy).
Qed.

Lemma StronglySorted_fmap_inv {A B} (R : B -> B -> Prop) (f : A -> B) l :
  StronglySorted R (f <$> l) -> StronglySorted (fun x y => R (f x) (f y)) l.
Proof.
  induction l as [|x l IH]; [constructor|]. simpl. intros [Hl Hx]%StronglySorted_inv.
  constructor; [by apply IH|]. exact (proj1 (list.Forall_fmap _ _ _) Hx).
Qed.

Lemma rep_values c a :
  Rep c a -> NoDup (map_to_list a).*2 /\ (forall m, m ∈ (map_to_list a).*2 <-> a !! md5 m = Some m).
Proof.
  intros R. split.
  - apply (NoDup_fmap_1 md5).
    replace (md5 <$> (map_to_list a).*2) with (map_to_list a).*1;
      [apply NoDup_fst_map_to_list|].
    rewrite <- list_fmap_compose. apply list_fmap_ext. intros i [h m] Hi%list_elem_of_lookup_2.
    apply elem_of_map_to_list in Hi. symmetry. exact (proj1 (rep_records _ _ R _ _ Hi)).
  - intros m. rewrite list_elem_of_fmap. split.
    + intros ([h m'] & -> & Hm%elem_of_map_to_list). simpl.
      by destruct (rep_records _ _ R _ _ Hm) as [-> _].
    + intros Hm. exists (md5 m, m). by rewrite elem_of_map_to_list.
Qed.

(** The records of a scene in the order of their keys. *)
Definition listing (st : store) (dir : str) : list MetaFile :=
  omap (fun kv => get_meta st kv.2) (scene_block st dir).

Section Listing.
Context (st : store) (a : index) (dir : str).
Context (R : represents st a) (Hsc : forall h m, a !! h = Some m -> COLON ∉ scene m)
  (Hd : COLON ∉ dir).

Lemma get_meta_md5 m : a !! md5 m = Some m -> get_meta st (md5 m) = Some m.
Proof.
  intros Hm. apply (get_meta_found _ _ _ _ R). split; [done|].
  pose proof (rep_records _ _ R _ _ Hm) as (_ & ([Hl _] & _) & _).
  unfold is_md5. by rewrite bool_decide_true by done.
Qed.

Lemma scene_block_get :
  Forall (fun kv => exists m, get_meta st kv.2 = Some m /\ kv = scene_entry m) (scene_block st dir).
Proof.
  apply list.Forall_forall. intros kv (m & Hm & _ & ->)%(scene_block_entries st a dir kv R Hsc Hd).
  exists m. split; [by apply get_meta_md5|done].
Qed.

Lemma scene_block_listing : scene_block st dir = scene_entry <$> listing st dir.
Proof. apply omap_all, scene_block_get. Qed.

Lemma listing_elem m : m ∈ listing st dir <-> a !! md5 m = Some m /\ scene m = dir.
Proof.
  unfold listing. rewrite list_elem_of_omap. split.
  - intros (kv & (m' & Hm' & Hs & ->)%(scene_block_entries st a dir kv R Hsc Hd) & Hg).
    simpl in Hg. rewrite get_meta_md5 in Hg by done. by injection Hg as ->.
  - intros [Hm Hs]. exists (scene_entry m). split; [|by apply get_meta_md5].
    apply (scene_block_entries st a dir _ R Hsc Hd). eauto.
Qed.

Lemma listing_perm : listing st dir ≡ₚ filter (fun m => scene m = dir) (map_to_list a).*2.
Proof.
  pose proof (iter_new (db_ st)) as [Hperm _]. apply NoDup_Permutation.
  - apply (NoDup_fmap_1 scene_entry). rewrite <- scene_block_listing. unfold scene_block, with_prefix.
    apply NoDup_filter. rewrite Hperm. apply NoDup_map_to_list.
  - apply NoDup_filter, (rep_values _ _ R).
  - intros m. rewrite list_elem_of_filter, (proj2 (rep_values _ _ R)), listing_elem. tauto.
Qed.

Lemma listing_sorted : StronglySorted listed_before (listing st dir).
Proof.
  pose proof (iter_new (db_ st)) as [_ Hsort].
  assert (StronglySorted key_lt (scene_entry <$> listing st dir)) as Hs.
  { rewrite <- scene_block_listing. by apply StronglySorted_filter. }
  apply StronglySorted_fmap_inv in Hs.
  assert (Forall (fun m => scene m = dir) (listing st dir)) as Hscene.
  { apply list.Forall_forall. by intros m [_ ?]%listing_elem. }
  induction Hs as [|m l _ IH Hm]; constructor.
  - apply IH. by apply Forall_cons_iff in Hscene as [_ ?].
  - apply Forall_cons_iff in Hscene as [Hm1 Hl]. apply list.Forall_forall. intros m' Hm'.
    pose proof (proj1 (list.Forall_forall _ _) Hl m' Hm') as Hm2.
    pose proof (proj1 (list.Forall_forall _ _) Hm m' Hm') as Hlt. revert Hlt. clear - Hm1 Hm2.
    unfold key_lt, scene_entry. cbn [fst]. unfold scene_key. rewrite Hm1, Hm2.
    by rewrite !str_lt_app.
Qed.

Lemma list_dir_listing fuel offset limit order :
  (0 <= offset)%Z -> (limit <> 0)%Z -> base.size (contents (db_ st)) < fuel ->
  list_dir fuel st dir offset limit order =
  Some (page offset limit (in_order order (listing st dir))).
Proof.
  intros Hoff Hlim Hfuel. rewrite list_dir_run by done. unfold page. f_equal. f_equal.
  rewrite (omap_drop_all _ scene_entry).
  - f_equal. unfold in_order. case_decide; [done|]. apply omap_reverse.
  - unfold in_order. case_decide; rewrite ?Forall_reverse; apply scene_block_get.
Qed.
End Listing.

(** Keys of records whose times have as many digits compare as the times. *)
Lemma listed_before_mtime m m' :
  (0 <= mtime m)%Z -> (0 <= mtime m')%Z ->
  length (to_string (mtime m)) = length (to_string (mtime m')) ->
  listed_before m m' -> (mtime m <= mtime m')%Z.
Proof.
  unfold listed_before, list_key, to_string. intros H1 H2. rewrite !decide_False by lia.
  intros Hl Hlt. destruct (decide (mtime m <= mtime m')%Z) as [|Hgt]; [done|]. exfalso.
  eapply str_lt_irrefl, str_lt_trans; [exact Hlt|]. apply dec_lt_mono; [done..|lia].
Qed.

(** ** [repair_stat] *)

(** The record of an entry that [repair_stat] counts. *)
Definition counted (kv : str * str) : option MetaFile :=
  if is_md5 kv.1 then
    match deserialize kv.2 with
    | Ok m => if decide (status m = NORMAL) then Some m else None
    | Throw _ => None
    end
  else None.

Definition total (ms : list MetaFile) : Z := foldr Z.add 0%Z (size <$> ms).

Definition stat_of_list (ms : list MetaFile) : SystemStat :=
  {| file_count := u64 (Z.of_nat (length ms)); total_size := u64 (total ms) |}.

Lemma total_cons m ms : total (m :: ms) = (size m + total ms)%Z.
Proof. done. Qed.

Lemma omap_step {A B} (f : A -> option B) x l :
  omap f (x :: l) = match f x with Some y => y :: omap f l | None => omap f l end.
Proof. done. Qed.

Lemma repair_loop_spec fuel it n t :
  length (ahead 1 it) < fuel ->
  repair_loop fuel it (u64 n) (u64 t) =
  Some (u64 (n + Z.of_nat (length (omap counted (ahead 1 it)))),
        u64 (t + total (omap counted (ahead 1 it)))).
Proof.
  revert it n t. induction fuel as [|fuel IH]; intros it n t Hf; [lia|]. simpl.
  destruct (it_valid it) eqn:Hv.
  2: { apply (ahead_invalid 1) in Hv. rewrite Hv. simpl. by rewrite !Z.add_0_r. }
  apply (ahead_valid 1) in Hv. rewrite Hv in Hf |- *. simpl in Hf. rewrite advance_next in *.
  rewrite omap_step.
  destruct (counted (it_key it, it_value it)) as [m0|] eqn:Hc;
    unfold counted in Hc; cbn [fst snd] in Hc.
  - destruct (is_md5 (it_key it)); [|done].
    destruct (deserialize (it_value it)) as [m|e]; [|done].
    case_decide; [|done]. injection Hc as ->.
    rewrite !wrap_add_l, total_cons, length_cons, IH by lia. f_equal. f_equal; f_equal; lia.
  - destruct (is_md5 (it_key it)); [|apply IH; lia].
    destruct (deserialize (it_value it)) as [m|e]; [|apply IH; lia].
    case_decide; [done|apply IH; lia].
Qed.

Lemma counted_perm st a :
  represents st a ->
  omap counted (it_snap (new_iterator (db_ st))) ≡ₚ
  filter (fun m => status m = NORMAL) (map_to_list a).*2.
Proof.
  intros R. pose proof (iter_new (db_ st)) as Hsnap.
  assert (forall k v m, (k, v) ∈ it_snap (new_iterator (db_ st)) -> deserialize v = Ok m ->
            a !! k = Some m) as Hrec.
  { intros k v m Hkv%(snapshot_lookup _ _ _ _ Hsnap) Hd. apply (rep_get_md5 _ _ _ _ R). eauto. }
  apply NoDup_Permutation.
  - apply (NoDup_omap_key _ fst md5).
    + apply list.Forall_forall. intros [k v] Hkv m. unfold counted. cbn [fst snd].
      destruct (is_md5 k); [|done]. destruct (deserialize v) as [m'|] eqn:Hd; [|done].
      case_decide; [|done]. intros [= ->]. pose proof (Hrec _ _ _ Hkv Hd) as Hm.
      symmetry. exact (proj1 (rep_records _ _ R _ _ Hm)).
    + rewrite (proj1 Hsnap). apply NoDup_fst_map_to_list.
  - apply NoDup_filter, (rep_values _ _ R).
  - intros m. rewrite list_elem_of_filter, (proj2 (rep_values _ _ R)), list_elem_of_omap. split.
    + intros ([k v] & Hkv & Hc). unfold counted in Hc. cbn [fst snd] in Hc.
      destruct (is_md5 k); [|done]. destruct (deserialize v) as [m'|] eqn:Hd; [|done].
      case_decide; [|done]. injection Hc as ->. pose proof (Hrec _ _ _ Hkv Hd) as Hm.
      by destruct (rep_records _ _ R _ _ Hm) as [-> _].
    + intros [Hst Hm]. pose proof (rep_records _ _ R _ _ Hm) as (_ & (Hk & _) & _).
      exists (md5 m, serialize m). split.
      * apply (snapshot_lookup _ _ _ _ Hsnap). by rewrite (rep_get _ _ _ R Hk), Hm.
      * unfold counted, is_md5. cbn [fst snd]. rewrite bool_decide_true by apply Hk.
        rewrite (rep_deserialize _ _ _ _ R Hm). by rewrite decide_True.
Qed.

Lemma total_perm ms ms' : ms ≡ₚ ms' -> total ms = total ms'.
Proof. induction 1; rewrite ?total_cons; lia. Qed.

Lemma repair_stat_run fuel st a :
  represents st a -> base.size (contents (db_ st)) < fuel ->
  repair_stat fuel st =
  Some (set_stat st (stat_of_list (filter (fun m => status m = NORMAL) (map_to_list a).*2))).
Proof.
  intros R Hf. unfold repair_stat. destruct (iter_first (new_iterator (db_ st))) as [Hs Hp].
  pose proof (ahead_clip _ _ _ Hs Hp) as Ha. rewrite drop_0 in Ha.
  change 0%Z with (u64 0). rewrite repair_loop_spec.
  2: { by rewrite Ha, iter_fresh_length. }
  rewrite Ha, !Z.add_0_l. unfold stat_of_list.
  by rewrite (Permutation_length (counted_perm _ _ R)), (total_perm _ _ (counted_perm _ _ R)).
Qed.

Lemma stat_of_values a : stat_of a = stat_of_list (map_to_list a).*2.
Proof.
  unfold stat_of, stat_of_list, sum_sizes, total. rewrite length_fmap, length_map_to_list.
  rewrite map_fold_foldr. f_equal. f_equal. induction (map_to_list a) as [|[h m] l IH]; [done|].
  simpl. by rewrite IH.
Qed.

(** ** [get_uploaded_shard] *)

(** The index in a shard key. *)
Definition shard_index_of (p : str) (kv : str * str) : option Z :=
  match stoul (substr_from kv.1 (length p)) with
  | Ok i => Some (u32 i)
  | Throw _ => None
  end.

Lemma uploaded_loop_spec p fuel it blk tl acc :
  ahead 1 it = blk ++ tl ->
  Forall (fun kv => p `prefix_of` kv.1) blk -> Forall (fun kv => ~ p `prefix_of` kv.1) tl ->
  length (ahead 1 it) < fuel ->
  uploaded_loop fuel p it acc = Some (acc ++ omap (shard_index_of p) blk).
Proof.
  revert it blk acc. induction fuel as [|fuel IH]; intros it blk acc Hit Hblk Htl Hf; [lia|].
  simpl. destruct (it_valid it) eqn:Hv.
  2: { apply (ahead_invalid 1) in Hv. rewrite Hv in Hit.
       symmetry in Hit. apply app_eq_nil in Hit as [-> _]. by rewrite app_nil_r. }
  apply (ahead_valid 1) in Hv. rewrite advance_next in Hv. rewrite Hv in Hit, Hf. simpl in Hf.
  destruct blk as [|kv blk]; simpl in Hit.
  { destruct (starts_with p (it_key it)) eqn:Hp; simpl; [|by rewrite app_nil_r].
    apply starts_with_spec in Hp. subst tl. by apply Forall_cons_iff in Htl as [[] _]. }
  apply Forall_cons_iff in Hblk as [Hkv Hblk]. injection Hit as <- Hit.
  apply starts_with_spec in Hkv. cbn [fst] in Hkv. rewrite Hkv, (IH _ blk) by (done || lia).
  rewrite omap_step. unfold shard_index_of at 2. cbn [fst].
  destruct (stoul _) as [i|e]; [|done]. by rewrite <- app_assoc.
Qed.

(** Every shard key was written by [save_meta_shard]. *)
Definition shard_id_ok (h : str) (i : Z) : Prop := (0 <= i < 2 ^ 32)%Z /\ (COLON ∉ h).

Definition shard_keys_ok (c : gmap str str) : Prop :=
  forall k, is_shard_key k -> is_Some (c !! k) -> exists h i, k = shard_key h i /\ shard_id_ok h i.

Lemma to_string_inj i j : (0 <= i)%Z -> (0 <= j)%Z -> to_string i = to_string j -> i = j.
Proof. intros Hi Hj. unfold to_string. rewrite !decide_False by lia. by apply dec_inj. Qed.

Lemma shard_prefix_key f h i :
  COLON ∉ f -> COLON ∉ h -> shard_prefix f `prefix_of` shard_key h i -> f = h.
Proof.
  intros Hf Hh. unfold shard_key, shard_prefix. rewrite <- !app_assoc.
  intros Hp%prefix_app_inv. by apply prefix_upto_colon in Hp.
Qed.

Lemma shard_key_inj h i h' i' :
  shard_id_ok h i -> shard_id_ok h' i' -> shard_key h i = shard_key h' i' -> h = h' /\ i = i'.
Proof.
  intros [Hi Hh] [Hi' Hh'] Heq.
  assert (h = h') as ->.
  { apply (shard_prefix_key h h' i'); [done..|]. rewrite <- Heq. unfold shard_key. by apply prefix_app_r. }
  split; [done|]. apply app_inv_head in Heq. apply to_string_inj in Heq; lia.
Qed.

Lemma shard_key_is_shard h i : is_shard_key (shard_key h i).
Proof. unfold is_shard_key, shard_key, shard_prefix. rewrite <- !app_assoc. by apply prefix_app_r. Qed.

Lemma shard_index_of_key h i v :
  shard_id_ok h i -> shard_index_of (shard_prefix h) (shard_key h i, v) = Some i.
Proof.
  intros [Hi _]. unfold shard_index_of, shard_key, substr_from. cbn [fst].
  rewrite drop_app_length, stoul_to_string by lia. by rewrite wrap_small by lia.
Qed.

Lemma sorted_keys_NoDup l : StronglySorted key_lt l -> NoDup l.*1.
Proof.
  induction 1 as [|x l _ IH Hx]; simpl; constructor; [|done].
  intros (y & Hxy & Hy)%list_elem_of_fmap.
  pose proof (proj1 (list.Forall_forall _ _) Hx y Hy) as Hlt. unfold key_lt in Hlt.
  rewrite Hxy in Hlt. by eapply str_lt_irrefl.
Qed.

(** The shard entries of a file. *)
Definition shard_block (st : store) (f : str) : list (str * str) :=
  with_prefix (shard_prefix f) (it_snap (new_iterator (db_ st))).

Lemma shard_block_elem st f kv :
  shard_keys_ok (contents (db_ st)) -> COLON ∉ f ->
  kv ∈ shard_block st f <->
  exists i v, kv = (shard_key f i, v) /\ shard_id_ok f i /\
    contents (db_ st) !! shard_key f i = Some v.
Proof.
  intros Hok Hf. destruct kv as [k v]. unfold shard_block, with_prefix.
  rewrite list_elem_of_filter, (snapshot_lookup _ _ _ _ (iter_new (db_ st))). cbn [fst]. split.
  - intros [Hk Hv]. destruct (Hok k) as (h & i & -> & Hid).
    + destruct Hk as [r ->]. unfold is_shard_key, shard_prefix. rewrite <- !app_assoc.
      by apply prefix_app_r.
    + by rewrite Hv.
    + apply shard_prefix_key in Hk as <-; [|done|apply Hid]. by exists i, v.
  - intros (i & v' & [= -> ->] & Hid & Hv). split; [|done]. unfold shard_key. by apply prefix_app_r.
Qed.

Lemma get_uploaded_shard_run fuel st f :
  f <> [] -> base.size (contents (db_ st)) < fuel ->
  get_uploaded_shard fuel st f = Some (omap (shard_index_of (shard_prefix f)) (shard_block st f)).
Proof.
  intros Hne Hfuel. unfold get_uploaded_shard. rewrite decide_False by done.
  pose proof (iter_new (db_ st)) as [_ Hsort].
  assert (shard_prefix f = (lit "Shard:" ++ f) ++ [COLON]) as Hp
    by (unfold shard_prefix; by rewrite app_assoc).
  destruct (ahead_seek_block (lit "Shard:" ++ f) COLON (new_iterator (db_ st)))
    as (tl & Ha & Hb & Ht); [by_decide|done|]. rewrite <- Hp in Ha, Hb, Ht.
  rewrite (uploaded_loop_spec _ _ _ _ _ _ Ha Hb Ht); [done|].
  eapply Nat.le_lt_trans; [apply ahead_length|]. rewrite (proj1 (iter_seek _ _)).
  by rewrite iter_fresh_length.
Qed.

Lemma get_uploaded_shard_spec fuel st f :
  shard_keys_ok (contents (db_ st)) -> f <> [] -> COLON ∉ f ->
  base.size (contents (db_ st)) < fuel ->
  exists js, get_uploaded_shard fuel st f = Some js /\ NoDup js /\
    forall i, i ∈ js <-> shard_id_ok f i /\ is_Some (contents (db_ st) !! shard_key f i).
Proof.
  intros Hok Hne Hf Hfuel. pose proof (fun kv => shard_block_elem st f kv Hok Hf) as Hin.
  eexists. split; [by apply get_uploaded_shard_run|]. split.
  - apply (NoDup_omap_key _ fst (shard_key f)).
    + apply list.Forall_forall. intros kv (i & v & -> & Hid & _)%Hin j.
      rewrite shard_index_of_key by done. by intros [= ->].
    + apply sorted_keys_NoDup, StronglySorted_filter, iter_new.
  - intros i. rewrite list_elem_of_omap. split.
    + intros (kv & (j & v & -> & Hid & Hv)%Hin & Hj). rewrite shard_index_of_key in Hj by done.
      injection Hj as ->. by rewrite Hv.
    + intros [Hid [v Hv]]. exists (shard_key f i, v). rewrite shard_index_of_key by done.
      split; [|done]. apply Hin. by exists i, v.
Qed.

(** A sequence of shard notes, stopped by the first failure. *)
Fixpoint save_shards (st : store) (l : list (Z * str * str)) : store * bool :=
  match l with
  | [] => (st, true)
  | (i, h, d) :: l' =>
      let '(st', ok) := save_meta_shard st i h d in
      if ok then save_shards st' l' else (st', false)
  end.

Lemma save_meta_shard_ok st i h d st' :
  save_meta_shard st i h d = (st', true) ->
  exists v, contents (db_ st') = <[shard_key h i := v]> (contents (db_ st)).
Proof.
  unfold save_meta_shard, db_put. destruct (db_write _ _) as [db' ok] eqn:Hw. intros [= <- ->].
  apply write_ok in Hw. eexists. exact Hw.
Qed.

Lemma save_shards_contents l st st' :
  shard_keys_ok (contents (db_ st)) -> Forall (fun x => shard_id_ok x.1.2 x.1.1) l ->
  save_shards st l = (st', true) ->
  shard_keys_ok (contents (db_ st')) /\
  (forall f i, shard_id_ok f i -> is_Some (contents (db_ st') !! shard_key f i) <->
     is_Some (contents (db_ st) !! shard_key f i) \/ exists d, (i, f, d) ∈ l).
Proof.
  intros Hok Hl. revert st Hok. induction Hl as [|[[i h] d] l Hid _ IH]; intros st Hok; simpl.
  { intros [= <-]. split; [done|]. intros f i _. setoid_rewrite elem_of_nil.
    split; [by left|by intros [?|[? []]]]. }
  destruct (save_meta_shard st i h d) as [st1 []] eqn:Hs; [|done].
  apply save_meta_shard_ok in Hs as [v Hc]. simpl in Hid. intros Hrun.
  destruct (IH st1) as [Hok' Hiff]; [|done|].
  { rewrite Hc. intros k Hk. rewrite lookup_insert_is_Some. intros [<-|[_ Hs]]; [|by apply Hok].
    by exists h, i. }
  split; [done|]. intros f j Hj. rewrite (Hiff _ _ Hj), Hc, lookup_insert_is_Some.
  setoid_rewrite elem_of_cons. split.
  - intros [[Heq|[_ ?]]|[d' ?]]; [|by left|by eauto].
    apply shard_key_inj in Heq as [-> ->]; [|done..]. eauto.
  - intros [Hs|[d' [[= -> -> ->]|Hin]]]; [|by left; left|by eauto].
    destruct (decide (shard_key h i = shard_key f j)); eauto.
Qed.

(** * Properties *)

(** C12: when no scene name contains a colon, [list_dir] returns the requested page of
    the records of the scene, each exactly once, in the order of their index keys
    (reversed unless [order] is 1); a fuel above the number of entries suffices. *)
Theorem list_dir_spec fuel st a dir offset limit order :
  represents st a -> (forall h m, a !! h = Some m -> COLON ∉ scene m) -> COLON ∉ dir ->
  (0 <= offset)%Z -> (limit <> 0)%Z -> base.size (contents (db_ st)) < fuel ->
  exists ms,
    list_dir fuel st dir offset limit order = Some (page offset limit (in_order order ms)) /\
    ms ≡ₚ filter (fun m => scene m = dir) (map_to_list a).*2 /\
    StronglySorted listed_before ms.
Proof.
  intros R Hsc Hd Hoff Hlim Hfuel. exists (listing st dir). split_and!.
  - by apply (list_dir_listing st a dir R Hsc Hd).
  - by apply listing_perm.
  - by apply (listing_sorted st a dir R Hsc Hd).
Qed.

(** An ascending listing is ordered by modification time provided the times have
    the same number of decimal digits. *)
Theorem list_dir_by_mtime fuel st a dir w ms :
  represents st a -> (forall h m, a !! h = Some m -> COLON ∉ scene m) -> COLON ∉ dir ->
  (forall h m, a !! h = Some m -> (0 <= mtime m)%Z /\ length (to_string (mtime m)) = w) ->
  base.size (contents (db_ st)) < fuel ->
  list_dir fuel st dir 0 (-1) 1 = Some ms ->
  StronglySorted (fun m m' => (mtime m <= mtime m')%Z) ms.
Proof.
  intros R Hsc Hd Hw Hfuel. rewrite (list_dir_listing st a dir R Hsc Hd) by (done || lia).
  intros [= <-]. change (page 0 (-1) (in_order 1 (listing st dir))) with (listing st dir).
  pose proof (listing_sorted st a dir R Hsc Hd) as Hs.
  assert (Forall (fun m => (0 <= mtime m)%Z /\ length (to_string (mtime m)) = w) (listing st dir))
    as Hall.
  { apply list.Forall_forall. intros m [Hm _]%(listing_elem st a dir R Hsc Hd). by eapply Hw. }
  induction Hs as [|m l _ IH Hm]; constructor.
  - apply IH. by apply Forall_cons_iff in Hall as [_ ?].
  - apply Forall_cons_iff in Hall as [[H1 H2] Hl]. apply list.Forall_forall. intros m' Hm'.
    destruct (proj1 (list.Forall_forall _ _) Hl m' Hm') as [H1' H2'].
    apply listed_before_mtime; [done..|congruence|].
    exact (proj1 (list.Forall_forall _ _) Hm m' Hm').
Qed.

(** C24: [repair_stat] recomputes the statistics from the database: they become the
    number and the total size of the records whose status is NORMAL, and nothing
    else changes; a fuel above the number of entries suffices. *)
Theorem repair_stat_spec fuel st a :
  represents st a -> base.size (contents (db_ st)) < fuel ->
  exists st', repair_stat fuel st = Some st' /\ db_ st' = db_ st /\ represents st' a /\
    get_stat st' = stat_of_list (filter (fun m => status m = NORMAL) (map_to_list a).*2) /\
    ((forall h m, a !! h = Some m -> status m = NORMAL) -> get_stat st' = stat_of a).
Proof.
  intros R Hfuel. eexists. split; [by apply repair_stat_run|]. split_and!; [done..|].
  intros Hall. rewrite stat_of_values. unfold get_stat. simpl. f_equal.
  assert (Forall (fun m => status m = NORMAL) (map_to_list a).*2) as Hf.
  { apply list.Forall_forall. intros m Hm. apply (rep_values _ _ R) in Hm. by eapply Hall. }
  induction Hf as [|m l Hm _ IH]; [done|]. rewrite filter_cons_True by done. by rewrite IH.
Qed.

(** After a sequence of successful [save_meta_shard] calls on a store without
    shard notes, [get_uploaded_shard] lists each uploaded index of the file once,
    and no other index. *)
Theorem upload_progress l st st' f fuel :
  (forall k, is_shard_key k -> contents (db_ st) !! k = None) ->
  Forall (fun x => shard_id_ok x.1.2 x.1.1) l -> save_shards st l = (st', true) ->
  f <> [] -> COLON ∉ f -> base.size (contents (db_ st')) < fuel ->
  exists js, get_uploaded_shard fuel st' f = Some js /\ NoDup js /\
    forall i, i ∈ js <-> (0 <= i < 2 ^ 32)%Z /\ exists d, (i, f, d) ∈ l.
Proof.
  intros Hnone Hl Hrun Hne Hf Hfuel.
  destruct (save_shards_contents l st st') as [Hok Hiff]; [|done..|].
  { intros k Hk [v Hv]. by rewrite Hnone in Hv. }
  destruct (get_uploaded_shard_spec fuel st' f Hok Hne Hf Hfuel) as (js & Hget & Hnd & Hin).
  exists js. split_and!; [done..|]. intros i. rewrite Hin. split.
  - intros [Hid Hs]. split; [apply Hid|]. apply (Hiff _ _ Hid) in Hs as [Hs|?]; [|done].
    rewrite Hnone in Hs; [by destruct Hs|apply shard_key_is_shard].
  - intros [Hi Hd]. split; [by split|]. apply Hiff; [by split|]. by right.
Qed.

End Scan.

(** * Witnesses *)

Import TaggedJson.

(** A record of scene [default] with the given MD5 byte and time. *)
Definition timed_meta (c : ascii) (t : Z) : MetaFile := {|
  md5 := replicate 32 c; path := lit "/group1/" ++ [c]; name := []; domain := [];
  scene := lit "default"; src := []; size := 10; mtime := t; status := NORMAL;
  is_sharded := false; shard_std_size := 0; shard_count := 0; shards := [];
  uploaded_count := 0; uploaded_chunks := []; peers := [] |}.

Definition timed_store (t1 t2 : Z) : store :=
  fst (save_meta (fst (save_meta fresh_store (timed_meta (chr 97) t1))) (timed_meta (chr 98) t2)).

(** The time in an index key is not padded, so the listing is not by time in
    general: a record of time 9 comes after a record of time 10. *)
Theorem list_dir_not_by_mtime :
  option_map (map mtime) (list_dir 100 (timed_store 9 10) (lit "default") 0 (-1) 1) =
  Some [10; 9]%Z.
Proof. vm_compute. reflexivity. Qed.

Definition timed_index (t1 t2 : Z) : index :=
  <[md5 (timed_meta (chr 98) t2) := stored (timed_meta (chr 98) t2)]>
    (<[md5 (timed_meta (chr 97) t1) := stored (timed_meta (chr 97) t1)]> ∅).

Lemma timed_represents :
  represents (timed_store 1680000000 1690000000) (timed_index 1680000000 1690000000).
Proof.
  assert (record_ok (timed_meta (chr 97) 1680000000)) as H1
    by (split_and!; by_decide || by vm_compute).
  assert (record_ok (timed_meta (chr 98) 1690000000)) as H2
    by (split_and!; by_decide || by vm_compute).
  pose proof (rep_insert _ ∅ (timed_meta (chr 97) 1680000000) rep_empty H1 (path_free_empty _)
                eq_refl) as R1.
  refine (rep_insert _ _ (timed_meta (chr 98) 1690000000) R1 H2 _ _); [|by_decide].
  intros h m [[<- <-]|[_ H]]%lookup_insert_Some; [|by rewrite lookup_empty in H].
  intros Hp. by discriminate Hp.
Qed.

Lemma timed_scenes h m :
  timed_index 1680000000 1690000000 !! h = Some m ->
  (COLON ∉ scene m) /\ (0 <= mtime m)%Z /\ length (to_string (mtime m)) = 10.
Proof.
  unfold timed_index. intros [[_ <-]|[_ [[_ <-]|[_ H]]%lookup_insert_Some]]%lookup_insert_Some;
    [by_decide..|by rewrite lookup_empty in H].
Qed.

Lemma list_dir_spec_witness :
  exists ms,
    list_dir 100 (timed_store 1680000000 1690000000) (lit "default") 0 1 2 =
      Some (page 0 1 (in_order 2 ms)) /\
    ms ≡ₚ filter (fun m => scene m = lit "default")
            (map_to_list (timed_index 1680000000 1690000000)).*2 /\
    StronglySorted listed_before ms.
Proof.
  apply (list_dir_spec 100 _ _ (lit "default") 0 1 2 timed_represents);
    [intros h m Hm; exact (proj1 (timed_scenes h m Hm)) | by_decide | lia | lia |].
  vm_compute. lia.
Defined.

Lemma list_dir_by_mtime_witness :
  exists ms, list_dir 100 (timed_store 1680000000 1690000000) (lit "default") 0 (-1) 1 = Some ms /\
    StronglySorted (fun m m' => (mtime m <= mtime m')%Z) ms /\ length ms = 2.
Proof.
  eexists. split; [vm_compute; reflexivity|]. split; [|reflexivity].
  refine (list_dir_by_mtime 100 _ _ (lit "default") 10 _ timed_represents _ _ _ _ _);
    [ intros h m Hm; exact (proj1 (timed_scenes h m Hm)) | by_decide
    | intros h m Hm; exact (proj2 (timed_scenes h m Hm)) | vm_compute; lia
    | vm_compute; reflexivity ].
Defined.

Lemma repair_stat_spec_witness :
  exists st', repair_stat 100 (timed_store 1680000000 1690000000) = Some st' /\
    db_ st' = db_ (timed_store 1680000000 1690000000) /\
    represents st' (timed_index 1680000000 1690000000) /\
    get_stat st' = stat_of_list (filter (fun m => status m = NORMAL)
                     (map_to_list (timed_index 1680000000 1690000000)).*2) /\
    ((forall h m, timed_index 1680000000 1690000000 !! h = Some m -> status m = NORMAL) ->
     get_stat st' = stat_of (timed_index 1680000000 1690000000)).
Proof. apply (repair_stat_spec 100 _ _ timed_represents). vm_compute. lia. Defined.

Definition two_shards : list (Z * str * str) :=
  [(10%Z, lit "f1", []); (2%Z, lit "f1", lit "aa"); (7%Z, lit "f2", []); (2%Z, lit "f1", lit "bb")].

Lemma upload_progress_witness :
  exists js, get_uploaded_shard 100 (fst (save_shards fresh_store two_shards)) (lit "f1") = Some js /\
    NoDup js /\
    forall i, i ∈ js <-> (0 <= i < 2 ^ 32)%Z /\ exists d, (i, lit "f1", d) ∈ two_shards.
Proof.
  apply (upload_progress two_shards fresh_store);
    [ intros k _; reflexivity | by_decide | apply pair_fst; vm_compute; reflexivity
    | by_decide | by_decide | vm_compute; lia ].
Defined.
