(* ===== verification/MetaStat.v ===== *)
(** The statistics of a restarted or repaired metadata store: they live only in
    memory, and [repair_stat] and [delete_meta] do not count the same records. *)

From stdpp Require Import base list strings gmap sorting numbers fin_maps.
From Stdlib Require Import ZArith Ascii Lia.
From S2P Require Import Prelude Json MetaFile LevelDB MetadataStore MetaRefine MetaScan.

Section Stat.
Context {L : LevelDB} {LS : LevelDBSpec L} {J : JsonLib} {JL : JsonLaws J}.

Lemma filter_none {A} (P : A -> Prop) `{forall x, Decision (P x)} l :
  Forall (fun x => ~ P x) l -> filter P l = [].
Proof. induction 1 as [|x l Hx _ IH]; [done|]. by rewrite filter_cons_False. Qed.

(** * Properties *)

(** The statistics are not read back when a database is opened: the store starts
    at zero whatever the database holds, and the first deletion makes the file
    count wrap around to [2^64 - 1]. *)
Theorem reopen_delete_underflow db c st a h m st' :
  MetadataStore_new (inl db) c = Ok st -> represents st a -> a !! h = Some m ->
  delete_meta st h = (st', true) ->
  get_stat st = zero_stat /\ file_count (get_stat st') = (2 ^ 64 - 1)%Z.
Proof.
  intros [= <-] R Hm. pose proof (stored_record _ _ h R) as Hr. unfold delete_meta.
  destruct (db_get _ h) as [v|]; [|by rewrite Hm in Hr].
  destruct (deserialize v) as [m'|]; [|by rewrite Hm in Hr].
  destruct (db_write _ _) as [db' []]; [|done]. intros [= <-]. done.
Qed.

(** [repair_stat] leaves out the records that are not NORMAL, but [delete_meta]
    subtracts every record: deleting a record marked DELETED after a repair that
    counted nothing makes the file count wrap around. *)
Theorem repair_delete_underflow fuel st a h m st1 st2 :
  represents st a -> base.size (contents (db_ st)) < fuel ->
  (forall h' m', a !! h' = Some m' -> status m' = DELETED) -> a !! h = Some m ->
  repair_stat fuel st = Some st1 -> delete_meta st1 h = (st2, true) ->
  get_stat st1 = zero_stat /\ file_count (get_stat st2) = (2 ^ 64 - 1)%Z.
Proof.
  intros R Hfuel Hall Hm. rewrite (repair_stat_run _ _ _ R Hfuel).
  replace (filter (fun m => status m = NORMAL) (map_to_list a).*2) with ([] : list MetaFile).
  2: { symmetry. apply filter_none, list.Forall_forall. intros m' Hm' Hn.
       apply (rep_values _ _ R) in Hm'. by rewrite (Hall _ _ Hm') in Hn. }
  intros [= <-]. pose proof (stored_record _ _ h R) as Hr. unfold delete_meta. simpl.
  destruct (db_get _ h) as [v|]; [|by rewrite Hm in Hr].
  destruct (deserialize v) as [m'|]; [|by rewrite Hm in Hr].
  destruct (db_write _ _) as [db' []]; [|done]. intros [= <-]. done.
Qed.
End Stat.

(** * Witnesses *)

Import TaggedJson.

(** The database of [saved_store], opened again. *)
Definition reopened : store := {|
  db_ := db_ saved_store; cached_stat_ := zero_stat; config_ := default_metaConfig |}.

Lemma reopened_represents : represents reopened {[md5 test_meta := stored test_meta]}.
Proof. exact saved_represents. Qed.

Lemma reopen_delete_underflow_witness :
  get_stat reopened = zero_stat /\
  file_count (get_stat (fst (delete_meta reopened (md5 test_meta)))) = (2 ^ 64 - 1)%Z.
Proof.
  apply (reopen_delete_underflow (db_ saved_store) default_metaConfig reopened
           {[md5 test_meta := stored test_meta]} (md5 test_meta) (stored test_meta));
    [reflexivity | exact reopened_represents | by_decide | apply pair_fst; vm_compute; reflexivity].
Defined.

(** The record marked as deleted. *)
Definition marked : store :=
  set_db saved_store
    (fst (db_put (db_ saved_store) (md5 test_meta) (serialize (set_status DELETED (stored test_meta))))).

Definition marked_index : index :=
  <[md5 test_meta := set_status DELETED (stored test_meta)]> {[md5 test_meta := stored test_meta]}.

Lemma marked_represents : represents marked marked_index.
Proof.
  assert (contents (db_ marked) =
    <[md5 test_meta := serialize (set_status DELETED (stored test_meta))]>
      (contents (db_ saved_store))) as Hc by reflexivity.
  unfold represents, marked_index. rewrite Hc.
  apply (rep_status (contents (db_ saved_store)) {[md5 test_meta := stored test_meta]}
           (md5 test_meta) (stored test_meta) DELETED);
    [exact saved_represents | by_decide | by_decide].
Qed.

Lemma repair_delete_underflow_witness :
  exists st1 st2,
    repair_stat 100 marked = Some st1 /\ delete_meta st1 (md5 test_meta) = (st2, true) /\
    get_stat st1 = zero_stat /\ file_count (get_stat st2) = (2 ^ 64 - 1)%Z.
Proof.
  exists (set_stat marked zero_stat), (fst (delete_meta (set_stat marked zero_stat) (md5 test_meta))).
  assert (repair_stat 100 marked = Some (set_stat marked zero_stat)) as Hr.
  { unfold repair_stat. replace (repair_loop _ _ _ _) with (Some (0, 0)%Z) by (vm_compute; reflexivity).
    reflexivity. }
  assert (delete_meta (set_stat marked zero_stat) (md5 test_meta) =
          (fst (delete_meta (set_stat marked zero_stat) (md5 test_meta)), true)) as Hd
    by (apply pair_fst; vm_compute; reflexivity).
  split; [exact Hr|]. split; [exact Hd|].
  apply (repair_delete_underflow 100 marked marked_index (md5 test_meta)
           (set_status DELETED (stored test_meta))); [| | | |exact Hr|exact Hd].
  - exact marked_represents.
  - vm_compute. lia.
  - intros h' m'. unfold marked_index.
    intros [[_ <-]|[Hne [Heq _]%lookup_singleton_Some]]%lookup_insert_Some; [reflexivity|].
    by destruct Hne.
  - by_decide.
Defined.
