(* ===== verification/Multipart.v ===== *)
(** [server/MultipartParser.h], [server/MultipartParser.cc] and the older
    [HttpContext::parse_multipart]: splitting a multipart/form-data body. *)

From stdpp Require Import base list strings gmap numbers.
From Stdlib Require Import ZArith Ascii Lia.
From S2P Require Import Prelude.

Module MultipartParser.

Record MultipartForm : Type := {
  filename : str;
  content : str;
  content_type : str;
  params : gmap str str;
}.

Definition empty_form : MultipartForm :=
  {| filename := []; content := []; content_type := []; params := ∅ |}.

Definition set_file (name data : str) (f : MultipartForm) : MultipartForm :=
  {| filename := name; content := data; content_type := content_type f; params := params f |}.

Definition set_param (name data : str) (f : MultipartForm) : MultipartForm :=
  {| filename := filename f; content := content f; content_type := content_type f;
     params := <[name := data]> (params f) |}.

Definition get_param (f : MultipartForm) (key default_val : str) : str :=
  match params f !! key with Some v => v | None => default_val end.

Definition has_file (f : MultipartForm) : bool := negb (bool_decide (content f = [])).

(** [extract_value]: the value of [key="value"] or [key=value] in a header. *)
Definition extract_value (header key : str) : str :=
  match find key header 0 with
  | None => []
  | Some pos =>
      let start := pos + length key in
      if negb (char_at header start (chr 61)) then []
      else
        let start := S start in
        if char_at header start DQUOTE then
          let start := S start in
          match find [DQUOTE] header start with
          | None => []
          | Some end_ => substr header start (size_sub end_ start)
          end
        else
          let end_ := match find_first_of [chr 59; chr 32; CR; LF] header start with
                      | None => length header
                      | Some e => e
                      end in
          substr header start (size_sub end_ start)
  end.

Definition CRLF2 : str := CRLF ++ CRLF.

(** The value after [boundary=] without surrounding quotes. *)
Definition extract_boundary (ct : str) : option str :=
  match find (lit "boundary=") ct 0 with
  | None => None
  | Some pos =>
      let boundary := substr_from ct (pos + length (lit "boundary=")) in
      if decide (2 <= length boundary) then
        if char_at boundary 0 DQUOTE && char_at boundary (length boundary - 1) DQUOTE
        then Some (substr boundary 1 (size_sub (length boundary) 2))
        else Some boundary
      else Some boundary
  end.

(** The end of a part's data: a CRLF before the next delimiter is not data. *)
Definition trim_end (body : str) (next_boundary : nat) : nat :=
  if decide (2 <= next_boundary) then
    if char_at body (next_boundary - 2) CR && char_at body (next_boundary - 1) LF
    then next_boundary - 2 else next_boundary
  else next_boundary.

Definition add_part (header_part data_view : str) (form : MultipartForm) : MultipartForm :=
  let name := extract_value header_part (lit "name") in
  let fname := extract_value header_part (lit "filename") in
  if negb (bool_decide (fname = [])) then set_file fname data_view form
  else if negb (bool_decide (name = [])) then set_param name data_view form
  else form.

(** The loop of [parse]; [None] is the end of the fuel. *)
Fixpoint parse_loop (fuel : nat) (delimiter body : str) (pos : nat) (form : MultipartForm)
  : option MultipartForm :=
  match fuel with
  | O => None
  | S fuel' =>
      let end_delimiter := delimiter ++ lit "--" in
      match find delimiter body pos with
      | None => Some form
      | Some part_start =>
          if bool_decide (part_start + length end_delimiter <= length body) &&
             bool_decide (substr body part_start (Z.of_nat (length end_delimiter)) = end_delimiter)
          then Some form
          else
            let header_start := part_start + length delimiter in
            if decide (length body < header_start + 2) then Some form
            else if char_at body header_start CR && char_at body (header_start + 1) LF then
              let header_start := header_start + 2 in
              match find CRLF2 body header_start with
              | None => Some form
              | Some header_end =>
                  let header_part := substr body header_start (size_sub header_end header_start) in
                  let data_start := header_end + 4 in
                  match find delimiter body data_start with
                  | None => Some form
                  | Some next_boundary =>
                      let data_end := trim_end body next_boundary in
                      let data_view := substr body data_start (size_sub data_end data_start) in
                      parse_loop fuel' delimiter body next_boundary (add_part header_part data_view form)
                  end
              end
            else parse_loop fuel' delimiter body header_start form
      end
  end.

(** [parse]: the inner [None] is [std::nullopt]. *)
Definition parse (fuel : nat) (ct body : str) : option (option MultipartForm) :=
  match extract_boundary ct with
  | None => Some None
  | Some boundary =>
      match parse_loop fuel (lit "--" ++ boundary) body 0 empty_form with
      | Some form => Some (Some form)
      | None => None
      end
  end.

(** [HttpContext::parse_multipart]: the first part only; [None] is [false]. *)
Definition parse_multipart (ct body : str) : option (str * str) :=
  match find (lit "boundary=") ct 0 with
  | None => None
  | Some pos_boundary =>
      let boundary := substr_from ct (pos_boundary + length (lit "boundary=")) in
      let delimiter := lit "--" ++ boundary in
      match find delimiter body 0 with
      | None => None
      | Some pos_start =>
          match find CRLF2 body pos_start with
          | None => None
          | Some pos_header_end =>
              let header_part := substr body pos_start (size_sub pos_header_end pos_start) in
              let filename_key := lit "filename=" ++ [DQUOTE] in
              match find filename_key header_part 0 with
              | None => None
              | Some pos_filename =>
                  let filename_start := pos_filename + length filename_key in
                  match find [DQUOTE] header_part filename_start with
                  | None => None
                  | Some filename_end =>
                      let out_filename :=
                        substr header_part filename_start (size_sub filename_end filename_start) in
                      let data_start := pos_header_end + 4 in
                      match find delimiter body data_start with
                      | None => None
                      | Some pos_next_boundary =>
                          let data_end := trim_end body pos_next_boundary in
                          Some (out_filename,
                                substr body data_start (size_sub data_end data_start))
                      end
                  end
              end
          end
      end
  end.

(** * Lemmas *)

(** Every round moves forward, so a fuel above the length of the body is enough. *)
Lemma parse_loop_total fuel delimiter body pos form :
  delimiter <> [] -> length body - pos < fuel -> pos <= length body ->
  exists form', parse_loop fuel delimiter body pos form = Some form'.
Proof.
  intros Hd. revert pos form. induction fuel as [|fuel IH]; intros pos form Hf Hp; [lia|].
  simpl. destruct (find delimiter body pos) as [ps|] eqn:Hps; [|by eauto].
  apply find_bounds in Hps as [Hps1 Hps2]. assert (0 < length delimiter) by (destruct delimiter; simpl; [done|lia]).
  destruct (_ && _); [by eauto|]. case_decide; [by eauto|].
  destruct (_ && _); [|apply IH; lia].
  destruct (find CRLF2 body _) as [he|] eqn:Hhe; [|by eauto].
  apply find_bounds in Hhe as [Hhe1 Hhe2].
  destruct (find delimiter body _) as [nb|] eqn:Hnb; [|by eauto].
  apply find_bounds in Hnb as [Hnb1 Hnb2]. apply IH; lia.
Qed.

(** ** Bodies in the multipart format *)

Record part : Type := { part_header : str; part_data : str }.

Definition render_part (d : str) (p : part) : str :=
  d ++ CRLF ++ part_header p ++ CRLF2 ++ part_data p ++ CRLF.

Definition render (d : str) (parts : list part) (epilogue : str) : str :=
  concat (map (render_part d) parts) ++ d ++ lit "--" ++ epilogue.

(** The header block has no empty line, the data does not contain the delimiter. *)
Definition part_ok (d : str) (p : part) : Prop :=
  find0 CRLF2 (part_header p ++ [CR; LF; CR]) = None /\ find0 d (part_data p) = None.

Definition apply_part (form : MultipartForm) (p : part) : MultipartForm :=
  add_part (part_header p) (part_data p) form.

(** The delimiter after data and its CRLF. *)
Lemma find0_delimiter d data rest :
  CR ∉ d -> LF ∉ d -> find0 d data = None ->
  find0 d ((data ++ CRLF) ++ d ++ rest) = Some (length (data ++ CRLF)).
Proof.
  intros Hcr Hlf Hn. rewrite find0_None in Hn. apply find0_first. intros j Hj Hp.
  rewrite length_app in Hj. simpl in Hj. rewrite <- app_assoc in Hp.
  destruct (decide (j + length d <= length data)) as [Hle|Hgt].
  - apply (Hn j); [lia|]. by apply prefix_drop_app in Hp.
  - destruct (decide (j <= length data)) as [Hle'|Hgt'].
    + apply Hcr. eapply (prefix_drop_elem _ _ (length data) j); [exact Hp| |lia].
      rewrite lookup_app_r, Nat.sub_diag by lia. done.
    + destruct d as [|c d]; [by destruct (Hn 0); [lia|apply prefix_nil]|]. apply Hlf.
      eapply (prefix_drop_elem _ _ (length data + 1) j); [exact Hp| |simpl; lia].
      rewrite lookup_app_r by lia. by replace (length data + 1 - length data) with 1 by lia.
Qed.

Lemma char_at_app s t c i : length s = i -> char_at (s ++ c :: t) i c = true.
Proof.
  intros <-. unfold char_at. apply bool_decide_true.
  rewrite lookup_app_r, Nat.sub_diag by lia. done.
Qed.

Lemma substr_size_sub a b c start stop :
  length a = start -> length a + length b = stop -> (Z.of_nat stop < 2 ^ 64)%Z ->
  substr (a ++ b ++ c) start (size_sub stop start) = b.
Proof.
  intros <- <- Hs. rewrite size_sub_le by lia.
  replace (length a + length b - length a) with (length b) by lia. apply substr_middle.
Qed.

Lemma find_at p s a t n :
  s = a ++ t -> length a = n -> find p s n = Nat.add n <$> find0 p t.
Proof. intros -> <-. apply find_app_skip. Qed.

Lemma not_end_delimiter pre d t :
  substr (pre ++ d ++ CRLF ++ t) (length pre) (Z.of_nat (length (d ++ lit "--"))) <> d ++ lit "--".
Proof.
  rewrite substr_nat, drop_app_length, length_app, take_app_add. intros H%app_inv_head. done.
Qed.

Lemma trim_end_CRLF body a b n :
  body = a ++ CRLF ++ b -> length a = n -> trim_end body (n + 2) = n.
Proof.
  intros -> <-. unfold trim_end. rewrite decide_True by lia.
  replace (length a + 2 - 2) with (length a) by lia.
  replace (length a + 2 - 1) with (length (a ++ [CR])) by solve_length.
  change (CRLF ++ b) with (CR :: LF :: b). rewrite (char_at_app a (LF :: b)) by done.
  replace (a ++ CR :: LF :: b) with ((a ++ [CR]) ++ LF :: b) by by rewrite <- app_assoc.
  by rewrite char_at_app.
Qed.

(** One round on a well-formed part. *)
Lemma parse_loop_part fuel d pre h x rest form body :
  body = pre ++ d ++ CRLF ++ h ++ CRLF2 ++ x ++ CRLF ++ d ++ rest ->
  CR ∉ d -> LF ∉ d -> find0 CRLF2 (h ++ [CR; LF; CR]) = None -> find0 d x = None ->
  (Z.of_nat (length body) < 2 ^ 64)%Z ->
  parse_loop (S fuel) d body (length pre) form =
  parse_loop fuel d body (length pre + length d + 2 + length h + 4 + length x + 2)
    (add_part h x form).
Proof.
  intros HB Hcr Hlf Hh Hx Hsz.
  assert (length body = length pre + length d + 2 + length h + 4 + length x + 2 + length d + length rest)
    as HlB by (rewrite HB; solve_length).
  assert (find d body (length pre) = Some (length pre)) as F1 by (rewrite HB; apply find_here).
  assert (find CRLF2 body (length pre + length d + 2) = Some (length pre + length d + 2 + length h))
    as F2.
  { rewrite (find_at _ _ (pre ++ d ++ CRLF) (h ++ CRLF2 ++ x ++ CRLF ++ d ++ rest)).
    - by rewrite find0_after.
    - by rewrite HB, <- !app_assoc.
    - solve_length. }
  assert (find d body (length pre + length d + 2 + length h + 4) =
          Some (length pre + length d + 2 + length h + 4 + length x + 2)) as F3.
  { rewrite (find_at _ _ (pre ++ d ++ CRLF ++ h ++ CRLF2) ((x ++ CRLF) ++ d ++ rest)).
    - rewrite find0_delimiter by done. simpl. f_equal. solve_length.
    - by rewrite HB, <- !app_assoc.
    - solve_length. }
  cbn [parse_loop]. rewrite F1.
  rewrite (bool_decide_false (substr _ _ _ = _)) by (rewrite HB; apply not_end_delimiter).
  rewrite andb_false_r, decide_False by lia.
  assert (char_at body (length pre + length d) CR = true) as ->.
  { rewrite HB, app_assoc. change (CRLF ++ ?t) with (CR :: LF :: t).
    apply char_at_app. rewrite length_app. lia. }
  assert (char_at body (length pre + length d + 1) LF = true) as ->.
  { replace body with ((pre ++ d ++ [CR]) ++ LF :: h ++ CRLF2 ++ x ++ CRLF ++ d ++ rest)
      by by rewrite HB, <- !app_assoc.
    apply char_at_app. solve_length. }
  simpl andb. cbv iota. rewrite F2. cbv zeta. rewrite F3.
  rewrite (trim_end_CRLF body (pre ++ d ++ CRLF ++ h ++ CRLF2 ++ x) (d ++ rest)).
  2: by rewrite HB, <- !app_assoc.
  2: solve_length.
  f_equal. f_equal.
  - replace body with ((pre ++ d ++ CRLF) ++ h ++ CRLF2 ++ x ++ CRLF ++ d ++ rest)
      by by rewrite HB, <- !app_assoc.
    apply substr_size_sub; solve_length.
  - replace body with ((pre ++ d ++ CRLF ++ h ++ CRLF2) ++ x ++ CRLF ++ d ++ rest)
      by by rewrite HB, <- !app_assoc.
    apply substr_size_sub; solve_length.
Qed.

Lemma parse_loop_end fuel d pre epilogue form :
  parse_loop (S fuel) d (pre ++ d ++ lit "--" ++ epilogue) (length pre) form = Some form.
Proof.
  cbn [parse_loop]. rewrite find_here. rewrite bool_decide_true by solve_length.
  rewrite bool_decide_true; [done|].
  rewrite substr_nat, drop_app_length. rewrite app_assoc. by rewrite take_app_length.
Qed.

(** What follows a part starts with the delimiter. *)
Lemma render_rest d parts epilogue :
  exists rest, concat (map (render_part d) parts) ++ d ++ lit "--" ++ epilogue = d ++ rest.
Proof.
  destruct parts as [|p0 parts]; [by eexists|]. simpl. unfold render_part at 1.
  rewrite <- !app_assoc. by eexists.
Qed.

Lemma parse_loop_render fuel d parts pre epilogue form body :
  body = pre ++ render d parts epilogue -> CR ∉ d -> LF ∉ d -> Forall (part_ok d) parts ->
  (Z.of_nat (length body) < 2 ^ 64)%Z -> length parts < fuel ->
  parse_loop fuel d body (length pre) form = Some (foldl apply_part form parts).
Proof.
  intros HB Hcr Hlf Hok Hsz. revert pre form fuel HB. induction Hok as [|[h x] parts [Hh Hx] _ IH];
    intros pre form [|fuel] HB Hf; try (simpl in Hf; lia).
  { subst body. apply parse_loop_end. }
  destruct (render_rest d parts epilogue) as [rest Hrest].
  unfold render in HB. simpl map in HB. simpl concat in HB. rewrite <- app_assoc, Hrest in HB.
  rewrite (parse_loop_part fuel d pre h x rest form body) by
    (done || (rewrite HB; unfold render_part; cbn [part_header part_data]; by rewrite <- !app_assoc)).
  set (pre' := pre ++ render_part d {| part_header := h; part_data := x |}).
  replace (length pre + length d + 2 + length h + 4 + length x + 2) with (length pre')
    by (unfold pre', render_part; solve_length).
  apply IH; [|simpl in Hf; lia]. unfold render. rewrite Hrest, HB. unfold pre'. by rewrite <- app_assoc.
Qed.

(** ** Content-Disposition headers *)

Definition quoted (v : str) : str := [DQUOTE] ++ v ++ [DQUOTE].

Definition disposition : str := lit "Content-Disposition: form-data; ".

Definition field_header (name : str) : str := disposition ++ lit "name=" ++ quoted name.

Definition file_header (name fname extra : str) : str :=
  field_header name ++ lit "; " ++ lit "filename=" ++ quoted fname ++ extra.

(** Text without [p] on both sides of a character [p] does not have. *)
Lemma find0_split p a c b :
  c ∉ p -> find0 p a = None -> find0 p b = None -> find0 p (a ++ c :: b) = None.
Proof.
  intros Hc Ha Hb. rewrite find0_None in Ha, Hb. apply find0_None. intros j Hj Hp.
  destruct (decide (j + length p <= length a)) as [Hle|Hgt].
  { apply (Ha j); [lia|]. by apply prefix_drop_app in Hp. }
  destruct (decide (j <= length a)) as [Hle|Hgt'].
  - destruct (decide (p = [])) as [->|Hne].
    { apply (Hb 0); [lia|]. apply prefix_nil. }
    apply Hc. eapply (prefix_drop_elem _ _ (length a) j); [exact Hp| |lia].
    rewrite lookup_app_r, Nat.sub_diag by lia. done.
  - apply (Hb (j - length a - 1)); [rewrite length_app in Hj; simpl in Hj; lia|].
    rewrite drop_app_ge in Hp by lia. destruct (j - length a) as [|k] eqn:E; [lia|].
    simpl in Hp. by replace (S k - 1) with k by lia.
Qed.

Lemma extract_value_quoted header key a v b :
  header = a ++ key ++ [chr 61] ++ quoted v ++ b ->
  find0 key (a ++ take (length key - 1) key) = None -> DQUOTE ∉ v ->
  (Z.of_nat (length header) < 2 ^ 64)%Z ->
  extract_value header key = v.
Proof.
  intros HB Hk Hv Hsz. unfold extract_value.
  assert (length header = length a + length key + 1 + 1 + length v + 1 + length b) as Hl
    by (rewrite HB; unfold quoted; solve_length).
  assert (find key header 0 = Some (length a)) as -> by (rewrite HB, find_0; by apply find0_after).
  assert (char_at header (length a + length key) (chr 61) = true) as ->.
  { replace header with ((a ++ key) ++ chr 61 :: quoted v ++ b) by by rewrite HB, <- !app_assoc.
    apply char_at_app. rewrite length_app. lia. }
  cbv iota zeta. simpl negb. cbv iota.
  assert (char_at header (S (length a + length key)) DQUOTE = true) as ->.
  { replace header with ((a ++ key ++ [chr 61]) ++ DQUOTE :: v ++ [DQUOTE] ++ b)
      by (rewrite HB; unfold quoted; by rewrite <- !app_assoc).
    apply char_at_app. solve_length. }
  rewrite (find_at _ _ (a ++ key ++ [chr 61; DQUOTE]) (v ++ DQUOTE :: b)).
  2: rewrite HB; unfold quoted; by rewrite <- !app_assoc.
  2: solve_length.
  rewrite find0_char by done. simpl fmap.
  replace header with ((a ++ key ++ [chr 61; DQUOTE]) ++ v ++ DQUOTE :: b)
    by (rewrite HB; unfold quoted; by rewrite <- !app_assoc).
  apply substr_size_sub; solve_length.
Qed.

Lemma extract_value_absent header key :
  find0 (key ++ [chr 61]) header = None -> extract_value header key = [].
Proof.
  intros Hn. unfold extract_value. rewrite find_0. destruct (find0 key header) as [pos|] eqn:Hf; [|done].
  destruct (char_at header (pos + length key) (chr 61)) eqn:Hc; [|done]. exfalso.
  apply find0_Some in Hf as (Hpos & [r Hr] & _). rewrite find0_None in Hn.
  apply (Hn pos Hpos). apply bool_decide_eq_true in Hc. rewrite <- lookup_drop, Hr in Hc.
  rewrite lookup_app_r, Nat.sub_diag in Hc by lia. destruct r as [|c r]; [done|].
  injection Hc as ->. rewrite Hr. exists r. by rewrite <- app_assoc.
Qed.

(** A field name a client can send: no quote or CR, and not mistaken for a file. *)
Definition field_name_ok (n : str) : Prop :=
  n <> [] /\ (DQUOTE ∉ n) /\ (CR ∉ n) /\ find0 (lit "filename=") n = None /\
  (Z.of_nat (length n) < 2 ^ 63)%Z.

Lemma no_CR_header h : CR ∉ h -> find0 CRLF2 (h ++ [CR; LF; CR]) = None.
Proof.
  intros Hh. rewrite find0_None. intros j Hj Hp. pose proof (prefix_length _ _ Hp) as Hlen.
  rewrite length_drop, length_app in Hlen. simpl in Hlen.
  destruct Hp as [r Hr].
  assert ((h ++ [CR; LF; CR]) !! j = Some CR) as Hc.
  { rewrite <- (Nat.add_0_r j), <- lookup_drop, Hr. done. }
  rewrite lookup_app_l in Hc by lia. apply Hh. by eapply list_elem_of_lookup_2.
Qed.

Lemma field_header_name n :
  DQUOTE ∉ n -> (Z.of_nat (length n) < 2 ^ 63)%Z -> extract_value (field_header n) (lit "name") = n.
Proof.
  intros Hq Hl. apply (extract_value_quoted _ _ disposition n []); [|by vm_compute|done|].
  - by rewrite app_nil_r.
  - unfold field_header, quoted. solve_length.
Qed.

Lemma field_header_no_filename n :
  find0 (lit "filename=") n = None -> extract_value (field_header n) (lit "filename") = [].
Proof.
  intros Hn. apply extract_value_absent.
  change (lit "filename" ++ [chr 61]) with (lit "filename=").
  change (field_header n) with ((disposition ++ lit "name=") ++ DQUOTE :: (n ++ [DQUOTE])).
  apply find0_split; [by_decide|by vm_compute|]. apply find0_split; [by_decide|done|by vm_compute].
Qed.

Lemma file_header_filename n f extra :
  find0 (lit "filename") n = None -> DQUOTE ∉ f ->
  (Z.of_nat (length (file_header n f extra)) < 2 ^ 64)%Z ->
  extract_value (file_header n f extra) (lit "filename") = f.
Proof.
  intros Hn Hf Hl.
  apply (extract_value_quoted _ _ (field_header n ++ lit "; ") f extra); [|idtac|done|done].
  - unfold file_header. by rewrite <- !app_assoc.
  - change (take (length (lit "filename") - 1) (lit "filename")) with (lit "filenam").
    replace ((field_header n ++ lit "; ") ++ lit "filenam") with
      ((disposition ++ lit "name=") ++ DQUOTE :: (n ++ DQUOTE :: (lit "; filenam")))
      by (unfold field_header, quoted; by rewrite <- !app_assoc).
    apply find0_split; [by_decide|by vm_compute|]. apply find0_split; [by_decide|done|by vm_compute].
Qed.

Definition field_part (kv : str * str) : part :=
  {| part_header := field_header kv.1; part_data := kv.2 |}.

Definition file_part (n f extra data : str) : part :=
  {| part_header := file_header n f extra; part_data := data |}.

Lemma apply_field_part form k v :
  field_name_ok k -> apply_part form (field_part (k, v)) = set_param k v form.
Proof.
  intros (Hne & Hq & _ & Hfn & Hl). unfold apply_part, add_part. cbn [part_header part_data field_part].
  cbn [fst snd]. rewrite field_header_no_filename, field_header_name by done. simpl.
  by rewrite bool_decide_false.
Qed.

Lemma apply_field_parts fs form :
  Forall (fun kv => field_name_ok kv.1) fs ->
  foldl apply_part form (map field_part fs) = foldl (fun g kv => set_param kv.1 kv.2 g) form fs.
Proof.
  intros H. revert form. induction H as [|[k v] fs Hk _ IH]; intros form; [done|]. simpl map.
  cbn [foldl]. by rewrite apply_field_part.
Qed.

Lemma set_params_form fs form :
  foldl (fun g kv => set_param kv.1 kv.2 g) form fs =
  {| filename := filename form; content := content form; content_type := content_type form;
     params := foldl (fun m kv => <[kv.1 := kv.2]> m) (params form) fs |}.
Proof. revert form. induction fs as [|[k v] fs IH]; intros form; [by destruct form|]. simpl. by rewrite IH. Qed.

Lemma render_header_length d p parts epilogue :
  p ∈ parts -> length (part_header p) <= length (render d parts epilogue).
Proof.
  unfold render. rewrite length_app. intros Hp.
  cut (length (part_header p) <= length (concat (map (render_part d) parts))); [lia|].
  induction Hp as [p ps|p p' ps _ IH]; cbn [map concat]; rewrite length_app; [|lia].
  unfold render_part. rewrite !length_app. lia.
Qed.

Lemma parse_render_aux ct b parts epilogue fuel :
  extract_boundary ct = Some b -> CR ∉ b -> LF ∉ b ->
  Forall (part_ok (lit "--" ++ b)) parts ->
  (Z.of_nat (length (render (lit "--" ++ b) parts epilogue)) < 2 ^ 64)%Z -> length parts < fuel ->
  parse fuel ct (render (lit "--" ++ b) parts epilogue) =
  Some (Some (foldl apply_part empty_form parts)).
Proof.
  intros Hb Hcr Hlf Hok Hsz Hf. unfold parse. rewrite Hb.
  assert (forall c, c <> chr 45 -> c ∉ b -> c ∉ lit "--" ++ b) as Hdash.
  { intros c Hc Hcb. rewrite elem_of_app. intros [H|?]; [|done]. revert H.
    change (lit "--") with [chr 45; chr 45]. rewrite !elem_of_cons, elem_of_nil. tauto. }
  rewrite (parse_loop_render fuel (lit "--" ++ b) parts [] epilogue empty_form); try done.
  - apply Hdash; [by_decide|done].
  - apply Hdash; [by_decide|done].
Qed.

(** Text fields make well-formed parts. *)
Lemma fields_ok d fs :
  Forall (fun kv => field_name_ok kv.1 /\ find0 d kv.2 = None) fs -> Forall (part_ok d) (map field_part fs).
Proof.
  intros Hfs. apply list.Forall_forall. intros p (kv & -> & Hkv)%list_elem_of_fmap.
  destruct (proj1 (list.Forall_forall _ _) Hfs kv Hkv) as [(_ & Hq' & Hcr' & _) Hd'].
  split; [|done]. apply no_CR_header. simpl part_header. unfold field_header, quoted.
  rewrite !elem_of_app. intros [H|[H|[H|[H|H]]]]; [| | |done|]; revert H; by_decide.
Qed.

(** * Properties *)

(** A body made of the given parts, each with a header block without an empty
    line and data without the delimiter, parses to the parts applied in order; a
    fuel above the number of parts suffices, whatever follows the closing
    delimiter. *)
Theorem parse_render ct b parts epilogue fuel :
  extract_boundary ct = Some b -> CR ∉ b -> LF ∉ b ->
  Forall (part_ok (lit "--" ++ b)) parts ->
  (Z.of_nat (length (render (lit "--" ++ b) parts epilogue)) < 2 ^ 64)%Z -> length parts < fuel ->
  parse fuel ct (render (lit "--" ++ b) parts epilogue) =
  Some (Some (foldl apply_part empty_form parts)).
Proof.
  intros Hb Hcr Hlf Hok Hsz Hf. by apply parse_render_aux.
Qed.

(** C9: a form of text fields and one file, written the way browsers write it,
    parses to exactly those fields (a repeated name keeps the last value), the file
    name and the file content, under the conditions the parser relies on: the boundary
    has no line break and does not occur, after two hyphens, in a value or in the
    content; the names of the text fields are not empty, have no quote or carriage
    return and do not contain [filename=]; the name of the file's field does not contain
    [filename]; the file name is not empty and has no quote; and the file's header has
    no empty line. *)
Theorem parse_upload_form ct b fs n f extra data epilogue fuel :
  extract_boundary ct = Some b -> CR ∉ b -> LF ∉ b ->
  Forall (fun kv => field_name_ok kv.1 /\ find0 (lit "--" ++ b) kv.2 = None) fs ->
  find0 (lit "filename") n = None -> f <> [] -> DQUOTE ∉ f ->
  find0 CRLF2 (file_header n f extra ++ [CR; LF; CR]) = None ->
  find0 (lit "--" ++ b) data = None ->
  let parts := map field_part fs ++ [file_part n f extra data] in
  let body := render (lit "--" ++ b) parts epilogue in
  (Z.of_nat (length body) < 2 ^ 64)%Z -> length fs + 1 < fuel ->
  parse fuel ct body = Some (Some {|
    filename := f; content := data; content_type := [];
    params := foldl (fun m kv => <[kv.1 := kv.2]> m) ∅ fs |}).
Proof.
  intros Hb Hcr Hlf Hfs Hn Hne Hq Hh Hd parts body Hsz Hfuel. unfold body.
  assert (Forall (fun kv => field_name_ok kv.1) fs) as Hnames
    by (eapply Forall_weaken; [|exact Hfs]; by intros ? [? _]).
  assert (Forall (part_ok (lit "--" ++ b)) parts) as Hok.
  { apply list.Forall_app. split; [by apply fields_ok|by repeat constructor]. }
  rewrite parse_render_aux; [|done..|].
  2: { unfold parts. solve_length. }
  unfold parts. rewrite foldl_app, apply_field_parts, set_params_form by done. simpl foldl.
  unfold apply_part, add_part. cbn [part_header part_data file_part].
  rewrite file_header_filename; [|done..|].
  2: { eapply Z.le_lt_trans; [|exact Hsz]. apply inj_le.
       apply (render_header_length _ (file_part n f extra data)), elem_of_app. right.
       by apply list_elem_of_singleton. }
  by rewrite bool_decide_false.
Qed.

(** Parsing always ends: a fuel above the length of the body gives a result
    for every content type and body, well formed or not. *)
Theorem parse_terminates ct body fuel :
  length body < fuel -> exists r, parse fuel ct body = Some r.
Proof.
  intros Hf. unfold parse. destruct (extract_boundary ct) as [b|]; [|by eauto].
  destruct (parse_loop_total fuel (lit "--" ++ b) body 0 empty_form) as [form ->];
    [done|lia|lia|by eauto].
Qed.

(** When the delimiter follows the header block at once, with no CRLF of its
    own, the length of the data wraps around and the part receives the whole rest
    of the body instead of nothing. *)
Theorem empty_part_swallows_rest fuel d pre h rest form body :
  body = pre ++ d ++ CRLF ++ h ++ CRLF2 ++ d ++ rest -> d <> [] ->
  find0 CRLF2 (h ++ [CR; LF; CR]) = None -> (Z.of_nat (length body) < 2 ^ 63)%Z ->
  exists pos, parse_loop (S fuel) d body (length pre) form =
    parse_loop fuel d body pos (add_part h (d ++ rest) form).
Proof.
  intros HB Hne Hh Hsz. eexists.
  assert (length body = length pre + length d + 2 + length h + 4 + length d + length rest)
    as HlB by (rewrite HB; solve_length).
  cbn [parse_loop].
  assert (find d body (length pre) = Some (length pre)) as -> by (rewrite HB; apply find_here).
  rewrite (bool_decide_false (substr _ _ _ = _)) by (rewrite HB; apply not_end_delimiter).
  rewrite andb_false_r, decide_False by lia.
  assert (char_at body (length pre + length d) CR = true) as ->.
  { rewrite HB, app_assoc. change (CRLF ++ ?t) with (CR :: LF :: t).
    apply char_at_app. rewrite length_app. lia. }
  assert (char_at body (length pre + length d + 1) LF = true) as ->.
  { replace body with ((pre ++ d ++ [CR]) ++ LF :: h ++ CRLF2 ++ d ++ rest)
      by by rewrite HB, <- !app_assoc.
    apply char_at_app. solve_length. }
  simpl andb. cbv iota zeta.
  rewrite (find_at CRLF2 body (pre ++ d ++ CRLF) (h ++ CRLF2 ++ d ++ rest));
    [|by rewrite HB, <- !app_assoc|solve_length].
  rewrite find0_after by done. cbn [fmap option_fmap option_map].
  rewrite (find_at d body (pre ++ d ++ CRLF ++ h ++ CRLF2) (d ++ rest));
    [|by rewrite HB, <- !app_assoc|solve_length].
  rewrite find0_here. cbn [fmap option_fmap option_map]. rewrite Nat.add_0_r.
  replace (length pre + length d + 2 + length h + 4) with
    (length (pre ++ d ++ CRLF ++ h ++ CRLF) + 2) by solve_length.
  rewrite (trim_end_CRLF body (pre ++ d ++ CRLF ++ h ++ CRLF) (d ++ rest));
    [|rewrite HB; unfold CRLF2; by rewrite <- !app_assoc|done].
  f_equal. f_equal.
  - replace body with ((pre ++ d ++ CRLF) ++ h ++ CRLF2 ++ d ++ rest)
      by by rewrite HB, <- !app_assoc.
    apply substr_size_sub; solve_length.
  - rewrite size_sub_wraps by (rewrite ?length_app in *; simpl in *; lia).
    rewrite substr_all by (rewrite ?length_app in *; simpl in *; lia).
    replace body with ((pre ++ d ++ CRLF ++ h ++ CRLF2) ++ d ++ rest)
      by by rewrite HB, <- !app_assoc.
    replace (length (pre ++ d ++ CRLF ++ h ++ CRLF) + 2) with
      (length (pre ++ d ++ CRLF ++ h ++ CRLF2)) by solve_length.
    apply drop_app_length.
Qed.

(** * Witnesses *)

Definition demo_ct : str := lit "multipart/form-data; boundary=XyZ".

Definition demo_fields : list (str * str) := [(lit "md5", lit "abc"); (lit "chunk", lit "0")].

Definition demo_file : part :=
  file_part (lit "file") (lit "a.txt") (CRLF ++ lit "Content-Type: text/plain") (lit "--X" ++ CRLF).

Lemma parse_render_witness :
  parse 10 demo_ct (render (lit "--XyZ") (map field_part demo_fields ++ [demo_file]) CRLF) =
  Some (Some (foldl apply_part empty_form (map field_part demo_fields ++ [demo_file]))).
Proof.
  apply (parse_render demo_ct (lit "XyZ"));
    [reflexivity | by_decide | by_decide | | vm_compute; reflexivity | simpl; lia].
  repeat constructor.
Defined.

Lemma parse_upload_form_witness :
  parse 10 demo_ct (render (lit "--XyZ") (map field_part demo_fields ++ [demo_file]) CRLF) =
  Some (Some {| filename := lit "a.txt"; content := lit "--X" ++ CRLF; content_type := [];
                params := foldl (fun m kv => <[kv.1 := kv.2]> m) ∅ demo_fields |}).
Proof.
  apply (parse_upload_form demo_ct (lit "XyZ") demo_fields (lit "file") (lit "a.txt")
           (CRLF ++ lit "Content-Type: text/plain") (lit "--X" ++ CRLF) CRLF 10);
    [ reflexivity | by_decide | by_decide | | reflexivity | done | by_decide | reflexivity
    | reflexivity | vm_compute; reflexivity | simpl; lia ].
  unfold demo_fields, field_name_ok. repeat constructor; by_decide || done.
Defined.

(** A file input named [filename]: the parser takes the name of the field for the start of
    the file name, finds none, and puts the content among the text parameters. *)
Example file_field_named_filename :
  parse 10 demo_ct (render (lit "--XyZ") [file_part (lit "filename") (lit "a.txt") [] (lit "data")] CRLF) =
  Some (Some {| filename := []; content := []; content_type := [];
                params := {[lit "filename" := lit "data"]} |}).
Proof. vm_compute. reflexivity. Qed.

Lemma parse_terminates_witness :
  exists r, parse 200 demo_ct (lit "--XyZ--XyZ" ++ CRLF ++ lit "junk--XyZ") = Some r.
Proof. apply parse_terminates. vm_compute. lia. Defined.

(** An empty file part, closed without its CRLF. *)
Definition short_body : str :=
  lit "--B" ++ CRLF ++ file_header (lit "f") (lit "a.txt") [] ++ CRLF2 ++ lit "--B" ++ lit "--".

Lemma empty_part_swallows_rest_witness :
  exists pos, parse_loop 9 (lit "--B") short_body 0 empty_form =
    parse_loop 8 (lit "--B") short_body pos
      (add_part (file_header (lit "f") (lit "a.txt") []) (lit "--B--") empty_form).
Proof.
  apply (empty_part_swallows_rest 8 (lit "--B") [] (file_header (lit "f") (lit "a.txt") [])
           (lit "--")); [reflexivity | done | reflexivity | vm_compute; reflexivity].
Defined.

End MultipartParser.
