(* ===== verification/MultipartLegacy.v ===== *)
(** [HttpContext::parse_multipart], the older parser for a single file, against
    [MultipartParser::parse]: on forms that start with their file both give the same
    file name and the same content. *)

From stdpp Require Import base list strings gmap numbers.
From Stdlib Require Import ZArith Ascii Lia.
From S2P Require Import Prelude Multipart.

Import MultipartParser.

(** * Lemmas *)

(** Where a key that ends with its only [c] can be found. *)
Lemma find0_ends k c x y :
  c ∉ k -> c ∉ x -> ~ k `suffix_of` x -> find0 (k ++ [c]) y = None ->
  find0 (k ++ [c]) (x ++ c :: y) = None.
Proof.
  intros Hck Hcx Hsuf Hy. rewrite find0_None in Hy. apply find0_None. intros j Hj Hp.
  assert (forall i, i < length k + 1 -> drop j (x ++ c :: y) !! i = (k ++ [c]) !! i) as Hat.
  { intros i Hi. destruct Hp as [r ->]. apply lookup_app_l. solve_length. }
  destruct (decide (length x < j)) as [Hlt|Hge].
  { apply (Hy (j - length x - 1)); [rewrite length_app in Hj; simpl in Hj; lia|].
    rewrite drop_app_ge in Hp by lia. destruct (j - length x) as [|i] eqn:E; [lia|].
    simpl in Hp. by replace (S i - 1) with i by lia. }
  specialize (Hat (length x - j)) as Hc. rewrite lookup_drop in Hc.
  replace (j + (length x - j)) with (length x) in Hc by lia.
  rewrite lookup_app_r, Nat.sub_diag in Hc by lia. cbn [lookup list_lookup] in Hc.
  destruct (decide (length x - j < length k)) as [Hin|Hout].
  { specialize (Hc ltac:(lia)). rewrite lookup_app_l in Hc by lia. symmetry in Hc.
    apply Hck. by eapply list_elem_of_lookup_2. }
  destruct (decide (j + length k = length x)) as [He|Hne].
  - apply Hsuf. exists (take j x). rewrite <- (take_drop j x) at 1. f_equal.
    apply prefix_length_eq; [|rewrite length_drop; lia].
    destruct Hp as [r Hr]. rewrite <- app_assoc in Hr.
    rewrite drop_app_le in Hr by lia. apply (f_equal (take (length k))) in Hr.
    rewrite take_app_length in Hr. rewrite take_app_le in Hr by (rewrite length_drop; lia).
    rewrite take_ge in Hr by (rewrite length_drop; lia). by rewrite Hr.
  - specialize (Hat (length k) ltac:(lia)). rewrite lookup_drop in Hat.
    rewrite lookup_app_l in Hat by lia. rewrite lookup_app_r, Nat.sub_diag in Hat by lia.
    apply Hcx. by eapply list_elem_of_lookup_2.
Qed.

Lemma find0_suffix_None p (a b : str) : find0 p (a ++ b) = None -> find0 p b = None.
Proof.
  rewrite !find0_None. intros H j Hj Hp. apply (H (length a + j)); [rewrite length_app; lia|].
  rewrite <- drop_drop. by rewrite drop_app_length.
Qed.

(** The header block of the first part ends at its empty line, seen from the
    delimiter too. *)
Lemma first_header_end d h c h' :
  CR ∉ d -> LF ∉ d -> h = c :: h' -> c <> CR -> c <> LF ->
  find0 CRLF2 (h ++ [CR; LF; CR]) = None -> find0 CRLF2 ((d ++ CRLF ++ h) ++ [CR; LF; CR]) = None.
Proof.
  intros Hcr Hlf -> Hc1 Hc2 Hh.
  replace ((d ++ CRLF ++ c :: h') ++ [CR; LF; CR]) with ((d ++ CRLF) ++ c :: (h' ++ [CR; LF; CR]))
    by by rewrite <- !app_assoc.
  apply find0_split.
  - change CRLF2 with [CR; LF; CR; LF]. rewrite !elem_of_cons, elem_of_nil. tauto.
  - change (d ++ CRLF) with (d ++ CR :: [LF]). apply find0_None. intros j Hj Hp.
    pose proof (prefix_length _ _ Hp) as Hl. rewrite length_drop, length_app in Hl. simpl in Hl.
    destruct Hp as [r Hr]. assert (drop j (d ++ [CR; LF]) !! 0 = Some CR) as H0 by by rewrite Hr.
    rewrite lookup_drop, Nat.add_0_r, lookup_app_l in H0 by lia. apply Hcr. by eapply list_elem_of_lookup_2.
  - by apply (find0_suffix_None _ [c]).
Qed.

Definition filename_key : str := lit "filename=" ++ [DQUOTE].

(** The first file name in a block is the one of the file header. *)
Lemma filename_key_first d n :
  DQUOTE ∉ d -> DQUOTE ∉ n -> find0 (lit "filename") n = None ->
  find0 filename_key (((d ++ CRLF) ++ field_header n ++ lit "; ") ++ lit "filename=") = None.
Proof.
  intros Hd Hn Hf.
  replace (((d ++ CRLF) ++ field_header n ++ lit "; ") ++ lit "filename=") with
    ((d ++ CRLF ++ disposition ++ lit "name=") ++ DQUOTE :: (n ++ DQUOTE :: lit "; filename="))
    by (unfold field_header, quoted; by rewrite <- !app_assoc).
  apply find0_ends; [by_decide| | |].
  - rewrite !elem_of_app. intros [H|[H|[H|H]]]; [done|revert H; by_decide..].
  - intros [w Hw].
    replace (d ++ CRLF ++ disposition ++ lit "name=") with
      ((d ++ CRLF ++ lit "Content-Disposition: form-da") ++ lit "ta; name=") in Hw
      by by rewrite <- !app_assoc.
    apply app_inj_2 in Hw as [_ Hw]; done.
  - apply find0_ends; [by_decide|done| |by vm_compute].
    intros [w Hw]. rewrite find0_None in Hf. apply (Hf (length w)).
    + rewrite Hw, length_app. lia.
    + rewrite Hw, drop_app_length. by exists [chr 61].
Qed.

(** The header of a file, with the delimiter line in front. *)
Definition first_block (d n f extra : str) : str := d ++ CRLF ++ file_header n f extra.

Lemma first_block_key d n f extra :
  first_block d n f extra =
  ((d ++ CRLF) ++ field_header n ++ lit "; ") ++ filename_key ++ f ++ DQUOTE :: extra.
Proof. unfold first_block, file_header, filename_key, quoted. by rewrite <- !app_assoc. Qed.

(** What the older parser takes from the block. *)
Lemma first_block_filename d n f extra :
  DQUOTE ∉ d -> DQUOTE ∉ n -> find0 (lit "filename") n = None -> DQUOTE ∉ f ->
  (Z.of_nat (length (first_block d n f extra)) < 2 ^ 64)%Z ->
  let block := first_block d n f extra in
  exists p q, find filename_key block 0 = Some p /\
    find [DQUOTE] block (p + length filename_key) = Some q /\
    substr block (p + length filename_key) (size_sub q (p + length filename_key)) = f.
Proof.
  intros Hd Hn Hfn Hf Hsz block. set (a := (d ++ CRLF) ++ field_header n ++ lit "; ").
  assert (block = a ++ filename_key ++ f ++ DQUOTE :: extra) as HB by apply first_block_key.
  exists (length a), (length a + length filename_key + length f). split_and!.
  - rewrite HB, find_0. apply find0_after. by apply filename_key_first.
  - rewrite (find_at _ _ (a ++ filename_key) (f ++ DQUOTE :: extra)).
    + rewrite find0_char by done. done.
    + by rewrite HB, <- app_assoc.
    + by rewrite length_app.
  - replace block with ((a ++ filename_key) ++ f ++ DQUOTE :: extra) by by rewrite HB, <- app_assoc.
    fold block in Hsz. rewrite HB in Hsz. rewrite !length_app in Hsz.
    apply substr_size_sub; rewrite ?length_app; [done|lia|lia].
Qed.

Lemma parse_multipart_file ct b pre n f extra x rest body :
  ct = pre ++ lit "boundary=" ++ b -> find0 (lit "boundary=") (pre ++ lit "boundary") = None ->
  CR ∉ b -> LF ∉ b -> DQUOTE ∉ b -> DQUOTE ∉ n -> find0 (lit "filename") n = None -> DQUOTE ∉ f ->
  find0 CRLF2 (file_header n f extra ++ [CR; LF; CR]) = None -> find0 (lit "--" ++ b) x = None ->
  body = (lit "--" ++ b) ++ CRLF ++ file_header n f extra ++ CRLF2 ++ x ++ CRLF ++ (lit "--" ++ b) ++ rest ->
  (Z.of_nat (length body) < 2 ^ 64)%Z ->
  parse_multipart ct body = Some (f, x).
Proof.
  intros Hct Hpre Hcr Hlf Hq Hqn Hn Hqf Hh Hx HB Hsz. set (d := lit "--" ++ b) in *.
  assert (forall c, c <> chr 45 -> c ∉ b -> c ∉ d) as Hdash.
  { intros c Hc Hcb. unfold d. rewrite elem_of_app. intros [H|?]; [|done]. revert H.
    change (lit "--") with [chr 45; chr 45]. rewrite !elem_of_cons, elem_of_nil. tauto. }
  assert (CR ∉ d) as Dcr by (apply Hdash; [by_decide|done]).
  assert (LF ∉ d) as Dlf by (apply Hdash; [by_decide|done]).
  assert (DQUOTE ∉ d) as Dq by (apply Hdash; [by_decide|done]).
  set (block := first_block d n f extra).
  assert (body = block ++ CRLF2 ++ (x ++ CRLF) ++ d ++ rest) as HB'
    by (rewrite HB; unfold block, first_block; by rewrite <- !app_assoc).
  assert (length body = length block + 4 + length x + 2 + length d + length rest) as Hl
    by (rewrite HB'; solve_length).
  assert (find d body 0 = Some 0) as F1 by (rewrite HB, find_0; apply find0_here).
  assert (find CRLF2 body 0 = Some (length block)) as F2.
  { rewrite HB', find_0. apply find0_after.
    by apply (first_header_end d _ (chr 67) (tail (file_header n f extra))). }
  assert (substr body 0 (size_sub (length block) 0) = block) as F3.
  { rewrite HB'. apply (substr_size_sub [] block); [done|done|lia]. }
  assert (find d body (length block + 4) = Some (length block + 4 + (length x + 2))) as F4.
  { rewrite (find_at _ _ (block ++ CRLF2) ((x ++ CRLF) ++ d ++ rest)).
    - rewrite find0_delimiter by done. cbn [fmap option_fmap option_map]. f_equal. solve_length.
    - by rewrite HB', <- !app_assoc.
    - solve_length. }
  destruct (first_block_filename d n f extra) as (p & q & P1 & P2 & P3); [done..|fold block; lia|].
  fold block in P1, P2, P3. unfold filename_key in P1, P2, P3.
  unfold parse_multipart. rewrite Hct. rewrite find_0, find0_after by done.
  unfold substr_from. rewrite app_assoc, drop_app_ge by (rewrite length_app; done).
  replace (length pre + length (lit "boundary=") - length (pre ++ lit "boundary=")) with 0 by solve_length.
  rewrite drop_0. fold d. cbv zeta. rewrite F1, F2, F3, P1, P2, P3, F4.
  rewrite Nat.add_assoc, (trim_end_CRLF body (block ++ CRLF2 ++ x) (d ++ rest)).
  - do 2 f_equal. replace body with ((block ++ CRLF2) ++ x ++ CRLF ++ d ++ rest)
      by (rewrite HB'; by rewrite <- !app_assoc).
    apply substr_size_sub; first [lia | solve_length].
  - rewrite HB'. by rewrite <- !app_assoc.
  - solve_length.
Qed.

Lemma unquoted_boundary pre b :
  find0 (lit "boundary=") (pre ++ lit "boundary") = None -> DQUOTE ∉ b ->
  extract_boundary (pre ++ lit "boundary=" ++ b) = Some b.
Proof.
  intros Hpre Hq. unfold extract_boundary. rewrite find_0, find0_after by done. unfold substr_from.
  rewrite app_assoc, drop_app_ge by (rewrite length_app; done).
  replace (length pre + length (lit "boundary=") - length (pre ++ lit "boundary=")) with 0 by solve_length.
  rewrite drop_0. case_decide; [|done]. destruct (char_at b 0 DQUOTE) eqn:Hc; [|done]. exfalso.
  apply bool_decide_eq_true in Hc. apply Hq. by eapply list_elem_of_lookup_2.
Qed.

(** * Properties *)

(** C29: the two multipart parsers agree on a form that starts with its file, whatever
    text fields follow: [parse_multipart] returns the file name and the content that
    [parse] puts in the form. The conditions are those of [parse] (the file name is not
    empty and has no quote, the name of the file's field does not contain [filename],
    its header has no empty line, the names of the text fields are as in
    [field_name_ok], the delimiter does not occur in the content or in a value) and
    that the boundary and the name of the file's field have no quotes. *)
Theorem parsers_agree pre b n f extra data fs epilogue fuel :
  let ct := pre ++ lit "boundary=" ++ b in
  find0 (lit "boundary=") (pre ++ lit "boundary") = None ->
  CR ∉ b -> LF ∉ b -> DQUOTE ∉ b -> DQUOTE ∉ n -> find0 (lit "filename") n = None ->
  f <> [] -> DQUOTE ∉ f ->
  find0 CRLF2 (file_header n f extra ++ [CR; LF; CR]) = None -> find0 (lit "--" ++ b) data = None ->
  Forall (fun kv => field_name_ok kv.1 /\ find0 (lit "--" ++ b) kv.2 = None) fs ->
  let body := render (lit "--" ++ b) (file_part n f extra data :: map field_part fs) epilogue in
  (Z.of_nat (length body) < 2 ^ 64)%Z -> length fs + 1 < fuel ->
  exists form, parse fuel ct body = Some (Some form) /\ filename form = f /\ content form = data /\
    parse_multipart ct body = Some (filename form, content form).
Proof.
  intros ct Hpre Hcr Hlf Hq Hqn Hn Hne Hqf Hh Hd Hfs body Hsz Hfuel.
  assert (Forall (fun kv => field_name_ok kv.1) fs) as Hnames
    by (eapply Forall_weaken; [|exact Hfs]; by intros ? [? _]).
  assert (Forall (part_ok (lit "--" ++ b)) (file_part n f extra data :: map field_part fs)) as Hok.
  { constructor; [done|]. by apply fields_ok. }
  eexists. split; [apply parse_render_aux; [by apply unquoted_boundary|done..|simpl; rewrite length_map; lia]|].
  cbn [foldl]. rewrite apply_field_parts, set_params_form by done. cbn [filename content].
  unfold apply_part, add_part. cbn [part_header part_data file_part].
  rewrite file_header_filename; [|done..|].
  2: { eapply Z.le_lt_trans; [|exact Hsz]. apply inj_le.
       apply (render_header_length _ (file_part n f extra data)). by left. }
  rewrite bool_decide_false by done. cbn [negb filename content set_file]. split_and!; [done..|].
  destruct (render_rest (lit "--" ++ b) (map field_part fs) epilogue) as [rest Hrest].
  apply (parse_multipart_file ct b pre n f extra data rest); try done.
  unfold body, render. cbn [map concat]. rewrite <- app_assoc, Hrest. unfold render_part.
  cbn [part_header part_data file_part]. by rewrite <- !app_assoc.
Qed.

Lemma parsers_agree_witness :
  exists form,
    parse 10 demo_ct (render (lit "--XyZ") (demo_file :: map field_part demo_fields) CRLF) = Some (Some form) /\
    filename form = lit "a.txt" /\ content form = lit "--X" ++ CRLF /\
    parse_multipart demo_ct (render (lit "--XyZ") (demo_file :: map field_part demo_fields) CRLF) =
      Some (filename form, content form).
Proof.
  apply (parsers_agree (lit "multipart/form-data; ") (lit "XyZ") (lit "file") (lit "a.txt")
           (CRLF ++ lit "Content-Type: text/plain") (lit "--X" ++ CRLF) demo_fields CRLF 10);
    [ reflexivity | by_decide | by_decide | by_decide | by_decide | reflexivity | done | by_decide
    | reflexivity | reflexivity | | vm_compute; reflexivity | simpl; lia ].
  unfold demo_fields, field_name_ok. repeat constructor; by_decide || done.
Defined.
