(* ===== verification/Http.v ===== *)
(** [server/HttpContext.h] and the Beast message types the handlers use: requests,
    responses, the request context and its response builders. *)

From stdpp Require Import base list strings gmap numbers.
From Stdlib Require Import ZArith Ascii Lia.
From S2P Require Import Prelude Util Json Multipart.

Local Open Scope outcome_scope.

(** ** Messages *)

(** [http::request<http::string_body>], with the fields the code reads. A missing
    field reads as the empty string. *)
Record StringRequest : Type := {
  req_method : verb;
  req_target : str;
  req_version : Z;
  req_keep_alive : bool;
  req_content_type : str;
  req_body : str;
}.

(** The body of a response: a string, an open file, or an open directory (whose
    size the file system reports and which cannot be read). *)
Inductive response_body : Type :=
| StringBody (s : str)
| FileBody (data : str)
| DirBody (st_size : Z).

(** [http::response]; [res_keep_alive] is [None] when the code leaves it unset. *)
Record response : Type := {
  res_status : Z;
  res_version : Z;
  res_keep_alive : option bool;
  res_fields : gmap str str;
  res_body : response_body;
}.

(** [res.set(name, value)]. *)
Definition set_field (name value : str) (r : response) : response :=
  {| res_status := res_status r; res_version := res_version r;
     res_keep_alive := res_keep_alive r;
     res_fields := <[name := value]> (res_fields r); res_body := res_body r |}.

Definition body_size (b : response_body) : Z :=
  match b with
  | StringBody s | FileBody s => Z.of_nat (length s)
  | DirBody st_size => st_size
  end.

(** [res.prepare_payload()]: the length of the body as a field. *)
Definition prepare_payload (r : response) : response :=
  set_field (lit "Content-Length") (to_string (body_size (res_body r))) r.

Definition status_ok : Z := 200.
Definition bad_request : Z := 400.
Definition status_not_found : Z := 404.

(** ** The request context *)

Record HttpContext : Type := {
  req : StringRequest;
  method : str;
  ctx_path : str;
  query : gmap str str;
  path_suffix : str;
  cached_form_ : option MultipartParser.MultipartForm;
}.

Definition make_context (r : StringRequest) (m p : str) (q : gmap str str) (suffix : str)
  : HttpContext :=
  {| req := r; method := m; ctx_path := p; query := q; path_suffix := suffix;
     cached_form_ := None |}.

Definition make_response (ctx : HttpContext) (content content_type : str) (status : Z) : response :=
  let res := {| res_status := status; res_version := req_version (req ctx);
                res_keep_alive := None; res_fields := ∅; res_body := StringBody [] |} in
  let res := set_field (lit "Server") (lit "CDFS/1.0") res in
  let res := set_field (lit "Content-Type") content_type res in
  let res := {| res_status := res_status res; res_version := res_version res;
                res_keep_alive := Some (req_keep_alive (req ctx));
                res_fields := res_fields res; res_body := StringBody content |} in
  let res := prepare_payload res in
  let res := set_field (lit "Access-Control-Allow-Origin") (lit "*") res in
  let res := set_field (lit "Access-Control-Allow-Methods")
               (lit "GET, POST, OPTIONS, PUT, DELETE") res in
  let res := set_field (lit "Access-Control-Allow-Headers") (lit "*") res in
  set_field (lit "Access-Control-Expose-Headers") (lit "Content-Disposition") res.

Definition text (ctx : HttpContext) (content : str) (status : Z) : response :=
  make_response ctx content (lit "text/plain; charset=utf-8") status.

Definition html (ctx : HttpContext) (content : str) (status : Z) : response :=
  make_response ctx content (lit "text/html; charset=utf-8") status.

(** [get_form]: the parsed form is cached; a body that does not parse gives an
    empty form and nothing is cached. *)
Definition get_form (ctx : HttpContext) : HttpContext * MultipartParser.MultipartForm :=
  match cached_form_ ctx with
  | Some form => (ctx, form)
  | None =>
      let body := req_body (req ctx) in
      match MultipartParser.parse (S (length body)) (req_content_type (req ctx)) body with
      | Some (Some form) =>
          ({| req := req ctx; method := method ctx; ctx_path := ctx_path ctx; query := query ctx;
              path_suffix := path_suffix ctx; cached_form_ := Some form |}, form)
      | _ => (ctx, MultipartParser.empty_form)
      end
  end.

Definition is_multipart (ctx : HttpContext) : bool :=
  bool_decide (is_Some (find (lit "multipart/form-data") (req_content_type (req ctx)) 0)).

Section Replies.
Context {J : JsonLib}.

(** [json], [success] and [error] dump a value, which throws when a string in it is
    not UTF-8. *)
Definition json_reply (ctx : HttpContext) (data : json) (status : Z) : outcome response :=
  let* s := dump data in Ok (make_response ctx s (lit "application/json") status).

Definition success (ctx : HttpContext) (data : json) (msg : str) : outcome response :=
  let j := mk_obj [(lit "status", JStr (lit "ok")); (lit "message", JStr msg); (lit "data", data)] in
  let* s := dump j in Ok (make_response ctx s (lit "application/json") status_ok).

Definition error (ctx : HttpContext) (msg : str) (status : Z) : outcome response :=
  let j := mk_obj [(lit "status", JStr (lit "fail")); (lit "message", JStr msg);
                   (lit "data", JNull)] in
  let* s := dump j in Ok (make_response ctx s (lit "application/json") status).

Definition not_found (ctx : HttpContext) (msg : str) : outcome response :=
  error ctx msg status_not_found.

End Replies.

(** * Lemmas *)

(** A second call returns what the first returned. *)
Lemma get_form_again ctx : snd (get_form (fst (get_form ctx))) = snd (get_form ctx).
Proof.
  unfold get_form. destruct (cached_form_ ctx) as [f|] eqn:E; simpl; [by rewrite E|].
  destruct (MultipartParser.parse _ _ _) as [[f|]|] eqn:P; simpl; [done| |]; by rewrite E, P.
Qed.

(** The text of the JSON document of a response. *)
Definition reply_text (r : response) : option str :=
  match res_body r with StringBody s => Some s | _ => None end.

Lemma make_response_status ctx c t s : res_status (make_response ctx c t s) = s.
Proof. done. Qed.

Lemma make_response_body ctx c t s : res_body (make_response ctx c t s) = StringBody c.
Proof. done. Qed.

Section ReplyLaws.
Context {J : JsonLib} {JL : JsonLaws J}.

(** [success] and [error] reply exactly when the texts in them are UTF-8. *)
Lemma success_ok ctx data msg :
  json_utf8 data = true -> utf8 msg = true ->
  exists r, success ctx data msg = Ok r /\ res_status r = status_ok.
Proof.
  intros Hd Hm. unfold success.
  destruct (dump_utf8 (mk_obj [(lit "status", JStr (lit "ok")); (lit "message", JStr msg);
                               (lit "data", data)])) as [s Hs].
  { vm_compute (mk_obj _). cbn [json_utf8 forallb fst snd]. rewrite Hd, Hm. by vm_compute. }
  rewrite Hs. simpl. by eexists.
Qed.

Lemma error_ok ctx msg status :
  utf8 msg = true -> exists r, error ctx msg status = Ok r /\ res_status r = status.
Proof.
  intros Hm. unfold error.
  destruct (dump_utf8 (mk_obj [(lit "status", JStr (lit "fail")); (lit "message", JStr msg);
                               (lit "data", JNull)])) as [s Hs].
  { vm_compute (mk_obj _). cbn [json_utf8 forallb fst snd]. rewrite Hm. by vm_compute. }
  rewrite Hs. simpl. by eexists.
Qed.
End ReplyLaws.
