(* ===== verification/Router.v ===== *)
(** [server/Router.h] and [server/Router.cc]: exact routes, prefix routes kept
    sorted by decreasing length, and dispatch. *)

From stdpp Require Import base list strings gmap sorting numbers countable.
From Stdlib Require Import ZArith Ascii Lia.
From S2P Require Import Prelude Algorithm Util UrlUtils Json Multipart Http.

Local Open Scope outcome_scope.

#[global] Instance verb_countable : Countable verb.
Proof.
  refine (inj_countable'
    (fun v => match v with
              | verb_get => inl 0 | verb_post => inl 1 | verb_put => inl 2
              | verb_delete => inl 3 | verb_head => inl 4 | verb_other n => inr n end)
    (fun x => match x with
              | inl 0 => verb_get | inl 1 => verb_post | inl 2 => verb_put
              | inl 3 => verb_delete | inl _ => verb_head | inr n => verb_other n end) _).
  by intros [].
Defined.

(** The version text of the Beast library that is compiled in. *)
Class BeastLib : Type := { BOOST_BEAST_VERSION_STRING : str }.

Section Router.
(** Handlers are opaque; [None] is an empty [std::function]. *)
Context {H : Type} {SS : StdSort} {J : JsonLib} {B : BeastLib}.

Record PrefixRouteEntry : Type := {
  pr_method : verb;
  pr_prefix : str;
  pr_handler : option H;
}.

Record Router : Type := {
  routers_ : gmap (verb * str) (option H);
  prefix_routes_ : list PrefixRouteEntry;
}.

Definition empty_router : Router := {| routers_ := ∅; prefix_routes_ := [] |}.

Definition add_route (r : Router) (m : verb) (path : str) (handler : option H) : Router :=
  {| routers_ := <[(m, path) := handler]> (routers_ r); prefix_routes_ := prefix_routes_ r |}.

Definition longer (a b : PrefixRouteEntry) : bool :=
  bool_decide (length (pr_prefix b) < length (pr_prefix a)).

Definition add_prefix (r : Router) (m : verb) (prefix : str) (handler : option H) : Router :=
  {| routers_ := routers_ r;
     prefix_routes_ :=
       std_sort longer
         (prefix_routes_ r ++ [{| pr_method := m; pr_prefix := prefix; pr_handler := handler |}]) |}.

(** [Router::not_found]. *)
Definition router_not_found (rq : StringRequest) : response :=
  let res := {| res_status := status_not_found; res_version := req_version rq;
                res_keep_alive := None; res_fields := ∅; res_body := StringBody [] |} in
  let res := set_field (lit "Server") BOOST_BEAST_VERSION_STRING res in
  let res := set_field (lit "Content-Type") (lit "text/html") res in
  prepare_payload
    {| res_status := res_status res; res_version := res_version res;
       res_keep_alive := Some (req_keep_alive rq); res_fields := res_fields res;
       res_body := StringBody (lit "404 Not Found - Powered by Boost.Beast") |}.

(** What [dispatch] does with the request: it calls a handler, or sends a reply. *)
Inductive action : Type :=
| Call (handler : H) (ctx : HttpContext)
| Send (r : response).

(** The loop over [prefix_routes_]. *)
Fixpoint dispatch_prefix (rq : StringRequest) (m raw_path : str) (q : gmap str str)
    (routes : list PrefixRouteEntry) : outcome action :=
  match routes with
  | [] => Ok (Send (router_not_found rq))
  | route :: routes' =>
      if negb (bool_decide (req_method rq = pr_method route)) then
        dispatch_prefix rq m raw_path q routes'
      else if negb (bool_decide (find (pr_prefix route) raw_path 0 = Some 0)) then
        dispatch_prefix rq m raw_path q routes'
      else if decide (length raw_path < length (pr_prefix route)) then
        dispatch_prefix rq m raw_path q routes'
      else
        let ctx := make_context rq m raw_path q (substr_from raw_path (length (pr_prefix route))) in
        match pr_handler route with
        | None => let* r := not_found ctx (lit "Internal Server Error") in Ok (Send r)
        | Some h => Ok (Call h ctx)
        end
  end.

(** [dispatch], with the global request counter; [Throw] is an exception that
    leaves the function before anything is sent. *)
Definition dispatch (r : Router) (g_total_requests : Z) (rq : StringRequest) : Z * outcome action :=
  ((u64 (g_total_requests + 1)),
   let '(raw_path, raw_query) := splitTarget (req_target rq) in
   let m := VerbToString (req_method rq) in
   let* query_params := parseQuery raw_query in
   match routers_ r !! (req_method rq, raw_path) with
   | Some (Some h) => Ok (Call h (make_context rq m raw_path query_params []))
   | Some None => Throw (lit "bad_function_call")
   | None => dispatch_prefix rq m raw_path query_params (prefix_routes_ r)
   end).

(** ** Registration sequences *)

Inductive registration : Type :=
| RegRoute (m : verb) (path : str) (h : option H)
| RegPrefix (m : verb) (prefix : str) (h : option H).

Definition register (r : Router) (g : registration) : Router :=
  match g with
  | RegRoute m p h => add_route r m p h
  | RegPrefix m p h => add_prefix r m p h
  end.

Definition registered (gs : list registration) : Router := foldl register empty_router gs.

Definition prefix_entries (gs : list registration) : list PrefixRouteEntry :=
  omap (fun g => match g with
                 | RegRoute _ _ _ => None
                 | RegPrefix m p h => Some {| pr_method := m; pr_prefix := p; pr_handler := h |}
                 end) gs.

(** The prefix route serves the request. *)
Definition matches (rq : StringRequest) (raw_path : str) (e : PrefixRouteEntry) : Prop :=
  pr_method e = req_method rq /\ pr_prefix e `prefix_of` raw_path.

(** * Lemmas *)

(** The invariant: the prefix routes are exactly the registered ones, longest first. *)
Definition router_inv (r : Router) (es : list PrefixRouteEntry) : Prop :=
  prefix_routes_ r ≡ₚ es /\
  StronglySorted (fun a b => length (pr_prefix b) <= length (pr_prefix a)) (prefix_routes_ r).

#[local] Instance longer_strict : StrictWeak longer.
Proof. exact (key_gt_strict (fun e => length (pr_prefix e))). Qed.

Lemma registered_inv gs : router_inv (registered gs) (prefix_entries gs).
Proof.
  unfold registered. induction gs as [|g gs IH] using rev_ind.
  { split; [done|constructor]. }
  rewrite foldl_app. simpl. unfold prefix_entries. rewrite omap_app.
  destruct IH as [Hp Hs]. destruct g as [m p h|m p h]; simpl.
  - rewrite app_nil_r. by split.
  - split; simpl; [by rewrite std_sort_perm, Hp|].
    pose proof (std_sort_sorted longer (prefix_routes_ (foldl register empty_router gs) ++
      [{| pr_method := m; pr_prefix := p; pr_handler := h |}])) as Hsort.
    eapply StronglySorted_weaken; [|exact Hsort]. intros a b Hab.
    unfold longer in Hab. rewrite bool_decide_eq_false in Hab. lia.
Qed.

Lemma find_prefix p s : find p s 0 = Some 0 <-> p `prefix_of` s.
Proof.
  rewrite find_0, find0_Some, drop_0. split; [tauto|]. intros Hp.
  split_and!; [lia|done|]. intros j Hj. lia.
Qed.

(** The first entry of the list that matches. *)
Lemma dispatch_prefix_spec rq m raw_path q routes :
  (Forall (fun e => ~ matches rq raw_path e) routes /\
   dispatch_prefix rq m raw_path q routes = Ok (Send (router_not_found rq))) \/
  exists pre e post, routes = pre ++ e :: post /\ matches rq raw_path e /\
    Forall (fun e => ~ matches rq raw_path e) pre /\
    let ctx := make_context rq m raw_path q (drop (length (pr_prefix e)) raw_path) in
    dispatch_prefix rq m raw_path q routes =
    match pr_handler e with
    | None => let* r := not_found ctx (lit "Internal Server Error") in Ok (Send r)
    | Some h => Ok (Call h ctx)
    end.
Proof.
  induction routes as [|e routes IH]; [by left|]. cbn [dispatch_prefix].
  assert (forall X, (~ matches rq raw_path e) -> X = dispatch_prefix rq m raw_path q routes ->
    (Forall (fun e => ~ matches rq raw_path e) (e :: routes) /\ X = Ok (Send (router_not_found rq))) \/
    exists pre e0 post, e :: routes = pre ++ e0 :: post /\ matches rq raw_path e0 /\
      Forall (fun e => ~ matches rq raw_path e) pre /\
      let ctx := make_context rq m raw_path q (drop (length (pr_prefix e0)) raw_path) in
      X = match pr_handler e0 with
          | None => let* r := not_found ctx (lit "Internal Server Error") in Ok (Send r)
          | Some h => Ok (Call h ctx)
          end) as Hskip.
  { intros X Hn ->. destruct IH as [[Hf Hd]|(pre & e0 & post & -> & Hm & Hpre & Hd)].
    - left. split; [by constructor|done].
    - right. exists (e :: pre), e0, post. split_and!; [done|done|by constructor|done]. }
  destruct (decide (req_method rq = pr_method e)) as [Hm|Hm].
  2: { rewrite bool_decide_false by done. apply Hskip; [|done]. by intros [? _]. }
  rewrite bool_decide_true by done. cbn [negb].
  destruct (decide (find (pr_prefix e) raw_path 0 = Some 0)) as [Hp|Hp].
  2: { rewrite bool_decide_false by done. apply Hskip; [|done]. by intros [_ ?%find_prefix]. }
  rewrite bool_decide_true by done. cbn [negb]. apply find_prefix in Hp.
  rewrite decide_False by (apply prefix_length in Hp; lia).
  right. exists [], e, routes. by split_and!.
Qed.

Lemma sorted_head_longest rq raw_path pre e post es :
  (pre ++ e :: post) ≡ₚ es ->
  StronglySorted (fun a b => length (pr_prefix b) <= length (pr_prefix a)) (pre ++ e :: post) ->
  Forall (fun e => ~ matches rq raw_path e) pre ->
  forall e', e' ∈ es -> matches rq raw_path e' -> length (pr_prefix e') <= length (pr_prefix e).
Proof.
  intros Hp Hs Hpre e' He' Hm. rewrite <- Hp, elem_of_app, elem_of_cons in He'.
  destruct He' as [Hin|[->|Hin]]; [|lia|].
  - by destruct (proj1 (list.Forall_forall _ _) Hpre e' Hin).
  - apply StronglySorted_app_1_r, StronglySorted_inv in Hs as [_ Hs].
    exact (proj1 (list.Forall_forall _ _) Hs e' Hin).
Qed.

(** The exact routes keep the last registration of a method and path. *)
Definition is_route (m : verb) (p : str) (g : registration) : Prop :=
  match g with RegRoute m' p' _ => m' = m /\ p' = p | RegPrefix _ _ _ => False end.

#[global] Instance is_route_dec m p g : Decision (is_route m p g).
Proof. destruct g; apply _. Defined.

Lemma foldl_register_other gs r m p :
  Forall (fun g => ~ is_route m p g) gs ->
  routers_ (foldl register r gs) !! (m, p) = routers_ r !! (m, p).
Proof.
  intros Hg. revert r. induction Hg as [|g gs Hn _ IH]; intros r; [done|]. simpl. rewrite IH.
  destruct g as [m' p' h|m' p' h]; simpl in *; [|done].
  rewrite lookup_insert_ne; [done|]. intros [= -> ->]. by apply Hn.
Qed.

Lemma registered_route gs1 gs2 m p h :
  Forall (fun g => ~ is_route m p g) gs2 ->
  routers_ (registered (gs1 ++ RegRoute m p h :: gs2)) !! (m, p) = Some h.
Proof.
  intros Hg. unfold registered. rewrite foldl_app. simpl. rewrite foldl_register_other by done.
  simpl. by rewrite lookup_insert_eq.
Qed.

(** The handler registered last for a method and path. *)
Definition last_route (gs : list registration) (m : verb) (p : str) : option (option H) :=
  list.last (omap (fun g => match g with
                            | RegRoute m' p' h => if decide (m' = m /\ p' = p) then Some h else None
                            | RegPrefix _ _ _ => None
                            end) gs).

Lemma registered_last gs m p : routers_ (registered gs) !! (m, p) = last_route gs m p.
Proof.
  unfold registered, last_route. induction gs as [|g gs IH] using rev_ind; [done|].
  rewrite foldl_app, omap_app. cbn [foldl]. destruct g as [m' p' h|m' p' h]; cbn; [|by rewrite app_nil_r].
  case_decide as Hd.
  - destruct Hd as [-> ->]. by rewrite last_snoc, lookup_insert_eq.
  - rewrite app_nil_r, lookup_insert_ne; [done|]. intros [= -> ->]. by apply Hd.
Qed.

(** * Properties *)

(** A request whose method and path were registered with [add_route] goes to the
    handler registered last for them, with the parsed query and an empty suffix,
    whatever prefix routes exist; the request counter grows by one. *)
Theorem dispatch_exact_route gs1 gs2 h rq n path raw_query q :
  splitTarget (req_target rq) = (path, raw_query) -> parseQuery raw_query = Ok q ->
  Forall (fun g => ~ is_route (req_method rq) path g) gs2 ->
  dispatch (registered (gs1 ++ RegRoute (req_method rq) path (Some h) :: gs2)) n rq =
  (u64 (n + 1), Ok (Call h (make_context rq (VerbToString (req_method rq)) path q []))).
Proof.
  intros Ht Hq Hg. unfold dispatch. rewrite Ht, Hq. simpl. by rewrite registered_route.
Qed.

(** C13: where every request goes, for any registrations. The request counter grows by
    one. A query that does not parse leaves [dispatch] by the exception of the parser.
    Otherwise the handler registered last for the method and path gets the request,
    with the parsed query and an empty suffix (an empty handler throws). Without such a
    registration the request goes to a registered prefix route of its method whose
    prefix is a prefix of the path and as long as any other such prefix, with the rest
    of the path as suffix (an empty handler gets the JSON reply for an internal error);
    if there is none the reply is the 404 page. *)
Theorem dispatch_longest_prefix gs rq n path raw_query :
  splitTarget (req_target rq) = (path, raw_query) ->
  fst (dispatch (registered gs) n rq) = u64 (n + 1) /\
  let act := snd (dispatch (registered gs) n rq) in
  match parseQuery raw_query with
  | Throw e => act = Throw e
  | Ok q =>
      let ctx := make_context rq (VerbToString (req_method rq)) path q in
      match last_route gs (req_method rq) path with
      | Some (Some h) => act = Ok (Call h (ctx []))
      | Some None => act = Throw (lit "bad_function_call")
      | None =>
          (forall e, e ∈ prefix_entries gs -> ~ matches rq path e) /\
            act = Ok (Send (router_not_found rq)) \/
          exists e, e ∈ prefix_entries gs /\ matches rq path e /\
            (forall e', e' ∈ prefix_entries gs -> matches rq path e' ->
               length (pr_prefix e') <= length (pr_prefix e)) /\
            let ctx := ctx (drop (length (pr_prefix e)) path) in
            act = match pr_handler e with
                  | Some h => Ok (Call h ctx)
                  | None => let* r := not_found ctx (lit "Internal Server Error") in Ok (Send r)
                  end
      end
  end.
Proof.
  intros Ht. destruct (registered_inv gs) as [Hp Hs]. split; [done|]. unfold dispatch. rewrite Ht. cbn [snd].
  destruct (parseQuery raw_query) as [q|e]; [|done]. cbn [outcome_bind]. rewrite registered_last.
  destruct (last_route gs (req_method rq) path) as [[h|]|]; [done..|].
  destruct (dispatch_prefix_spec rq (VerbToString (req_method rq)) path q
              (prefix_routes_ (registered gs))) as [[Hf Hd]|(pre & e & post & Hr & Hm & Hpre & Hd)].
  - left. rewrite Hd. split; [|done]. intros e He. rewrite <- Hp in He.
    exact (proj1 (list.Forall_forall _ _) Hf e He).
  - right. rewrite Hr in Hp, Hs. exists e. split_and!; [|done| |].
    + rewrite <- Hp. apply elem_of_app. right. left.
    + eapply sorted_head_longest; [exact Hp|exact Hs|exact Hpre].
    + rewrite Hd. by destruct (pr_handler e).
Qed.

(** A query string with a malformed percent escape makes [dispatch] leave with
    the exception of [decode], for every route table and path: no handler runs and
    no reply is sent. *)
Theorem dispatch_malformed_query r rq n path raw_query e :
  splitTarget (req_target rq) = (path, raw_query) -> parseQuery raw_query = Throw e ->
  dispatch r n rq = (u64 (n + 1), Throw e).
Proof. intros Ht Hq. unfold dispatch. by rewrite Ht, Hq. Qed.

End Router.

(** * Witnesses *)

Import MergeSort TaggedJson.

#[local] Instance some_beast : BeastLib := {| BOOST_BEAST_VERSION_STRING := lit "Boost.Beast/347" |}.

(** The route table of the server, handlers by number. *)
Definition server_routes : list (@registration nat) := [
  RegRoute verb_post (lit "/check") (Some 0); RegRoute verb_post (lit "/upload") (Some 1);
  RegPrefix verb_get (lit "/group1") (Some 2); RegRoute verb_get (lit "/check_chunk") (Some 3);
  RegRoute verb_get (lit "/upload_chunk") (Some 4); RegRoute verb_get (lit "/status") (Some 5);
  RegRoute verb_post (lit "/merge") (Some 6); RegPrefix verb_get (lit "/group1/view") (Some 7) ].

Definition get_request (target : str) : StringRequest :=
  {| req_method := verb_get; req_target := target; req_version := 11; req_keep_alive := true;
     req_content_type := []; req_body := [] |}.

Lemma dispatch_exact_route_witness :
  dispatch (registered server_routes) 0 (get_request (lit "/status?x=1")) =
  (1%Z, Ok (Call 5 (make_context (get_request (lit "/status?x=1")) (lit "GET") (lit "/status")
                      {[lit "x" := lit "1"]} []))).
Proof.
  apply (dispatch_exact_route (take 5 server_routes) (drop 6 server_routes) 5
           (get_request (lit "/status?x=1")) 0 (lit "/status") (lit "x=1"));
    [reflexivity | reflexivity |].
  by_decide.
Defined.

Lemma dispatch_longest_prefix_witness :
  exists e, e ∈ prefix_entries server_routes /\
    matches (get_request (lit "/group1/view/a")) (lit "/group1/view/a") e /\ length (pr_prefix e) = 12.
Proof.
  destruct (dispatch_longest_prefix server_routes (get_request (lit "/group1/view/a")) 0
              (lit "/group1/view/a") [] eq_refl) as [_ [[Hno _]|(e & He & Hm & Hmax & _)]].
  - exfalso. eapply Hno; [right; left|]. split; [reflexivity|]. by exists (lit "/a").
  - exists e. split; [exact He|]. split; [exact Hm|].
    assert (12 <= length (pr_prefix e)) as Hge.
    { apply (Hmax {| pr_method := verb_get; pr_prefix := lit "/group1/view"; pr_handler := Some 7 |});
        [right; left|]. split; [reflexivity|]. by exists (lit "/a"). }
    cbn in He. rewrite !elem_of_cons, elem_of_nil in He.
    destruct He as [->|[->|[]]]; [|reflexivity]. simpl in Hge. lia.
Defined.

Lemma dispatch_malformed_query_witness :
  dispatch (registered server_routes) 7 (get_request (lit "/nowhere?a=%zz")) =
  (8%Z, Throw (lit "Invalid URL encode: %zz")).
Proof.
  apply (dispatch_malformed_query (registered server_routes) (get_request (lit "/nowhere?a=%zz")) 7
           (lit "/nowhere") (lit "a=%zz")); reflexivity.
Defined.
