(* ===== verification/Singleton.v ===== *)
(** [common/Singleton.h]: one object of a type for the whole program, made under
    [std::call_once] by the first of any number of threads that ask for it. *)

From stdpp Require Import base list strings gmap numbers relations.
From Stdlib Require Import ZArith Ascii Lia.
From S2P Require Import Prelude Util.

(** ** The once flag *)

(** [std::once_flag]: not run, run by a thread now, or run to the end. *)
Inductive once_flag : Type :=
| NotCalled
| Running (i : nat)
| Called.

(** The static members and the allocator: [s_flag], [_instance] (a pointer), and the
    number of objects made so far, which is the address of the next one. *)
Record statics : Type := {
  s_flag : once_flag;
  _instance : option nat;
  made : nat;
}.

Definition initial_statics (made : nat) : statics :=
  {| s_flag := NotCalled; _instance := None; made := made |}.

(** A thread in [getInstance]: before [call_once], in its lambda, after it, returned
    with the pointer, or left by the exception of [new T]. *)
Inductive caller : Type :=
| Calling
| InLambda
| AfterOnce
| Returned (p : option nat)
| Threw.

Record program : Type := { statics_of : statics; callers : list caller }.

Inductive singleton_step : program -> program -> Prop :=
| once_enter st cs i :
    cs !! i = Some Calling -> s_flag st = NotCalled ->
    singleton_step {| statics_of := st; callers := cs |}
      {| statics_of := {| s_flag := Running i; _instance := _instance st; made := made st |};
         callers := <[i := InLambda]> cs |}
| once_construct st cs i :
    cs !! i = Some InLambda ->
    singleton_step {| statics_of := st; callers := cs |}
      {| statics_of := {| s_flag := Called; _instance := Some (made st); made := S (made st) |};
         callers := <[i := AfterOnce]> cs |}
| once_throw st cs i :
    cs !! i = Some InLambda ->
    singleton_step {| statics_of := st; callers := cs |}
      {| statics_of := {| s_flag := NotCalled; _instance := _instance st; made := made st |};
         callers := <[i := Threw]> cs |}
| once_skip st cs i :
    cs !! i = Some Calling -> s_flag st = Called ->
    singleton_step {| statics_of := st; callers := cs |}
      {| statics_of := st; callers := <[i := AfterOnce]> cs |}
| once_return st cs i :
    cs !! i = Some AfterOnce ->
    singleton_step {| statics_of := st; callers := cs |}
      {| statics_of := st; callers := <[i := Returned (_instance st)]> cs |}.

Definition start_callers (st : statics) (n : nat) : program :=
  {| statics_of := st; callers := replicate n Calling |}.

(** [getAddr] prints the pointer, the destructor a line; [show] is the format of a
    pointer. *)
Definition getAddr (show : option nat -> str) (st : statics) : str := show (_instance st) ++ [LF].
Definition singleton_destroy : str := lit "singleton destruct" ++ [LF].

(** ** Without threads *)

(** [singleton<T>::getInstance] for the object itself: it is made by the first call. *)
Definition getInstance {T} (new : T) (_instance : option T) : T * option T :=
  match _instance with
  | Some x => (x, Some x)
  | None => (new, Some new)
  end.

(** ** One object *)

(** [made0] objects exist at the start; the lambda runs in at most one thread, and the
    instance exists exactly when the flag says so. *)
Record one_object (made0 : nat) (p : program) : Prop := {
  obj_flag : match s_flag (statics_of p) with
             | Called => _instance (statics_of p) = Some made0 /\ made (statics_of p) = S made0
             | _ => _instance (statics_of p) = None /\ made (statics_of p) = made0
             end;
  obj_lambda i : callers p !! i = Some InLambda -> s_flag (statics_of p) = Running i;
  obj_after i : callers p !! i = Some AfterOnce -> s_flag (statics_of p) = Called;
  obj_returned i q : callers p !! i = Some (Returned q) ->
    s_flag (statics_of p) = Called /\ q = Some made0; }.

(** The other threads keep what is true of them. *)
Lemma one_object_update made0 st cs i c st' c' :
  one_object made0 {| statics_of := st; callers := cs |} -> cs !! i = Some c ->
  (s_flag st = Called -> s_flag st' = Called) ->
  (forall j, j <> i -> s_flag st = Running j -> s_flag st' = Running j) ->
  match s_flag st' with
  | Called => _instance st' = Some made0 /\ made st' = S made0
  | _ => _instance st' = None /\ made st' = made0
  end ->
  match c' with
  | InLambda => s_flag st' = Running i
  | AfterOnce => s_flag st' = Called
  | Returned q => s_flag st' = Called /\ q = Some made0
  | _ => True
  end ->
  one_object made0 {| statics_of := st'; callers := <[i := c']> cs |}.
Proof.
  intros [Hf Hl Ha Hr] Hi Hcalled Hrun Hf' Hc'. simpl in *. split; simpl.
  - exact Hf'.
  - intros j [(-> & -> & _)|[Hne Hj]]%list_lookup_insert_Some; [done|]. by apply Hrun; auto.
  - intros j [(-> & -> & _)|[Hne Hj]]%list_lookup_insert_Some; eauto.
  - intros j q [(-> & -> & _)|[Hne Hj]]%list_lookup_insert_Some; [done|].
    destruct (Hr _ _ Hj). eauto.
Qed.

Lemma one_object_step made0 p p' : singleton_step p p' -> one_object made0 p -> one_object made0 p'.
Proof.
  intros Hstep H. destruct Hstep as [st cs i Hi Hfl|st cs i Hi|st cs i Hi|st cs i Hi Hfl|st cs i Hi];
    pose proof H as [Hf Hl Ha Hr]; simpl in *.
  - eapply one_object_update; [exact H|exact Hi|..]; simpl; rewrite ?Hfl in *; done.
  - specialize (Hl _ Hi). rewrite Hl in Hf. destruct Hf as [_ <-].
    eapply one_object_update; [exact H|exact Hi|..]; simpl; rewrite ?Hl; try done.
    intros j Hj [= ->]. done.
  - specialize (Hl _ Hi). rewrite Hl in Hf.
    eapply one_object_update; [exact H|exact Hi|..]; simpl; rewrite ?Hl; try done.
    intros j Hj [= ->]. done.
  - eapply one_object_update; [exact H|exact Hi|..]; simpl; rewrite ?Hfl in *; done.
  - specialize (Ha _ Hi). rewrite Ha in Hf. destruct Hf as [Hp Hm].
    eapply one_object_update; [exact H|exact Hi|..]; simpl; rewrite ?Ha; try done.
Qed.

Lemma one_object_run made0 n p :
  rtc singleton_step (start_callers (initial_statics made0) n) p -> one_object made0 p.
Proof.
  assert (one_object made0 (start_callers (initial_statics made0) n)) as H0.
  { split; simpl; [done| | |intros i q]; [intros i..|]; by intros [? _]%lookup_replicate. }
  intros Hrun. induction Hrun as [|x y z Hxy _ IH]; [done|]. by apply IH, (one_object_step _ x).
Qed.

(** * Properties *)

(** C28: however many threads call [getInstance] at once, and however often the
    constructor throws, at most one object is made, every call that returns gets its
    address, and the lambda never runs in two threads. *)
Theorem singleton_unique made0 n p :
  rtc singleton_step (start_callers (initial_statics made0) n) p ->
  made (statics_of p) <= S made0 /\
  (forall i q, callers p !! i = Some (Returned q) ->
     q = Some made0 /\ _instance (statics_of p) = q) /\
  (forall i j, callers p !! i = Some InLambda -> callers p !! j = Some InLambda -> i = j).
Proof.
  intros H%one_object_run. destruct H as [Hf Hl Ha Hr]. split_and!.
  - destruct (s_flag _); lia.
  - intros i q Hi. destruct (Hr _ _ Hi) as [Hc ->]. rewrite Hc in Hf. by destruct Hf.
  - intros i j Hi Hj. apply Hl in Hi, Hj. congruence.
Qed.

(** * Witnesses *)

(** Two threads; the constructor throws in the first and succeeds in the second. *)
Definition second_made : program :=
  {| statics_of := {| s_flag := Called; _instance := Some 7; made := 8 |};
     callers := [Threw; Returned (Some 7)] |}.

Lemma second_made_reachable : rtc singleton_step (start_callers (initial_statics 7) 2) second_made.
Proof.
  eapply rtc_l; [by apply (once_enter _ _ 0)|]. eapply rtc_l; [by apply (once_throw _ _ 0)|].
  eapply rtc_l; [by apply (once_enter _ _ 1)|]. eapply rtc_l; [by apply (once_construct _ _ 1)|].
  eapply rtc_l; [by apply (once_return _ _ 1)|]. apply rtc_refl.
Qed.

Lemma singleton_unique_witness :
  made (statics_of second_made) <= 8 /\ _instance (statics_of second_made) = Some 7.
Proof.
  destruct (singleton_unique 7 2 second_made second_made_reachable) as (H1 & H2 & _).
  split; [exact H1|]. by destruct (H2 1 (Some 7) eq_refl).
Defined.
