(* ===== verification/Paths.v ===== *)
(** [std::filesystem::path] on POSIX, as the code uses it: paths are strings,
    with the lexical operations [operator/], [operator+=], [filename], [extension]
    and [parent_path]. *)

From stdpp Require Import base list strings gmap numbers.
From Stdlib Require Import ZArith Ascii Lia.
From S2P Require Import Prelude.

Definition SLASH : ascii := chr 47.
Definition DOT : ascii := chr 46.

Definition is_absolute (p : str) : bool := char_at p 0 SLASH.

(** [has_filename]: not empty and not ending in a separator. *)
Definition has_filename (p : str) : bool :=
  match list.last p with None => false | Some c => negb (bool_decide (c = SLASH)) end.

(** [p / q]: an absolute [q] replaces [p]. *)
Definition path_append (p q : str) : str :=
  if is_absolute q then q
  else if has_filename p then p ++ [SLASH] ++ q
  else p ++ q.

(** The part after the last separator. *)
Fixpoint path_filename (p : str) : str :=
  match p with
  | [] => []
  | c :: p' => if decide (SLASH ∈ p) then path_filename p' else p
  end.

(** The part from the last dot on; [None] without a dot. *)
Fixpoint last_dot (s : str) : option str :=
  match s with
  | [] => None
  | c :: s' =>
      match last_dot s' with
      | Some e => Some e
      | None => if decide (c = DOT) then Some s else None
      end
  end.

(** [extension]: empty for the names [.] and [..] and for a name whose only dot is
    its first character. *)
Definition path_extension (p : str) : str :=
  let f := path_filename p in
  if decide (f = [DOT] \/ f = [DOT; DOT]) then []
  else match last_dot f with
       | None => []
       | Some e => if decide (e = f) then [] else e
       end.

Fixpoint strip_slashes (rev_p : str) : str :=
  match rev_p with
  | [] => []
  | c :: r => if decide (c = SLASH) then strip_slashes r else rev_p
  end.

(** [parent_path]: without the file name and the separators before it; the root
    directory stays. *)
Definition parent_path (p : str) : str :=
  let dir := take (length p - length (path_filename p)) p in
  match reverse (strip_slashes (reverse dir)) with
  | [] => if is_absolute dir then [SLASH] else []
  | d => d
  end.

(** * Lemmas *)

Lemma path_filename_fresh p : SLASH ∉ p -> path_filename p = p.
Proof. destruct p as [|c p]; [done|]. intros H. simpl. by rewrite decide_False. Qed.

Lemma path_filename_app p q : SLASH ∉ q -> path_filename (p ++ SLASH :: q) = q.
Proof.
  intros Hq. induction p as [|c p IH]; cbn [app path_filename].
  - rewrite decide_True by left. by apply path_filename_fresh.
  - rewrite decide_True; [done|]. right. apply elem_of_app. right. left.
Qed.

Lemma is_absolute_cons c p : is_absolute (c :: p) = bool_decide (c = SLASH).
Proof. unfold is_absolute, char_at. simpl. apply bool_decide_ext. split; congruence. Qed.

Lemma is_absolute_fresh p : SLASH ∉ p -> is_absolute p = false.
Proof.
  intros Hp. apply bool_decide_false. intros Hc. apply Hp. by eapply list_elem_of_lookup_2.
Qed.

Lemma has_filename_fresh p : SLASH ∉ p -> p <> [] -> has_filename p = true.
Proof.
  intros Hp Hne. unfold has_filename. destruct (list.last p) as [c|] eqn:E.
  - apply last_Some in E as [q ->]. rewrite bool_decide_false; [done|]. intros ->.
    apply Hp, elem_of_app. right. left.
  - by apply last_None in E.
Qed.

Lemma has_filename_snoc p c : has_filename (p ++ [c]) = negb (bool_decide (c = SLASH)).
Proof. unfold has_filename. by rewrite last_snoc. Qed.

Lemma has_filename_app p q : q <> [] -> has_filename (p ++ q) = has_filename q.
Proof.
  intros Hq. destruct (list.last q) as [c|] eqn:E; [|by apply last_None in E].
  apply last_Some in E as [q' ->]. by rewrite app_assoc, !has_filename_snoc.
Qed.

(** Appending a relative name below a directory. *)
Lemma path_append_name p q :
  has_filename p = true -> is_absolute q = false -> path_append p q = p ++ SLASH :: q.
Proof. intros Hp Hq. unfold path_append. by rewrite Hq, Hp. Qed.

Lemma path_append_nil q : path_append [] q = q.
Proof. unfold path_append. by destruct (is_absolute q). Qed.

Lemma strip_slashes_name r c : c <> SLASH -> strip_slashes (c :: r) = c :: r.
Proof. intros. simpl. by rewrite decide_False. Qed.

Lemma parent_path_app p q :
  has_filename p = true -> SLASH ∉ q -> parent_path (p ++ SLASH :: q) = p.
Proof.
  intros Hp Hq. unfold parent_path. rewrite path_filename_app by done.
  rewrite length_app. simpl length.
  replace (length p + S (length q) - length q) with (length p + 1) by lia.
  rewrite take_app_add. change (take 1 (SLASH :: q)) with [SLASH].
  rewrite reverse_snoc. cbn [strip_slashes]. rewrite decide_True by done.
  unfold has_filename in Hp. destruct (list.last p) as [c|] eqn:E; [|done].
  apply last_Some in E as [p' ->]. rewrite reverse_snoc.
  rewrite strip_slashes_name by (intros ->; by rewrite bool_decide_true in Hp).
  rewrite reverse_cons, reverse_involutive. by destruct p'.
Qed.

Lemma last_dot_split s e : last_dot s = Some e -> exists d e', s = d ++ DOT :: e' /\ e = DOT :: e'.
Proof.
  induction s as [|c s IH]; [done|]. simpl. destruct (last_dot s) as [e0|].
  - intros [= <-]. destruct (IH eq_refl) as (d & e' & -> & ->). by exists (c :: d), e'.
  - case_decide as Hc; [|done]. intros [= <-]. subst c. by exists [], s.
Qed.

Lemma path_filename_slash p : SLASH ∉ path_filename p.
Proof.
  induction p as [|c p IH]; cbn [path_filename]; [apply not_elem_of_nil|].
  case_decide as Hc; [|done]. exact IH.
Qed.

(** An extension never contains a separator. *)
Lemma path_extension_slash p : SLASH ∉ path_extension p.
Proof.
  unfold path_extension. case_decide; [apply not_elem_of_nil|].
  destruct (last_dot (path_filename p)) as [e|] eqn:E; [|apply not_elem_of_nil].
  case_decide; [apply not_elem_of_nil|]. apply last_dot_split in E as (a & e' & Ha & ->).
  intros He. apply (path_filename_slash p). rewrite Ha. apply elem_of_app. by right.
Qed.

(** A path is its file name, or a directory, a separator and its file name. *)
Lemma path_filename_split p :
  path_filename p = p \/ exists d, p = d ++ SLASH :: path_filename p.
Proof.
  induction p as [|c p IH]; [by left|]. cbn [path_filename]. case_decide as Hc; [|by left].
  right. destruct IH as [E|[d E]].
  - exists []. rewrite E. apply elem_of_cons in Hc as [<-|Hc]; [done|].
    pose proof (path_filename_slash p) as Hn. by rewrite E in Hn.
  - exists (c :: d). by rewrite E at 1.
Qed.

Lemma strip_slashes_split r : exists n, r = replicate n SLASH ++ strip_slashes r.
Proof.
  induction r as [|c r [n IH]]; [by exists 0|]. simpl. case_decide as Hc; [|by exists 0].
  exists (S n). simpl. by rewrite <- IH, Hc.
Qed.

(** The parent of a path below [x] is [x] or below it. *)
Lemma parent_path_below x z :
  has_filename x = true -> exists t, parent_path (x ++ SLASH :: z) = x ++ t /\ t `prefix_of` SLASH :: z.
Proof.
  intros Hx. destruct (path_filename_split (x ++ SLASH :: z)) as [E|[d E]].
  { exfalso. apply (path_filename_slash (x ++ SLASH :: z)). rewrite E. apply elem_of_app. right. by left. }
  unfold parent_path. set (f := path_filename _) in *.
  assert (SLASH ∉ f) as Hf by apply path_filename_slash.
  assert (x `prefix_of` d) as [y ->].
  { destruct (prefix_weak_total x d (x ++ SLASH :: z)) as [H|[y Hy]];
      [by apply prefix_app_r|rewrite E; by apply prefix_app_r|done|].
    exists []. rewrite app_nil_r. destruct y as [|b y]; [by rewrite Hy, app_nil_r|]. exfalso.
    rewrite Hy, <- app_assoc in E. apply app_inv_head in E. simpl in E. injection E as -> E. apply Hf.
    rewrite <- E. apply elem_of_app. right. by left. }
  rewrite <- app_assoc in E. apply app_inv_head in E.
  assert (take (length (x ++ SLASH :: z) - length f) (x ++ SLASH :: z) = x ++ y ++ [SLASH]) as ->.
  { rewrite E. replace (x ++ y ++ SLASH :: f) with ((x ++ y ++ [SLASH]) ++ f) by (by rewrite <- !app_assoc).
    rewrite length_app, Nat.add_sub. apply take_app_length. }
  destruct (strip_slashes_split (reverse (x ++ y ++ [SLASH]))) as [n Hn].
  set (r := reverse (strip_slashes _)).
  assert (x ++ y ++ [SLASH] = r ++ replicate n SLASH) as Hr.
  { apply (f_equal reverse) in Hn. rewrite reverse_involutive, reverse_app, reverse_replicate in Hn. done. }
  assert (x `prefix_of` r) as [t Ht].
  { destruct (prefix_weak_total x r (x ++ y ++ [SLASH])) as [H|[w Hw]]; [by apply prefix_app_r|rewrite Hr; by apply prefix_app_r|done|].
    destruct w as [|b w _] using rev_ind; [exists []; by rewrite Hw, !app_nil_r|]. exfalso.
    rewrite Hw, app_assoc, has_filename_snoc in Hx. apply negb_true_iff, bool_decide_eq_false in Hx. apply Hx.
    rewrite Hw, <- !app_assoc in Hr. apply app_inv_head in Hr.
    assert (b ∈ replicate n SLASH) as Hb by (rewrite <- Hr; apply elem_of_app; right; by left).
    by apply elem_of_replicate in Hb as [-> _]. }
  exists t. rewrite Ht. split; [by destruct x as [|b x]|].
  rewrite Ht, <- app_assoc in Hr. apply app_inv_head in Hr. exists (drop (length t) (SLASH :: z)). rewrite E.
  replace (y ++ SLASH :: f) with ((t ++ replicate n SLASH) ++ f) by (rewrite <- Hr, <- app_assoc; done).
  by rewrite <- app_assoc, drop_app_length.
Qed.
