(* ===== verification/CryptoUtils.v ===== *)
(** [file/CryptoUtils.h] and [common/MineMap.h]: digests in hexadecimal, file name
    cleaning, extension and scene checks, the sharded path of a digest, and the
    MIME table. *)

From stdpp Require Import base list strings gmap numbers.
From Stdlib Require Import ZArith Ascii Lia.
From S2P Require Import Prelude Paths.

(** ** MD5 *)

(** OpenSSL's [MD5] writes [MD5_DIGEST_LENGTH = 16] bytes. *)
Class Md5Lib : Type := {
  MD5 : str -> list ascii;
  MD5_length data : length (MD5 data) = 16;
}.

Definition hex_digit (n : nat) : ascii := chr (if decide (n < 10) then 48 + n else 87 + n).

(** [std::hex << std::setw(2) << std::setfill('0') << (int)byte]. *)
Definition hex_byte (c : ascii) : str := [hex_digit (code c / 16); hex_digit (code c mod 16)].

Definition md5 `{Md5Lib} (data : str) : str := concat (map hex_byte (MD5 data)).

(** ** File names *)

(** The class of [reg_special]: punctuation and [\s]. *)
Definition special_chars : str :=
  lit "/\:*?<>|()[]{},;'#@%&$^~=+-!" ++ [DQUOTE].

Definition is_special (c : ascii) : bool := bool_decide (c ∈ special_chars) || is_space c.

(** [regex_replace(res, \.{2,}, "")]: every run of two or more dots goes. *)
Fixpoint remove_dot_runs (dots : nat) (s : str) : str :=
  let flush := if decide (dots = 1) then [DOT] else [] in
  match s with
  | [] => flush
  | c :: s' =>
      if decide (c = DOT) then remove_dot_runs (S dots) s'
      else flush ++ c :: remove_dot_runs 0 s'
  end.

Definition drop_front_dot (s : str) : str :=
  match s with c :: s' => if decide (c = DOT) then s' else s | [] => [] end.

Definition drop_back_dot (s : str) : str :=
  match list.last s with
  | Some c => if decide (c = DOT) then take (length s - 1) s else s
  | None => s
  end.

Definition trim_filename_special_char (filename : str) : str :=
  let res := List.filter (fun c => negb (is_special c)) filename in
  let res := remove_dot_runs 0 res in
  drop_back_dot (drop_front_dot res).

Definition tolower (c : ascii) : ascii :=
  if decide (65 <= code c <= 90) then chr (code c + 32) else c.

Definition check_file_ext (filename : str) (allow_ext : list str) : bool :=
  match allow_ext with
  | [] => true
  | _ => bool_decide (map tolower (path_extension filename) ∈ allow_ext)
  end.

Definition check_scene (scene : str) (allow_scenes : list str) : bool :=
  match allow_scenes with
  | [] => true
  | _ => bool_decide (scene ∈ allow_scenes)
  end.

Definition md5_to_rel_path (h : str) : outcome str :=
  if decide (length h < 4) then Throw (lit "[FileStore] MD5 length too short: " ++ h)
  else
    let p := path_append [] (substr h 0 2) in
    let p := path_append p (substr h 2 2) in
    Ok (path_append p h).

(** ** MIME types *)

Definition mime_map : list (str * str) := [
  (lit ".jpg", lit "image/jpeg"); (lit ".jpeg", lit "image/jpeg"); (lit ".png", lit "image/png");
  (lit ".gif", lit "image/gif"); (lit ".bmp", lit "image/bmp"); (lit ".webp", lit "image/webp");
  (lit ".svg", lit "image/svg+xml"); (lit ".ico", lit "image/x-icon");
  (lit ".html", lit "text/html"); (lit ".htm", lit "text/html"); (lit ".css", lit "text/css");
  (lit ".js", lit "application/javascript"); (lit ".json", lit "application/json");
  (lit ".txt", lit "text/plain"); (lit ".md", lit "text/markdown");
  (lit ".woff", lit "font/woff"); (lit ".woff2", lit "font/woff2"); (lit ".ttf", lit "font/ttf");
  (lit ".pdf", lit "application/pdf"); (lit ".zip", lit "application/zip");
  (lit ".gz", lit "application/gzip"); (lit ".mp4", lit "video/mp4");
  (lit ".mp3", lit "audio/mpeg"); (lit ".wav", lit "audio/wav") ].

(** [MIME_TYPE_MAP], an unordered map. *)
Definition get_mime_map : gmap str str := list_to_map mime_map.

Definition get_mime_type (file_path : str) : str :=
  match get_mime_map !! map tolower (path_extension file_path) with
  | Some t => t
  | None => lit "application/octet-stream"
  end.

(** ** Specification *)

Definition is_hex (c : ascii) : Prop := 48 <= code c <= 57 \/ 97 <= code c <= 102.

#[global] Instance is_hex_dec c : Decision (is_hex c).
Proof. unfold is_hex; apply _. Defined.

(** No two dots in a row. *)
Fixpoint no_double_dot (s : str) : bool :=
  match s with
  | [] => true
  | c :: s' =>
      match s' with
      | [] => true
      | d :: _ => negb (bool_decide (c = DOT /\ d = DOT)) && no_double_dot s'
      end
  end.

(** A file name that needs no cleaning. *)
Definition clean_name (s : str) : Prop :=
  Forall (fun c => is_special c = false) s /\ no_double_dot s = true /\
  head s <> Some DOT /\ list.last s <> Some DOT.

(** * Lemmas *)

Lemma hex_digit_hex n : n < 16 -> is_hex (hex_digit n).
Proof.
  intros Hn. unfold hex_digit, is_hex. case_decide; rewrite code_chr by lia; lia.
Qed.

Lemma hex_digit_inj m n : m < 16 -> n < 16 -> hex_digit m = hex_digit n -> m = n.
Proof.
  intros Hm Hn H%(f_equal code). unfold hex_digit in H.
  repeat case_decide; rewrite !code_chr in H by lia; lia.
Qed.

Lemma code_div_mod c : code c / 16 < 16 /\ code c mod 16 < 16.
Proof.
  pose proof (code_bound c). split; [|apply Nat.mod_upper_bound; lia].
  apply Nat.Div0.div_lt_upper_bound. lia.
Qed.

Lemma hex_byte_inj c d : hex_byte c = hex_byte d -> c = d.
Proof.
  destruct (code_div_mod c) as [C1 C2], (code_div_mod d) as [D1 D2].
  unfold hex_byte. intros H. injection H as Hq Hr.
  apply (hex_digit_inj _ _ C1 D1) in Hq. apply (hex_digit_inj _ _ C2 D2) in Hr.
  apply code_inj. pose proof (Nat.div_mod_eq (code c) 16). pose proof (Nat.div_mod_eq (code d) 16). lia.
Qed.

Lemma hex_bytes_inj l k :
  concat (map hex_byte l) = concat (map hex_byte k) -> length l = length k -> l = k.
Proof.
  revert k. induction l as [|c l IH]; intros [|d k]; try done. cbn [map concat]. intros H Hl.
  apply app_inj_1 in H as [H1%hex_byte_inj H2]; [|done]. f_equal; [done|]. apply IH; [done|].
  by injection Hl.
Qed.

Lemma hex_bytes_length l : length (concat (map hex_byte l)) = 2 * length l.
Proof. induction l as [|c l IH]; [done|]. cbn [map concat]. rewrite length_app, IH. simpl. lia. Qed.

Lemma hex_bytes_hex l : Forall is_hex (concat (map hex_byte l)).
Proof.
  induction l as [|c l IH]; [constructor|]. cbn [map concat]. destruct (code_div_mod c).
  apply list.Forall_app. split; [|done].
  apply Forall_cons_iff. split; [by apply hex_digit_hex|].
  apply Forall_cons_iff. split; [by apply hex_digit_hex|constructor].
Qed.

Lemma is_hex_not c d : is_hex c -> ~ is_hex d -> c <> d.
Proof. by intros ? ? ->. Qed.

Section Md5.
Context {M : Md5Lib}.

Lemma md5_length data : length (md5 data) = 32.
Proof. unfold md5. by rewrite hex_bytes_length, MD5_length. Qed.

Lemma md5_hex data : Forall is_hex (md5 data).
Proof. apply hex_bytes_hex. Qed.

Lemma md5_fresh data c : ~ is_hex c -> c ∉ md5 data.
Proof. intros Hc Hin. apply Hc. by apply (proj1 (list.Forall_forall _ _) (md5_hex data)). Qed.
End Md5.

Lemma remove_dot_runs_elem n s c : c ∈ remove_dot_runs n s -> c = DOT \/ c ∈ s.
Proof.
  revert n. induction s as [|d s IH]; intros n; cbn [remove_dot_runs].
  - case_decide; [|by rewrite elem_of_nil]. rewrite list_elem_of_singleton. auto.
  - rewrite elem_of_cons. destruct (decide (d = DOT)) as [->|Hd].
    + intros [?|?]%IH; auto.
    + rewrite elem_of_app, elem_of_cons. intros [H|[?|[?|?]%IH]]; auto.
      case_decide; [|by rewrite elem_of_nil in H]. rewrite list_elem_of_singleton in H. auto.
Qed.

Lemma no_double_dot_cons c s :
  no_double_dot (c :: s) = true <-> (c = DOT -> head s <> Some DOT) /\ no_double_dot s = true.
Proof.
  cbn [no_double_dot]. destruct s as [|d s]; [by split; [split|]|].
  rewrite andb_true_iff, negb_true_iff, bool_decide_eq_false. cbn [head]. split.
  - intros [Hn ?]. split; [|done]. intros -> [= ->]. by apply Hn.
  - intros [Hn ?]. split; [|done]. intros [-> ->]. by apply Hn.
Qed.

Lemma remove_dot_runs_no_double n s : no_double_dot (remove_dot_runs n s) = true.
Proof.
  revert n. induction s as [|c s IH]; intros n; cbn [remove_dot_runs]; [by case_decide|].
  destruct (decide (c = DOT)) as [->|Hc]; [done|].
  assert (no_double_dot (c :: remove_dot_runs 0 s) = true) as Hn.
  { apply no_double_dot_cons. split; [done|apply IH]. }
  case_decide; cbn [app]; [|done]. apply no_double_dot_cons. split; [|done].
  intros _ [= ->]. done.
Qed.

(** Names without a double dot are kept. *)
Lemma remove_dot_runs_id s :
  no_double_dot s = true ->
  remove_dot_runs 0 s = s /\ (head s <> Some DOT -> remove_dot_runs 1 s = DOT :: s).
Proof.
  induction s as [|c s IH]; [by split|]. intros [Hh Hs]%no_double_dot_cons.
  destruct (IH Hs) as [H0 H1]. cbn [remove_dot_runs].
  destruct (decide (c = DOT)) as [->|Hc].
  - split; [by apply H1, Hh|done].
  - rewrite H0. split; [done|]. by rewrite decide_True.
Qed.

Lemma drop_front_dot_spec s :
  no_double_dot s = true -> Forall (fun c => is_special c = false) s ->
  no_double_dot (drop_front_dot s) = true /\ head (drop_front_dot s) <> Some DOT /\
  Forall (fun c => is_special c = false) (drop_front_dot s).
Proof.
  destruct s as [|c s]; [done|]. intros [Hh Hs]%no_double_dot_cons [Hc Hf]%Forall_cons_iff.
  simpl. case_decide.
  - split_and!; [done|by apply Hh|done].
  - split_and!; [by apply no_double_dot_cons|by intros [= ?]|by constructor].
Qed.

Lemma no_double_dot_app_l s c : no_double_dot (s ++ [c]) = true -> no_double_dot s = true.
Proof.
  induction s as [|d s IH]; [done|]. rewrite <- app_comm_cons.
  intros [Hh Hs]%no_double_dot_cons. apply no_double_dot_cons. split; [|by apply IH].
  intros Hd. specialize (Hh Hd). by destruct s.
Qed.

Lemma no_double_dot_back s : no_double_dot (s ++ [DOT]) = true -> list.last s <> Some DOT.
Proof.
  intros H E. apply last_Some in E as [s' ->]. rewrite <- app_assoc in H. simpl in H.
  induction s' as [|c s' IH].
  - done.
  - rewrite <- app_comm_cons in H. apply no_double_dot_cons in H as [_ H]. by apply IH.
Qed.

Lemma drop_back_dot_spec s :
  no_double_dot s = true -> Forall (fun c => is_special c = false) s -> head s <> Some DOT ->
  clean_name (drop_back_dot s).
Proof.
  intros Hn Hf Hh. unfold drop_back_dot. destruct (list.last s) as [c|] eqn:E.
  2: { apply last_None in E as ->. done. }
  case_decide as Hc.
  - subst c. apply last_Some in E as [s' ->]. rewrite length_app, Nat.add_sub, take_app_length.
    apply list.Forall_app in Hf as [Hf _]. split_and!; [done| | |].
    + by apply no_double_dot_app_l in Hn.
    + destruct s'; [done|]. exact Hh.
    + by apply no_double_dot_back.
  - split_and!; [done..|]. rewrite E. congruence.
Qed.

Lemma filter_special s : Forall (fun c => is_special c = false) (List.filter (fun c => negb (is_special c)) s).
Proof.
  induction s as [|c s IH]; simpl; [constructor|].
  destruct (is_special c) eqn:E; simpl; [done|by constructor].
Qed.

Lemma filter_special_id s :
  Forall (fun c => is_special c = false) s -> List.filter (fun c => negb (is_special c)) s = s.
Proof. induction 1 as [|c s Hc _ IH]; [done|]. simpl. by rewrite Hc, IH. Qed.

Lemma trim_clean filename : clean_name (trim_filename_special_char filename).
Proof.
  unfold trim_filename_special_char. set (res := List.filter _ filename).
  assert (Forall (fun c => is_special c = false) (remove_dot_runs 0 res)) as Hf.
  { apply list.Forall_forall. intros c [->|Hc]%remove_dot_runs_elem; [done|].
    exact (proj1 (list.Forall_forall _ _) (filter_special filename) c Hc). }
  destruct (drop_front_dot_spec _ (remove_dot_runs_no_double 0 res) Hf) as (H1 & H2 & H3).
  by apply drop_back_dot_spec.
Qed.

Lemma trim_clean_id s : clean_name s -> trim_filename_special_char s = s.
Proof.
  intros (Hf & Hn & Hh & Hl). unfold trim_filename_special_char. rewrite filter_special_id by done.
  rewrite (proj1 (remove_dot_runs_id s Hn)).
  assert (drop_front_dot s = s) as ->.
  { destruct s as [|c s]; [done|]. simpl. case_decide; [|done]. subst. by destruct Hh. }
  unfold drop_back_dot. destruct (list.last s) as [c|]; [|done]. case_decide; [|done].
  subst. by destruct Hl.
Qed.

Lemma substr_2 h i : substr h i 2 = take 2 (drop i h).
Proof. apply (substr_nat h i 2). Qed.

(** The sharded path of a digest. *)
Definition sharded (h : str) : str := take 2 h ++ SLASH :: take 2 (drop 2 h) ++ SLASH :: h.

Lemma md5_to_rel_path_ok h : SLASH ∉ h -> 4 <= length h -> md5_to_rel_path h = Ok (sharded h).
Proof.
  intros Hs Hl. unfold md5_to_rel_path. rewrite decide_False by lia. f_equal.
  destruct h as [|a [|b [|c [|d h]]]]; simpl in Hl; try lia.
  rewrite !substr_2. cbn [take drop]. rewrite !take_0, path_append_nil.
  rewrite !not_elem_of_cons in Hs. destruct Hs as (H1 & H2 & H3 & H4 & Hh).
  rewrite (path_append_name [a; b]).
  2: { apply has_filename_fresh; [|done]. rewrite !not_elem_of_cons. auto using not_elem_of_nil. }
  2: { rewrite is_absolute_cons. by apply bool_decide_false. }
  rewrite path_append_name.
  - done.
  - change ([a; b] ++ SLASH :: [c; d]) with ([a; b; SLASH] ++ [c; d]).
    rewrite has_filename_app by done. apply has_filename_fresh; [|done].
    rewrite !not_elem_of_cons. auto using not_elem_of_nil.
  - rewrite is_absolute_cons. by apply bool_decide_false.
Qed.

(** * Properties *)

(** A digest is 32 lowercase hexadecimal digits, and two files have the same
    text digest exactly when OpenSSL computes the same 16 bytes for them. *)
Theorem md5_text_digest `{Md5Lib} data data' :
  length (md5 data) = 32 /\ Forall is_hex (md5 data) /\
  (md5 data = md5 data' <-> MD5 data = MD5 data').
Proof.
  split_and!; [apply md5_length|apply md5_hex|]. split; [|by unfold md5; intros ->].
  intros Heq. apply hex_bytes_inj; [done|]. by rewrite !MD5_length.
Qed.

(** [trim_filename_special_char] returns a name without special characters or
    white space, without two dots in a row and without a dot at either end; it
    keeps a name that has these properties, so cleaning twice is cleaning once. *)
Theorem trim_filename_clean filename :
  clean_name (trim_filename_special_char filename) /\
  (clean_name filename -> trim_filename_special_char filename = filename) /\
  trim_filename_special_char (trim_filename_special_char filename) =
    trim_filename_special_char filename.
Proof. split_and!; [apply trim_clean|apply trim_clean_id|apply trim_clean_id, trim_clean]. Qed.

(** [md5_to_rel_path] maps a digest to its first two digits, the next two, and
    the digest, separated by slashes; a string of fewer than four bytes is the
    exception of the source. *)
Theorem md5_to_rel_path_spec h :
  SLASH ∉ h ->
  (4 <= length h -> md5_to_rel_path h = Ok (sharded h)) /\
  (length h < 4 -> exists e, md5_to_rel_path h = Throw e).
Proof.
  intros Hs. split; [by apply md5_to_rel_path_ok|]. intros Hl. unfold md5_to_rel_path.
  rewrite decide_True by done. by eexists.
Qed.

(** * Witnesses *)

(** A stand-in digest: the first 16 bytes of the padded data. *)
Module PadMd5.
#[global] Instance pad_md5 : Md5Lib.
Proof.
  refine {| MD5 data := take 16 (data ++ replicate 16 (chr 0)) |}.
  intros data. rewrite length_take, length_app, length_replicate. lia.
Defined.
End PadMd5.

Lemma md5_to_rel_path_spec_witness :
  md5_to_rel_path (lit "a1b2c3d4") = Ok (lit "a1/b2/a1b2c3d4").
Proof. apply (md5_to_rel_path_spec (lit "a1b2c3d4")); [by_decide | simpl; lia]. Defined.
