(* ===== verification/FileSystem.v ===== *)
(** The file system as the program sees it: a tree of directories and regular
    files addressed by POSIX paths, the [std::filesystem] calls and file streams
    of [file/filestore.cpp] and [controller/FileCtl.cpp], and the I/O faults those
    calls can report. There are no symbolic links. *)

From stdpp Require Import base list strings gmap numbers.
From Stdlib Require Import ZArith Ascii Lia.
From S2P Require Import Prelude Util UrlUtils Paths.

Local Open Scope outcome_scope.

(** ** State *)

Inductive node : Type :=
| Dir
| File (data : str).

#[global] Instance node_eq_dec : EqDecision node.
Proof. solve_decision. Defined.

(** The outcome of a call that reaches the disk: it succeeds, it reports an error
    after [n] bytes or components, it stores only [n] bytes without an error, or it
    reports an error after it has removed the locations [gone]. *)
Inductive fault : Type :=
| Good
| Bad (n : nat)
| Short (n : nat)
| Lost (gone : list (list str)).

(** A location is the list of names from the root. [faults] is consumed by the
    calls that reach the disk; when it is empty they succeed. *)
Record fs : Type := {
  nodes : gmap (list str) node;
  cwd : list str;
  faults : list fault;
}.

Definition set_nodes (n : gmap (list str) node) (s : fs) : fs :=
  {| nodes := n; cwd := cwd s; faults := faults s |}.

Definition next_fault (s : fs) : fault * fs :=
  match faults s with
  | [] => (Good, s)
  | f :: r => (f, {| nodes := nodes s; cwd := cwd s; faults := r |})
  end.

(** ** Path resolution *)

Definition is_dir_at (s : fs) (l : list str) : bool := bool_decide (nodes s !! l = Some Dir).

Definition parent_loc (l : list str) : list str := take (length l - 1) l.

(** One name below a directory. *)
Definition enter (l : list str) (c : str) : list str :=
  if decide (c = [] \/ c = [DOT]) then l
  else if decide (c = [DOT; DOT]) then parent_loc l
  else l ++ [c].

(** Every name but the last must lead to a directory. *)
Fixpoint walk (s : fs) (l : list str) (names : list str) : option (list str) :=
  match names with
  | [] => Some l
  | c :: names' => if is_dir_at s l then walk s (enter l c) names' else None
  end.

Definition start_loc (s : fs) (p : str) : list str := if is_absolute p then [] else cwd s.

Definition resolve (s : fs) (p : str) : option (list str) :=
  if decide (p = []) then None else walk s (start_loc s p) (split_on SLASH p).

Definition lookup_path (s : fs) (p : str) : option node :=
  match resolve s p with Some l => nodes s !! l | None => None end.

(** ** [std::filesystem] *)

(** The calls that throw [std::filesystem::filesystem_error]. *)
Inductive fs_call : Type :=
| CallStatus
| CallFileSize
| CallCreateDirectories
| CallRename
| CallRemove
| CallRemoveAll
| CallOpenDirectory.

(** The text of the [std::system_error] of a failed call: its name and the message
    of the error code, which depends on what happened on the disk. *)
Class FsText : Type := { system_what : fs_call -> fs -> str }.

Section StdFilesystem.
Context {T : FsText}.

(** [filesystem_error::what()]: the paths of the call follow in brackets. *)
Definition fs_error (call : fs_call) (s : fs) (paths : list str) : str :=
  lit "filesystem error: " ++ system_what call s ++
  concat ((fun p => lit " [" ++ p ++ lit "]") <$> paths).

(** A call leaves the disk with a value or an exception. *)
Definition io (A : Type) : Type := (fs * outcome A)%type.

(** Continue after a call that may throw. *)
Definition io_bind {A B} (m : io A) (f : fs -> A -> io B) : io B :=
  match m with
  | (s, Ok a) => f s a
  | (s, Throw e) => (s, Throw e)
  end.

(** A call that changes nothing: it answers from the disk, or reports an error. *)
Definition ask {A} (call : fs_call) (s : fs) (p : str) (answer : fs -> outcome A) : io A :=
  let '(f, s) := next_fault s in
  match f with
  | Good => (s, answer s)
  | _ => (s, Throw (fs_error call s [p]))
  end.

(** [status(p)]; [exists], [is_directory] and [is_regular_file] look at its result. *)
Definition fs_status (s : fs) (p : str) : io (option node) :=
  ask CallStatus s p (fun s => Ok (lookup_path s p)).

Definition exists_path (s : fs) (p : str) : io bool :=
  io_bind (fs_status s p) (fun s st => (s, Ok (bool_decide (is_Some st)))).

Definition is_directory (s : fs) (p : str) : io bool :=
  io_bind (fs_status s p) (fun s st => (s, Ok (bool_decide (st = Some Dir)))).

Definition is_regular_file (s : fs) (p : str) : io bool :=
  io_bind (fs_status s p) (fun s st => (s, Ok (match st with Some (File _) => true | _ => false end))).

Definition file_size (s : fs) (p : str) : io Z :=
  ask CallFileSize s p (fun s =>
    match lookup_path s p with
    | Some (File d) => Ok (Z.of_nat (length d))
    | _ => Throw (fs_error CallFileSize s [p])
    end).

(** The overloads with an [std::error_code]: no exception, the value [d] on an error. *)
Definition no_throw {A} (d : A) (m : io A) : fs * A :=
  match m with
  | (s, Ok a) => (s, a)
  | (s, Throw _) => (s, d)
  end.

(** Creating the missing directories of a path; the boolean is success. *)
Fixpoint make_dirs (s : fs) (l : list str) (names : list str) : fs * bool :=
  match names with
  | [] => (s, is_dir_at s l)
  | c :: names' =>
      if is_dir_at s l then
        let l' := enter l c in
        let s' := match nodes s !! l' with
                  | None => set_nodes (<[l' := Dir]> (nodes s)) s
                  | Some _ => s
                  end in
        make_dirs s' l' names'
      else (s, false)
  end.

(** [create_directories(p, ec)]. *)
Definition create_directories (s : fs) (p : str) : fs * bool :=
  let '(f, s) := next_fault s in
  if decide (p = []) then (s, false)
  else match f with
       | Bad n | Short n => (fst (make_dirs s (start_loc s p) (take n (split_on SLASH p))), false)
       | Lost _ => (s, false)
       | Good => make_dirs s (start_loc s p) (split_on SLASH p)
       end.

(** Output streams. [std::ofstream out(p, binary | trunc)] on its own: the file is
    truncated or created. *)
Definition open_trunc (s : fs) (p : str) : fs * option (list str) :=
  let '(f, s) := next_fault s in
  match f, resolve s p with
  | Good, Some l =>
      if is_dir_at s (parent_loc l) && negb (is_dir_at s l)
      then (set_nodes (<[l := File []]> (nodes s)) s, Some l) else (s, None)
  | _, _ => (s, None)
  end.

(** [out.write(data)] on the open file, and [good()]. After [Short n] the rest of the
    data is still in the buffer of the stream. *)
Definition write_stream (s : fs) (l : list str) (data : str) : fs * bool :=
  let '(f, s) := next_fault s in
  match f with
  | Good => (set_nodes (<[l := File data]> (nodes s)) s, true)
  | Short n => (set_nodes (<[l := File (take n data)]> (nodes s)) s, true)
  | Bad n => (set_nodes (<[l := File (take n data)]> (nodes s)) s, false)
  | Lost _ => (s, false)
  end.

(** [out.close()]: the file gets what was left in the buffer, the whole text being
    [data]. An error is not seen by the code. *)
Definition close_file (s : fs) (l : list str) (data : str) : fs :=
  let '(f, s) := next_fault s in
  let stored := match f with Bad n | Short n => take n data | _ => data end in
  set_nodes (<[l := File stored]> (nodes s)) s.

Inductive write_result : Type := OpenFailed | WriteFailed | Written.

(** [std::ofstream ofs(p, binary | out); ofs.write(data); ofs.close()]. *)
Definition write_file (s : fs) (p data : str) : fs * write_result :=
  match open_trunc s p with
  | (s, None) => (s, OpenFailed)
  | (s, Some l) =>
      match write_stream s l data with
      | (s, false) => (s, WriteFailed)
      | (s, true) => (close_file s l data, Written)
      end
  end.

(** [rename(a, b)] for a regular file [a]: [b] is replaced in one step. *)
Definition rename (s : fs) (a b : str) : io unit :=
  let '(f, s) := next_fault s in
  match f, resolve s a, resolve s b with
  | Good, Some la, Some lb =>
      match nodes s !! la with
      | Some (File d) =>
          if is_dir_at s (parent_loc lb) && negb (is_dir_at s lb)
          then (set_nodes (<[lb := File d]> (delete la (nodes s))) s, Ok tt)
          else (s, Throw (fs_error CallRename s [a; b]))
      | _ => (s, Throw (fs_error CallRename s [a; b]))
      end
  | _, _, _ => (s, Throw (fs_error CallRename s [a; b]))
  end.

(** Locations strictly below [l]. *)
Definition below (l k : list str) : Prop := l `prefix_of` k /\ l <> k.

#[global] Instance below_dec l k : Decision (below l k).
Proof. unfold below; apply _. Defined.

Definition has_children (s : fs) (l : list str) : bool :=
  existsb (fun kn => bool_decide (below l kn.1)) (map_to_list (nodes s)).

(** [remove(p)]: a missing file is not an error, a directory must be empty. *)
Definition remove (s : fs) (p : str) : io unit :=
  let '(f, s) := next_fault s in
  match f with
  | Good =>
      match resolve s p with
      | None => (s, Ok tt)
      | Some l =>
          match nodes s !! l with
          | None => (s, Ok tt)
          | Some (File _) => (set_nodes (delete l (nodes s)) s, Ok tt)
          | Some Dir =>
              if has_children s l || bool_decide (l = []) then (s, Throw (fs_error CallRemove s [p]))
              else (set_nodes (delete l (nodes s)) s, Ok tt)
          end
      end
  | _ => (s, Throw (fs_error CallRemove s [p]))
  end.

(** [remove_all(p)]: what is left of the tree, and the exception for the root directory,
    whose entries are removed but which cannot be removed itself. *)
Definition remaining (s : fs) (p : str) : fs :=
  match resolve s p with
  | None => s
  | Some l => set_nodes (filter (fun kn => kn.1 = [] \/ ~ l `prefix_of` kn.1) (nodes s)) s
  end.

(** When it stops with an error, the locations [gone] in the tree are removed, but for
    directories in which something is left. *)
Definition in_all (s : fs) (gone : list (list str)) (l : list str) : Prop :=
  Forall (fun kn => l `prefix_of` kn.1 -> kn.1 ∈ gone) (map_to_list (nodes s)).

#[global] Instance in_all_dec s gone l : Decision (in_all s gone l).
Proof. unfold in_all. apply _. Defined.

Definition partly_removed (s : fs) (p : str) (gone : list (list str)) : fs :=
  match resolve s p with
  | None => s
  | Some l =>
      set_nodes (filter (fun kn => kn.1 = [] \/ ~ (l `prefix_of` kn.1 /\ in_all s gone kn.1)) (nodes s)) s
  end.

Definition remove_all (s : fs) (p : str) : io unit :=
  let '(f, s) := next_fault s in
  match f with
  | Good => (remaining s p,
             if decide (resolve s p = Some []) then Throw (fs_error CallRemoveAll s [p]) else Ok tt)
  | Lost gone => (partly_removed s p gone, Throw (fs_error CallRemoveAll s [p]))
  | _ => (s, Throw (fs_error CallRemoveAll s [p]))
  end.

(** [std::ifstream] reading the whole file; [None] when it does not open or the
    read fails. *)
Definition read_file (s : fs) (p : str) : fs * option str :=
  let '(f, s) := next_fault s in
  match f, lookup_path s p with
  | Good, Some (File d) => (s, Some d)
  | _, _ => (s, None)
  end.

(** [std::ifstream in(p, binary)] on its own: a directory opens too. Inserting its
    buffer into a stream gives the bytes that could be read and whether the end was
    reached without an error; a directory cannot be read. *)
Definition open_stream (s : fs) (p : str) : fs * option node :=
  let '(f, s) := next_fault s in
  match f with Good => (s, lookup_path s p) | _ => (s, None) end.

Definition read_stream (s : fs) (n : node) : fs * str * bool :=
  let '(f, s) := next_fault s in
  match n, f with
  | Dir, _ => (s, [], false)
  | File d, Good => (s, d, true)
  | File d, (Bad k | Short k) => (s, take k d, false)
  | File d, Lost _ => (s, [], false)
  end.

(** Opening a file for reading, with the reason of a failure. *)
Inductive open_result : Type :=
| Opened (n : node)
| NoSuchFile
| OpenError.

Fixpoint walk_open (s : fs) (l : list str) (names : list str) : open_result :=
  match names with
  | [] => match nodes s !! l with Some n => Opened n | None => NoSuchFile end
  | c :: names' =>
      match nodes s !! l with
      | Some Dir => walk_open s (enter l c) names'
      | Some (File _) => OpenError
      | None => NoSuchFile
      end
  end.

(** [open(p, O_RDONLY)]; a directory opens. *)
Definition open_read (s : fs) (p : str) : fs * open_result :=
  let '(f, s) := next_fault s in
  match f with
  | Good => (s, if decide (p = []) then NoSuchFile else walk_open s (start_loc s p) (split_on SLASH p))
  | _ => (s, OpenError)
  end.

(** [directory_iterator(p)]: the entries of a directory in an unspecified order, or the
    error of opening it, of going to the next entry or of looking at an entry's type. *)
Class DirOrder : Type := {
  dir_order : list (str * node) -> list (str * node);
  dir_order_perm l : dir_order l ≡ₚ l;
}.

Definition entry_of (l : list str) (kn : list str * node) : option (str * node) :=
  match drop (length l) kn.1 with
  | [c] => if decide (l `prefix_of` kn.1) then Some (c, kn.2) else None
  | _ => None
  end.

Definition entries_at (s : fs) (l : list str) : list (str * node) :=
  omap (entry_of l) (map_to_list (nodes s)).

Definition directory_iterator {O : DirOrder} (s : fs) (p : str) : io (list (str * node)) :=
  ask CallOpenDirectory s p (fun s =>
    match resolve s p with
    | Some l => if is_dir_at s l then Ok (dir_order (entries_at s l))
                else Throw (fs_error CallOpenDirectory s [p])
    | None => Throw (fs_error CallOpenDirectory s [p])
    end).

(** * Lemmas *)

(** ** Resolution *)

(** A name that is not [.], [..] or empty. *)
Definition plain (c : str) : Prop := c <> [] /\ c <> [DOT] /\ c <> [DOT; DOT] /\ SLASH ∉ c.

#[global] Instance plain_dec c : Decision (plain c).
Proof. unfold plain; apply _. Defined.

Lemma enter_plain l c : plain c -> enter l c = l ++ [c].
Proof.
  intros (H1 & H2 & H3 & _). unfold enter. rewrite decide_False by (by intros [?|?]).
  by rewrite decide_False.
Qed.

Lemma parent_loc_snoc l c : parent_loc (l ++ [c]) = l.
Proof. unfold parent_loc. by rewrite length_app, Nat.add_sub, take_app_length. Qed.

Lemma walk_app s l cs ds :
  walk s l (cs ++ ds) = match walk s l cs with Some l' => walk s l' ds | None => None end.
Proof.
  revert l. induction cs as [|c cs IH]; intros l; [done|]. simpl.
  destruct (is_dir_at s l); [apply IH|done].
Qed.

Lemma split_on_app_any c a b : split_on c (a ++ c :: b) = split_on c a ++ split_on c b.
Proof.
  induction a as [|d a IH]; simpl.
  - by rewrite decide_True.
  - rewrite IH. case_decide; [done|]. pose proof (split_on_nonempty c a).
    by destruct (split_on c a).
Qed.

Lemma start_loc_app s d t : d <> [] -> start_loc s (d ++ t) = start_loc s d.
Proof. destruct d; [done|]. intros _. unfold start_loc. by rewrite <- app_comm_cons, !is_absolute_cons. Qed.

(** A plain name in a directory. *)
Lemma resolve_in s d c :
  d <> [] -> plain c ->
  resolve s (d ++ SLASH :: c) =
  match resolve s d with
  | Some l => if is_dir_at s l then Some (l ++ [c]) else None
  | None => None
  end.
Proof.
  intros Hd Hc. assert (d ++ SLASH :: c <> []) as Hne by by destruct d.
  unfold resolve. rewrite (decide_False (P := d ++ SLASH :: c = [])), (decide_False (P := d = [])) by done.
  rewrite split_on_app_any, walk_app, start_loc_app by done.
  destruct (walk s (start_loc s d) (split_on SLASH d)) as [l|]; [|done].
  rewrite split_on_fresh by apply Hc. simpl. rewrite enter_plain by done. done.
Qed.

Lemma is_dir_at_ext s s' l : nodes s' = nodes s -> is_dir_at s' l = is_dir_at s l.
Proof. intros H. unfold is_dir_at. by rewrite H. Qed.

(** Resolution only looks at which locations are directories. *)
Lemma walk_dirs s s' l names :
  (forall k, is_dir_at s' k = is_dir_at s k) -> walk s' l names = walk s l names.
Proof.
  intros H. revert l. induction names as [|c names IH]; intros l; [done|]. simpl. by rewrite H, IH.
Qed.

Lemma walk_mono s s' l names l' :
  (forall k, is_dir_at s k = true -> is_dir_at s' k = true) ->
  walk s l names = Some l' -> walk s' l names = Some l'.
Proof.
  intros H. revert l. induction names as [|c names IH]; intros l; [done|]. simpl.
  destruct (is_dir_at s l) eqn:E; [|done]. rewrite (H _ E). apply IH.
Qed.

(** What resolves on a disk with fewer directories resolves to the same place. *)
Lemma resolve_mono s s' p l :
  cwd s' = cwd s -> (forall k, is_dir_at s k = true -> is_dir_at s' k = true) ->
  resolve s p = Some l -> resolve s' p = Some l.
Proof.
  intros Hc H. unfold resolve, start_loc. rewrite Hc. case_decide; [done|]. by apply walk_mono.
Qed.

Lemma resolve_dirs s s' p :
  cwd s' = cwd s -> (forall k, is_dir_at s' k = is_dir_at s k) -> resolve s' p = resolve s p.
Proof.
  intros Hc H. unfold resolve, start_loc. rewrite Hc. case_decide; [done|]. by apply walk_dirs.
Qed.

Lemma next_fault_nodes s f s' : next_fault s = (f, s') -> nodes s' = nodes s /\ cwd s' = cwd s.
Proof. unfold next_fault. destruct (faults s); by intros [= <- <-]. Qed.

(** ** Directories that exist already *)

Lemma make_dirs_existing s l names l' :
  walk s l names = Some l' -> is_dir_at s l' = true -> make_dirs s l names = (s, true).
Proof.
  revert l. induction names as [|c names IH]; intros l; simpl.
  { intros [= ->] ->. done. }
  destruct (is_dir_at s l); [|done]. intros Hw Hd.
  assert (is_Some (nodes s !! enter l c)) as [n Hn].
  { assert (is_dir_at s (enter l c) = true) as Hdir.
    { destruct names as [|c' names]; simpl in Hw; [by injection Hw as ->|].
      by destruct (is_dir_at s (enter l c)). }
    apply bool_decide_eq_true in Hdir. by rewrite Hdir. }
  rewrite Hn. by apply IH.
Qed.

Lemma make_dirs_prefix s l names l' n :
  walk s l names = Some l' -> is_dir_at s l' = true ->
  fst (make_dirs s l (take n names)) = s.
Proof.
  intros Hw Hd. rewrite <- (take_drop n names), walk_app in Hw.
  destruct (walk s l (take n names)) as [k|] eqn:Hk; [|done].
  erewrite make_dirs_existing; [done|exact Hk|].
  destruct (drop n names) as [|c ds]; simpl in Hw; [by injection Hw as ->|].
  by destruct (is_dir_at s k).
Qed.

Lemma next_fault_clean s : faults s = [] -> next_fault s = (Good, s).
Proof. intros H. unfold next_fault. by rewrite H. Qed.

Lemma create_directories_existing s p l :
  resolve s p = Some l -> is_dir_at s l = true ->
  nodes (fst (create_directories s p)) = nodes s /\ cwd (fst (create_directories s p)) = cwd s /\
  (faults s = [] -> create_directories s p = (s, true)).
Proof.
  unfold resolve, create_directories. case_decide as Hp; [done|]. intros Hw Hd.
  destruct (next_fault s) as [f s1] eqn:E. destruct (next_fault_nodes _ _ _ E) as [Hn Hc].
  assert (walk s1 (start_loc s1 p) (split_on SLASH p) = Some l) as Hw1.
  { unfold start_loc in *. rewrite Hc. rewrite <- Hw. apply walk_dirs. intros k. by apply is_dir_at_ext. }
  assert (is_dir_at s1 l = true) as Hd1 by by rewrite (is_dir_at_ext s).
  split_and!.
  - destruct f; simpl; [by rewrite (make_dirs_existing _ _ _ _ Hw1 Hd1)|
      by rewrite (make_dirs_prefix _ _ _ _ _ Hw1 Hd1)..|done].
  - destruct f; simpl; [by rewrite (make_dirs_existing _ _ _ _ Hw1 Hd1)|
      by rewrite (make_dirs_prefix _ _ _ _ _ Hw1 Hd1)..|done].
  - intros Hf. unfold next_fault in E. rewrite Hf in E. injection E as <- <-.
    by rewrite (make_dirs_existing _ _ _ _ Hw Hd).
Qed.

(** ** Writing, renaming and removing at a known location *)

Lemma insert_file_dirs s l d k :
  is_dir_at s l = false ->
  is_dir_at (set_nodes (<[l := File d]> (nodes s)) s) k = is_dir_at s k.
Proof.
  unfold is_dir_at. simpl. intros Hl. destruct (decide (l = k)) as [<-|Hne].
  - rewrite Hl, lookup_insert_eq. by apply bool_decide_false.
  - by rewrite lookup_insert_ne.
Qed.

Lemma open_trunc_cases s p l s' r :
  resolve s p = Some l -> open_trunc s p = (s', r) ->
  cwd s' = cwd s /\
  ((r = None /\ nodes s' = nodes s) \/
   (r = Some l /\ is_dir_at s l = false /\ nodes s' = <[l := File []]> (nodes s))).
Proof.
  intros Hl. unfold open_trunc. destruct (next_fault s) as [f s1] eqn:E1.
  destruct (next_fault_nodes _ _ _ E1) as [Hn1 Hc1].
  assert (resolve s1 p = Some l) as Hl1.
  { rewrite <- Hl. apply resolve_dirs; [done|]. intros. by apply is_dir_at_ext. }
  rewrite Hl1. destruct f; [|intros [= <- <-]; by auto..].
  destruct (_ && _) eqn:Hg; [|intros [= <- <-]; by auto].
  apply andb_true_iff in Hg as [_ Hnd]. apply negb_true_iff in Hnd.
  rewrite (is_dir_at_ext s) in Hnd by done. intros [= <- <-]. split; [done|]. right.
  split_and!; [done..|]. cbn [nodes set_nodes]. by rewrite Hn1.
Qed.

(** Writing to an open file leaves some prefix of the data in it. *)
Lemma write_stream_cases s l data x s' r :
  nodes s !! l = Some (File x) -> (exists n, x = take n data) -> write_stream s l data = (s', r) ->
  cwd s' = cwd s /\ exists n, nodes s' = <[l := File (take n data)]> (nodes s).
Proof.
  intros Hx [n ->]. unfold write_stream. destruct (next_fault s) as [f s1] eqn:E1.
  destruct (next_fault_nodes _ _ _ E1) as [Hn1 Hc1].
  destruct f as [|k|k|gone]; intros [= <- <-]; (split; [done|]); cbn [nodes set_nodes]; rewrite Hn1.
  - exists (length data). by rewrite take_ge.
  - by exists k.
  - by exists k.
  - exists n. by rewrite insert_id.
Qed.

Lemma close_file_cases s l data :
  cwd (close_file s l data) = cwd s /\
  exists n, nodes (close_file s l data) = <[l := File (take n data)]> (nodes s).
Proof.
  unfold close_file. destruct (next_fault s) as [f s1] eqn:E1.
  destruct (next_fault_nodes _ _ _ E1) as [Hn1 Hc1]. split; [done|]. cbn [nodes set_nodes]. rewrite Hn1.
  destruct f as [|k|k|gone]; [|by exists k..|]; exists (length data); by rewrite take_ge.
Qed.

(** What a write leaves at the location [l] of the path [p]. *)
Lemma write_file_cases s p data l s' r :
  resolve s p = Some l -> write_file s p data = (s', r) ->
  cwd s' = cwd s /\
  ((r = OpenFailed /\ nodes s' = nodes s) \/
   (r <> OpenFailed /\ is_dir_at s l = false /\
    exists n, nodes s' = <[l := File (take n data)]> (nodes s))).
Proof.
  intros Hl. unfold write_file. destruct (open_trunc s p) as [s1 o] eqn:E1.
  destruct (open_trunc_cases _ _ _ _ _ Hl E1) as [Hc1 [[-> Hn1]|(-> & Hnd & Hn1)]].
  { intros [= <- <-]. auto. }
  destruct (write_stream s1 l data) as [s2 ok] eqn:E2.
  destruct (write_stream_cases s1 l data [] s2 ok) as [Hc2 (n & Hn2)].
  { by rewrite Hn1, lookup_insert_eq. }
  { by exists 0. }
  { done. }
  rewrite Hn1, insert_insert_eq in Hn2. destruct ok; intros [= <- <-].
  - destruct (close_file_cases s2 l data) as [Hc3 (k & Hn3)]. rewrite Hn2, insert_insert_eq in Hn3.
    split; [congruence|]. right. split_and!; [done..|]. by exists k.
  - split; [congruence|]. right. split_and!; [done..|]. by exists n.
Qed.

Lemma open_trunc_clean s p l :
  faults s = [] -> resolve s p = Some l -> is_dir_at s (parent_loc l) = true ->
  is_dir_at s l = false -> open_trunc s p = (set_nodes (<[l := File []]> (nodes s)) s, Some l).
Proof. intros Hf Hl Hp Hd. unfold open_trunc, next_fault. by rewrite Hf, Hl, Hp, Hd. Qed.

Lemma write_stream_clean s l data :
  faults s = [] -> write_stream s l data = (set_nodes (<[l := File data]> (nodes s)) s, true).
Proof. intros Hf. unfold write_stream, next_fault. by rewrite Hf. Qed.

Lemma close_file_clean s l data :
  faults s = [] -> close_file s l data = set_nodes (<[l := File data]> (nodes s)) s.
Proof. intros Hf. unfold close_file, next_fault. by rewrite Hf. Qed.

Lemma write_file_clean s p data l :
  faults s = [] -> resolve s p = Some l -> is_dir_at s (parent_loc l) = true ->
  is_dir_at s l = false ->
  write_file s p data = (set_nodes (<[l := File data]> (nodes s)) s, Written).
Proof.
  intros Hf Hl Hp Hd. unfold write_file. rewrite (open_trunc_clean s p l) by done.
  rewrite write_stream_clean by done. rewrite close_file_clean by done.
  unfold set_nodes. cbn [nodes cwd faults]. by rewrite !insert_insert_eq.
Qed.

Lemma rename_cases s a b la lb d r s' :
  resolve s a = Some la -> resolve s b = Some lb -> nodes s !! la = Some (File d) ->
  is_dir_at s (parent_loc lb) = true -> is_dir_at s lb = false ->
  rename s a b = (s', r) ->
  cwd s' = cwd s /\
  ((exists e, r = Throw e) /\ nodes s' = nodes s \/
   r = Ok tt /\ nodes s' = <[lb := File d]> (delete la (nodes s))) /\
  (faults s = [] -> r = Ok tt /\ faults s' = []).
Proof.
  intros Ha Hb Hd Hp Hnd. unfold rename. destruct (next_fault s) as [f s1] eqn:E1.
  destruct (next_fault_nodes _ _ _ E1) as [Hn1 Hc1].
  assert (forall q, resolve s1 q = resolve s q) as Hr.
  { intros q. apply resolve_dirs; [done|]. intros. by apply is_dir_at_ext. }
  rewrite !Hr, Ha, Hb, Hn1, Hd. rewrite !(is_dir_at_ext s s1) by done.
  rewrite Hp, Hnd. simpl.
  assert (faults s = [] -> f = Good /\ s1 = s) as Hclean.
  { intros Hf. rewrite next_fault_clean in E1 by done. by injection E1 as <- <-. }
  destruct f; intros [= <- <-]; (split; [done|]);
    [|split; [left; split; [by eexists|done]|intros Hf; by destruct (Hclean Hf)]..].
  split; [by right|]. intros Hf. destruct (Hclean Hf) as [_ ->]. done.
Qed.

(** Removing a path that is not a directory. *)
Lemma remove_cases s p l r s' :
  resolve s p = Some l -> is_dir_at s l = false -> remove s p = (s', r) ->
  cwd s' = cwd s /\
  (r = Ok tt /\ nodes s' = delete l (nodes s) \/
   exists s1, r = Throw (fs_error CallRemove s1 [p]) /\ nodes s' = nodes s).
Proof.
  intros Hl Hd. unfold remove. destruct (next_fault s) as [f s1] eqn:E1.
  destruct (next_fault_nodes _ _ _ E1) as [Hn1 Hc1].
  assert (resolve s1 p = Some l) as Hl1.
  { rewrite <- Hl. apply resolve_dirs; [done|]. intros. by apply is_dir_at_ext. }
  apply bool_decide_eq_false in Hd. rewrite Hl1, Hn1.
  destruct f; [|intros [= <- <-]; split; [done|right; by eexists]..].
  destruct (nodes s !! l) as [[|d]|] eqn:E; [done| |]; intros [= <- <-]; (split; [done|]); left.
  - done.
  - split; [done|]. rewrite Hn1. by rewrite delete_id.
Qed.

Lemma remove_clean s p l :
  faults s = [] -> resolve s p = Some l -> is_dir_at s l = false ->
  remove s p = (set_nodes (delete l (nodes s)) s, Ok tt).
Proof.
  intros Hf Hl Hd. unfold remove. rewrite next_fault_clean, Hl by done. apply bool_decide_eq_false in Hd.
  destruct (nodes s !! l) as [[|d]|] eqn:E; [done|done|]. rewrite delete_id by done. by destruct s.
Qed.

Lemma lookup_path_at s p l : resolve s p = Some l -> lookup_path s p = nodes s !! l.
Proof. intros H. unfold lookup_path. by rewrite H. Qed.

(** ** Calls that only look *)

Lemma ask_clean {A} call s p (answer : fs -> outcome A) :
  faults s = [] -> ask call s p answer = (s, answer s).
Proof. intros Hf. unfold ask. by rewrite next_fault_clean. Qed.

(** The nodes are the same after a call that asks, and an answer is the one of [s]. *)
Lemma ask_cases {A} call s p (answer : fs -> outcome A) s' r :
  ask call s p answer = (s', r) ->
  nodes s' = nodes s /\ cwd s' = cwd s /\ (r = answer s' \/ r = Throw (fs_error call s' [p])).
Proof.
  unfold ask. destruct (next_fault s) as [f s1] eqn:E1. destruct (next_fault_nodes _ _ _ E1) as [Hn1 Hc1].
  destruct f; intros [= <- <-]; auto.
Qed.

Lemma lookup_path_ext s s' p : cwd s' = cwd s -> nodes s' = nodes s -> lookup_path s' p = lookup_path s p.
Proof.
  intros Hc Hn. unfold lookup_path. rewrite (resolve_dirs s), Hn; [done|done|]. intros k. by apply is_dir_at_ext.
Qed.

Lemma fs_status_cases s p s' r :
  fs_status s p = (s', r) ->
  nodes s' = nodes s /\ cwd s' = cwd s /\
  (r = Ok (lookup_path s p) \/ r = Throw (fs_error CallStatus s' [p])).
Proof.
  intros (Hn & Hc & Hr)%ask_cases. split_and!; [done..|]. by rewrite <- (lookup_path_ext s s').
Qed.

Lemma exists_path_cases s p s' r :
  exists_path s p = (s', r) ->
  nodes s' = nodes s /\ cwd s' = cwd s /\
  (r = Ok (bool_decide (is_Some (lookup_path s p))) \/ r = Throw (fs_error CallStatus s' [p])).
Proof.
  unfold exists_path. destruct (fs_status s p) as [s1 x] eqn:E. apply fs_status_cases in E as (Hn & Hc & Hr).
  destruct Hr as [-> | ->]; intros [= <- <-]; auto.
Qed.

Lemma file_size_cases s p s' r :
  file_size s p = (s', r) ->
  nodes s' = nodes s /\ cwd s' = cwd s /\
  ((exists d, lookup_path s p = Some (File d) /\ r = Ok (Z.of_nat (length d))) \/
   r = Throw (fs_error CallFileSize s' [p])).
Proof.
  intros (Hn & Hc & Hr)%ask_cases. split_and!; [done..|]. rewrite (lookup_path_ext s s') in Hr by done.
  destruct Hr as [-> | ->]; [|by right]. destruct (lookup_path s p) as [[|d]|]; [by right| |by right].
  left. by exists d.
Qed.

Lemma exists_path_clean s p :
  faults s = [] -> exists_path s p = (s, Ok (bool_decide (is_Some (lookup_path s p)))).
Proof. intros Hf. unfold exists_path, fs_status. by rewrite ask_clean. Qed.

Lemma file_size_clean s p d :
  faults s = [] -> lookup_path s p = Some (File d) -> file_size s p = (s, Ok (Z.of_nat (length d))).
Proof. intros Hf Hl. unfold file_size. by rewrite ask_clean, Hl. Qed.

(** ** Without faults *)

Lemma rename_clean s a b la lb d :
  faults s = [] -> resolve s a = Some la -> resolve s b = Some lb -> nodes s !! la = Some (File d) ->
  is_dir_at s (parent_loc lb) = true -> is_dir_at s lb = false ->
  rename s a b = (set_nodes (<[lb := File d]> (delete la (nodes s))) s, Ok tt).
Proof. intros Hf Ha Hb Hn Hp Hd. unfold rename, next_fault. by rewrite Hf, Ha, Hb, Hn, Hp, Hd. Qed.

Lemma remove_all_clean s p l :
  faults s = [] -> resolve s p = Some l -> l <> [] -> remove_all s p = (remaining s p, Ok tt).
Proof. intros Hf Hl Hne. unfold remove_all. rewrite next_fault_clean, Hl by done. by rewrite decide_False by congruence. Qed.

(** [remove_all] keeps what is not in the directory. *)
Lemma remaining_node s p l k n :
  resolve s p = Some l -> l <> [] ->
  nodes (remaining s p) !! k = Some n <-> nodes s !! k = Some n /\ ~ l `prefix_of` k.
Proof.
  intros Hl Hne. unfold remaining. rewrite Hl. cbn [nodes set_nodes].
  rewrite map_lookup_filter_Some. cbn [fst]. split; [|tauto]. intros [Hn [->|Hp]]; [|done].
  split; [done|]. by intros ->%prefix_nil_inv.
Qed.

(** A [remove_all] that returns has removed the whole tree. *)
Lemma remove_all_ok s p s' u :
  remove_all s p = (s', Ok u) ->
  forall l, resolve s p = Some l -> l <> [] /\ forall k, l `prefix_of` k -> nodes s' !! k = None.
Proof.
  unfold remove_all. destruct (next_fault s) as [f s1] eqn:E. destruct (next_fault_nodes _ _ _ E) as [Hn Hc].
  destruct f; [|done..]. intros H l Hl.
  rewrite <- (resolve_dirs s s1) in Hl by (done || intros k; by apply is_dir_at_ext).
  rewrite Hl in H. case_decide as Hne; [done|]. injection H as <- <-.
  assert (l <> []) as Hl0 by congruence. split; [done|]. intros k Hk.
  destruct (nodes (remaining s1 p) !! k) as [n|] eqn:En; [|done].
  by apply (remaining_node _ _ _ _ _ Hl Hl0) in En as [_ []].
Qed.

Lemma remaining_dirs s p l k :
  resolve s p = Some l -> l <> [] ->
  is_dir_at (remaining s p) k = bool_decide (~ l `prefix_of` k) && is_dir_at s k.
Proof.
  intros Hl Hne. unfold is_dir_at. rewrite <- bool_decide_and. apply bool_decide_ext.
  rewrite remaining_node by done. tauto.
Qed.

Lemma remaining_cwd s p : cwd (remaining s p) = cwd s /\ faults (remaining s p) = faults s.
Proof. unfold remaining. by destruct (resolve s p). Qed.

(** ** Directories that are created *)

Lemma make_dirs_keeps s l names k :
  is_dir_at s k = true -> is_dir_at (fst (make_dirs s l names)) k = true.
Proof.
  revert s l. induction names as [|c names IH]; intros s l Hk; [done|]. simpl.
  destruct (is_dir_at s l); [|done]. apply IH. destruct (nodes s !! enter l c) eqn:E; [done|].
  unfold is_dir_at in *. simpl. apply bool_decide_eq_true in Hk. apply bool_decide_true.
  rewrite lookup_insert_ne; [done|]. congruence.
Qed.

Lemma make_dirs_faults s l names : faults (fst (make_dirs s l names)) = faults s.
Proof.
  revert s l. induction names as [|c names IH]; intros s l; [done|]. simpl.
  destruct (is_dir_at s l); [|done]. rewrite IH. by destruct (nodes s !! enter l c).
Qed.

Lemma create_directories_faults s p : faults s = [] -> faults (fst (create_directories s p)) = [].
Proof.
  intros Hf. unfold create_directories. rewrite next_fault_clean by done. case_decide; [done|].
  by rewrite make_dirs_faults.
Qed.

Lemma make_dirs_cwd s l names : cwd (fst (make_dirs s l names)) = cwd s.
Proof.
  revert s l. induction names as [|c names IH]; intros s l; [done|]. simpl.
  destruct (is_dir_at s l); [|done]. rewrite IH. by destruct (nodes s !! enter l c).
Qed.

(** Only directories appear, and only where there was nothing. *)
Lemma make_dirs_only s l names k :
  nodes (fst (make_dirs s l names)) !! k = nodes s !! k \/
  (nodes s !! k = None /\ nodes (fst (make_dirs s l names)) !! k = Some Dir).
Proof.
  revert s l. induction names as [|c names IH]; intros s l; [by left|]. simpl.
  destruct (is_dir_at s l); [|by left].
  destruct (nodes s !! enter l c) eqn:E; [apply IH|].
  destruct (IH (set_nodes (<[enter l c := Dir]> (nodes s)) s) (enter l c)) as [H|[H1 H2]]; simpl in *.
  - rewrite H. destruct (decide (enter l c = k)) as [<-|Hne].
    + right. by rewrite lookup_insert_eq.
    + left. by rewrite lookup_insert_ne.
  - apply lookup_insert_None in H1 as [H1 _]. by right.
Qed.

Lemma create_directories_only s p k :
  nodes (fst (create_directories s p)) !! k = nodes s !! k \/
  (nodes s !! k = None /\ nodes (fst (create_directories s p)) !! k = Some Dir).
Proof.
  unfold create_directories. destruct (next_fault s) as [f s1] eqn:E1.
  destruct (next_fault_nodes _ _ _ E1) as [<- _]. case_decide; [by left|].
  destruct f; try apply make_dirs_only. by left.
Qed.

Lemma make_dirs_walk s l names s' :
  make_dirs s l names = (s', true) -> exists l', walk s' l names = Some l' /\ is_dir_at s' l' = true.
Proof.
  revert s l. induction names as [|c names IH]; intros s l; simpl.
  { intros [= <- Hl]. eauto. }
  destruct (is_dir_at s l) eqn:Hl; [|done]. intros Hm.
  destruct (IH _ _ Hm) as (l' & Hw & Hd).
  assert (is_dir_at s' l = true) as ->; [|by eauto].
  change s' with (fst (s', true)). rewrite <- Hm. apply make_dirs_keeps.
  destruct (nodes s !! enter l c) eqn:E; [done|]. unfold is_dir_at in *. simpl.
  apply bool_decide_eq_true in Hl. apply bool_decide_true.
  rewrite lookup_insert_ne; [done|]. congruence.
Qed.

Lemma create_directories_walk s p s' :
  create_directories s p = (s', true) ->
  cwd s' = cwd s /\ exists l, resolve s' p = Some l /\ is_dir_at s' l = true.
Proof.
  unfold create_directories. destruct (next_fault s) as [f s1] eqn:E1.
  destruct (next_fault_nodes _ _ _ E1) as [_ Hc1]. case_decide as Hp; [done|].
  destruct f; [|done..]. intros Hm.
  assert (cwd s' = cwd s1) as Hc'.
  { change s' with (fst (s', true)). rewrite <- Hm. apply make_dirs_cwd. }
  split; [congruence|]. apply make_dirs_walk in Hm as (l & Hw & Hd). exists l. split; [|done].
  unfold resolve. rewrite decide_False by done. unfold start_loc in *. by rewrite Hc'.
Qed.

(** ** Directories stay *)

(** What resolved before a call still resolves to the same place. *)
Definition keeps_dirs (s s' : fs) : Prop :=
  cwd s' = cwd s /\ forall k, is_dir_at s k = true -> is_dir_at s' k = true.

#[global] Instance keeps_dirs_preorder : PreOrder keeps_dirs.
Proof. split; [done|]. intros s1 s2 s3 [H1 H2] [H3 H4]. split; [congruence|auto]. Qed.

Lemma keeps_dirs_resolve s s' p l : keeps_dirs s s' -> resolve s p = Some l -> resolve s' p = Some l.
Proof. intros [H1 H2]. by apply resolve_mono. Qed.

Lemma keeps_dirs_nodes s s' : cwd s' = cwd s -> nodes s' = nodes s -> keeps_dirs s s'.
Proof. intros Hc Hn. split; [done|]. intros k. by rewrite (is_dir_at_ext s s'). Qed.

Lemma insert_file_keeps s l d :
  is_dir_at s l = false -> keeps_dirs s (set_nodes (<[l := File d]> (nodes s)) s).
Proof. intros Hl. split; [done|]. intros k. by rewrite insert_file_dirs. Qed.

Lemma delete_file_keeps s l d :
  nodes s !! l = Some (File d) -> keeps_dirs s (set_nodes (delete l (nodes s)) s).
Proof.
  intros Hl. split; [done|]. intros k. unfold is_dir_at. cbn [nodes set_nodes].
  intros Hk%bool_decide_eq_true. apply bool_decide_true. rewrite lookup_delete_ne; [done|congruence].
Qed.

Lemma next_fault_keeps s f s' : next_fault s = (f, s') -> keeps_dirs s s'.
Proof. intros [Hn Hc]%next_fault_nodes. by apply keeps_dirs_nodes. Qed.

Lemma create_directories_keeps s p : keeps_dirs s (fst (create_directories s p)).
Proof.
  unfold create_directories. destruct (next_fault s) as [f s1] eqn:E. apply next_fault_keeps in E.
  case_decide; [done|]. etrans; [exact E|].
  destruct f; [| | |done]; (split; [apply make_dirs_cwd|intros k; apply make_dirs_keeps]).
Qed.

Lemma open_trunc_keeps s p :
  keeps_dirs s (fst (open_trunc s p)) /\
  forall l, snd (open_trunc s p) = Some l -> is_dir_at (fst (open_trunc s p)) l = false.
Proof.
  unfold open_trunc. destruct (next_fault s) as [f s1] eqn:E. apply next_fault_keeps in E.
  destruct f; [|done..]. destruct (resolve s1 p) as [l|]; [|done].
  destruct (is_dir_at s1 (parent_loc l)); [|done]. destruct (is_dir_at s1 l) eqn:Hl; [done|].
  cbn [andb negb fst snd]. split; [by etrans; [exact E|apply insert_file_keeps]|].
  intros ? [= <-]. by rewrite insert_file_dirs.
Qed.

Lemma close_file_keeps s l data : is_dir_at s l = false -> keeps_dirs s (close_file s l data).
Proof.
  intros Hl. unfold close_file. destruct (next_fault s) as [f s1] eqn:E.
  destruct (next_fault_nodes _ _ _ E) as [Hn Hc]. etrans; [by eapply next_fault_keeps|].
  apply insert_file_keeps. by rewrite (is_dir_at_ext s).
Qed.

Lemma rename_keeps s a b : keeps_dirs s (fst (rename s a b)).
Proof.
  unfold rename. destruct (next_fault s) as [f s1] eqn:E. apply next_fault_keeps in E.
  destruct f; [|done..]. destruct (resolve s1 a) as [la|], (resolve s1 b) as [lb|]; try done.
  destruct (nodes s1 !! la) as [[|d]|] eqn:Ha; try done.
  destruct (is_dir_at s1 (parent_loc lb)); [|done]. destruct (is_dir_at s1 lb) eqn:Hl; [done|].
  cbn [andb negb fst]. etrans; [exact E|]. etrans; [by eapply delete_file_keeps|].
  set (s2 := set_nodes (delete la (nodes s1)) s1).
  change (set_nodes _ s1) with (set_nodes (<[lb := File d]> (nodes s2)) s2). apply insert_file_keeps.
  apply bool_decide_false. unfold s2. cbn [nodes set_nodes]. intros [_ H]%lookup_delete_Some.
  by apply bool_decide_eq_false in Hl.
Qed.

(** ** Directory listings *)

Lemma entries_at_elem s l c n : (c, n) ∈ entries_at s l <-> nodes s !! (l ++ [c]) = Some n.
Proof.
  unfold entries_at. rewrite list_elem_of_omap. split.
  - intros ([k n'] & Hk%elem_of_map_to_list & He). unfold entry_of in He. simpl in He.
    destruct (drop (length l) k) as [|c' [|]] eqn:Hd; try done. case_decide as Hp; [|done].
    injection He as -> ->. destruct Hp as [r ->]. rewrite drop_app_length in Hd. by subst r.
  - intros Hn. exists (l ++ [c], n). split; [by apply elem_of_map_to_list|].
    unfold entry_of. simpl. rewrite drop_app_length, decide_True; [done|]. by apply prefix_app_r.
Qed.

Lemma dir_entries_elem {O : DirOrder} s l c n :
  (c, n) ∈ dir_order (entries_at s l) <-> nodes s !! (l ++ [c]) = Some n.
Proof. rewrite dir_order_perm. apply entries_at_elem. Qed.

Lemma directory_iterator_clean {O : DirOrder} s p l :
  faults s = [] -> resolve s p = Some l -> is_dir_at s l = true ->
  directory_iterator s p = (s, Ok (dir_order (entries_at s l))).
Proof. intros Hf Hl Hd. unfold directory_iterator. by rewrite ask_clean, Hl, Hd. Qed.

(** Opening a path that names a node. *)
Lemma walk_open_node s l names l' n :
  walk s l names = Some l' -> nodes s !! l' = Some n -> walk_open s l names = Opened n.
Proof.
  revert l. induction names as [|c names IH]; intros l; simpl.
  - intros [= ->] ->. done.
  - unfold is_dir_at. case_bool_decide as Hd; [|done]. rewrite Hd. apply IH.
Qed.

Lemma open_read_node s p n :
  faults s = [] -> lookup_path s p = Some n -> open_read s p = (s, Opened n).
Proof.
  intros Hf. unfold open_read, next_fault, lookup_path, resolve. rewrite Hf.
  case_decide; [done|]. destruct (walk s _ _) as [l|] eqn:Hw; [|done]. intros Hn.
  by rewrite (walk_open_node _ _ _ _ _ Hw Hn).
Qed.

End StdFilesystem.

(** * Witnesses *)

(** One text per call. *)
Module PlainText.
#[export] Instance plain_text : FsText := {|
  system_what call _ :=
    match call with
    | CallStatus => lit "status: Input/output error"
    | CallFileSize => lit "cannot get file size: Is a directory"
    | CallCreateDirectories => lit "cannot create directories: Not a directory"
    | CallRename => lit "cannot rename: Input/output error"
    | CallRemove => lit "cannot remove: Directory not empty"
    | CallRemoveAll => lit "cannot remove all: Operation not permitted"
    | CallOpenDirectory => lit "directory iterator cannot open directory: Not a directory"
    end |}.
End PlainText.
