(* ===== verification/FileStore.v ===== *)
(** [file/filestore.cpp], [config/StoreConfig.h] and
    [config/ShardedTransferConfig.h]: storing and reading files
    below the root directory. Writing goes through a temporary file and a rename;
    the theorems say what is on disk afterwards whatever call fails. *)

From stdpp Require Import base list strings gmap numbers.
From Stdlib Require Import ZArith Ascii Lia.
From S2P Require Import Prelude Util UrlUtils Paths CryptoUtils FileSystem.

Local Open Scope outcome_scope.

(** ** Configuration *)

Record StoreConfig : Type := {
  root_dir : str;
  temp_dir : str;
  max_file_size : Z;
  sc_group : str;
  sc_peer_id : str;
  sc_domain : str;
  allow_extensions : list str;
  enable_trim_filename : bool;
  enable_distinct_file : bool;
}.

Definition default_StoreConfig : StoreConfig := {|
  root_dir := lit "./data/store"; temp_dir := lit "_tmp"; max_file_size := 10 * 1024 * 1024;
  sc_group := lit "group1"; sc_peer_id := lit "node_01"; sc_domain := lit "localhost:8080";
  allow_extensions := [lit ".jpg"; lit ".png"; lit ".txt"; lit ".pdf"; lit ".zip"; lit ".file"];
  enable_trim_filename := true; enable_distinct_file := true |}.

(** [config/ShardedTransferConfig.h]; no code reads it. *)
Record ShardedTransferConfig : Type := {
  default_shard_size : Z;
  min_shard_size : Z;
  task_expire_seconds : Z;
  shard_scene_prefix : str;
  auto_clean_expired : bool;
  merge_file_dir : str;
  temp_shard_dir : str;
}.

Definition default_ShardedTransferConfig : ShardedTransferConfig := {|
  default_shard_size := 10 * 1024 * 1024; min_shard_size := 1 * 1024 * 1024;
  task_expire_seconds := 3600; shard_scene_prefix := lit "shard_"; auto_clean_expired := true;
  merge_file_dir := lit "./data/store"; temp_shard_dir := lit "./data/temp" |}.

Section FileStoreOps.
Context {T : FsText}.

(** The constructor creates the root, [_tmp] and [_big]. *)
Definition FileStore_new (s : fs) (config : StoreConfig) : outcome fs :=
  let '(s, ok) := create_directories s (root_dir config) in
  if negb ok then Throw (fs_error CallCreateDirectories s [root_dir config]) else
  let '(s, ok) := create_directories s (root_dir config ++ lit "/_tmp") in
  if negb ok then Throw (fs_error CallCreateDirectories s [root_dir config ++ lit "/_tmp"]) else
  let '(s, ok) := create_directories s (root_dir config ++ lit "/_big") in
  if negb ok then Throw (fs_error CallCreateDirectories s [root_dir config ++ lit "/_big"]) else Ok s.

(** [generate_temp_suffix], for the number drawn from 100000 to 999999. *)
Definition generate_temp_suffix (rnd : Z) : str := to_string rnd.

(** The handlers of [write_disk]: remove the file, return false. Nothing catches an
    exception of this [remove]. *)
Definition give_up_on (s : fs) (p : str) : io bool :=
  io_bind (remove s p) (fun s _ => (s, Ok false)).

(** A call inside the [try]: its exception goes to the handlers. *)
Definition io_try {A} (m : io A) (full_path : str) (f : fs -> A -> io bool) : io bool :=
  match m with
  | (s, Ok a) => f s a
  | (s, Throw _) => give_up_on s full_path
  end.

(** A file of the wrong size is removed; the log line then asks for its size, which
    throws into the handlers when the file is gone. *)
Definition drop_written (s : fs) (full_path : str) : io bool :=
  io_try (remove s full_path) full_path (fun s _ =>
  io_try (file_size s full_path) full_path (fun s _ => (s, Ok false))).

(** The integrity check after the rename. *)
Definition verify_written (s : fs) (full_path data : str) : io bool :=
  io_try (fs_status s full_path) full_path (fun s st =>
  match st with
  | None => drop_written s full_path
  | Some _ =>
      io_try (file_size s full_path) full_path (fun s n =>
      if decide (n = Z.of_nat (length data)) then (s, Ok true) else drop_written s full_path)
  end).

(** [write_disk] after its first check. *)
Definition write_new (rnd : Z) (s : fs) (full_path data : str) : io bool :=
  let '(s, _) := create_directories s (parent_path full_path) in
  let temp_path := full_path ++ lit ".tmp." ++ generate_temp_suffix rnd in
  match write_file s temp_path data with
  | (s, OpenFailed) => (s, Ok false)
  | (s, WriteFailed) => io_try (remove s temp_path) full_path (fun s _ => (s, Ok false))
  | (s, Written) =>
      io_try (rename s temp_path full_path) full_path (fun s _ => verify_written s full_path data)
  end.

Definition write_disk (rnd : Z) (s : fs) (full_path data : str) : io bool :=
  io_bind (exists_path s full_path) (fun s there =>
  if (there : bool) then
    io_bind (file_size s full_path) (fun s n =>
    if decide (n = Z.of_nat (length data)) then (s, Ok true)
    else write_new rnd s full_path data)
  else write_new rnd s full_path data).

(** [read_disk]: the string is [Some] when the function returns true. *)
Definition read_disk (s : fs) (real_path : str) : fs * option str :=
  let '(s, there) := no_throw false (exists_path s real_path) in
  if negb there then (s, None)
  else
    let '(s, regular) := no_throw false (is_regular_file s real_path) in
    if negb regular then (s, None)
    else match file_size s real_path with
         | (s, Throw _) => (s, None)
         | (s, Ok n) => if decide (n = 0%Z) then (s, Some []) else read_file s real_path
         end.

Section Store.
Context {M : Md5Lib} {O : DirOrder}.
Context (config_ : StoreConfig).

Definition list_files : list str := allow_extensions config_.
Definition get_root_dir : str := root_dir config_.
Definition get_temp_dir : str := temp_dir config_.

(** The numbers among the names of the regular files of a directory. *)
Definition chunk_numbers (es : list (str * node)) : list Z :=
  omap (fun e => match e.2 with
                 | File _ => match stoi e.1 with Ok i => Some i | Throw _ => None end
                 | Dir => None
                 end) es.

Definition get_shard_index (s : fs) (file_dir : str) : io (list Z) :=
  io_bind (exists_path s file_dir) (fun s there =>
  if negb there then (s, Ok [])
  else io_bind (is_directory s file_dir) (fun s dir =>
  if negb dir then (s, Ok [])
  else io_bind (directory_iterator s file_dir) (fun s es => (s, Ok (chunk_numbers es))))).

(** [save_file(data, rel_path)]. *)
Definition save_file_at (rnd : Z) (s : fs) (data rel_path : str) : io bool :=
  if bool_decide (is_Some (find (lit "..") rel_path 0)) then (s, Ok false)
  else
    let full_path := path_append (root_dir config_) rel_path in
    let '(s, ok) := create_directories s (parent_path full_path) in
    if negb ok then (s, Ok false)
    else io_bind (write_disk rnd s full_path data) (fun s written =>
      if (written : bool) then (s, Ok true)
      else let '(s, _) := no_throw tt (remove s full_path) in (s, Ok false)).

(** [save_file(filename, data, scene, md5)]. *)
Definition save_file (rnd : Z) (s : fs) (filename data scene md5_ : str) : io (option str) :=
  let file_md5 := if decide (md5_ = []) then md5 data else md5_ in
  io_bind (s, md5_to_rel_path file_md5) (fun s base_rel_path =>
  let ext := path_extension filename in
  let rel_path_str := base_rel_path ++ ext in
  let abs_file_path := path_append (path_append (root_dir config_) scene) rel_path_str in
  io_bind (exists_path s abs_file_path) (fun s there =>
  if (there : bool) then (s, Ok (Some (path_append scene rel_path_str)))
  else
    let '(s, ok) := create_directories s (parent_path abs_file_path) in
    if negb ok then (s, Ok None)
    else io_bind (write_disk rnd s abs_file_path data) (fun s written =>
      if (written : bool) then (s, Ok (Some (path_append scene rel_path_str))) else (s, Ok None)))).

Definition save_shard (rnd : Z) (s : fs) (file_md5 : str) (shard_index : Z)
    (content shard_md5 : str) : io bool :=
  if negb (bool_decide (md5 content = shard_md5)) then (s, Ok false)
  else
    let rel_path := root_dir config_ ++ lit "/" ++ temp_dir config_ ++ lit "/" ++ file_md5
                    ++ lit "/" ++ file_md5 ++ lit "_" ++ to_string shard_index in
    io_bind (write_disk rnd s rel_path content) (fun s write_ok =>
      if (write_ok : bool) then (s, Ok true) else (s, Ok false)).

Definition get_file (s : fs) (path : str) : io (option str) :=
  let full_path := path_append (root_dir config_) path in
  io_bind (exists_path s full_path) (fun s there =>
  if negb there then (s, Ok None)
  else io_bind (is_regular_file s full_path) (fun s regular =>
  if negb regular then (s, Ok None)
  else let '(s, content) := read_disk s full_path in (s, Ok content))).

End Store.

(** * Lemmas *)

(** ** [write_disk] below an existing directory *)

Lemma temp_suffix_fresh rnd : (0 <= rnd)%Z -> SLASH ∉ generate_temp_suffix rnd.
Proof.
  intros Hr. unfold generate_temp_suffix, to_string. rewrite decide_False by lia. intros Hin.
  pose proof (proj1 (list.Forall_forall _ _) (dec_digits rnd Hr) _ Hin) as Hd.
  unfold is_digit in Hd. vm_compute (code SLASH) in Hd. lia.
Qed.

Definition temp_name (c : str) (rnd : Z) : str := c ++ lit ".tmp." ++ generate_temp_suffix rnd.

Lemma temp_name_plain c rnd : plain c -> (0 <= rnd)%Z -> plain (temp_name c rnd).
Proof.
  intros (H1 & H2 & H3 & Hs) Hr. unfold temp_name.
  split_and!; [intros H%(f_equal length); rewrite !length_app in H; simpl in H; lia..|].
  rewrite !elem_of_app. intros [?|[H|?]]; [done|by revert H; by_decide|by eapply temp_suffix_fresh].
Qed.

Lemma temp_name_neq c rnd : temp_name c rnd <> c.
Proof.
  unfold temp_name. intros H%(f_equal length). rewrite !length_app in H. simpl in H. lia.
Qed.

Section WriteDisk.
Context (s : fs) (d c data : str) (loc : list str) (rnd : Z).
Context (Hd : has_filename d = true) (Hc : plain c) (Hrnd : (0 <= rnd)%Z).
Context (Hres : resolve s d = Some loc) (Hdir : is_dir_at s loc = true).

Definition target : list str := loc ++ [c].
Definition temp : list str := loc ++ [temp_name c rnd].
Abbreviation full_path := (d ++ SLASH :: c).
Abbreviation temp_path := ((d ++ SLASH :: c) ++ lit ".tmp." ++ generate_temp_suffix rnd).

Lemma d_nonempty : d <> [].
Proof. by destruct d. Qed.

Lemma temp_target : temp <> target.
Proof. unfold temp, target. intros H%app_inj_2; [|done]. destruct H as [_ [= H]]. by apply (temp_name_neq c rnd). Qed.

(** In any state with the same directories both paths keep their locations. *)
Definition same_dirs (s' : fs) : Prop := cwd s' = cwd s /\ forall k, is_dir_at s' k = is_dir_at s k.

Lemma same_dirs_nodes s' : cwd s' = cwd s -> nodes s' = nodes s -> same_dirs s'.
Proof. intros Hcwd Hn. split; [done|]. intros k. by apply is_dir_at_ext. Qed.

Lemma resolve_full s' : same_dirs s' -> resolve s' full_path = Some target.
Proof.
  intros [Hcw Hdr]. rewrite (resolve_dirs s) by done.
  by rewrite (resolve_in _ _ _ d_nonempty Hc), Hres, Hdir.
Qed.

Lemma resolve_temp s' : same_dirs s' -> resolve s' temp_path = Some temp.
Proof.
  intros [Hcw Hdr]. rewrite (resolve_dirs s) by done. rewrite <- app_assoc. simpl app.
  change (c ++ lit ".tmp." ++ generate_temp_suffix rnd) with (temp_name c rnd).
  rewrite (resolve_in _ _ _ d_nonempty (temp_name_plain _ _ Hc Hrnd)). by rewrite Hres, Hdir.
Qed.

Lemma same_dirs_ext s1 s2 : same_dirs s1 -> cwd s2 = cwd s1 -> nodes s2 = nodes s1 -> same_dirs s2.
Proof.
  intros [H1 H2] Hc' Hn. split; [congruence|]. intros k. rewrite (is_dir_at_ext s1) by done. apply H2.
Qed.

(** What is left of the target when a file of which only a prefix may be there is
    given up: it is gone, or the last [remove] has thrown. *)
Definition given_up (s' : fs) (x : io bool) : Prop :=
  cwd (fst x) = cwd s /\ (forall k, k <> target -> nodes (fst x) !! k = nodes s' !! k) /\
  (snd x = Ok false /\ nodes (fst x) !! target = None \/
   (exists s1, snd x = Throw (fs_error CallRemove s1 [full_path])) /\
   (nodes (fst x) !! target = nodes s' !! target \/ nodes (fst x) !! target = None)).

Lemma give_up_target s' :
  same_dirs s' -> is_dir_at s target = false -> given_up s' (give_up_on s' full_path).
Proof.
  intros Hs Ht. unfold give_up_on. destruct (remove s' full_path) as [s1 r] eqn:Er.
  destruct (remove_cases s' full_path target r s1) as [Hcw Hcase];
    [by apply resolve_full|by rewrite (proj2 Hs)|done|].
  assert (cwd s1 = cwd s) as Hc1 by (rewrite Hcw; apply Hs).
  destruct Hcase as [[-> Hn]|(s2 & -> & Hn)]; unfold given_up; cbn [io_bind fst snd]; rewrite Hn; split_and!; try done.
  - intros k Hk. by rewrite lookup_delete_ne.
  - left. by rewrite lookup_delete_eq.
  - right. split; [by eexists|by left].
Qed.

(** The same from a later state. *)
Lemma given_up_after s1 s2 x :
  (forall k, k <> target -> nodes s2 !! k = nodes s1 !! k) ->
  nodes s2 !! target = nodes s1 !! target \/ nodes s2 !! target = None ->
  given_up s2 x -> given_up s1 x.
Proof.
  intros Hk Ht (Hcw & Hk' & Hx). split_and!; [done|by intros k Hne; rewrite Hk', Hk|].
  destruct Hx as [?|[He Hx]]; [by left|]. right. split; [done|].
  destruct Hx as [-> | ->]; [|by right]. destruct Ht as [-> | ->]; auto.
Qed.

Lemma drop_written_target s' :
  same_dirs s' -> is_dir_at s target = false -> given_up s' (drop_written s' full_path).
Proof.
  intros Hs Ht. unfold drop_written. destruct (remove s' full_path) as [s1 r] eqn:Er.
  destruct (remove_cases s' full_path target r s1) as [Hcw Hcase];
    [by apply resolve_full|by rewrite (proj2 Hs)|done|]. cbn [io_try].
  destruct Hcase as [[-> Hn]|(s2 & -> & Hn)].
  - assert (same_dirs s1) as Hs1.
    { split; [rewrite Hcw; apply Hs|]. intros k. rewrite <- (proj2 Hs). unfold is_dir_at. rewrite Hn.
      destruct (decide (target = k)) as [<-|Hk]; [|by rewrite lookup_delete_ne].
      pose proof (proj2 Hs target) as Htd. rewrite Ht in Htd. unfold is_dir_at in Htd. rewrite Htd.
      rewrite lookup_delete_eq. by apply bool_decide_false. }
    destruct (file_size s1 full_path) as [s2 r2] eqn:Ef.
    apply file_size_cases in Ef as (Hn2 & Hc2 & [(d0 & Hd0 & _)| ->]).
    { rewrite (lookup_path_at _ _ _ (resolve_full _ Hs1)), Hn, lookup_delete_eq in Hd0. done. }
    apply (given_up_after s' s2); [..|apply give_up_target; [by apply (same_dirs_ext s1)|done]].
    + intros k Hk. by rewrite Hn2, Hn, lookup_delete_ne.
    + right. by rewrite Hn2, Hn, lookup_delete_eq.
  - apply (given_up_after s' s1); [by rewrite Hn|left; by rewrite Hn|].
    apply give_up_target; [by apply (same_dirs_ext s')|done].
Qed.

Lemma verify_written_target s' x :
  same_dirs s' -> is_dir_at s target = false -> nodes s' !! target = Some (File x) ->
  let r := verify_written s' full_path data in
  (length x = length data /\ snd r = Ok true /\ nodes (fst r) = nodes s' /\ cwd (fst r) = cwd s \/
   given_up s' r) /\
  (faults s' = [] -> length x = length data -> snd r = Ok true).
Proof.
  intros Hs Ht Hx. pose proof (lookup_path_at _ _ _ (resolve_full _ Hs)) as Hl. rewrite Hx in Hl.
  unfold verify_written. split.
  - destruct (fs_status s' full_path) as [s1 r1] eqn:E1. apply fs_status_cases in E1 as (Hn1 & Hc1 & Hr1).
    assert (same_dirs s1) as Hs1 by by apply (same_dirs_ext s').
    rewrite Hl in Hr1. destruct Hr1 as [-> | ->]; cbn [io_try].
    2: { right. apply (given_up_after s' s1); [by rewrite Hn1|left; by rewrite Hn1|by apply give_up_target]. }
    destruct (file_size s1 full_path) as [s2 r2] eqn:E2. apply file_size_cases in E2 as (Hn2 & Hc2 & Hr2).
    assert (same_dirs s2) as Hs2 by by apply (same_dirs_ext s1).
    destruct Hr2 as [(d0 & Hd0 & ->)| ->]; cbn [io_try].
    2: { right. apply (given_up_after s' s2); [by rewrite Hn2, Hn1|left; by rewrite Hn2, Hn1|by apply give_up_target]. }
    rewrite (lookup_path_ext s' s1), Hl in Hd0 by done. injection Hd0 as <-. case_decide as Hlen.
    + left. split_and!; [lia|done|by rewrite <- Hn1|]. cbn [fst]. apply Hs2.
    + right. apply (given_up_after s' s2); [by rewrite Hn2, Hn1|left; by rewrite Hn2, Hn1|by apply drop_written_target].
  - intros Hf Hlen. unfold fs_status. rewrite ask_clean by done. rewrite Hl. cbn [io_try].
    rewrite (file_size_clean _ _ _ Hf Hl). cbn [io_try]. by rewrite decide_True by lia.
Qed.

(** What [write_new] leaves: the file complete and no temporary file; or the old file or
    none; or, when a [remove] has thrown, possibly a prefix of the data. Nothing else is
    touched. *)
Definition written_or_not (s' : fs) (r : outcome bool) : Prop :=
  cwd s' = cwd s /\ (forall k, k <> target -> k <> temp -> nodes s' !! k = nodes s !! k) /\
  match r with
  | Ok true => nodes s' !! target = Some (File data) /\ nodes s' !! temp = None /\ is_dir_at s temp = false
  | Ok false => nodes s' !! target = nodes s !! target \/ nodes s' !! target = None
  | Throw e => (exists s1, e = fs_error CallRemove s1 [full_path]) /\
      (nodes s' !! target = nodes s !! target \/ nodes s' !! target = None \/
       exists n, nodes s' !! target = Some (File (take n data)))
  end.

Lemma given_up_written s2 x :
  (forall k, k <> target -> k <> temp -> nodes s2 !! k = nodes s !! k) ->
  nodes s2 !! target = nodes s !! target \/ (exists n, nodes s2 !! target = Some (File (take n data))) ->
  given_up s2 x -> written_or_not (fst x) (snd x).
Proof.
  intros Hk Ht (Hcw & Hk' & Hx). split_and!; [done|by intros k H1 H2; rewrite Hk', Hk|].
  destruct Hx as [[-> Hx]|[[s1 ->] Hx]]; [by right|]. split; [by eexists|].
  destruct Hx as [-> | ->]; [|by auto]. destruct Ht as [-> | ?]; auto.
Qed.

Lemma renamed_dirs s2 s3 x :
  same_dirs s2 -> is_dir_at s target = false -> is_dir_at s2 temp = false -> cwd s3 = cwd s2 ->
  nodes s3 = <[target := File x]> (delete temp (nodes s2)) -> same_dirs s3.
Proof.
  intros Hs2 Ht Htmp Hc3 Hn. split; [rewrite Hc3; apply Hs2|]. intros k.
  unfold is_dir_at at 1. rewrite Hn. destruct (decide (k = target)) as [->|Hk].
  - rewrite lookup_insert_eq, Ht. by apply bool_decide_false.
  - rewrite lookup_insert_ne by done. destruct (decide (k = temp)) as [->|Hk'].
    + rewrite lookup_delete_eq, <- (proj2 Hs2), Htmp. by apply bool_decide_false.
    + rewrite lookup_delete_ne by done. apply Hs2.
Qed.

Lemma rename_outcome s2 n :
  same_dirs s2 -> is_dir_at s target = false -> is_dir_at s temp = false ->
  nodes s2 = <[temp := File (take n data)]> (nodes s) ->
  let r := io_try (rename s2 temp_path full_path) full_path (fun s3 _ => verify_written s3 full_path data) in
  written_or_not (fst r) (snd r) /\ (faults s2 = [] -> take n data = data -> snd r = Ok true).
Proof.
  intros Hs2 Ht Htmp Hn2. pose proof temp_target as Hne.
  destruct (rename s2 temp_path full_path) as [s3 r] eqn:Er.
  destruct (rename_cases s2 _ _ temp target (take n data) r s3 (resolve_temp _ Hs2) (resolve_full _ Hs2))
    as (Hc3 & Hcase & Hclean); [|..|exact Er|].
  { by rewrite Hn2, lookup_insert_eq. }
  { unfold target. rewrite parent_loc_snoc, (proj2 Hs2). done. }
  { by rewrite (proj2 Hs2). }
  destruct Hcase as [[[e ->] Hn3]|[-> Hn3]]; cbn [io_try].
  - split; [|intros Hf; by destruct (Hclean Hf)].
    apply (given_up_written s3); [|left|apply give_up_target; [by apply (same_dirs_ext s2)|done]].
    + intros k Hk1 Hk2. by rewrite Hn3, Hn2, lookup_insert_ne.
    + by rewrite Hn3, Hn2, lookup_insert_ne.
  - assert (same_dirs s3) as Hs3.
    { eapply (renamed_dirs s2 s3 _ Hs2 Ht); [by rewrite (proj2 Hs2)|done|done]. }
    assert (nodes s3 !! target = Some (File (take n data))) as Hx by by rewrite Hn3, lookup_insert_eq.
    assert (forall k, k <> target -> k <> temp -> nodes s3 !! k = nodes s !! k) as Hk.
    { intros k Hk1 Hk2. rewrite Hn3, Hn2, lookup_insert_ne, lookup_delete_ne by done.
      by rewrite lookup_insert_ne. }
    destruct (verify_written_target s3 _ Hs3 Ht Hx) as [Hv Hok]. split.
    + destruct Hv as [(Hl & -> & Hn5 & Hc5)|Hg].
      * assert (take n data = data) as Hxd by (rewrite length_take in Hl; apply take_ge; lia).
        split_and!; [done|by intros; rewrite Hn5, Hk|by rewrite Hn5, Hx, Hxd| |done].
        by rewrite Hn5, Hn3, lookup_insert_ne, lookup_delete_eq.
      * by apply (given_up_written s3); [|right; eexists|].
    + intros Hf Hd'. destruct (Hclean Hf) as [_ Hf3]. apply Hok; [done|by rewrite Hd'].
Qed.

(** The temporary file is dropped after a failed write. *)
Lemma drop_temp_outcome s2 n :
  same_dirs s2 -> is_dir_at s target = false -> is_dir_at s temp = false ->
  nodes s2 = <[temp := File (take n data)]> (nodes s) ->
  let r := io_try (remove s2 temp_path) full_path (fun s3 _ => (s3, Ok false)) in
  written_or_not (fst r) (snd r).
Proof.
  intros Hs2 Ht Htmp Hn2. pose proof temp_target as Hne.
  destruct (remove s2 temp_path) as [s3 r] eqn:Er.
  destruct (remove_cases s2 temp_path temp r s3 (resolve_temp _ Hs2)) as [Hc3 Hcase];
    [by rewrite (proj2 Hs2)|done|].
  destruct Hcase as [[-> Hn3]|(s4 & -> & Hn3)]; cbn [io_try].
  - split_and!; [cbn [fst]; rewrite Hc3; apply Hs2| |left].
    + intros k Hk1 Hk2. cbn [fst]. by rewrite Hn3, Hn2, lookup_delete_ne, lookup_insert_ne.
    + cbn [fst]. by rewrite Hn3, Hn2, lookup_delete_ne, lookup_insert_ne.
  - apply (given_up_written s3); [|left|apply give_up_target; [by apply (same_dirs_ext s2)|done]].
    + intros k Hk1 Hk2. by rewrite Hn3, Hn2, lookup_insert_ne.
    + by rewrite Hn3, Hn2, lookup_insert_ne.
Qed.

Lemma write_new_outcome :
  is_dir_at s target = false ->
  let x := write_new rnd s full_path data in
  written_or_not (fst x) (snd x) /\ (faults s = [] -> is_dir_at s temp = false -> snd x = Ok true).
Proof.
  intros Ht. pose proof temp_target as Hne. unfold write_new.
  rewrite parent_path_app by (done || apply Hc).
  destruct (create_directories_existing s d loc Hres Hdir) as (Hn1 & Hc1 & Hf1).
  destruct (create_directories s d) as [s1 ok] eqn:E1. simpl in Hn1, Hc1.
  assert (same_dirs s1) as Hs1 by by apply same_dirs_nodes.
  assert (faults s = [] -> is_dir_at s temp = false ->
          write_file s1 temp_path data = (set_nodes (<[temp := File data]> (nodes s)) s, Written)) as Hwc.
  { intros Hf Htd. specialize (Hf1 Hf). injection Hf1 as -> _.
    apply (write_file_clean _ _ _ _ Hf (resolve_temp _ Hs1)); [|done].
    unfold temp. by rewrite parent_loc_snoc. }
  destruct (write_file s1 temp_path data) as [s2 r] eqn:E2.
  destruct (write_file_cases _ _ _ _ _ _ (resolve_temp _ Hs1) E2)
    as [Hc2 [[-> Hn2]|(Hr & Htmp & n & Hn2)]].
  - cbn [fst snd]. split.
    + unfold written_or_not. rewrite Hn2, Hn1. split_and!; [by rewrite Hc2, Hc1|done|]. by left.
    + intros Hf Htd. by specialize (Hwc Hf Htd).
  - rewrite Hn1 in Hn2. rewrite (proj2 Hs1) in Htmp.
    assert (same_dirs s2) as Hs2.
    { split; [by rewrite Hc2, Hc1|]. intros k. rewrite <- (insert_file_dirs s temp (take n data) k Htmp).
      unfold is_dir_at. by rewrite Hn2. }
    destruct r; [done| |].
    + split; [by apply (drop_temp_outcome s2 n)|]. intros Hf Htd. by specialize (Hwc Hf Htd).
    + destruct (rename_outcome s2 n Hs2 Ht Htmp Hn2) as [Hw Hb]. split; [done|]. intros Hf Htd.
      specialize (Hwc Hf Htd). injection Hwc as ->. apply Hb; [done|]. simpl in Hn2.
      apply (f_equal (fun m => m !! temp)) in Hn2. rewrite !lookup_insert_eq in Hn2. congruence.
Qed.

End WriteDisk.

(** A state that differs only in the faults ahead. *)
Lemma written_or_not_ext s s1 d c data loc rnd s' r :
  nodes s1 = nodes s -> cwd s1 = cwd s ->
  written_or_not s1 d c data loc rnd s' r -> written_or_not s d c data loc rnd s' r.
Proof.
  intros Hn Hc. unfold written_or_not. rewrite Hn, Hc. by rewrite (is_dir_at_ext s s1).
Qed.

Section WholeWrite.
Context (s : fs) (d c data : str) (loc : list str) (rnd : Z).
Context (Hd : has_filename d = true) (Hc : plain c) (Hrnd : (0 <= rnd)%Z).
Context (Hres : resolve s d = Some loc) (Hdir : is_dir_at s loc = true).

Abbreviation full_path := (d ++ SLASH :: c).
Abbreviation target := (target c loc).
Abbreviation temp := (temp c loc rnd).

Lemma write_new_later s1 :
  nodes s1 = nodes s -> cwd s1 = cwd s -> is_dir_at s target = false ->
  let x := write_new rnd s1 full_path data in
  written_or_not s d c data loc rnd (fst x) (snd x) /\
  (faults s1 = [] -> is_dir_at s temp = false -> snd x = Ok true).
Proof.
  intros Hn Hcw Ht.
  destruct (write_new_outcome s1 d c data loc rnd Hd Hc Hrnd) as [Hw Hb].
  - rewrite <- Hres. apply resolve_dirs; [done|]. intros k. by apply is_dir_at_ext.
  - by rewrite (is_dir_at_ext s).
  - by rewrite (is_dir_at_ext s).
  - split; [by apply (written_or_not_ext s s1)|]. intros Hf Htd. apply Hb; [done|]. by rewrite (is_dir_at_ext s).
Qed.

(** [write_disk] as a whole, on a target that is not a directory: it ends at its first
    check, which has found a file of this size or has thrown, or it writes. *)
Lemma write_disk_outcome :
  is_dir_at s target = false ->
  let x := write_disk rnd s full_path data in
  (nodes (fst x) = nodes s /\ cwd (fst x) = cwd s /\
   (snd x = Ok true /\ (exists y, nodes s !! target = Some (File y) /\ length y = length data) \/
    exists call s1, snd x = Throw (fs_error call s1 [full_path]) /\ (call = CallStatus \/ call = CallFileSize)) \/
   written_or_not s d c data loc rnd (fst x) (snd x) /\
   (forall y, nodes s !! target = Some (File y) -> length y <> length data)) /\
  (faults s = [] -> is_dir_at s temp = false -> snd x = Ok true).
Proof.
  intros Ht. pose proof (resolve_full s d c loc Hd Hc Hres Hdir s (same_dirs_nodes s s eq_refl eq_refl)) as Hf.
  pose proof (lookup_path_at _ _ _ Hf) as Hl. unfold write_disk. split.
  - destruct (exists_path s full_path) as [s1 r1] eqn:E1. apply exists_path_cases in E1 as (Hn1 & Hc1 & Hr1).
    destruct Hr1 as [-> | ->]; cbn [io_bind].
    2: { left. cbn [fst snd]. split_and!; [done..|]. right. exists CallStatus, s1. auto. }
    rewrite Hl. case_bool_decide as Hex.
    2: { right. split; [by apply write_new_later|]. intros y Hy. destruct Hex. by rewrite Hy. }
    destruct (file_size s1 full_path) as [s2 r2] eqn:E2. apply file_size_cases in E2 as (Hn2 & Hc2 & Hr2).
    destruct Hr2 as [(y & Hy & ->)| ->]; cbn [io_bind].
    2: { left. cbn [fst snd]. split_and!; [congruence..|]. right. exists CallFileSize, s2. auto. }
    rewrite (lookup_path_ext s s1), Hl in Hy by done. case_decide as Hlen.
    + left. cbn [fst snd]. split_and!; [congruence..|]. left. split; [done|]. exists y. split; [done|lia].
    + right. split; [apply write_new_later; congruence|]. intros z Hz. rewrite Hy in Hz. injection Hz as <-. lia.
  - intros Hff Htd. rewrite exists_path_clean, Hl by done. cbn [io_bind].
    destruct (write_new_later s eq_refl eq_refl Ht) as [_ Hb]. case_bool_decide as Hex; [|by apply Hb].
    apply bool_decide_eq_false in Ht. destruct (nodes s !! target) as [[|y]|] eqn:E; [done| |by destruct Hex].
    rewrite (file_size_clean _ _ y) by done. cbn [io_bind]. case_decide; [done|by apply Hb].
Qed.

(** On a directory it throws from its first check. *)
Lemma write_disk_directory :
  is_dir_at s target = true ->
  exists call s1, snd (write_disk rnd s full_path data) = Throw (fs_error call s1 [full_path]) /\
    (faults s = [] -> write_disk rnd s full_path data = (s, Throw (fs_error CallFileSize s [full_path]))).
Proof.
  intros Ht. pose proof (resolve_full s d c loc Hd Hc Hres Hdir s (same_dirs_nodes s s eq_refl eq_refl)) as Hf.
  pose proof (lookup_path_at _ _ _ Hf) as Hl. apply bool_decide_eq_true in Ht. rewrite Ht in Hl. unfold write_disk.
  assert (faults s = [] ->
    io_bind (exists_path s full_path) (fun s there => if (there : bool) then
      io_bind (file_size s full_path) (fun s n => if decide (n = Z.of_nat (length data)) then (s, Ok true)
        else write_new rnd s full_path data) else write_new rnd s full_path data) =
    (s, Throw (fs_error CallFileSize s [full_path]))) as Hclean.
  { intros Hff. rewrite exists_path_clean, Hl by done. cbn [io_bind bool_decide].
    unfold file_size. by rewrite ask_clean, Hl by done. }
  destruct (exists_path s full_path) as [s1 r1] eqn:E1. apply exists_path_cases in E1 as (Hn1 & Hc1 & Hr1).
  destruct Hr1 as [-> | ->]; cbn [io_bind] in *; [|by eexists _, _].
  rewrite Hl in *. cbn [bool_decide] in *. destruct (file_size s1 full_path) as [s2 r2] eqn:E2.
  apply file_size_cases in E2 as (Hn2 & Hc2 & Hr2). rewrite (lookup_path_ext s s1), Hl in Hr2 by done.
  destruct Hr2 as [(y & [=] & _)| ->]; cbn [io_bind] in *. by eexists _, _.
Qed.

Lemma written_same_dirs s' :
  is_dir_at s target = false -> written_or_not s d c data loc rnd s' (Ok true) -> same_dirs s s'.
Proof.
  intros Ht (Hcw & Hk & H1 & H2 & H3). split; [done|].
  intros k. unfold is_dir_at at 1. destruct (decide (k = target)) as [->|Hk1].
  { rewrite H1, Ht. by apply bool_decide_false. }
  destruct (decide (k = temp)) as [->|Hk2]; [|by rewrite Hk].
  rewrite H2, H3. by apply bool_decide_false.
Qed.
End WholeWrite.

(** ** Saving and reading back *)

(** The directory and the name of a stored file. *)
Definition file_dir (root scene h : str) : str :=
  root ++ SLASH :: scene ++ SLASH :: take 2 h ++ SLASH :: take 2 (drop 2 h).

Definition file_name (h ext : str) : str := h ++ ext.

Definition stored_path (scene h ext : str) : str := path_append scene (sharded h ++ ext).

(** A text digest: 32 bytes without a slash. *)
Definition digest_ok (h : str) : Prop := length h = 32 /\ (SLASH ∉ h).

Lemma digest_take h : digest_ok h -> exists a b c d h', h = a :: b :: c :: d :: h' /\
  a <> SLASH /\ b <> SLASH /\ c <> SLASH /\ d <> SLASH.
Proof.
  intros [Hl Hs]. destruct h as [|a [|b [|c [|d h]]]]; try done.
  rewrite !not_elem_of_cons in Hs. destruct Hs as (? & ? & ? & ? & _). by exists a, b, c, d, h.
Qed.

Lemma sharded_relative h ext : digest_ok h -> is_absolute (sharded h ++ ext) = false.
Proof.
  intros (a & b & c & d & h' & -> & Ha & _)%digest_take. unfold sharded. simpl.
  rewrite is_absolute_cons. by apply bool_decide_false.
Qed.

Lemma abs_file_path root scene h ext :
  has_filename root = true -> plain scene -> digest_ok h ->
  path_append (path_append root scene) (sharded h ++ ext) =
    file_dir root scene h ++ SLASH :: file_name h ext /\
  path_append root (stored_path scene h ext) = file_dir root scene h ++ SLASH :: file_name h ext.
Proof.
  intros Hr Hs Hh. pose proof (sharded_relative h ext Hh) as Hrel.
  assert (is_absolute scene = false) as Hsr by apply is_absolute_fresh, Hs.
  assert (has_filename scene = true) as Hsf by (apply has_filename_fresh; apply Hs).
  assert (scene <> []) as Hne by apply Hs.
  assert (sharded h ++ ext = take 2 h ++ SLASH :: take 2 (drop 2 h) ++ SLASH :: file_name h ext) as Hsh.
  { unfold sharded, file_name. by rewrite <- !app_assoc, <- !app_comm_cons, <- !app_assoc. }
  unfold stored_path, file_dir. split.
  - rewrite (path_append_name root scene) by done. rewrite path_append_name; [|  |done].
    + rewrite Hsh. by rewrite <- !app_assoc, <- !app_comm_cons, <- !app_assoc, <- !app_comm_cons, <- !app_assoc.
    + change (root ++ SLASH :: scene) with (root ++ [SLASH] ++ scene).
      rewrite app_assoc. by rewrite has_filename_app.
  - rewrite (path_append_name scene) by done. rewrite path_append_name; [|done|].
    + rewrite Hsh. by rewrite <- !app_assoc, <- !app_comm_cons, <- !app_assoc, <- !app_comm_cons, <- !app_assoc.
    + destruct scene; [done|]. rewrite <- app_comm_cons, is_absolute_cons in *. done.
Qed.

Lemma file_dir_filename root scene h : digest_ok h -> has_filename (file_dir root scene h) = true.
Proof.
  intros (a & b & c & d & h' & -> & Ha & Hb & Hc & Hd)%digest_take. unfold file_dir. cbn [take drop].
  rewrite take_0. change (root ++ SLASH :: scene ++ SLASH :: [a; b] ++ SLASH :: [c; d])
    with (root ++ (SLASH :: scene) ++ [SLASH; a; b; SLASH] ++ [c; d]).
  rewrite !app_assoc. rewrite has_filename_app by done. apply has_filename_fresh; [|done].
  rewrite !not_elem_of_cons. auto using not_elem_of_nil.
Qed.

Lemma file_name_plain h filename : digest_ok h -> plain (file_name h (path_extension filename)).
Proof.
  intros [Hl Hs]. unfold file_name.
  split_and!; [intros H%(f_equal length); rewrite length_app, Hl in H; simpl in H; lia..|].
  rewrite elem_of_app. intros [?|?]; [done|by eapply path_extension_slash].
Qed.

Lemma read_disk_file s p l data :
  faults s = [] -> resolve s p = Some l -> nodes s !! l = Some (File data) ->
  read_disk s p = (s, Some data).
Proof.
  intros Hf Hl Hn. pose proof (lookup_path_at _ _ _ Hl) as Hp. rewrite Hn in Hp.
  unfold read_disk. rewrite exists_path_clean, Hp by done. cbn [no_throw negb bool_decide].
  unfold is_regular_file, fs_status. rewrite ask_clean, Hp by done. cbn [io_bind no_throw negb].
  rewrite (file_size_clean _ _ _ Hf Hp). case_decide as H; [by destruct data|].
  unfold read_file. by rewrite next_fault_clean, Hp.
Qed.

Section SaveFile.
Context {M : Md5Lib} {O : DirOrder} (config_ : StoreConfig).

(** What a successful [save_file] leaves on disk. *)
Lemma save_file_saved rnd s filename data scene h s' p :
  has_filename (root_dir config_) = true -> plain scene -> digest_ok h -> (0 <= rnd)%Z ->
  save_file config_ rnd s filename data scene h = (s', Ok (Some p)) ->
  p = stored_path scene h (path_extension filename) /\
  ((forall l, resolve s' (path_append (root_dir config_) p) = Some l -> nodes s !! l = None) ->
   lookup_path s' (path_append (root_dir config_) p) = Some (File data)).
Proof.
  intros Hr Hs Hh Hrnd. unfold save_file.
  rewrite decide_False by (intros ->; destruct Hh as [? _]; done).
  rewrite md5_to_rel_path_ok by (destruct Hh; done || lia). cbn [io_bind].
  set (ext := path_extension filename).
  destruct (abs_file_path (root_dir config_) scene h ext Hr Hs Hh) as [Ha Hp]. rewrite Ha.
  set (d := file_dir (root_dir config_) scene h) in *. set (c := file_name h ext) in *.
  assert (has_filename d = true) as Hd by by apply file_dir_filename.
  assert (plain c) as Hc by by apply file_name_plain.
  destruct (exists_path s (d ++ SLASH :: c)) as [s0 r0] eqn:E0.
  apply exists_path_cases in E0 as (Hn0 & Hc0 & [-> | ->]); [|done]. cbn [io_bind].
  case_bool_decide as Hex.
  { intros [= <- <-]. fold (stored_path scene h ext). rewrite Hp. split; [done|].
    intros Hnone. rewrite <- (lookup_path_ext s s0) in Hex by done. unfold lookup_path in Hex.
    destruct (resolve s0 (d ++ SLASH :: c)) as [l|]; [|by destruct Hex].
    rewrite Hn0, Hnone in Hex by done. by destruct Hex. }
  rewrite parent_path_app by (done || apply Hc).
  destruct (create_directories s0 d) as [s1 [|]] eqn:E1; [|done]. cbn [negb].
  pose proof (create_directories_only s0 d) as Honly. rewrite E1, Hn0 in Honly. simpl in Honly.
  apply create_directories_walk in E1 as (_ & loc & Hres & Hdir).
  destruct (is_dir_at s1 (target c loc)) eqn:Ht.
  { destruct (write_disk_directory s1 d c data loc rnd Hd Hc Hres Hdir Ht) as (call & s2 & Hw & _).
    destruct (write_disk _ _ _ _) as [s3 r3]. cbn [snd] in Hw. by subst r3. }
  destruct (write_disk_outcome s1 d c data loc rnd Hd Hc Hrnd Hres Hdir Ht) as [Hcase _].
  destruct (write_disk _ _ _ _) as [s2 [[]|e]]; cbn [io_bind fst snd] in *; [|done..].
  intros [= <- <-]. split; [done|]. fold (stored_path scene h ext). rewrite Hp. intros Hnone.
  destruct Hcase as [(Hn2 & Hc2 & [(_ & x & Hx & _)|(call & s3 & [=] & _)])|(Hw & _)].
  - exfalso. pose proof (resolve_full s1 d c loc Hd Hc Hres Hdir s2
      (same_dirs_nodes s1 s2 Hc2 Hn2)) as Hres1.
    specialize (Hnone _ Hres1). destruct (Honly (target c loc)) as [H|[_ H]]; congruence.
  - pose proof (written_same_dirs s1 d c data loc rnd s2 Ht Hw) as Hsd.
    pose proof (resolve_full s1 d c loc Hd Hc Hres Hdir s2 Hsd) as Hres2.
    rewrite (lookup_path_at _ _ _ Hres2). by apply Hw.
Qed.

End SaveFile.

(** The same disk with no faults ahead. *)
Definition no_faults (s : fs) : fs := {| nodes := nodes s; cwd := cwd s; faults := [] |}.

Lemma resolve_no_faults s p : resolve (no_faults s) p = resolve s p.
Proof. by apply resolve_dirs. Qed.

Lemma resolve_dot s p l :
  p <> [] -> resolve s p = Some l -> is_dir_at s l = true ->
  resolve s (p ++ SLASH :: [DOT]) = Some l.
Proof.
  unfold resolve. intros Hp. assert (p ++ SLASH :: [DOT] <> []) as Hne by by destruct p.
  rewrite (decide_False (P := p = [])), (decide_False (P := p ++ _ = [])) by done.
  intros Hw Hd. rewrite split_on_app_any, walk_app, start_loc_app, Hw by done. simpl. by rewrite Hd.
Qed.

Lemma get_file_lookup config_ s p data :
  lookup_path s (path_append (root_dir config_) p) = Some (File data) ->
  get_file config_ (no_faults s) p = (no_faults s, Ok (Some data)).
Proof.
  intros Hl. unfold lookup_path in Hl. destruct (resolve s _) as [l|] eqn:El; [|done].
  assert (lookup_path (no_faults s) (path_append (root_dir config_) p) = Some (File data)) as Hp.
  { rewrite (lookup_path_at _ _ l); [done|by rewrite resolve_no_faults]. }
  unfold get_file, is_regular_file, fs_status. rewrite exists_path_clean, Hp by done. cbn [io_bind negb bool_decide].
  rewrite ask_clean by done. rewrite Hp. cbn [io_bind negb].
  erewrite read_disk_file; [done|done|by rewrite resolve_no_faults|exact Hl].
Qed.

(** On a path that names a directory [write_disk] leaves with a [filesystem_error]
    from its first check, outside its handlers; so does saving a chunk whose name is
    a dot. *)
Lemma save_file_at_dot config_ rnd s data dir s1 :
  faults s = [] ->
  has_filename (root_dir config_) = true -> is_absolute dir = false -> has_filename dir = true ->
  find0 (lit "..") (dir ++ lit "/.") = None ->
  create_directories s (root_dir config_ ++ SLASH :: dir) = (s1, true) ->
  save_file_at config_ rnd s data (dir ++ lit "/.") =
    (s1, Throw (fs_error CallFileSize s1 [(root_dir config_ ++ SLASH :: dir) ++ SLASH :: [DOT]])).
Proof.
  intros Hf Hr Hrel Hfn Hdd Hcd. unfold save_file_at. rewrite find_0, Hdd. cbn [bool_decide].
  assert (dir <> []) as Hne by by destruct dir.
  assert (path_append (root_dir config_) (dir ++ lit "/.") =
          (root_dir config_ ++ SLASH :: dir) ++ SLASH :: [DOT]) as Hp.
  { rewrite path_append_name; [|done|]. 2: { destruct dir; [done|]. by rewrite <- app_comm_cons, is_absolute_cons in *. }
    by rewrite <- app_assoc, <- app_comm_cons. }
  rewrite Hp, parent_path_app, Hcd; [| |by_decide].
  2: { change (root_dir config_ ++ SLASH :: dir) with (root_dir config_ ++ [SLASH] ++ dir).
       rewrite app_assoc. by rewrite has_filename_app. }
  assert (faults s1 = []) as Hf1.
  { change s1 with (fst (s1, true)). rewrite <- Hcd. by apply create_directories_faults. }
  apply create_directories_walk in Hcd as (_ & loc & Hres & Hdir). cbn [negb].
  assert (lookup_path s1 ((root_dir config_ ++ SLASH :: dir) ++ SLASH :: [DOT]) = Some Dir) as Hl.
  { unfold lookup_path. rewrite (resolve_dot s1 _ loc) by (done || by destruct (root_dir config_)).
    by apply bool_decide_eq_true in Hdir. }
  unfold write_disk, file_size. rewrite exists_path_clean, Hl by done. cbn [io_bind bool_decide].
  by rewrite ask_clean, Hl by done.
Qed.

(** ** Chunk files *)

Section Chunks.
Context {O : DirOrder}.

Lemma chunk_numbers_elem es i :
  i ∈ chunk_numbers es <-> exists c x, (c, File x) ∈ es /\ stoi c = Ok i.
Proof.
  unfold chunk_numbers. rewrite list_elem_of_omap. split.
  - intros ([c [|x]] & Hin & Hm); simpl in Hm; [done|].
    destruct (stoi c) as [j|] eqn:E; [|done]. injection Hm as ->. eauto.
  - intros (c & x & Hin & Hs). exists (c, File x). split; [done|]. simpl. by rewrite Hs.
Qed.

(** The numbers in the names of the files of a directory, in the order of the listing. *)
Definition shard_numbers (s : fs) (l : list str) : list Z := chunk_numbers (dir_order (entries_at s l)).

Lemma shard_numbers_elem s l i :
  i ∈ shard_numbers s l <-> exists c x, nodes s !! (l ++ [c]) = Some (File x) /\ stoi c = Ok i.
Proof. unfold shard_numbers. rewrite chunk_numbers_elem. by setoid_rewrite dir_entries_elem. Qed.

Lemma get_shard_index_clean s p l :
  faults s = [] -> resolve s p = Some l -> is_dir_at s l = true ->
  get_shard_index s p = (s, Ok (shard_numbers s l)).
Proof.
  intros Hf Hl Hd. pose proof (lookup_path_at _ _ _ Hl) as Hp. pose proof Hd as Hd'.
  apply bool_decide_eq_true in Hd'. rewrite Hd' in Hp.
  unfold get_shard_index, is_directory, fs_status. rewrite exists_path_clean, Hp by done.
  cbn [io_bind negb bool_decide]. rewrite ask_clean, Hp by done. cbn [io_bind negb].
  rewrite bool_decide_true by done. cbn [negb]. by rewrite (directory_iterator_clean _ _ _ Hf Hl Hd).
Qed.

(** The number of a temporary file is the number of its chunk. *)
Lemma stoi_temp_name i rnd :
  (0 <= i < 2 ^ 31)%Z -> stoi (temp_name (to_string i) rnd) = Ok i.
Proof.
  intros Hi. unfold stoi, temp_name, to_string. rewrite decide_False by lia.
  rewrite read_int_dec_app; [|lia|by intros c [= <-]]. by rewrite decide_True by lia.
Qed.
End Chunks.

(** * Properties *)

(** C4: [write_disk] below an existing directory, onto a path that is not a directory,
    whatever call fails: it changes no location but the target and its temporary file.
    If it returns true the target holds the data (or already held a file of that size
    and nothing changed); if it returns false the target is as it was or gone, never
    partial. It throws only from its first check ([exists], [file_size]), with the disk
    unchanged, or from the [remove] of its handlers, and only then the target may hold
    a prefix of the data. Without a failure, and when no directory has the name of the
    temporary file, it returns true. *)
Theorem write_disk_atomic s d c data loc rnd :
  has_filename d = true -> plain c -> (0 <= rnd)%Z ->
  resolve s d = Some loc -> is_dir_at s loc = true -> is_dir_at s (target c loc) = false ->
  exists s' r, write_disk rnd s (d ++ SLASH :: c) data = (s', r) /\
    (forall k, k <> target c loc -> k <> temp c loc rnd -> nodes s' !! k = nodes s !! k) /\
    match r with
    | Ok true => nodes s' !! target c loc = Some (File data) \/
        (nodes s' = nodes s /\ exists x, nodes s !! target c loc = Some (File x) /\ length x = length data)
    | Ok false => nodes s' !! target c loc = nodes s !! target c loc \/ nodes s' !! target c loc = None
    | Throw e =>
        (exists call s1, e = fs_error call s1 [d ++ SLASH :: c] /\
           (call = CallStatus \/ call = CallFileSize) /\ nodes s' = nodes s) \/
        (exists s1, e = fs_error CallRemove s1 [d ++ SLASH :: c] /\
           (nodes s' !! target c loc = nodes s !! target c loc \/ nodes s' !! target c loc = None \/
            exists n, nodes s' !! target c loc = Some (File (take n data))))
    end /\
    (faults s = [] -> is_dir_at s (temp c loc rnd) = false -> r = Ok true).
Proof.
  intros Hd Hc Hr Hres Hdir Ht.
  destruct (write_disk_outcome s d c data loc rnd Hd Hc Hr Hres Hdir Ht) as [Hcase Hclean].
  destruct (write_disk rnd s (d ++ SLASH :: c) data) as [s' r]. cbn [fst snd] in *. exists s', r.
  destruct Hcase as [(Hn & _ & [(-> & Hx)|(call & s1 & -> & Hcall)])|((_ & Hk & Hw) & _)].
  - split_and!; [done|by intros; rewrite Hn| |done]. by right.
  - split_and!; [done|by intros; rewrite Hn| |done]. left. eauto.
  - split_and!; [done|done| |done]. destruct r as [[]|e]; [left; apply Hw|done|].
    right. destruct Hw as [[s1 ->] Hw]. eauto.
Qed.

(** Without I/O faults, [write_disk] of data over nothing or over a file of a
    different size returns true, leaves no temporary file, and [read_disk] then
    returns the data. *)
Theorem write_then_read s d c data loc rnd :
  has_filename d = true -> plain c -> (0 <= rnd)%Z ->
  resolve s d = Some loc -> is_dir_at s loc = true -> is_dir_at s (target c loc) = false ->
  is_dir_at s (temp c loc rnd) = false -> faults s = [] ->
  (forall x, nodes s !! target c loc = Some (File x) -> length x <> length data) ->
  exists s', write_disk rnd s (d ++ SLASH :: c) data = (s', Ok true) /\
    nodes s' !! temp c loc rnd = None /\
    snd (read_disk (no_faults s') (d ++ SLASH :: c)) = Some data.
Proof.
  intros Hd Hc Hr Hres Hdir Ht Htmp Hf Hne.
  destruct (write_disk_outcome s d c data loc rnd Hd Hc Hr Hres Hdir Ht) as [Hcase Hb].
  specialize (Hb Hf Htmp). destruct (write_disk _ _ _ _) as [s' r]. cbn [fst snd] in *. subst r.
  destruct Hcase as [(_ & _ & [(_ & x & Hx & Hl)|(? & ? & [=] & _)])|[Hwn _]]; [by destruct (Hne x Hx)|].
  exists s'. pose proof (written_same_dirs s d c data loc rnd s' Ht Hwn) as Hsd.
  destruct Hwn as (_ & _ & Hx & Hnt & _).
  split_and!; [done|done|]. erewrite read_disk_file; [done|done| |exact Hx].
  rewrite (resolve_no_faults s'). by apply (resolve_full s d c loc Hd Hc Hres Hdir).
Qed.

(** When the target already holds a file of the same size, [write_disk] returns
    true without writing: the old content stays although the new data differ. *)
Theorem write_disk_same_size_skips s p old data rnd :
  faults s = [] -> lookup_path s p = Some (File old) -> length old = length data ->
  write_disk rnd s p data = (s, Ok true).
Proof.
  intros Hf Hl Hn. unfold write_disk. rewrite exists_path_clean, Hl by done. cbn [io_bind bool_decide].
  rewrite (file_size_clean _ _ old) by done. cbn [io_bind]. by rewrite decide_True by lia.
Qed.

(** C17: a successful [save_file] of a digest (32 bytes without a slash) in a scene that
    is one plain name, below a root configured without a separator at its end, returns
    [scene/ab/cd/digest.ext], whether it wrote the file or found it; if nothing was
    stored at that location before, a [get_file] of the returned path whose calls
    succeed then gives the data back. *)
Theorem save_file_get_file `{Md5Lib} `{DirOrder} config_ rnd s filename data scene h s' p :
  has_filename (root_dir config_) = true -> plain scene -> digest_ok h -> (0 <= rnd)%Z ->
  save_file config_ rnd s filename data scene h = (s', Ok (Some p)) ->
  p = scene ++ SLASH :: sharded h ++ path_extension filename /\
  ((forall l, resolve s' (path_append (root_dir config_) p) = Some l -> nodes s !! l = None) ->
   get_file config_ (no_faults s') p = (no_faults s', Ok (Some data))).
Proof.
  intros Hr Hs Hh Hrnd Hsave.
  destruct (save_file_saved config_ rnd s filename data scene h s' p Hr Hs Hh Hrnd Hsave) as [Hp Hl]. split.
  - rewrite Hp. apply path_append_name; [apply has_filename_fresh; apply Hs|by apply sharded_relative].
  - intros Hnone. by apply get_file_lookup, Hl.
Qed.

(** [get_shard_index] of a directory lists the numbers at the front of the names
    of its regular files; a temporary file left by a failed upload of chunk [i] is
    therefore reported as chunk [i]. *)
Theorem get_shard_index_spec `{DirOrder} s p l :
  faults s = [] -> resolve s p = Some l -> is_dir_at s l = true ->
  exists js, get_shard_index s p = (s, Ok js) /\
  (forall i, i ∈ js <-> exists c x, nodes s !! (l ++ [c]) = Some (File x) /\ stoi c = Ok i) /\
  (forall i rnd x, (0 <= i < 2 ^ 31)%Z ->
     nodes s !! (l ++ [temp_name (to_string i) rnd]) = Some (File x) -> i ∈ js).
Proof.
  intros Hf Hl Hd. exists (shard_numbers s l). split; [by apply get_shard_index_clean|].
  split; [apply shard_numbers_elem|]. intros i rnd x Hr Hx. apply shard_numbers_elem.
  exists (temp_name (to_string i) rnd), x. split; [done|]. by apply stoi_temp_name.
Qed.

End FileStoreOps.

(** * Witnesses *)

Import PlainText.

(** An empty disk, and the same after the constructor. *)
Definition bare_disk : fs := {| nodes := {[ [] := Dir ]}; cwd := []; faults := [] |}.

Definition store_disk : fs :=
  match FileStore_new bare_disk default_StoreConfig with Ok s => s | Throw _ => bare_disk end.

Definition store_loc : list str := [lit "data"; lit "store"].

(** The disk of the store, with the given calls ahead. *)
Definition store_with (fs_ : list fault) : fs := {| nodes := nodes store_disk; cwd := []; faults := fs_ |}.

(** A disk that reports an error on the sixth call: the rename of [write_disk]. *)
Definition failing_disk : fs := store_with [Good; Good; Good; Good; Good; Bad 0].

Module ListOrder.
#[global] Instance list_dir_order : DirOrder.
Proof. refine {| dir_order l := l |}. done. Defined.
End ListOrder.

Lemma write_disk_atomic_witness :
  exists s', write_disk 123456 failing_disk (lit "./data/store" ++ SLASH :: lit "a") (lit "xyz") = (s', Ok false) /\
    (nodes s' !! target (lit "a") store_loc = nodes failing_disk !! target (lit "a") store_loc \/
     nodes s' !! target (lit "a") store_loc = None).
Proof.
  destruct (write_disk_atomic failing_disk (lit "./data/store") (lit "a") (lit "xyz") store_loc 123456)
    as (s' & r & Hw & _ & Hr & _); [reflexivity | by_decide | lia | vm_compute; reflexivity..|].
  assert (r = Ok false) as ->.
  { transitivity (snd (write_disk 123456 failing_disk (lit "./data/store" ++ SLASH :: lit "a") (lit "xyz")));
      [by rewrite Hw|vm_compute; reflexivity]. }
  exists s'. split; [exact Hw|exact Hr].
Defined.

(** A close that fails unseen and two failing [remove] calls: [write_disk] throws and
    leaves a part of the data under the name of the file. *)
Theorem write_disk_leaves_part :
  let x := write_disk 123456 (store_with [Good; Good; Good; Good; Bad 1; Good; Good; Good; Bad 0; Bad 0])
             (lit "./data/store/a") (lit "xyz") in
  (exists e, snd x = Throw e) /\ lookup_path (fst x) (lit "./data/store/a") = Some (File (lit "x")).
Proof. split; [eexists|]; vm_compute; reflexivity. Qed.

Lemma write_then_read_witness :
  exists s', write_disk 123456 store_disk (lit "./data/store" ++ SLASH :: lit "a") (lit "xyz") =
      (s', Ok true) /\
    nodes s' !! temp (lit "a") store_loc 123456 = None /\
    snd (read_disk (no_faults s') (lit "./data/store" ++ SLASH :: lit "a")) = Some (lit "xyz").
Proof.
  apply (write_then_read store_disk (lit "./data/store") (lit "a") (lit "xyz") store_loc 123456);
    [reflexivity | by_decide | lia | vm_compute; reflexivity..|].
  intros x. vm_compute. discriminate.
Defined.

(** The disk with a chunk [0] holding three bytes. *)
Definition chunk_disk : fs :=
  set_nodes (<[store_loc ++ [lit "_tmp"; lit "0"] := File (lit "old")]> (nodes store_disk)) store_disk.

Lemma write_disk_same_size_skips_witness :
  write_disk 123456 chunk_disk (lit "./data/store/_tmp/0") (lit "new") = (chunk_disk, Ok true).
Proof.
  apply (write_disk_same_size_skips chunk_disk _ (lit "old")); [reflexivity | vm_compute; reflexivity | reflexivity].
Defined.

Import PadMd5 ListOrder.

(** The state after saving a file in the scene [default]. *)
Definition saved_disk : fs :=
  fst (save_file default_StoreConfig 123456 store_disk (lit "a.txt") (lit "hello") (lit "default")
         (lit "1234567890abcdef1234567890abcdef")).

Lemma save_file_get_file_witness :
  get_file default_StoreConfig (no_faults saved_disk)
    (lit "default/12/34/1234567890abcdef1234567890abcdef.txt") = (no_faults saved_disk, Ok (Some (lit "hello"))).
Proof.
  refine (proj2 (save_file_get_file default_StoreConfig 123456 store_disk (lit "a.txt") (lit "hello")
           (lit "default") (lit "1234567890abcdef1234567890abcdef") saved_disk
           (lit "default/12/34/1234567890abcdef1234567890abcdef.txt") eq_refl _ _ _ _) _);
    [by_decide | by_decide | lia | |].
  - apply pair_fst. vm_compute. reflexivity.
  - assert (resolve saved_disk (path_append (root_dir default_StoreConfig)
        (lit "default/12/34/1234567890abcdef1234567890abcdef.txt")) =
      Some (store_loc ++ [lit "default"; lit "12"; lit "34";
                          lit "1234567890abcdef1234567890abcdef.txt"])) as Hl
      by (vm_compute; reflexivity).
    intros l. rewrite Hl. intros [= <-]. vm_compute. reflexivity.
Defined.

Lemma get_shard_index_spec_witness :
  exists js, get_shard_index chunk_disk (lit "./data/store/_tmp") = (chunk_disk, Ok js) /\ (0%Z ∈ js).
Proof.
  destruct (get_shard_index_spec chunk_disk (lit "./data/store/_tmp") (store_loc ++ [lit "_tmp"]))
    as (js & H1 & H2 & _); [reflexivity | vm_compute; reflexivity..|]. exists js. split; [exact H1|].
  apply H2. exists (lit "0"), (lit "old"). split; vm_compute; reflexivity.
Defined.
