(* ===== verification/FileCtl.v ===== *)
(** [controller/FileCtl.h] and [controller/FileCtl.cpp]: the HTTP handlers, over the
    file store, the metadata store and the upload counter. *)

From stdpp Require Import base list strings gmap sorting numbers fin_maps.
From Stdlib Require Import ZArith Ascii Lia.
From S2P Require Import Prelude Algorithm Util UrlUtils Json MetaFile LevelDB MetadataStore.
From S2P Require Import MetaRefine Multipart Http Paths CryptoUtils FileSystem FileStore.

Import MultipartParser.

Local Open Scope outcome_scope.

Section FileCtl.
Context {L : LevelDB} {J : JsonLib} {M : Md5Lib} {O : DirOrder} {T : FsText} {SS : StdSort}.
Context (config_ : StoreConfig) (dir_st_size : Z).

(** What the handlers share: the disk, the metadata store, [concurrent_uploads_]. *)
Record app : Type := {
  disk : fs;
  mstore : store;
  concurrent_uploads_ : Z;
}.

(** Everything a call reads from outside: the number drawn for a temporary file and
    [std::time(nullptr)]. *)
Record env : Type := { env_rnd : Z; env_now : Z }.

(** The constructor. *)
Definition FileCtl_new (fileStore : fs) (metaStore : store) : app :=
  {| disk := fileStore; mstore := metaStore; concurrent_uploads_ := 0 |}.

Definition set_disk (a : app) (s : fs) : app :=
  {| disk := s; mstore := mstore a; concurrent_uploads_ := concurrent_uploads_ a |}.

Definition set_mstore (a : app) (m : store) : app :=
  {| disk := disk a; mstore := m; concurrent_uploads_ := concurrent_uploads_ a |}.

Definition set_uploads (a : app) (n : Z) : app :=
  {| disk := disk a; mstore := mstore a; concurrent_uploads_ := n |}.

(** A handler returns the new state and the reply it sends, or the exception that
    leaves it before a reply is sent. *)
Definition handled : Type := (app * outcome response)%type.

Definition MAX_CONCURRENT_UPLOADS : Z := 20.

Definition query_md5 (ctx : HttpContext) : str :=
  match query ctx !! lit "md5" with Some v => v | None => [] end.

(** ** [handleCheck] *)

Definition handleCheck (a : app) (ctx : HttpContext) : handled :=
  let file_md5 := query_md5 ctx in
  if decide (file_md5 = []) then (a, error ctx (lit "md5 is empty") bad_request)
  else if exists_ (mstore a) file_md5 then (a, success ctx (mk_obj []) (lit "file exist"))
  else (a, success ctx (mk_obj []) (lit "file not exist")).

(** ** [handleUpload] *)

(** The record an upload creates. *)
Definition upload_meta (st : store) (clean_name scene_ file_md5 : str) (sz : Z) (p : str) (now : Z)
  : MetaFile :=
  {| MetaFile.md5 := file_md5; MetaFile.path := p; MetaFile.name := clean_name;
     MetaFile.domain := MetaFile.domain default_meta; MetaFile.scene := scene_;
     MetaFile.src := MetaFile.src default_meta; MetaFile.size := sz; MetaFile.mtime := now;
     MetaFile.status := MetaFile.status default_meta;
     MetaFile.is_sharded := MetaFile.is_sharded default_meta;
     MetaFile.shard_std_size := MetaFile.shard_std_size default_meta;
     MetaFile.shard_count := MetaFile.shard_count default_meta;
     MetaFile.shards := MetaFile.shards default_meta;
     MetaFile.uploaded_count := MetaFile.uploaded_count default_meta;
     MetaFile.uploaded_chunks := MetaFile.uploaded_chunks default_meta;
     MetaFile.peers := MetaFile.peers default_meta ++ [get_peer_id st] |}.

Definition upload_reply (st : store) (m : MetaFile) : json :=
  let full_url := get_domain st ++ lit "/" ++ MetaFile.path m in
  mk_obj [ (lit "url", JStr full_url); (lit "path", JStr (MetaFile.path m));
           (lit "md5", JStr (MetaFile.md5 m)); (lit "scene", JStr (MetaFile.scene m));
           (lit "size", JInt (MetaFile.size m)); (lit "mtime", JInt (MetaFile.mtime m));
           (lit "name", JStr (MetaFile.name m)) ].

(** The [catch] of the handlers: reply with the message. *)
Definition catch_reply (ctx : HttpContext) (prefix : str) (r : handled) : handled :=
  match r with
  | (a, Throw e) => (a, error ctx (prefix ++ e) bad_request)
  | _ => r
  end.

(** The body of the [try]. *)
Definition upload_store (e : env) (a : app) (ctx : HttpContext)
    (filename_ clean_name content_ scene_ : str) : handled :=
  let file_md5 := CryptoUtils.md5 content_ in
  match save_file config_ (env_rnd e) (disk a) filename_ content_ scene_ file_md5 with
  | (s, Throw ex) => (set_disk a s, Throw ex)
  | (s, Ok file_path) =>
      let a := set_disk a s in
      if decide (clean_name = []) then
        (a, Throw (lit "[FileStore] Filename is empty after trimming special characters."))
      else match file_path with
           | None => (a, Throw (lit "bad optional access"))
           | Some p =>
               let m := upload_meta (mstore a) clean_name scene_ file_md5
                          (Z.of_nat (length content_)) p (env_now e) in
               let a := set_mstore a (fst (save_meta (mstore a) m)) in
               (a, success ctx (upload_reply (mstore a) m) (lit "Upload success"))
           end
  end.

Definition upload_form (e : env) (a : app) (ctx : HttpContext) : handled :=
  if negb (is_multipart ctx) then
    (a, error ctx (lit "Request is not a multipart/form-data") bad_request)
  else
    let form := snd (get_form ctx) in
    if decide (content form = []) then (a, error ctx (lit "File content is empty") bad_request)
    else
      let filename_ := filename form in
      let scene_ := get_param form (lit "scene") (lit "default") in
      if negb (check_file_ext filename_ (list_files config_)) then
        (a, error ctx (lit "File extension not allowed") bad_request)
      else
        let clean_name := if is_enable_trim_filename (mstore a)
                          then trim_filename_special_char filename_ else filename_ in
        catch_reply ctx [] (upload_store e a ctx filename_ clean_name (content form) scene_).

Definition handleUpload (e : env) (a : app) (ctx : HttpContext) : handled :=
  let current := concurrent_uploads_ a in
  let a := set_uploads a (i32 (current + 1)) in
  if decide (current >= MAX_CONCURRENT_UPLOADS)%Z then
    (set_uploads a (i32 (concurrent_uploads_ a - 1)),
     error ctx (lit "Server busy, too many uploads") bad_request)
  else if decide (query_md5 ctx = []) then upload_form e a ctx
  else match get_meta (mstore a) (query_md5 ctx) with
       | Some m => (a, success ctx (meta_to_json m) (lit "Deduplication success"))
       | None => upload_form e a ctx
       end.

(** ** [handleDownload] *)

Definition handleDownload (a : app) (ctx : HttpContext) : handled :=
  let rel_path := path_suffix ctx in
  if decide (rel_path = []) then (a, not_found ctx (lit "File path missing"))
  else
    let abs_path := get_root_dir config_ ++ rel_path in
    let '(s, opened) := open_read (disk a) abs_path in
    let a := set_disk a s in
    match opened with
    | NoSuchFile => (a, not_found ctx (lit "File not found"))
    | OpenError => (a, error ctx (lit "File open error") bad_request)
    | Opened n =>
        let body := match n with File d => FileBody d | Dir => DirBody dir_st_size end in
        let res := {| res_status := status_ok; res_version := req_version (req ctx);
                      res_keep_alive := None; res_fields := ∅; res_body := body |} in
        let res := set_field (lit "Server") (lit "MyDFS") res in
        let res := set_field (lit "Content-Length") (to_string (body_size body)) res in
        let res := set_field (lit "Content-Type") (get_mime_type abs_path) res in
        let attname := match query ctx !! lit "attname" with Some v => v | None => [] end in
        let disposition :=
          if decide (attname = []) then lit "inline"
          else lit "attachment; filename=" ++ [DQUOTE] ++ attname ++ [DQUOTE] in
        (a, Ok (set_field (lit "Content-Disposition") disposition res))
    end.

(** ** Chunks *)

Definition handleCheckChunk (a : app) (ctx : HttpContext) : handled :=
  let file_md5 := query_md5 ctx in
  if decide (file_md5 = []) then (a, error ctx (lit "md5 is empty") bad_request)
  else
    let file_path := get_root_dir config_ ++ lit "/" ++ get_temp_dir config_ ++ lit "/" ++ file_md5 in
    match get_shard_index (disk a) file_path with
    | (s, Throw ex) => (set_disk a s, Throw ex)
    | (s, Ok up_loaded_chunks) =>
        (set_disk a s, success ctx (mk_obj [(lit "list", JArr (JInt <$> up_loaded_chunks))]) [])
    end.

Definition handleChunkUpload (e : env) (a : app) (ctx : HttpContext) : handled :=
  let form := snd (get_form ctx) in
  let file_md5 := get_param form (lit "md5") [] in
  let chunk_index := get_param form (lit "chunk") [] in
  if decide (file_md5 = [] \/ content form = [] \/ chunk_index = []) then
    (a, error ctx (lit "md5 or content or chunk is empty") bad_request)
  else
    let file_path := get_temp_dir config_ ++ lit "/" ++ file_md5 ++ lit "/" ++ chunk_index in
    match save_file_at config_ (env_rnd e) (disk a) (content form) file_path with
    | (s, Throw ex) => (set_disk a s, Throw ex)
    | (s, Ok true) =>
        (set_disk a s, success ctx (mk_obj [(lit "chunk", JStr chunk_index)]) [])
    | (s, Ok false) => (set_disk a s, error ctx (lit "Save file failed") bad_request)
    end.

(** ** [handleMerge] *)

(** Reading the chunks in order into the output stream. Inserting an empty file, or
    a read error, sets the failbit of the stream ([good]), after which it takes
    nothing more. The result is the text the stream holds and whether every chunk
    opened. *)
Fixpoint merge_loop (s : fs) (temp_chunk_dir : str) (indices : list Z) (good : bool) (acc : str)
  : fs * str * outcome unit :=
  match indices with
  | [] => (s, acc, Ok tt)
  | idx :: indices' =>
      match open_stream s (path_append temp_chunk_dir (to_string idx)) with
      | (s, None) => (s, acc, Throw (lit "Cannot open chunk: " ++ to_string idx))
      | (s, Some in_file) =>
          if good then
            let '(s, d, read_ok) := read_stream s in_file in
            merge_loop s temp_chunk_dir indices' (read_ok && negb (bool_decide (d = []))) (acc ++ d)
          else merge_loop s temp_chunk_dir indices' false acc
      end
  end.

(** Steps 4 to 9. *)
Definition merge_store (e : env) (a : app) (ctx : HttpContext) (temp_chunk_dir : str)
    (chunk_indices : list Z) (file_md5 filename_ scene_ : str) : handled :=
  let merged_temp_file := path_append (parent_path temp_chunk_dir) (file_md5 ++ lit ".merged") in
  match open_trunc (disk a) merged_temp_file with
  | (s, None) => (set_disk a s, Throw (lit "Cannot create merge output file"))
  | (s, Some l) =>
      match merge_loop s temp_chunk_dir chunk_indices true [] with
      | (s, acc, Throw ex) => (set_disk a (close_file s l acc), Throw ex)
      | (s, acc, Ok _) =>
          let s := close_file s l acc in
          let ext := path_extension filename_ in
          match md5_to_rel_path file_md5 with
          | Throw ex => (set_disk a s, Throw ex)
          | Ok base_rel_path =>
              let final_rel_path := base_rel_path ++ ext in
              let final_abs_path :=
                path_append (path_append (get_root_dir config_) scene_) final_rel_path in
              let '(s, ok) := create_directories s (parent_path final_abs_path) in
              if negb ok then
                (set_disk a s, Throw (fs_error CallCreateDirectories s [parent_path final_abs_path]))
              else
                match io_bind (rename s merged_temp_file final_abs_path) (fun s _ =>
                      io_bind (remove_all s temp_chunk_dir) (fun s _ => file_size s final_abs_path)) with
                | (s, Throw ex) => (set_disk a s, Throw ex)
                | (s, Ok sz) =>
                    let m := upload_meta (mstore a) filename_ scene_ file_md5 sz
                               (path_append scene_ final_rel_path) (env_now e) in
                    let a := set_disk (set_mstore a (fst (save_meta (mstore a) m))) s in
                    (a, success ctx (upload_reply (mstore a) m) (lit "Merge success"))
                end
          end
      end
  end.

(** The directory [handleMerge] looks for the chunks in. *)
Definition merge_dir (file_md5 : str) : str :=
  path_append (get_root_dir config_ ++ lit "/ " ++ get_temp_dir config_) file_md5.

(** The body of the [try]. *)
Definition merge_try (e : env) (a : app) (ctx : HttpContext) (temp_chunk_dir file_md5 filename_ scene_ : str)
  : handled :=
  match directory_iterator (disk a) temp_chunk_dir with
  | (s, Throw ex) => (set_disk a s, Throw ex)
  | (s, Ok entries) =>
      let a := set_disk a s in
      let chunk_indices := chunk_numbers entries in
      if decide (chunk_indices = []) then (a, error ctx (lit "No chunks found") bad_request)
      else
        let sorted := std_sort (fun x y => bool_decide (x < y)%Z) chunk_indices in
        merge_store e a ctx temp_chunk_dir sorted file_md5 filename_ scene_
  end.

Definition handleMerge (e : env) (a : app) (ctx : HttpContext) : handled :=
  let form := snd (get_form ctx) in
  let file_md5 := get_param form (lit "md5") [] in
  let filename_ := get_param form (lit "filename") [] in
  let scene_ := get_param form (lit "scene") (lit "default") in
  if decide (file_md5 = [] \/ filename_ = []) then
    (a, error ctx (lit "md5 or filename is empty") bad_request)
  else
    let temp_chunk_dir := merge_dir file_md5 in
    match exists_path (disk a) temp_chunk_dir with
    | (s, Throw ex) => (set_disk a s, Throw ex)
    | (s, Ok false) =>
        (set_disk a s, error ctx (lit "Chunk directory not found or expired") bad_request)
    | (s, Ok true) =>
        catch_reply ctx (lit "Merge failed: ")
          (merge_try e (set_disk a s) ctx temp_chunk_dir file_md5 filename_ scene_)
    end.

(** * Lemmas *)

Lemma set_disk_id a : set_disk a (disk a) = a.
Proof. by destruct a. Qed.

(** ** The upload counter *)

Lemma upload_store_uploads e a ctx f c x sc :
  concurrent_uploads_ (fst (upload_store e a ctx f c x sc)) = concurrent_uploads_ a.
Proof.
  unfold upload_store. destruct (save_file _ _ _ _ _ _ _) as [s [[p|]|ex]]; [| |done];
    case_decide; done.
Qed.

Lemma catch_reply_fst ctx p r : fst (catch_reply ctx p r) = fst r.
Proof. by destruct r as [a [x|ex]]. Qed.

Lemma upload_form_uploads e a ctx :
  concurrent_uploads_ (fst (upload_form e a ctx)) = concurrent_uploads_ a.
Proof.
  unfold upload_form. destruct (negb _); [done|]. case_decide; [done|].
  destruct (negb _); [done|]. rewrite catch_reply_fst. apply upload_store_uploads.
Qed.

Lemma handleUpload_counter e a ctx :
  (0 <= concurrent_uploads_ a <= 20)%Z ->
  concurrent_uploads_ (fst (handleUpload e a ctx)) = Z.min 20 (concurrent_uploads_ a + 1).
Proof.
  intros Hc. unfold handleUpload. cbv zeta. unfold MAX_CONCURRENT_UPLOADS. case_decide as Hb.
  - assert (concurrent_uploads_ a = 20%Z) as -> by lia. done.
  - assert (i32 (concurrent_uploads_ a + 1) = (concurrent_uploads_ a + 1)%Z) as Hi.
    { apply swrap_small; lia. }
    rewrite Z.min_r by lia. case_decide; [by rewrite upload_form_uploads|].
    destruct (get_meta _ _); [done|]. by rewrite upload_form_uploads.
Qed.

(** Any sequence of upload requests. *)
Definition run_uploads (a : app) (rs : list (env * HttpContext)) : app :=
  foldl (fun a r => fst (handleUpload r.1 a r.2)) a rs.

Lemma run_uploads_counter a rs :
  (0 <= concurrent_uploads_ a <= 20)%Z ->
  concurrent_uploads_ (run_uploads a rs) = Z.min 20 (concurrent_uploads_ a + Z.of_nat (length rs)).
Proof.
  unfold run_uploads. revert a. induction rs as [|r rs IH]; intros a Hc; cbn [foldl length].
  - lia.
  - rewrite IH by (rewrite handleUpload_counter by done; lia).
    rewrite handleUpload_counter by done. lia.
Qed.

(** * Properties *)

(** C33: the upload counter is never decremented after an upload: once twenty upload
    requests of any kind have been handled, every further upload request is
    answered with the busy error and changes nothing. *)
Theorem upload_slots_exhausted a rs e ctx :
  concurrent_uploads_ a = 0%Z -> 20 <= length rs ->
  handleUpload e (run_uploads a rs) ctx =
  (run_uploads a rs, error ctx (lit "Server busy, too many uploads") bad_request).
Proof.
  intros Ha Hl. assert (concurrent_uploads_ (run_uploads a rs) = 20%Z) as Hc.
  { rewrite run_uploads_counter by lia. lia. }
  unfold handleUpload. cbv zeta. rewrite Hc. rewrite decide_True by done.
  f_equal. destruct (run_uploads a rs) as [d m n]. simpl in Hc. by subst n.
Qed.

Section EndToEnd.
Context {LS : LevelDBSpec L} {JL : JsonLaws J}.

Lemma upload_meta_stored st c sc h sz p now :
  stored (upload_meta st c sc h sz p now) = upload_meta st c sc h sz p now.
Proof. done. Qed.

Lemma md5_digest_ok data : digest_ok (CryptoUtils.md5 data).
Proof. split; [apply md5_length|]. apply md5_fresh. by_decide. Qed.

(** The name an upload is recorded under. *)
Definition recorded_name (a : app) (f : str) : str :=
  if is_enable_trim_filename (mstore a) then trim_filename_special_char f else f.

(** The record of an accepted upload. *)
Definition accepted_meta (e : env) (a : app) (form : MultipartForm) (p : str) : MetaFile :=
  upload_meta (mstore a) (recorded_name a (filename form))
    (get_param form (lit "scene") (lit "default")) (CryptoUtils.md5 (content form))
    (Z.of_nat (length (content form))) p (env_now e).

(** The request reaches the [try] of [handleUpload]. *)
Definition acceptable (a : app) (ctx : HttpContext) : Prop :=
  (0 <= concurrent_uploads_ a < 20)%Z /\ query_md5 ctx = [] /\ is_multipart ctx = true /\
  content (snd (get_form ctx)) <> [] /\
  check_file_ext (filename (snd (get_form ctx))) (list_files config_) = true /\
  recorded_name a (filename (snd (get_form ctx))) <> [].

Lemma handleUpload_acceptable e a ctx s p :
  acceptable a ctx -> let form := snd (get_form ctx) in
  save_file config_ (env_rnd e) (disk a) (filename form) (content form)
    (get_param form (lit "scene") (lit "default")) (CryptoUtils.md5 (content form)) =
    (s, Ok (Some p)) ->
  let m := accepted_meta e a form p in
  let st := fst (save_meta (mstore a) m) in
  handleUpload e a ctx =
  catch_reply ctx []
    ({| disk := s; mstore := st; concurrent_uploads_ := concurrent_uploads_ a + 1 |},
     success ctx (upload_reply st m) (lit "Upload success")).
Proof.
  intros (Hc & Hq & Hm & Hd & Hx & Hn) form Hs m st. fold form in Hd, Hx, Hn. unfold handleUpload. cbv zeta.
  rewrite decide_False by (unfold MAX_CONCURRENT_UPLOADS; lia). rewrite decide_True by done.
  unfold upload_form. rewrite Hm. cbn [negb]. fold form. rewrite decide_False by done.
  rewrite Hx. cbn [negb].
  fold (recorded_name (set_uploads a (i32 (concurrent_uploads_ a + 1))) (filename form)).
  unfold upload_store. cbv zeta. simpl disk. rewrite Hs. rewrite decide_False by exact Hn.
  unfold set_mstore, set_disk, set_uploads. cbn [mstore disk concurrent_uploads_].
  replace (i32 (concurrent_uploads_ a + 1)) with (concurrent_uploads_ a + 1)%Z
    by (symmetry; apply swrap_small; lia).
  done.
Qed.

(** The reply of an accepted upload whose record is saved. *)
Lemma handleUpload_effect e a ctx s p st :
  acceptable a ctx -> let form := snd (get_form ctx) in
  save_file config_ (env_rnd e) (disk a) (filename form) (content form)
    (get_param form (lit "scene") (lit "default")) (CryptoUtils.md5 (content form)) =
    (s, Ok (Some p)) ->
  save_meta (mstore a) (accepted_meta e a form p) = (st, true) ->
  json_utf8 (upload_reply st (accepted_meta e a form p)) = true ->
  exists r, handleUpload e a ctx =
    ({| disk := s; mstore := st; concurrent_uploads_ := concurrent_uploads_ a + 1 |}, Ok r) /\
    res_status r = status_ok.
Proof.
  intros Hacc form Hs Hsm Hu. rewrite (handleUpload_acceptable e a ctx s p Hacc Hs). fold form.
  rewrite Hsm. cbn [fst]. set (m := accepted_meta e a form p) in *.
  destruct (success_ok ctx (upload_reply st m) (lit "Upload success") Hu eq_refl) as (r & Hrep & Hst).
  rewrite Hrep. cbn [catch_reply]. by exists r.
Qed.

(** The path an upload is stored under. *)
Lemma accepted_path rnd s0 f data scene_ s p :
  has_filename (root_dir config_) = true -> plain scene_ -> (0 <= rnd)%Z ->
  save_file config_ rnd s0 f data scene_ (CryptoUtils.md5 data) = (s, Ok (Some p)) ->
  p = scene_ ++ SLASH :: sharded (CryptoUtils.md5 data) ++ path_extension f.
Proof.
  intros Hr Hsc Hrnd Hs.
  destruct (save_file_saved config_ rnd s0 f data scene_ (CryptoUtils.md5 data) s p Hr Hsc (md5_digest_ok _) Hrnd Hs)
    as [-> _].
  unfold stored_path. apply path_append_name; [apply has_filename_fresh; apply Hsc|].
  apply sharded_relative, md5_digest_ok.
Qed.

(** C6: an acceptable upload whose content is new and whose writes succeed is
    answered with status 200; afterwards the metadata store returns its record
    under the digest of the content, and the file store returns the content under
    the recorded path [scene/ab/cd/digest.ext]. *)
Theorem upload_stores_file e a ctx s p idx st :
  acceptable a ctx -> let form := snd (get_form ctx) in
  let scene_ := get_param form (lit "scene") (lit "default") in
  let m := accepted_meta e a form p in
  has_filename (root_dir config_) = true -> plain scene_ -> (0 <= env_rnd e)%Z ->
  save_file config_ (env_rnd e) (disk a) (filename form) (content form) scene_
    (CryptoUtils.md5 (content form)) = (s, Ok (Some p)) ->
  (forall l, resolve s (path_append (root_dir config_) p) = Some l -> nodes (disk a) !! l = None) ->
  represents (mstore a) idx -> record_ok m -> path_free idx m -> idx !! MetaFile.md5 m = None ->
  save_meta (mstore a) m = (st, true) -> json_utf8 (upload_reply st m) = true ->
  exists a' r, handleUpload e a ctx = (a', Ok r) /\ res_status r = status_ok /\
    get_meta (mstore a') (CryptoUtils.md5 (content form)) = Some m /\
    MetaFile.path m = scene_ ++ SLASH :: sharded (CryptoUtils.md5 (content form))
                        ++ path_extension (filename form) /\
    snd (get_file config_ (no_faults (disk a')) (MetaFile.path m)) = Ok (Some (content form)).
Proof.
  intros Hacc form scene_ m Hr Hsc Hrnd Hs Hnew R Hok Hpf Hidx Hsm Hu.
  destruct (handleUpload_effect e a ctx s p st Hacc Hs Hsm Hu) as (r & -> & Hst).
  eexists _, r. split; [reflexivity|]. split; [done|].
  destruct (save_file_saved config_ (env_rnd e) (disk a) (filename form) (content form) scene_
              (CryptoUtils.md5 (content form)) s p Hr Hsc (md5_digest_ok _) Hrnd Hs) as [_ Hl].
  split_and!.
  - destruct (save_meta_new _ _ _ _ R Hok Hpf Hidx Hsm) as [_ Hget]. exact Hget.
  - by apply (accepted_path (env_rnd e) (disk a) _ _ _ s).
  - change (MetaFile.path m) with p. cbn [disk]. by rewrite (get_file_lookup config_ s p (content form) (Hl Hnew)).
Qed.
End EndToEnd.

(** ** Downloads *)

(** A regular file stored below the root at [p] is served for the path suffix
    [/p] with status 200, its exact content, its length, the MIME type of its
    extension, and inline unless a download name is given; no state changes. *)
Theorem download_serves_file a ctx p data :
  has_filename (root_dir config_) = true -> is_absolute p = false ->
  path_suffix ctx = SLASH :: p -> faults (disk a) = [] ->
  lookup_path (disk a) (path_append (root_dir config_) p) = Some (File data) ->
  exists r, handleDownload a ctx = (a, Ok r) /\ res_status r = status_ok /\
    res_body r = FileBody data /\
    res_fields r !! lit "Content-Length" = Some (to_string (Z.of_nat (length data))) /\
    res_fields r !! lit "Content-Type" = Some (get_mime_type (root_dir config_ ++ SLASH :: p)) /\
    (query ctx !! lit "attname" = None ->
     res_fields r !! lit "Content-Disposition" = Some (lit "inline")).
Proof.
  intros Hr Hp Hs Hf Hl. rewrite path_append_name in Hl by done.
  unfold handleDownload. cbv zeta. rewrite Hs, decide_False by done. unfold get_root_dir.
  rewrite (open_read_node _ _ _ Hf Hl). eexists. split.
  { f_equal. by destruct a. }
  split_and!; [done|done|..].
  - cbn [set_field res_fields]. by rewrite !lookup_insert_ne, lookup_insert_eq by done.
  - cbn [set_field res_fields]. by rewrite !lookup_insert_ne, lookup_insert_eq by done.
  - intros ->. cbn [set_field res_fields]. by rewrite lookup_insert_eq.
Qed.

(** ** Chunks *)

Lemma to_string_plain i : (0 <= i)%Z -> plain (to_string i).
Proof.
  intros Hi. unfold to_string. rewrite decide_False by lia.
  pose proof (dec_digits i Hi) as Hd. pose proof (dec_nonempty i Hi) as Hne.
  assert (forall c, ~ is_digit c -> c ∉ dec i) as Hfresh.
  { intros c Hc Hin. by apply Hc, (proj1 (list.Forall_forall _ _) Hd). }
  split_and!; [done| | |].
  - intros H. apply (Hfresh DOT); [unfold is_digit; vm_compute (code DOT); lia|]. rewrite H. left.
  - intros H. apply (Hfresh DOT); [unfold is_digit; vm_compute (code DOT); lia|]. rewrite H. left.
  - apply Hfresh. unfold is_digit. vm_compute (code SLASH). lia.
Qed.

Lemma plain_app_relative c t : plain c -> is_absolute (c ++ t) = false.
Proof.
  intros (Hne & _ & _ & Hin). destruct c as [|x c]; [done|].
  rewrite <- app_comm_cons, is_absolute_cons. apply bool_decide_false. intros ->. apply Hin. left.
Qed.

Definition chunk_dir (h : str) : str :=
  get_root_dir config_ ++ lit "/" ++ get_temp_dir config_ ++ lit "/" ++ h.

Lemma save_chunk_listed rnd s data h chunk s' :
  has_filename (root_dir config_) = true -> plain (temp_dir config_) -> plain h -> plain chunk ->
  (0 <= rnd)%Z ->
  save_file_at config_ rnd s data (get_temp_dir config_ ++ lit "/" ++ h ++ lit "/" ++ chunk) =
    (s', Ok true) ->
  exists l x, resolve s' (chunk_dir h) = Some l /\ is_dir_at s' l = true /\
    nodes s' !! (l ++ [chunk]) = Some (File x) /\ length x = length data.
Proof.
  intros Hr Ht Hh Hc Hrnd. unfold save_file_at. case_bool_decide; [done|].
  set (d := chunk_dir h).
  assert (path_append (root_dir config_)
            (get_temp_dir config_ ++ lit "/" ++ h ++ lit "/" ++ chunk) = d ++ SLASH :: chunk) as ->.
  { rewrite path_append_name; [|done|].
    - unfold d, chunk_dir, get_root_dir. change (lit "/") with [SLASH]. by rewrite <- !app_assoc.
    - by apply plain_app_relative. }
  assert (has_filename d = true) as Hd.
  { unfold d, chunk_dir. rewrite !app_assoc. rewrite has_filename_app by apply Hh.
    apply has_filename_fresh; apply Hh. }
  rewrite parent_path_app by (done || apply Hc).
  destruct (create_directories s d) as [s1 [|]] eqn:E1; [|done]. cbn [negb].
  apply create_directories_walk in E1 as (_ & loc & Hres & Hdir).
  destruct (is_dir_at s1 (target chunk loc)) eqn:Htd.
  { destruct (write_disk_directory s1 d chunk data loc rnd Hd Hc Hres Hdir Htd) as (call & s2 & Hw & _).
    destruct (write_disk _ _ _ _) as [s3 r3]. cbn [snd] in Hw. by subst r3. }
  destruct (write_disk_outcome s1 d chunk data loc rnd Hd Hc Hrnd Hres Hdir Htd) as [Hcase _].
  destruct (write_disk _ _ _ _) as [s2 [[]|ex]]; cbn [io_bind fst snd] in *; [|by destruct (no_throw _ _)|done].
  intros [= <-].
  destruct Hcase as [(Hn2 & Hc2 & [(_ & x & Hx & Hl)|(call & s3 & [=] & _)])|(Hw & _)].
  - exists loc, x. rewrite (resolve_dirs s1), (is_dir_at_ext s1), Hn2; [done|done|done|].
    intros k. by apply is_dir_at_ext.
  - pose proof (written_same_dirs s1 d chunk data loc rnd s2 Htd Hw) as [Hcw Hsd].
    exists loc, data. rewrite (resolve_dirs s1) by done. rewrite Hsd. split_and!; [done..| |done].
    by apply Hw.
Qed.

(** When [handleChunkUpload] accepts chunk [i] of a file, [handleCheckChunk] for
    the same digest then replies with a list that contains [i], and the chunk file
    has the size of the uploaded content. *)
Theorem chunk_upload_listed {JL : JsonLaws J} e a ctx s' i ctx2 :
  let form := snd (get_form ctx) in
  let h := get_param form (lit "md5") [] in
  faults s' = [] ->
  has_filename (root_dir config_) = true -> plain (temp_dir config_) -> plain h ->
  (0 <= env_rnd e)%Z -> content form <> [] ->
  (0 <= i < 2 ^ 31)%Z -> get_param form (lit "chunk") [] = to_string i ->
  save_file_at config_ (env_rnd e) (disk a) (content form)
    (get_temp_dir config_ ++ lit "/" ++ h ++ lit "/" ++ to_string i) = (s', Ok true) ->
  query_md5 ctx2 = h ->
  fst (handleChunkUpload e a ctx) = set_disk a s' /\
  exists js x, i ∈ js /\
    handleCheckChunk (fst (handleChunkUpload e a ctx)) ctx2 =
      (set_disk a s', success ctx2 (mk_obj [(lit "list", JArr (JInt <$> js))]) []) /\
    lookup_path s' (chunk_dir h ++ SLASH :: to_string i) = Some (File x) /\
    length x = length (content form).
Proof.
  intros form h Hf Hr Ht Hh Hrnd Hd Hi Hc Hs Hq.
  assert (plain (to_string i)) as Hpl by (apply to_string_plain; lia).
  assert (fst (handleChunkUpload e a ctx) = set_disk a s') as Hup.
  { unfold handleChunkUpload. cbv zeta. fold form. fold h. rewrite Hc, decide_False.
    - by rewrite Hs.
    - intros [?|[?|?]]; [by destruct Hh as [? _]|done|by destruct Hpl as [? _]]. }
  split; [done|]. rewrite Hup.
  destruct (save_chunk_listed _ _ _ _ _ _ Hr Ht Hh Hpl Hrnd Hs) as (l & x & Hres & Hdir & Hx & Hlen).
  exists (shard_numbers s' l), x. split_and!; [|  | |done].
  - apply shard_numbers_elem. exists (to_string i), x. by rewrite stoi_to_string.
  - unfold handleCheckChunk. cbv zeta. rewrite Hq, decide_False by apply Hh. cbn [set_disk disk].
    fold (chunk_dir h). by rewrite (get_shard_index_clean _ _ _ Hf Hres Hdir).
  - unfold lookup_path. rewrite resolve_in, Hres, Hdir; [done| |done].
    unfold chunk_dir, get_root_dir. by destruct (root_dir config_).
Qed.

(** A chunk whose index is a dot makes [handleChunkUpload] leave with a
    [filesystem_error]: no reply is sent. *)
Theorem chunk_dot_throws e a ctx s1 :
  let form := snd (get_form ctx) in
  let h := get_param form (lit "md5") [] in
  faults (disk a) = [] ->
  has_filename (root_dir config_) = true -> plain (temp_dir config_) -> plain h ->
  content form <> [] -> get_param form (lit "chunk") [] = lit "." ->
  find0 (lit "..") (get_temp_dir config_ ++ lit "/" ++ h ++ lit "/.") = None ->
  create_directories (disk a) (chunk_dir h) = (s1, true) ->
  handleChunkUpload e a ctx =
    (set_disk a s1, Throw (fs_error CallFileSize s1 [chunk_dir h ++ lit "/."])).
Proof.
  intros form h Hf0 Hr Ht Hh Hd Hc Hdd Hcd. unfold handleChunkUpload. cbv zeta. fold form. fold h.
  rewrite Hc, decide_False by (intros [?|[?|?]]; [by destruct Hh as [? _]|done|done]).
  assert (get_temp_dir config_ ++ lit "/" ++ h ++ lit "/" ++ lit "." =
          (get_temp_dir config_ ++ lit "/" ++ h) ++ lit "/.") as Hp by by rewrite <- !app_assoc.
  rewrite Hp, (save_file_at_dot config_ (env_rnd e) (disk a) (content form)
             (get_temp_dir config_ ++ lit "/" ++ h) s1); [done|done|done|..].
  - by apply plain_app_relative.
  - rewrite app_assoc, has_filename_app by apply Hh. apply has_filename_fresh; apply Hh.
  - by rewrite <- !app_assoc.
  - exact Hcd.
Qed.

(** ** Merging *)

Lemma walk_below_missing s l names l' c rest :
  walk s l names = Some l' -> is_dir_at s l' = true -> plain c ->
  is_dir_at s (l' ++ [c]) = false -> rest <> [] -> walk s l (names ++ c :: rest) = None.
Proof.
  intros Hw Hd Hc Hn Hne. rewrite walk_app, Hw. simpl. rewrite Hd, enter_plain by done.
  destruct rest as [|r rest]; [done|]. simpl. by rewrite Hn.
Qed.

(** The parent of the directory [handleMerge] looks for the chunks in. *)
Definition merge_parent : str := root_dir config_ ++ SLASH :: chr 32 :: temp_dir config_.

Lemma spaced_plain : plain (temp_dir config_) -> plain (chr 32 :: temp_dir config_).
Proof.
  intros (Hne & _ & _ & Hin). split_and!; [done|done|by destruct (temp_dir config_)|].
  rewrite not_elem_of_cons. split; [by_decide|done].
Qed.

Lemma merge_parent_filename : plain (temp_dir config_) -> has_filename merge_parent = true.
Proof.
  intros Ht. unfold merge_parent. change (SLASH :: chr 32 :: temp_dir config_)
    with ([SLASH; chr 32] ++ temp_dir config_).
  rewrite app_assoc, has_filename_app by apply Ht. apply has_filename_fresh; apply Ht.
Qed.

Lemma merge_dir_path h :
  plain (temp_dir config_) -> is_absolute h = false -> merge_dir h = merge_parent ++ SLASH :: h.
Proof.
  intros Ht Hh. unfold merge_dir, get_root_dir, get_temp_dir.
  change (root_dir config_ ++ lit "/ " ++ temp_dir config_) with merge_parent.
  by apply path_append_name; [apply merge_parent_filename|].
Qed.

(** C35: [handleMerge] looks for the chunks under a directory whose name starts with a
    space, while [handleChunkUpload] stores them under the name without it: as long
    as the root directory exists without such a directory in it, and the calls of the
    file system succeed, every merge request with a file name and a digest that is not
    empty and not an absolute path is answered with an error and changes nothing,
    whatever chunks were uploaded. The root is configured without a separator at its
    end and the temporary directory as one plain name. *)
Theorem merge_never_finds_chunks e a ctx loc :
  let form := snd (get_form ctx) in
  faults (disk a) = [] ->
  has_filename (root_dir config_) = true -> plain (temp_dir config_) ->
  resolve (disk a) (root_dir config_) = Some loc -> is_dir_at (disk a) loc = true ->
  is_dir_at (disk a) (loc ++ [chr 32 :: temp_dir config_]) = false ->
  get_param form (lit "md5") [] <> [] -> get_param form (lit "filename") [] <> [] ->
  is_absolute (get_param form (lit "md5") []) = false ->
  handleMerge e a ctx = (a, error ctx (lit "Chunk directory not found or expired") bad_request).
Proof.
  intros form Hf0 Hr Ht Hres Hdir Hno Hm Hf Habs. unfold handleMerge. cbv zeta. fold form.
  rewrite decide_False by (by intros [?|?]).
  set (h := get_param form (lit "md5") []) in *.
  pose proof (spaced_plain Ht) as Hsp.
  assert (merge_dir h = root_dir config_ ++ SLASH :: (chr 32 :: temp_dir config_) ++ SLASH :: h) as Hmd.
  { rewrite merge_dir_path by done. unfold merge_parent. by rewrite <- app_assoc. }
  assert (root_dir config_ <> []) as Hrne by by destruct (root_dir config_).
  assert (resolve (disk a) (merge_dir h) = None) as Hnone.
  { rewrite Hmd. unfold resolve in Hres |- *. rewrite decide_False in Hres by done.
    rewrite decide_False by by destruct (root_dir config_).
    rewrite !split_on_app_any, start_loc_app by done.
    rewrite (split_on_fresh SLASH (chr 32 :: temp_dir config_)) by apply Hsp.
    apply (walk_below_missing _ _ _ loc); try done. apply split_on_nonempty. }
  rewrite exists_path_clean by done. unfold lookup_path. rewrite Hnone. cbn [bool_decide].
  by rewrite set_disk_id.
Qed.

(** Reading changes nothing but the faults ahead. *)
Lemma open_stream_keeps s p : nodes (fst (open_stream s p)) = nodes s /\ cwd (fst (open_stream s p)) = cwd s.
Proof.
  unfold open_stream. destruct (next_fault s) as [f s1] eqn:E. apply next_fault_nodes in E. by destruct f.
Qed.

Lemma read_stream_keeps s n :
  nodes (fst (fst (read_stream s n))) = nodes s /\ cwd (fst (fst (read_stream s n))) = cwd s.
Proof.
  unfold read_stream. destruct (next_fault s) as [f s1] eqn:E. apply next_fault_nodes in E. by destruct n, f.
Qed.

Lemma merge_loop_keeps s dir ids good acc :
  nodes (fst (fst (merge_loop s dir ids good acc))) = nodes s /\
  cwd (fst (fst (merge_loop s dir ids good acc))) = cwd s.
Proof.
  revert s good acc. induction ids as [|i ids IH]; intros s good acc; [done|]. cbn [merge_loop].
  destruct (open_stream_keeps s (path_append dir (to_string i))) as [H1 H2].
  destruct (open_stream s _) as [s1 [n|]]; [|done]. cbn [fst] in *. rewrite <- H1, <- H2.
  destruct good; [|by apply IH]. destruct (read_stream_keeps s1 n) as [H3 H4].
  destruct (read_stream s1 n) as [[s2 d] ok]. cbn [fst] in *. rewrite <- H3, <- H4. apply IH.
Qed.

(** The directory a merge has read from is still there when it is removed. *)
Lemma merge_store_removes e a ctx dir ids h f sc a' r l :
  resolve (disk a) dir = Some l -> merge_store e a ctx dir ids h f sc = (a', Ok r) ->
  l <> [] /\ forall k, l `prefix_of` k -> nodes (disk a') !! k = None.
Proof.
  intros Hl. unfold merge_store. cbv zeta. set (mp := path_append _ _).
  destruct (open_trunc_keeps (disk a) mp) as [K1 Hmp].
  destruct (open_trunc (disk a) mp) as [s1 [lm|]]; [|done]. cbn [fst snd] in *. specialize (Hmp lm eq_refl).
  destruct (merge_loop_keeps s1 dir ids true []) as [Hn2 Hc2].
  destruct (merge_loop s1 dir ids true []) as [[s2 acc] [u|ex]]; [|done]. cbn [fst] in *.
  assert (is_dir_at s2 lm = false) as Hm2 by by rewrite (is_dir_at_ext s1).
  pose proof (close_file_keeps s2 lm acc Hm2) as K3.
  destruct (md5_to_rel_path h) as [rp|]; [|done]. set (fp := path_append (path_append _ _) _).
  pose proof (create_directories_keeps (close_file s2 lm acc) (parent_path fp)) as K4.
  destruct (create_directories _ (parent_path fp)) as [s4 []]; [|done]. cbn [negb fst] in *.
  pose proof (rename_keeps s4 mp fp) as K5.
  destruct (rename s4 mp fp) as [s5 [u5|ex]]; [|done]. cbn [io_bind fst] in *.
  assert (resolve s5 dir = Some l) as Hl5.
  { eapply keeps_dirs_resolve; [|exact Hl]. etrans; [exact K1|]. etrans; [by apply (keeps_dirs_nodes s1 s2)|].
    etrans; [exact K3|]. by etrans. }
  destruct (remove_all s5 dir) as [s6 [u6|ex]] eqn:E6; [|done]. cbn [io_bind].
  destruct (remove_all_ok _ _ _ _ E6 l Hl5) as [Hne Hgone].
  destruct (file_size s6 fp) as [s7 [sz|ex]] eqn:E7; [|done]. apply file_size_cases in E7 as (Hn7 & _).
  intros [= <- _]. split; [done|]. intros k Hk. cbn [disk set_disk]. rewrite Hn7. by apply Hgone.
Qed.

(** An error reply does not have status 200. *)
Lemma error_status ctx msg r : error ctx msg bad_request = Ok r -> res_status r <> status_ok.
Proof. unfold error. destruct (dump _) as [x|ex]; [|done]. intros [= <-]. by vm_compute. Qed.

Lemma catch_reply_ok ctx p x a r :
  catch_reply ctx p x = (a, Ok r) -> res_status r = status_ok -> x = (a, Ok r).
Proof.
  destruct x as [a1 [r1|ex]]; cbn [catch_reply]; [done|]. intros [= <- He] Hs. by apply error_status in He.
Qed.

(** A merge that succeeds has found a directory with a numbered file, and removed it. *)
Lemma merge_try_removes e a ctx dir h f sc a' r :
  merge_try e a ctx dir h f sc = (a', Ok r) -> res_status r = status_ok ->
  exists l, resolve (disk a) dir = Some l /\ is_dir_at (disk a) l = true /\
    (exists c x i, nodes (disk a) !! (l ++ [c]) = Some (File x) /\ stoi c = Ok i) /\
    (forall k, l `prefix_of` k -> nodes (disk a') !! k = None).
Proof.
  unfold merge_try. destruct (directory_iterator (disk a) dir) as [s2 r2] eqn:E2.
  apply ask_cases in E2 as (Hn2 & Hc2 & [-> | ->]); [|done].
  assert (resolve s2 dir = resolve (disk a) dir) as Hres.
  { apply resolve_dirs; [done|]. intros k. by apply is_dir_at_ext. }
  rewrite Hres. destruct (resolve (disk a) dir) as [l|] eqn:Hl; [|done].
  rewrite (is_dir_at_ext (disk a)) by done. destruct (is_dir_at (disk a) l) eqn:Hd; [|done]. cbv zeta.
  fold (shard_numbers s2 l). case_decide as Hnil.
  { intros [= _ He] Hs. by apply error_status in He. }
  intros Hm _. exists l. split_and!; [done|done| |].
  - destruct (shard_numbers s2 l) as [|i ns] eqn:Ens; [done|].
    destruct (proj1 (shard_numbers_elem s2 l i)) as (c & x & Hx & Hi); [rewrite Ens; by left|].
    exists c, x, i. split; [|done]. by rewrite <- Hx, Hn2.
  - by eapply merge_store_removes in Hm as [_ ?].
Qed.

(** C40: whatever directory the text in place of the digest names, the text itself when it
    is an absolute path, a merge request that is answered with status 200 has deleted it
    with everything in it; it was a directory with at least one regular file whose name
    starts with a number, and nothing else is asked of it. *)
Theorem merge_deletes_directory e a ctx a' r :
  let h := get_param (snd (get_form ctx)) (lit "md5") [] in
  handleMerge e a ctx = (a', Ok r) -> res_status r = status_ok ->
  exists l, resolve (disk a) (merge_dir h) = Some l /\ is_dir_at (disk a) l = true /\
    (exists c x i, nodes (disk a) !! (l ++ [c]) = Some (File x) /\ stoi c = Ok i) /\
    (forall k, l `prefix_of` k -> nodes (disk a') !! k = None) /\
    (is_absolute h = true -> merge_dir h = h).
Proof.
  intros h Hm Hst. unfold handleMerge in Hm. cbv zeta in Hm. fold h in Hm.
  case_decide; [injection Hm as _ Hm; by apply error_status in Hm|].
  destruct (exists_path (disk a) (merge_dir h)) as [s1 r1] eqn:E1.
  apply exists_path_cases in E1 as (Hn1 & Hc1 & [-> | ->]); [|done].
  destruct (bool_decide _); [|injection Hm as _ Hm; by apply error_status in Hm].
  apply catch_reply_ok in Hm; [|done]. apply merge_try_removes in Hm as (l & Hl & Hd & (c & x & i & Hx & Hi) & Hgone); [|done].
  cbn [set_disk disk] in *. exists l. split_and!.
  - rewrite <- Hl. symmetry. apply resolve_dirs; [done|]. intros k. by apply is_dir_at_ext.
  - by rewrite <- (is_dir_at_ext _ s1).
  - exists c, x, i. by rewrite <- Hn1.
  - done.
  - intros Habs. unfold merge_dir, path_append. by rewrite Habs.
Qed.

Lemma merge_loop_concat s dir idxs ds acc :
  faults s = [] ->
  Forall2 (fun i d => lookup_path s (path_append dir (to_string i)) = Some (File d) /\ d <> []) idxs ds ->
  merge_loop s dir idxs true acc = (s, acc ++ concat ds, Ok tt).
Proof.
  intros Hf H. revert acc. induction H as [|i d idxs ds [Hl Hne] _ IH]; intros acc.
  - simpl. by rewrite app_nil_r.
  - cbn [merge_loop concat]. unfold open_stream, read_stream, next_fault. rewrite Hf, Hl, Hf.
    rewrite bool_decide_false by done. cbn [negb andb]. rewrite IH. by rewrite <- app_assoc.
Qed.

Lemma merge_loop_chunks s dir l n (f : Z -> str) :
  faults s = [] -> has_filename dir = true -> resolve s dir = Some l -> is_dir_at s l = true ->
  (forall i, (0 <= i < n)%Z -> nodes s !! (l ++ [to_string i]) = Some (File (f i)) /\ f i <> []) ->
  merge_loop s dir (seqZ 0 n) true [] = (s, concat (f <$> seqZ 0 n), Ok tt).
Proof.
  intros Hf Hfn Hres Hdir Hall.
  apply (merge_loop_concat s dir (seqZ 0 n) (f <$> seqZ 0 n) []); [done|]. apply Forall2_fmap_r.
  apply Forall2_same_length_lookup. split; [done|].
  intros k i j Hi Hj. rewrite Hi in Hj. injection Hj as <-.
  apply list_elem_of_lookup_2 in Hi. apply elem_of_seqZ in Hi.
  destruct (Hall i ltac:(lia)) as [Hx Hne]. split; [|done].
  pose proof (to_string_plain i ltac:(lia)) as Hp.
  rewrite path_append_name by (done || apply is_absolute_fresh, Hp).
  unfold lookup_path. rewrite resolve_in, Hres, Hdir; [done| |done]. by destruct dir.
Qed.

(** The numbered files of a directory. *)
Lemma shard_numbers_nos s l (nos : list Z) :
  NoDup nos ->
  (forall i, i ∈ nos -> (0 <= i < 2 ^ 31)%Z /\ exists d, nodes s !! (l ++ [to_string i]) = Some (File d)) ->
  (forall c x i, nodes s !! (l ++ [c]) = Some (File x) -> stoi c = Ok i -> c = to_string i /\ i ∈ nos) ->
  shard_numbers s l ≡ₚ nos.
Proof.
  intros Hnd Hall Honly.
  assert (shard_numbers s l ≡ₚ chunk_numbers (entries_at s l)) as ->.
  { unfold shard_numbers, chunk_numbers. by rewrite dir_order_perm. }
  apply NoDup_Permutation; [|done|].
  - unfold chunk_numbers, entries_at. rewrite omap_omap.
    apply (NoDup_omap_key _ fst (fun i => l ++ [to_string i])); [|apply NoDup_fst_map_to_list].
    apply list.Forall_forall. intros [k nd] Hk%elem_of_map_to_list i. unfold entry_of. cbn [fst snd].
    destruct (drop (length l) k) as [|c [|]] eqn:Hd; try done. case_decide as Hp; [|done].
    destruct Hp as [r ->]. rewrite drop_app_length in Hd. subst r. cbn [fst snd].
    destruct nd as [|x]; [done|]. destruct (stoi c) as [j|] eqn:Hs; [|done]. intros [= ->].
    by destruct (Honly _ _ _ Hk Hs) as [-> _].
  - intros i. rewrite chunk_numbers_elem. setoid_rewrite entries_at_elem. split.
    + intros (c & x & Hx & Hs). by destruct (Honly _ _ _ Hx Hs).
    + intros Hi. destruct (Hall i Hi) as (Hr & d & Hd). exists (to_string i), d.
      by rewrite stoi_to_string by lia.
Qed.

Lemma shard_numbers_perm s l n :
  (forall i, (0 <= i < n)%Z -> exists d, nodes s !! (l ++ [to_string i]) = Some (File d)) ->
  (forall c x i, nodes s !! (l ++ [c]) = Some (File x) -> stoi c = Ok i ->
     c = to_string i /\ (0 <= i < n)%Z) -> (n <= 2 ^ 31)%Z ->
  shard_numbers s l ≡ₚ seqZ 0 n.
Proof.
  intros Hall Honly Hn. apply shard_numbers_nos; [apply NoDup_seqZ|..].
  - intros i Hi%elem_of_seqZ. split; [lia|]. apply Hall. lia.
  - intros c x i Hc Hs. rewrite elem_of_seqZ. destruct (Honly _ _ _ Hc Hs). split; [done|lia].
Qed.

(** When a chunk directory holds exactly the files 0 to n-1, none of them empty,
    the chunks are merged in numeric order, whatever order the directory lists them
    in: the merged text is their concatenation. *)
Theorem chunks_merged_in_order s dir l n (f : Z -> str) :
  faults s = [] -> has_filename dir = true -> resolve s dir = Some l -> is_dir_at s l = true ->
  (0 <= n <= 2 ^ 31)%Z ->
  (forall i, (0 <= i < n)%Z -> nodes s !! (l ++ [to_string i]) = Some (File (f i)) /\ f i <> []) ->
  (forall c x i, nodes s !! (l ++ [c]) = Some (File x) -> stoi c = Ok i ->
     c = to_string i /\ (0 <= i < n)%Z) ->
  exists es, directory_iterator s dir = (s, Ok es) /\
    merge_loop s dir (std_sort (fun x y => bool_decide (x < y)%Z) (chunk_numbers es)) true [] =
    (s, concat (f <$> seqZ 0 n), Ok tt).
Proof.
  intros Hf Hfn Hres Hdir Hn Hall Honly. exists (dir_order (entries_at s l)).
  split; [by apply directory_iterator_clean|]. fold (shard_numbers s l). rewrite (std_sort_seqZ _ 0 n).
  2: { apply (shard_numbers_perm s l n); [|done|lia].
       intros i Hi. destruct (Hall i Hi) as [? _]. eauto. }
  by apply (merge_loop_chunks s dir l n f).
Qed.

(** [handleCheck] replies that the file exists exactly when the metadata store
    holds a record with that digest (or, for a key that is not 32 bytes long, that
    path). *)
Theorem check_reports_existence {LS : LevelDBSpec L} {JL : JsonLaws J} a ctx idx :
  represents (mstore a) idx -> query_md5 ctx <> [] ->
  handleCheck a ctx =
  (a, success ctx (mk_obj [])
        (if decide (is_Some (get_meta (mstore a) (query_md5 ctx)))
         then lit "file exist" else lit "file not exist")) /\
  (is_Some (get_meta (mstore a) (query_md5 ctx)) <->
   exists m, idx !! MetaFile.md5 m = Some m /\
     (if is_md5 (query_md5 ctx) then MetaFile.md5 m = query_md5 ctx
      else MetaFile.path m = query_md5 ctx)).
Proof.
  intros R Hq. split.
  - unfold handleCheck. cbv zeta. rewrite decide_False by done. unfold exists_.
    case_decide as H; [rewrite bool_decide_true by done | rewrite bool_decide_false by done]; done.
  - unfold is_Some. by setoid_rewrite (get_meta_found _ _ _ _ R).
Qed.

(** A request that gives the digest (or path) of a known record is answered with
    that record without looking at the body: neither the disk nor the metadata
    changes. *)
Theorem instant_upload e a ctx m :
  (0 <= concurrent_uploads_ a < 20)%Z -> query_md5 ctx <> [] ->
  get_meta (mstore a) (query_md5 ctx) = Some m ->
  handleUpload e a ctx =
  (set_uploads a (concurrent_uploads_ a + 1),
   success ctx (meta_to_json m) (lit "Deduplication success")).
Proof.
  intros Hc Hq Hm. unfold handleUpload. cbv zeta.
  rewrite decide_False by (unfold MAX_CONCURRENT_UPLOADS; lia). rewrite decide_False by done.
  cbn [mstore set_uploads]. rewrite Hm.
  by replace (i32 (concurrent_uploads_ a + 1)) with (concurrent_uploads_ a + 1)%Z
    by (symmetry; apply swrap_small; lia).
Qed.

End FileCtl.

(** * Witnesses *)

Import TaggedJson PadMd5 ListOrder PlainText MergeSort.

Definition demo_app : app :=
  {| disk := store_disk; mstore := fresh_store; concurrent_uploads_ := 0 |}.

Definition demo_env : env := {| env_rnd := 123456; env_now := 1680000000 |}.

(** A POST of the given form. *)
Definition form_request (parts : list part) : HttpContext :=
  make_context
    {| req_method := verb_post; req_target := lit "/upload"; req_version := 11;
       req_keep_alive := true; req_content_type := demo_ct;
       req_body := render (lit "--XyZ") parts CRLF |}
    (lit "POST") (lit "/upload") ∅ [].

Definition text_file (data : str) : part := file_part (lit "file") (lit "a.txt") [] data.

Definition upload_ctx : HttpContext := form_request [text_file (lit "hello")].

Lemma upload_slots_exhausted_witness :
  handleUpload default_StoreConfig demo_env
    (run_uploads default_StoreConfig demo_app (replicate 20 (demo_env, upload_ctx))) upload_ctx =
  (run_uploads default_StoreConfig demo_app (replicate 20 (demo_env, upload_ctx)),
   error upload_ctx (lit "Server busy, too many uploads") bad_request).
Proof. apply upload_slots_exhausted; [reflexivity | rewrite length_replicate; lia]. Defined.

Definition hello_md5 : str := CryptoUtils.md5 (lit "hello").
Definition hello_path : str := lit "default" ++ SLASH :: sharded hello_md5 ++ lit ".txt".

Definition uploaded_disk : fs :=
  fst (save_file default_StoreConfig 123456 store_disk (lit "a.txt") (lit "hello") (lit "default")
         hello_md5).

Lemma upload_stores_file_witness :
  exists a' r, handleUpload default_StoreConfig demo_env demo_app upload_ctx = (a', Ok r) /\
    res_status r = status_ok.
Proof.
  destruct (upload_stores_file default_StoreConfig demo_env demo_app upload_ctx uploaded_disk
              hello_path ∅ (fst (save_meta fresh_store
                 (accepted_meta demo_env demo_app (snd (get_form upload_ctx)) hello_path))))
    as (a' & r & H1 & H2 & _).
  - split_and!; vm_compute; (reflexivity || discriminate).
  - reflexivity.
  - by_decide.
  - vm_compute. discriminate.
  - apply pair_fst. vm_compute. reflexivity.
  - assert (resolve uploaded_disk (path_append (root_dir default_StoreConfig) hello_path) =
      Some (store_loc ++ [lit "default"; take 2 hello_md5; take 2 (drop 2 hello_md5);
                          hello_md5 ++ lit ".txt"])) as Hl by (vm_compute; reflexivity).
    intros l. rewrite Hl. intros [= <-]. vm_compute. reflexivity.
  - exact fresh_represents.
  - split_and!; by_decide || by vm_compute.
  - apply path_free_empty.
  - vm_compute. reflexivity.
  - apply pair_fst. vm_compute. reflexivity.
  - vm_compute. reflexivity.
  - exists a', r. by split.
Defined.

(** The application after the upload. *)
Definition served_app : app :=
  {| disk := no_faults uploaded_disk; mstore := saved_store; concurrent_uploads_ := 1 |}.

Definition get_ctx (q : gmap str str) (suffix : str) : HttpContext :=
  make_context
    {| req_method := verb_get; req_target := []; req_version := 11; req_keep_alive := true;
       req_content_type := []; req_body := [] |} (lit "GET") [] q suffix.

Lemma download_serves_file_witness :
  exists r,
    handleDownload default_StoreConfig 4096 served_app (get_ctx ∅ (SLASH :: hello_path)) =
      (served_app, Ok r) /\ res_status r = status_ok /\ res_body r = FileBody (lit "hello").
Proof.
  destruct (download_serves_file default_StoreConfig 4096 served_app
              (get_ctx ∅ (SLASH :: hello_path)) hello_path (lit "hello"))
    as (r & H1 & H2 & H3 & _); [reflexivity..|vm_compute; reflexivity|].
  exists r. split; [exact H1|]. by split.
Defined.

Definition chunk_form (chunk data : str) : HttpContext :=
  form_request [field_part (lit "md5", lit "abcd"); field_part (lit "chunk", chunk); text_file data].

Definition chunked_disk : fs :=
  fst (save_file_at default_StoreConfig 123456 store_disk (lit "part") (lit "_tmp/abcd/7")).

Lemma chunk_upload_listed_witness :
  fst (handleChunkUpload default_StoreConfig demo_env demo_app (chunk_form (lit "7") (lit "part"))) =
  set_disk demo_app chunked_disk.
Proof.
  refine (proj1 (chunk_upload_listed default_StoreConfig demo_env demo_app
            (chunk_form (lit "7") (lit "part")) chunked_disk 7
            (get_ctx {[lit "md5" := lit "abcd"]} []) _ _ _ _ _ _ _ _ _ _));
    [reflexivity | reflexivity | by_decide | by_decide | vm_compute; discriminate | vm_compute; discriminate
    | lia | vm_compute; reflexivity | apply pair_fst; vm_compute; reflexivity
    | vm_compute; reflexivity].
Defined.

Lemma chunk_dot_throws_witness :
  handleChunkUpload default_StoreConfig demo_env demo_app (chunk_form (lit ".") (lit "part")) =
  (set_disk demo_app (fst (create_directories store_disk (lit "./data/store/_tmp/abcd"))),
   Throw (fs_error CallFileSize (fst (create_directories store_disk (lit "./data/store/_tmp/abcd")))
            [lit "./data/store/_tmp/abcd/."])).
Proof.
  apply chunk_dot_throws;
    [reflexivity | reflexivity | by_decide | by_decide | vm_compute; discriminate | vm_compute; reflexivity
    | vm_compute; reflexivity |].
  apply pair_fst. vm_compute. reflexivity.
Defined.

Definition merge_form (h : str) : HttpContext :=
  form_request [field_part (lit "md5", h); field_part (lit "filename", lit "a.txt")].

Lemma merge_never_finds_chunks_witness :
  handleMerge default_StoreConfig demo_env (set_disk demo_app chunked_disk) (merge_form (lit "abcd")) =
  (set_disk demo_app chunked_disk,
   error (merge_form (lit "abcd")) (lit "Chunk directory not found or expired") bad_request).
Proof.
  apply (merge_never_finds_chunks default_StoreConfig demo_env (set_disk demo_app chunked_disk)
           (merge_form (lit "abcd")) store_loc);
    [reflexivity | reflexivity | by_decide | vm_compute; reflexivity | vm_compute; reflexivity
    | vm_compute; reflexivity | vm_compute; discriminate | vm_compute; discriminate
    | vm_compute; reflexivity].
Defined.

(** A directory with the chunks 0 to 1. *)
Definition pair_disk : fs :=
  {| nodes := <[[lit "c"; lit "1"] := File (lit "yy")]> (<[[lit "c"; lit "0"] := File (lit "x")]>
                (<[[lit "c"] := Dir]> {[ [] := Dir ]}));
     cwd := []; faults := [] |}.

Lemma chunks_merged_in_order_witness :
  exists es, directory_iterator pair_disk (lit "/c") = (pair_disk, Ok es) /\
    merge_loop pair_disk (lit "/c") (std_sort (fun x y => bool_decide (x < y)%Z) (chunk_numbers es)) true [] =
    (pair_disk, lit "xyy", Ok tt).
Proof.
  replace (lit "xyy") with
    (concat ((fun i => if decide (i = 0%Z) then lit "x" else lit "yy") <$> seqZ 0 2))
    by (vm_compute; reflexivity).
  apply (chunks_merged_in_order pair_disk (lit "/c") [lit "c"] 2
           (fun i => if decide (i = 0%Z) then lit "x" else lit "yy"));
    [reflexivity | reflexivity | vm_compute; reflexivity | vm_compute; reflexivity | lia | |].
  - intros i Hi. assert (i = 0 \/ i = 1)%Z as [-> | ->] by lia; split; (vm_compute; reflexivity) || done.
  - intros c x i. unfold pair_disk. cbn [nodes].
    rewrite !lookup_insert_Some, lookup_singleton_Some.
    intros [[[= <-] _]|[_ [[[= <-] _]|[_ [[[=] _]|[_ [[=] _]]]]]]];
      (intros Hs; vm_compute in Hs; injection Hs as <-; split; [vm_compute; reflexivity|lia]).
Defined.

Lemma check_reports_existence_witness :
  handleCheck served_app (get_ctx {[lit "md5" := MetaFile.md5 test_meta]} []) =
  (served_app, success (get_ctx {[lit "md5" := MetaFile.md5 test_meta]} []) (mk_obj [])
     (if decide (is_Some (get_meta saved_store
                   (query_md5 (get_ctx {[lit "md5" := MetaFile.md5 test_meta]} []))))
      then lit "file exist" else lit "file not exist")).
Proof.
  refine (proj1 (check_reports_existence served_app
            (get_ctx {[lit "md5" := MetaFile.md5 test_meta]} []) _ saved_represents _)).
  vm_compute. discriminate.
Defined.

Lemma instant_upload_witness :
  handleUpload default_StoreConfig demo_env served_app
    (get_ctx {[lit "md5" := MetaFile.md5 test_meta]} []) =
  (set_uploads served_app 2,
   success (get_ctx {[lit "md5" := MetaFile.md5 test_meta]} []) (meta_to_json test_meta)
     (lit "Deduplication success")).
Proof.
  apply (instant_upload default_StoreConfig demo_env served_app
           (get_ctx {[lit "md5" := MetaFile.md5 test_meta]} []) test_meta);
    [vm_compute; split; (discriminate || reflexivity) | vm_compute; discriminate | vm_compute; reflexivity].
Defined.

(** ** Requests that leave the store *)

(** The scene of an upload is not checked: with the scene [..] the file is stored
    outside the root directory, next to it. *)
Theorem upload_scene_escapes :
  lookup_path (disk (fst (handleUpload default_StoreConfig demo_env demo_app
    (form_request [field_part (lit "scene", lit ".."); text_file (lit "hello")]))))
    (lit "/data/" ++ sharded hello_md5 ++ lit ".txt") = Some (File (lit "hello")) /\
  root_dir default_StoreConfig = lit "./data/store".
Proof. split; vm_compute; reflexivity. Qed.

(** A disk with an unrelated directory [/srv] that has a file with a numeric name. *)
Definition srv_disk : fs :=
  set_nodes (<[[lit "srv"; lit "notes"] := File (lit "keep")]>
    (<[[lit "srv"; lit "2024"] := File (lit "log")]>
      (<[[lit "srv"] := Dir]> (nodes store_disk)))) store_disk.

(** What a merge of [/srv] leaves. *)
Definition srv_merged : handled :=
  handleMerge default_StoreConfig demo_env (set_disk demo_app srv_disk) (merge_form (lit "/srv")).

Definition reply_status (x : handled) : Z := match snd x with Ok r => res_status r | Throw _ => 0 end.

Lemma reply_status_ok x : reply_status x = status_ok -> exists r, x = (fst x, Ok r) /\ res_status r = status_ok.
Proof. destruct x as [a [r|ex]]; [|done]. by exists r. Qed.

Lemma merge_deletes_directory_witness :
  lookup_path srv_disk (lit "/srv/notes") = Some (File (lit "keep")) /\
  nodes (disk (fst srv_merged)) !! [lit "srv"; lit "notes"] = None.
Proof.
  split; [vm_compute; reflexivity|].
  assert (reply_status srv_merged = status_ok) as (r & Hm & Hs)%reply_status_ok by (vm_compute; reflexivity).
  assert (merge_dir default_StoreConfig (get_param (snd (get_form (merge_form (lit "/srv")))) (lit "md5") []) =
          lit "/srv") as Hh by (vm_compute; reflexivity).
  assert (resolve srv_disk (lit "/srv") = Some [lit "srv"]) as Hr by (vm_compute; reflexivity).
  destruct (merge_deletes_directory default_StoreConfig demo_env (set_disk demo_app srv_disk)
    (merge_form (lit "/srv")) (fst srv_merged) r) as (l & Hl & _ & _ & Hgone & _).
  - exact Hm.
  - exact Hs.
  - rewrite Hh in Hl. change (disk (set_disk demo_app srv_disk)) with srv_disk in Hl.
    rewrite Hr in Hl. injection Hl as <-. apply Hgone. by exists [lit "notes"].
Defined.
