(* ===== verification/UploadSlots.v ===== *)
(** The limit on uploads under concurrency ([controller/FileCtl.cpp], [handleUpload]):
    the threads that enter the handler at the same time, with every access of the atomic
    [concurrent_uploads_] as a step. *)

From stdpp Require Import base list strings gmap numbers relations.
From Stdlib Require Import ZArith Ascii Lia.
From S2P Require Import Prelude FileCtl.

(** ** Threads *)

(** Before [fetch_add], past the limit, before [fetch_sub], refused. *)
Inductive slot_pc : Type := GEnter | GAdmitted | GRefusing | GRefused.

Definition slot_step (n : Z) (pc : slot_pc) : option (Z * slot_pc) :=
  match pc with
  | GEnter => Some (i32 (n + 1), if decide (n >= MAX_CONCURRENT_UPLOADS)%Z then GRefusing else GAdmitted)
  | GRefusing => Some (i32 (n - 1), GRefused)
  | GAdmitted | GRefused => None
  end.

Record slots : Type := { slot_counter : Z; slot_threads : list slot_pc }.

Inductive slots_step : slots -> slots -> Prop :=
| slots_thread n ts i pc n' pc' :
    ts !! i = Some pc -> slot_step n pc = Some (n', pc') ->
    slots_step {| slot_counter := n; slot_threads := ts |}
               {| slot_counter := n'; slot_threads := <[i := pc']> ts |}.

Definition slots_start (n : Z) (k : nat) : slots :=
  {| slot_counter := n; slot_threads := replicate k GEnter |}.

(** The threads, as a function of the schedule. *)
Fixpoint schedule_slots (x : slots) (sched : list nat) : slots :=
  match sched with
  | [] => x
  | i :: sched' =>
      schedule_slots
        match slot_threads x !! i with
        | Some pc => match slot_step (slot_counter x) pc with
                     | Some (n', pc') => {| slot_counter := n'; slot_threads := <[i := pc']> (slot_threads x) |}
                     | None => x
                     end
        | None => x
        end sched'
  end.

Lemma schedule_slots_steps sched x : rtc slots_step x (schedule_slots x sched).
Proof.
  revert x. induction sched as [|i sched IH]; intros [n ts]; simpl; [apply rtc_refl|].
  destruct (ts !! i) as [pc|] eqn:Hi; [|apply IH].
  destruct (slot_step n pc) as [[n' pc']|] eqn:Hs; [|apply IH].
  eapply rtc_l; [by eapply slots_thread|apply IH].
Qed.

(** ** Counting *)

Definition is_pc (p pc : slot_pc) : nat :=
  match p, pc with
  | GEnter, GEnter | GAdmitted, GAdmitted | GRefusing, GRefusing | GRefused, GRefused => 1
  | _, _ => 0
  end.

(** The threads at a place. *)
Definition at_pc (p : slot_pc) (ts : list slot_pc) : nat := sum_list_with (is_pc p) ts.

Lemma at_pc_insert p ts i pc pc' :
  ts !! i = Some pc -> at_pc p (<[i := pc']> ts) + is_pc p pc = at_pc p ts + is_pc p pc'.
Proof. apply sum_list_with_insert. Qed.

Lemma at_pc_replicate p k : p <> GEnter -> at_pc p (replicate k GEnter) = 0.
Proof. intros Hp. induction k as [|k IH]; simpl; [done|]. unfold at_pc in *. simpl. rewrite IH. by destruct p. Qed.

Lemma at_pc_length ts : at_pc GAdmitted ts + at_pc GRefusing ts <= length ts.
Proof.
  unfold at_pc. induction ts as [|[] ts IH]; simpl in *; lia.
Qed.

(** The counter is the initial value and the threads that have added to it and not
    subtracted; it exceeds the limit only by threads that are about to subtract. *)
Record slots_inv (n0 : Z) (k : nat) (x : slots) : Prop := {
  si_length : length (slot_threads x) = k;
  si_counter : slot_counter x =
    (n0 + Z.of_nat (at_pc GAdmitted (slot_threads x)) + Z.of_nat (at_pc GRefusing (slot_threads x)))%Z;
  si_limit : (n0 + Z.of_nat (at_pc GAdmitted (slot_threads x)) <= MAX_CONCURRENT_UPLOADS)%Z;
  si_full : 0 < at_pc GRefusing (slot_threads x) + at_pc GRefused (slot_threads x) ->
    (n0 + Z.of_nat (at_pc GAdmitted (slot_threads x)) = MAX_CONCURRENT_UPLOADS)%Z; }.

Section Slots.
Context (n0 : Z) (k : nat).
Context (Hn0 : (0 <= n0 <= MAX_CONCURRENT_UPLOADS)%Z) (Hk : (Z.of_nat k < 2 ^ 30)%Z).

Lemma slots_step_inv x y : slots_step x y -> slots_inv n0 k x -> slots_inv n0 k y.
Proof.
  intros [n ts i pc n' pc' Hi Hs] [H1 H2 H3 H4]. cbn [slot_counter slot_threads] in *.
  pose proof (at_pc_length ts) as Hlen.
  pose proof (at_pc_insert GAdmitted ts i pc pc' Hi) as Ea.
  pose proof (at_pc_insert GRefusing ts i pc pc' Hi) as Er.
  pose proof (at_pc_insert GRefused ts i pc pc' Hi) as Ed.
  assert (forall z, (0 <= z < 2 ^ 31)%Z -> i32 z = z) as Hw by (intros z Hz; apply swrap_small; lia).
  unfold MAX_CONCURRENT_UPLOADS in *.
  destruct pc; simpl in Hs; try done.
  - injection Hs as <- <-.
    case_decide as Hc; cbn [is_pc] in Ea, Er, Ed; split; cbn [slot_counter slot_threads];
      unfold MAX_CONCURRENT_UPLOADS in *; rewrite ?length_insert, ?Hw by lia; lia.
  - injection Hs as <- <-. cbn [is_pc] in Ea, Er, Ed.
    split; cbn [slot_counter slot_threads]; unfold MAX_CONCURRENT_UPLOADS;
      rewrite ?length_insert, ?Hw by lia; lia.
Qed.

Lemma slots_run_inv x : rtc slots_step (slots_start n0 k) x -> slots_inv n0 k x.
Proof.
  revert x. apply rtc_ind_r; [|intros y z _ Hs; by apply slots_step_inv].
  split; cbn [slots_start slot_counter slot_threads]; rewrite ?at_pc_replicate by done; try lia.
  by rewrite length_replicate.
Qed.

(** * Properties *)

(** C22: the limit holds under concurrency: however the uploads that arrive at the same
    time interleave, no more are let through than there were places, the counter is
    exact once none is about to be refused, and an upload is refused only when all places
    are taken. *)
Theorem upload_limit_exact x :
  rtc slots_step (slots_start n0 k) x ->
  (n0 + Z.of_nat (at_pc GAdmitted (slot_threads x)) <= MAX_CONCURRENT_UPLOADS)%Z /\
  (at_pc GRefusing (slot_threads x) = 0%nat ->
   slot_counter x = n0 + Z.of_nat (at_pc GAdmitted (slot_threads x)))%Z /\
  (forall i pc, slot_threads x !! i = Some pc -> pc = GRefusing \/ pc = GRefused ->
   n0 + Z.of_nat (at_pc GAdmitted (slot_threads x)) = MAX_CONCURRENT_UPLOADS)%Z.
Proof.
  intros [_ H2 H3 H4]%slots_run_inv. split_and!; [done|lia|].
  intros i pc Hi Hpc. apply H4.
  pose proof (at_pc_insert GRefusing _ i pc GEnter Hi) as Er.
  pose proof (at_pc_insert GRefused _ i pc GEnter Hi) as Ed.
  destruct Hpc as [-> | ->]; cbn [is_pc] in Er, Ed; lia.
Qed.

End Slots.

(** * Witnesses *)

(** Three uploads at once when one place is left. *)
Definition demo_slots : slots := schedule_slots (slots_start 19 3) [1; 0; 2; 0].

Lemma upload_limit_exact_witness :
  slot_threads demo_slots = [GRefused; GAdmitted; GRefusing] /\
  (19 + Z.of_nat (at_pc GAdmitted (slot_threads demo_slots)) = MAX_CONCURRENT_UPLOADS)%Z.
Proof.
  destruct (upload_limit_exact 19 3 ltac:(unfold MAX_CONCURRENT_UPLOADS; lia) ltac:(lia) demo_slots
    (schedule_slots_steps _ _)) as (_ & _ & H).
  split; [reflexivity|]. apply (H 0 GRefused); [reflexivity|by right].
Defined.
