(* ===== verification/FileMerge.v ===== *)
(** [FileCtl::handleMerge] from the request to the stored file: what the disk, the
    metadata store and the reply are when the chunks of a file are complete. *)

From stdpp Require Import base list strings gmap sorting numbers fin_maps.
From Stdlib Require Import ZArith Ascii Lia.
From S2P Require Import Prelude Algorithm Util UrlUtils Json MetaFile LevelDB MetadataStore.
From S2P Require Import MetaRefine Multipart Http Paths CryptoUtils FileSystem FileStore FileCtl.

Import MultipartParser.

Section Merge.
Context {L : LevelDB} {J : JsonLib} {M : Md5Lib} {O : DirOrder} {T : FsText} {SS : StdSort}.
Context (config_ : StoreConfig).
(** The disk, the digest, the scene and the extension of the file, the location of
    the directory of the chunk directories and that of the target directory, the
    number of chunks and their contents. *)
Context (s : fs) (h scene_ ext : str) (lp lf : list str) (n : Z) (f : Z -> str).

Definition merged_name : str := h ++ lit ".merged".

(** The chunks 0 to [n-1] are there and none is empty; the target directory exists
    and is reached without passing through the chunk directory. *)
Record complete : Prop := {
  c_faults : faults s = [];
  c_root : has_filename (root_dir config_) = true;
  c_temp : plain (temp_dir config_);
  c_scene : plain scene_;
  c_digest : digest_ok h;
  c_parent : resolve s (merge_parent config_) = Some lp;
  c_parent_dir : is_dir_at s lp = true;
  c_dir : is_dir_at s (lp ++ [h]) = true;
  c_merged : is_dir_at s (lp ++ [merged_name]) = false;
  c_count : (1 <= n <= 2 ^ 31)%Z;
  c_chunks i : (0 <= i < n)%Z ->
    nodes s !! (lp ++ [h; to_string i]) = Some (File (f i)) /\ f i <> [];
  c_only c x i : nodes s !! (lp ++ [h; c]) = Some (File x) -> stoi c = Ok i ->
    c = to_string i /\ (0 <= i < n)%Z;
  c_target : resolve (remaining s (merge_dir config_ h)) (file_dir (root_dir config_) scene_ h) =
    Some lf;
  c_target_dir : is_dir_at (remaining s (merge_dir config_ h)) lf = true;
  c_plain : plain (file_name h ext);
  c_final : is_dir_at s (lf ++ [file_name h ext]) = false;
}.

Definition merged_text : str := concat (f <$> seqZ 0 n).

Context (Hc : complete).

Lemma digest_plain : plain h.
Proof.
  destruct (c_digest Hc) as [Hl Hs].
  split_and!; [intros H%(f_equal length); rewrite Hl in H; simpl in H; lia..|done].
Qed.

Lemma merged_plain : plain merged_name.
Proof.
  destruct (c_digest Hc) as [Hl Hs].
  unfold merged_name. split_and!;
    [intros H%(f_equal length); rewrite length_app, Hl in H; simpl in H; lia..|].
  rewrite elem_of_app. intros [?|H]; [done|]. revert H. by_decide.
Qed.

#[local] Hint Resolve digest_plain merged_plain : cdfs.

Lemma merge_dir_is : merge_dir config_ h = merge_parent config_ ++ SLASH :: h.
Proof. apply merge_dir_path; [apply (c_temp Hc)|]. apply is_absolute_fresh, digest_plain. Qed.

Lemma parent_nonempty : merge_parent config_ <> [].
Proof. unfold merge_parent. by destruct (root_dir config_). Qed.

Lemma merged_file_path :
  path_append (parent_path (merge_dir config_ h)) merged_name =
  merge_parent config_ ++ SLASH :: merged_name.
Proof.
  rewrite merge_dir_is, parent_path_app.
  - apply path_append_name; [apply merge_parent_filename, (c_temp Hc)|].
    apply is_absolute_fresh, merged_plain.
  - apply merge_parent_filename, (c_temp Hc).
  - apply digest_plain.
Qed.

(** Resolution on a disk with the same directories. *)
Lemma resolve_child s' c :
  cwd s' = cwd s -> (forall k, is_dir_at s' k = is_dir_at s k) -> plain c ->
  resolve s' (merge_parent config_ ++ SLASH :: c) = Some (lp ++ [c]).
Proof.
  intros Hw Hd Hp. rewrite resolve_in by (done || apply parent_nonempty).
  rewrite (resolve_dirs s s') by done. by rewrite (c_parent Hc), Hd, (c_parent_dir Hc).
Qed.

Lemma resolve_merge_dir : resolve s (merge_dir config_ h) = Some (lp ++ [h]).
Proof. rewrite merge_dir_is. apply resolve_child; auto with cdfs. Qed.

Lemma chunk_loc_nonempty : lp ++ [h] <> [].
Proof. by destruct lp. Qed.

Lemma final_outside k : is_dir_at s k = false -> removelast k = lf -> ~ (lp ++ [h]) `prefix_of` k.
Proof.
  intros Hk Hlast Hpre. pose proof (c_target_dir Hc) as Ht.
  rewrite (remaining_dirs _ _ _ _ resolve_merge_dir chunk_loc_nonempty) in Ht. apply andb_true_iff in Ht as [Ht _].
  apply bool_decide_eq_true in Ht. destruct Hpre as [t ->]. destruct t as [|x t].
  - rewrite app_nil_r in Hk. by rewrite (c_dir Hc) in Hk.
  - apply Ht. exists (removelast (x :: t)). rewrite <- Hlast. by rewrite removelast_app.
Qed.

(** ** The disk at each step *)

Definition opened_disk : fs := set_nodes (<[lp ++ [merged_name] := File []]> (nodes s)) s.

Definition merged_disk : fs :=
  set_nodes (<[lp ++ [merged_name] := File merged_text]> (nodes opened_disk)) opened_disk.

Definition moved_disk : fs :=
  set_nodes (<[lf ++ [file_name h ext] := File merged_text]>
               (delete (lp ++ [merged_name]) (nodes merged_disk))) merged_disk.

Definition final_disk : fs := remaining moved_disk (merge_dir config_ h).

Lemma opened_dirs k : is_dir_at opened_disk k = is_dir_at s k.
Proof. apply insert_file_dirs, (c_merged Hc). Qed.

Lemma merged_dirs k : is_dir_at merged_disk k = is_dir_at s k.
Proof. rewrite <- opened_dirs. apply insert_file_dirs. rewrite opened_dirs. apply (c_merged Hc). Qed.

Lemma moved_dirs k : is_dir_at moved_disk k = is_dir_at s k.
Proof.
  rewrite <- merged_dirs. unfold moved_disk, is_dir_at. cbn [nodes set_nodes].
  destruct (decide (k = lf ++ [file_name h ext])) as [->|Hne].
  - rewrite lookup_insert_eq. fold (is_dir_at merged_disk (lf ++ [file_name h ext])).
    rewrite merged_dirs, (c_final Hc). by apply bool_decide_false.
  - rewrite lookup_insert_ne by done. destruct (decide (k = lp ++ [merged_name])) as [->|Hne2].
    + rewrite lookup_delete_eq. fold (is_dir_at merged_disk (lp ++ [merged_name])).
      rewrite merged_dirs, (c_merged Hc). by apply bool_decide_false.
    + by rewrite lookup_delete_ne.
Qed.

Lemma resolve_moved : resolve moved_disk (merge_dir config_ h) = Some (lp ++ [h]).
Proof. rewrite merge_dir_is. apply resolve_child; auto using moved_dirs with cdfs. Qed.

Lemma final_dirs k : is_dir_at final_disk k = is_dir_at (remaining s (merge_dir config_ h)) k.
Proof.
  unfold final_disk. rewrite (remaining_dirs _ _ _ _ resolve_moved chunk_loc_nonempty).
  by rewrite (remaining_dirs _ _ _ _ resolve_merge_dir chunk_loc_nonempty), moved_dirs.
Qed.

Lemma final_cwd : cwd final_disk = cwd (remaining s (merge_dir config_ h)).
Proof. unfold final_disk. by rewrite !(proj1 (remaining_cwd _ _)). Qed.

Lemma final_faults : faults final_disk = [].
Proof. unfold final_disk. rewrite (proj2 (remaining_cwd _ _)). apply (c_faults Hc). Qed.

Abbreviation target_dir := (file_dir (root_dir config_) scene_ h).

Lemma target_nonempty : target_dir <> [].
Proof. unfold file_dir. by destruct (root_dir config_). Qed.

(** The target is at the same place before and after the chunk directory is gone. *)
Lemma resolve_target s' :
  cwd s' = cwd s -> (forall k, is_dir_at s' k = is_dir_at s k) ->
  resolve s' target_dir = Some lf /\ is_dir_at s' lf = true.
Proof.
  intros Hw Hd.
  assert (forall k, is_dir_at (remaining s (merge_dir config_ h)) k = true -> is_dir_at s' k = true) as Hm.
  { intros k. rewrite (remaining_dirs _ _ _ _ resolve_merge_dir chunk_loc_nonempty), Hd. by intros [_ ?]%andb_true_iff. }
  split; [|apply Hm, (c_target_dir Hc)].
  eapply (resolve_mono (remaining s (merge_dir config_ h))); [|exact Hm|apply (c_target Hc)].
  by rewrite (proj1 (remaining_cwd _ _)).
Qed.

Lemma final_file : lookup_path final_disk (target_dir ++ SLASH :: file_name h ext) = Some (File merged_text).
Proof.
  unfold lookup_path. rewrite resolve_in by (apply target_nonempty || apply (c_plain Hc)).
  rewrite (resolve_dirs _ _ _ final_cwd final_dirs), (c_target Hc), final_dirs, (c_target_dir Hc).
  apply (remaining_node _ _ _ _ _ resolve_moved chunk_loc_nonempty). split.
  { unfold moved_disk. cbn [nodes set_nodes]. by rewrite lookup_insert_eq. }
  apply final_outside; [apply (c_final Hc)|]. cbn [fst]. apply removelast_last.
Qed.

Lemma final_chunks_gone k : (lp ++ [h]) `prefix_of` k -> nodes final_disk !! k = None.
Proof.
  intros Hk. destruct (nodes final_disk !! k) as [x|] eqn:E; [|done].
  by apply (remaining_node _ _ _ _ _ resolve_moved chunk_loc_nonempty) in E as [_ []].
Qed.

Lemma merge_chunks :
  merge_loop opened_disk (merge_dir config_ h) (seqZ 0 n) true [] = (opened_disk, merged_text, Ok tt).
Proof.
  assert (resolve opened_disk (merge_dir config_ h) = Some (lp ++ [h])) as Hres.
  { rewrite merge_dir_is. apply resolve_child; auto using opened_dirs with cdfs. }
  apply (merge_loop_chunks opened_disk (merge_dir config_ h) (lp ++ [h]) n f); [apply (c_faults Hc)| |done| |].
  - rewrite merge_dir_is. change (SLASH :: h) with ([SLASH] ++ h).
    rewrite app_assoc, has_filename_app by apply digest_plain.
    apply has_filename_fresh; apply digest_plain.
  - rewrite opened_dirs. apply (c_dir Hc).
  - intros i Hi. unfold opened_disk. cbn [nodes set_nodes]. rewrite <- app_assoc. simpl.
    rewrite lookup_insert_ne; [by apply (c_chunks Hc)|]. intros H%(f_equal length).
    rewrite !length_app in H. simpl in H. lia.
Qed.

(** ** The handler *)

(** The record of the merged file. *)
Definition merged_meta (e : env) (a : app) (fname : str) : MetaFile :=
  upload_meta (mstore a) fname scene_ h (Z.of_nat (length merged_text)) (stored_path scene_ h ext)
    (env_now e).

Lemma merge_store_complete e a ctx fname :
  disk a = s -> path_extension fname = ext ->
  let m := merged_meta e a fname in
  let st := fst (save_meta (mstore a) m) in
  merge_store config_ e a ctx (merge_dir config_ h) (seqZ 0 n) h fname scene_ =
  (set_disk (set_mstore a st) final_disk, success ctx (upload_reply st m) (lit "Merge success")).
Proof.
  intros Ha He m st. unfold merge_store. cbv zeta. fold merged_name. rewrite merged_file_path, Ha.
  pose proof (fun s' Hw Hd => resolve_child s' merged_name Hw Hd merged_plain) as Hrm.
  rewrite (open_trunc_clean s _ (lp ++ [merged_name])); [|apply (c_faults Hc)|by apply Hrm| |apply (c_merged Hc)].
  2: { rewrite parent_loc_snoc. apply (c_parent_dir Hc). }
  fold opened_disk. rewrite merge_chunks, close_file_clean by apply (c_faults Hc). fold merged_disk.
  rewrite md5_to_rel_path_ok by (destruct (c_digest Hc); done || lia). rewrite He.
  destruct (abs_file_path (root_dir config_) scene_ h ext (c_root Hc) (c_scene Hc) (c_digest Hc))
    as [Habs _].
  unfold get_root_dir. rewrite Habs, parent_path_app.
  2: { by apply file_dir_filename, (c_digest Hc). }
  2: { apply (c_plain Hc). }
  destruct (resolve_target merged_disk eq_refl merged_dirs) as [Ht Htd].
  destruct (create_directories_existing _ _ _ Ht Htd) as (_ & _ & Hcd).
  rewrite Hcd by apply (c_faults Hc). cbn [negb].
  rewrite (rename_clean _ _ _ (lp ++ [merged_name]) (lf ++ [file_name h ext]) merged_text);
    [|apply (c_faults Hc)|by apply Hrm; [|apply merged_dirs]| | | |].
  - fold moved_disk. cbn [io_bind].
    rewrite (remove_all_clean _ _ _ (c_faults Hc : faults moved_disk = []) resolve_moved chunk_loc_nonempty).
    fold final_disk. cbn [io_bind]. rewrite (file_size_clean _ _ merged_text); [|apply final_faults|apply final_file].
    fold (stored_path scene_ h ext). done.
  - rewrite resolve_in by (apply target_nonempty || apply (c_plain Hc)). by rewrite Ht, Htd.
  - unfold merged_disk. cbn [nodes set_nodes]. by rewrite lookup_insert_eq.
  - by rewrite parent_loc_snoc.
  - rewrite merged_dirs. apply (c_final Hc).
Qed.

Lemma handleMerge_complete e a ctx :
  let form := snd (get_form ctx) in
  let fname := get_param form (lit "filename") [] in
  disk a = s -> get_param form (lit "md5") [] = h ->
  get_param form (lit "scene") (lit "default") = scene_ ->
  fname <> [] -> path_extension fname = ext ->
  let m := merged_meta e a fname in
  let st := fst (save_meta (mstore a) m) in
  handleMerge config_ e a ctx =
  catch_reply ctx (lit "Merge failed: ")
    (set_disk (set_mstore a st) final_disk, success ctx (upload_reply st m) (lit "Merge success")).
Proof.
  intros form fname Ha Hh Hsc Hn He m st. unfold handleMerge. cbv zeta. fold form. fold fname.
  rewrite Hh, Hsc, decide_False by (intros [H|?]; [by apply digest_plain in H|done]).
  assert (lookup_path s (merge_dir config_ h) = Some Dir) as Hl.
  { rewrite (lookup_path_at _ _ _ resolve_merge_dir). pose proof (c_dir Hc) as Hd.
    by apply bool_decide_eq_true in Hd. }
  rewrite exists_path_clean, Ha, Hl by (rewrite Ha; apply (c_faults Hc)). cbn [bool_decide].
  rewrite <- Ha, set_disk_id. unfold merge_try. rewrite Ha.
  rewrite (directory_iterator_clean _ _ _ (c_faults Hc) resolve_merge_dir (c_dir Hc)).
  rewrite <- Ha, set_disk_id, Ha. fold (shard_numbers s (lp ++ [h])). cbv zeta.
  assert (shard_numbers s (lp ++ [h]) ≡ₚ seqZ 0 n) as Hp.
  { apply (shard_numbers_perm s (lp ++ [h])).
    - intros i Hi. rewrite <- app_assoc. simpl. destruct (c_chunks Hc i Hi). eauto.
    - intros c x i. rewrite <- app_assoc. simpl. apply (c_only Hc).
    - apply (c_count Hc). }
  rewrite decide_False.
  - rewrite (std_sort_seqZ _ 0 n Hp). f_equal. by apply merge_store_complete.
  - intros Hnil. rewrite Hnil in Hp. apply Permutation_length in Hp. rewrite length_seqZ in Hp.
    pose proof (c_count Hc). simpl in Hp. lia.
Qed.

End Merge.

Lemma no_faults_id s : faults s = [] -> no_faults s = s.
Proof. destruct s. simpl. by intros ->. Qed.

Section Property.
Context {L : LevelDB} {LS : LevelDBSpec L} {J : JsonLib} {JL : JsonLaws J}.
Context {M : Md5Lib} {O : DirOrder} {T : FsText} {SS : StdSort} (config_ : StoreConfig).

(** C8: when the directory [handleMerge] looks in holds exactly the non-empty chunks 0
    to n-1 of a new file and the target directory exists, a merge request is
    answered with status 200; afterwards [get_file] of the recorded path returns the
    chunks joined in numeric order, [get_meta] of the digest returns the record with
    the joined size, and nothing is left of the chunk directory. *)
Theorem merge_builds_file e a ctx lp lf n f idx st :
  let form := snd (get_form ctx) in
  let h := get_param form (lit "md5") [] in
  let fname := get_param form (lit "filename") [] in
  let scene_ := get_param form (lit "scene") (lit "default") in
  let m := merged_meta h scene_ (path_extension fname) n f e a fname in
  fname <> [] -> complete config_ (disk a) h scene_ (path_extension fname) lp lf n f ->
  represents (mstore a) idx -> record_ok m -> path_free idx m -> idx !! h = None ->
  save_meta (mstore a) m = (st, true) -> json_utf8 (upload_reply st m) = true ->
  exists a' r, handleMerge config_ e a ctx = (a', Ok r) /\ res_status r = status_ok /\
    get_meta (mstore a') h = Some m /\
    snd (get_file config_ (disk a') (MetaFile.path m)) = Ok (Some (concat (f <$> seqZ 0 n))) /\
    (forall k, (lp ++ [h]) `prefix_of` k -> nodes (disk a') !! k = None).
Proof.
  intros form h fname scene_ m Hn Hc R Hok Hpf Hidx Hsm Hu.
  rewrite (handleMerge_complete config_ (disk a) h scene_ (path_extension fname) lp lf n f Hc e a ctx)
    by done.
  fold form. fold fname. fold m. rewrite Hsm. cbn [fst].
  destruct (success_ok ctx (upload_reply st m) (lit "Merge success") Hu eq_refl) as (r & Hrep & Hst).
  rewrite Hrep. cbn [catch_reply]. eexists _, r. split; [reflexivity|]. split; [done|]. split_and!.
  - destruct (save_meta_new _ _ _ _ R Hok Hpf Hidx Hsm) as [_ Hget]. exact Hget.
  - cbn [disk set_disk]. rewrite <- (no_faults_id (final_disk _ _ _ _ _ _ _ _)).
    + rewrite (get_file_lookup config_ _ _ (concat (f <$> seqZ 0 n))); [done|]. change (MetaFile.path m) with (stored_path scene_ h (path_extension fname)).
      destruct (abs_file_path (root_dir config_) scene_ h (path_extension fname)
                  (c_root _ _ _ _ _ _ _ _ _ Hc) (c_scene _ _ _ _ _ _ _ _ _ Hc)
                  (c_digest _ _ _ _ _ _ _ _ _ Hc)) as [_ Hp].
      rewrite Hp. by apply final_file.
    + unfold final_disk. rewrite (proj2 (remaining_cwd _ _)).
      apply (c_faults _ _ _ _ _ _ _ _ _ Hc).
  - intros k Hk. by apply final_chunks_gone with scene_.
Qed.

End Property.

(** * Witness *)

Import MemDB TaggedJson PadMd5 ListOrder PlainText MergeSort.

(** A digest, and a disk with its two chunks where [handleMerge] looks for them. *)
Definition some_md5 : str := replicate 32 (chr 97).

Definition spaced_loc : list str := store_loc ++ [lit " _tmp"].

Definition scene_loc : list str := store_loc ++ [lit "default"].

Definition complete_disk : fs :=
  {| nodes := <[spaced_loc ++ [some_md5; lit "1"] := File (lit "yy")]>
             (<[spaced_loc ++ [some_md5; lit "0"] := File (lit "x")]>
             (<[spaced_loc ++ [some_md5] := Dir]> (<[spaced_loc := Dir]>
             (<[scene_loc ++ [lit "aa"; lit "aa"] := Dir]> (<[scene_loc ++ [lit "aa"] := Dir]>
             (<[scene_loc := Dir]> (<[store_loc := Dir]> (<[[lit "data"] := Dir]>
             {[ [] := Dir ]}))))))));
     cwd := []; faults := [] |}.

Definition chunk_text (i : Z) : str := if decide (i = 0%Z) then lit "x" else lit "yy".

Lemma complete_disk_complete :
  complete default_StoreConfig complete_disk some_md5 (lit "default") (lit ".txt")
    spaced_loc (scene_loc ++ [lit "aa"; lit "aa"]) 2 chunk_text.
Proof.
  split; [reflexivity | reflexivity | by_decide | by_decide | by_decide
    | vm_compute; reflexivity | vm_compute; reflexivity | vm_compute; reflexivity
    | vm_compute; reflexivity | lia | | | vm_compute; reflexivity | vm_compute; reflexivity
    | by_decide | vm_compute; reflexivity].
  - intros i Hi. assert (i = 0 \/ i = 1)%Z as [-> | ->] by lia; split; (vm_compute; reflexivity) || done.
  - intros c x i Hl. unfold complete_disk in Hl. cbn [nodes] in Hl.
    rewrite !lookup_insert_Some, lookup_singleton_Some in Hl.
    repeat (destruct Hl as [[Hk Hv]|[_ Hl]];
            [discriminate Hv ||
             (apply app_inv_head in Hk; injection Hk as <-; intros Hs; vm_compute in Hs;
              injection Hs as <-; split; [vm_compute; reflexivity|lia])|]).
    by destruct Hl.
Qed.

Lemma merge_builds_file_witness :
  exists a' r, handleMerge default_StoreConfig demo_env (set_disk demo_app complete_disk)
      (merge_form some_md5) = (a', Ok r) /\ res_status r = status_ok /\
    snd (get_file default_StoreConfig (disk a') (stored_path (lit "default") some_md5 (lit ".txt"))) =
      Ok (Some (lit "xyy")).
Proof.
  destruct (merge_builds_file default_StoreConfig demo_env (set_disk demo_app complete_disk)
              (merge_form some_md5) spaced_loc (scene_loc ++ [lit "aa"; lit "aa"]) 2 chunk_text ∅
              (fst (save_meta fresh_store (merged_meta some_md5 (lit "default") (lit ".txt") 2 chunk_text
                 demo_env (set_disk demo_app complete_disk) (lit "a.txt")))))
    as (a' & r & H1 & H2 & _ & H3 & _).
  - vm_compute. discriminate.
  - exact complete_disk_complete.
  - exact fresh_represents.
  - split_and!; by_decide || by vm_compute.
  - apply path_free_empty.
  - vm_compute. reflexivity.
  - apply pair_fst. vm_compute. reflexivity.
  - vm_compute. reflexivity.
  - exists a', r. split; [exact H1|]. split; [exact H2|exact H3].
Defined.
