(* ===== verification/FileRace.v ===== *)
(** Several worker threads inside [FileStore::write_disk] ([file/filestore.cpp]) for the
    same path and the same data, as happens when the same content is uploaded twice at
    once: each call of the file system is one step. *)

From stdpp Require Import base list strings gmap numbers relations.
From Stdlib Require Import ZArith Ascii Lia.
From S2P Require Import Prelude Util UrlUtils Paths FileSystem FileStore.

Section Writers.
Context {T : FsText}.

(** ** One writer *)

(** The call of the file system a thread is at in [write_disk]: the first check, the
    directories, the temporary file (open, write, close), its removal after a failed
    write, the rename, the check after it, the removal of a wrong file with the size
    for the log, and the [remove] of the handlers. *)
Inductive writer_pc : Type :=
| WExists
| WSize
| WDirs
| WOpen
| WWrite (l : list str)
| WClose (l : list str)
| WDropTemp
| WRename
| WStatus
| WVerify
| WDrop
| WLogSize
| WGiveUp
| WDone (r : outcome bool).

(** After a call that may throw. *)
Definition after {A} (m : io A) (ok : A -> writer_pc) (failed : str -> writer_pc) : option (fs * writer_pc) :=
  match m with
  | (s, Ok x) => Some (s, ok x)
  | (s, Throw e) => Some (s, failed e)
  end.

(** The next call and what follows it; [None] when the function has returned. *)
Definition write_step (rnd : Z) (full_path data : str) (s : fs) (pc : writer_pc)
  : option (fs * writer_pc) :=
  let temp_path := full_path ++ lit ".tmp." ++ generate_temp_suffix rnd in
  let thrown e := WDone (Throw e) in
  let caught (_ : str) := WGiveUp in
  let same_size (n : Z) := bool_decide (n = Z.of_nat (length data)) in
  match pc with
  | WExists => after (exists_path s full_path) (fun there : bool => if there then WSize else WDirs) thrown
  | WSize => after (file_size s full_path) (fun n => if same_size n then WDone (Ok true) else WDirs) thrown
  | WDirs => Some (fst (create_directories s (parent_path full_path)), WOpen)
  | WOpen =>
      match open_trunc s temp_path with
      | (s, None) => Some (s, WDone (Ok false))
      | (s, Some l) => Some (s, WWrite l)
      end
  | WWrite l => let '(s, good) := write_stream s l data in Some (s, if (good : bool) then WClose l else WDropTemp)
  | WClose l => Some (close_file s l data, WRename)
  | WDropTemp => after (remove s temp_path) (fun _ => WDone (Ok false)) caught
  | WRename => after (rename s temp_path full_path) (fun _ => WStatus) caught
  | WStatus =>
      after (fs_status s full_path) (fun st => match st with None => WDrop | Some _ => WVerify end) caught
  | WVerify => after (file_size s full_path) (fun n => if same_size n then WDone (Ok true) else WDrop) caught
  | WDrop => after (remove s full_path) (fun _ => WLogSize) caught
  | WLogSize => after (file_size s full_path) (fun _ => WDone (Ok false)) caught
  | WGiveUp => after (remove s full_path) (fun _ => WDone (Ok false)) thrown
  | WDone _ => None
  end.

(** A thread that runs alone. *)
Fixpoint run_writer (n : nat) (rnd : Z) (full_path data : str) (s : fs) (pc : writer_pc)
  : fs * writer_pc :=
  match n with
  | O => (s, pc)
  | S n' =>
      match write_step rnd full_path data s pc with
      | Some (s', pc') => run_writer n' rnd full_path data s' pc'
      | None => (s, pc)
      end
  end.

(** ** Several writers *)

(** The disk and the threads, each with the number it drew. *)
Definition race : Type := (fs * list (Z * writer_pc))%type.

Inductive race_step (full_path data : str) : race -> race -> Prop :=
| race_thread s ts i rnd pc s' pc' :
    ts !! i = Some (rnd, pc) -> write_step rnd full_path data s pc = Some (s', pc') ->
    race_step full_path data (s, ts) (s', <[i := (rnd, pc')]> ts).

(** All threads at the start of the function. *)
Definition race_start (s : fs) (rnds : list Z) : race := (s, (fun r => (r, WExists)) <$> rnds).

(** * Lemmas *)

Section Alone.
Context (rnd : Z) (p data : str).

Abbreviation run := (fun n => run_writer n rnd p data).
Abbreviation returns x := (fst x, WDone (snd x)).

Lemma run_done n s r : run n s (WDone r) = (s, WDone r).
Proof. by destruct n. Qed.

Lemma run_step n s pc s' pc' :
  write_step rnd p data s pc = Some (s', pc') -> run (S n) s pc = run n s' pc'.
Proof. intros H. cbn [run_writer]. by rewrite H. Qed.

Lemma run_give_up n s : run (1 + n) s WGiveUp = returns (give_up_on s p).
Proof.
  unfold give_up_on. cbn [plus run_writer write_step]. destruct (remove s p) as [s1 [u|e]]; apply run_done.
Qed.

Lemma run_drop n s : run (3 + n) s WDrop = returns (drop_written s p).
Proof.
  unfold drop_written. destruct (remove s p) as [s1 [u|e]] eqn:E1; cbn [plus io_try].
  - erewrite run_step by (cbn [write_step]; by rewrite E1). destruct (file_size s1 p) as [s2 [z|e]] eqn:E2; cbn [io_try].
    + erewrite run_step by (cbn [write_step]; by rewrite E2). apply run_done.
    + erewrite run_step by (cbn [write_step]; by rewrite E2). apply run_give_up.
  - erewrite run_step by (cbn [write_step]; by rewrite E1). apply (run_give_up (S n)).
Qed.

Lemma run_verify n s : run (5 + n) s WStatus = returns (verify_written s p data).
Proof.
  unfold verify_written. destruct (fs_status s p) as [s1 [[nd|]|e]] eqn:E1; cbn [plus io_try];
    (erewrite run_step by (cbn [write_step]; by rewrite E1)).
  - destruct (file_size s1 p) as [s2 [z|e]] eqn:E2; cbn [io_try]; (erewrite run_step by (cbn [write_step]; by rewrite E2)).
    + case_bool_decide as Hz; [rewrite decide_True by done; apply run_done|].
      rewrite decide_False by done. apply run_drop.
    + apply (run_give_up (2 + n)).
  - apply (run_drop (1 + n)).
  - apply (run_give_up (3 + n)).
Qed.

Lemma run_write_new n s : run (10 + n) s WDirs = returns (write_new rnd s p data).
Proof.
  unfold write_new, write_file. cbn [plus]. destruct (create_directories s (parent_path p)) as [s1 ok] eqn:E1.
  erewrite run_step by (cbn [write_step]; by rewrite E1). cbn [fst].
  destruct (open_trunc s1 _) as [s2 [l|]] eqn:E2; (erewrite run_step by (cbn [write_step]; by rewrite E2)); [|by apply run_done].
  destruct (write_stream s2 l data) as [s3 []] eqn:E3; (erewrite run_step by (cbn [write_step]; by rewrite E3)).
  - erewrite run_step by done. set (s4 := close_file s3 l data).
    destruct (rename s4 _ p) as [s5 [u|e]] eqn:E5; cbn [io_try]; (erewrite run_step by (cbn [write_step]; by rewrite E5)).
    + apply run_verify.
    + apply (run_give_up (4 + n)).
  - destruct (remove s3 _) as [s4 [u|e]] eqn:E4; cbn [io_try]; (erewrite run_step by (cbn [write_step]; by rewrite E4)).
    + apply run_done.
    + apply (run_give_up (5 + n)).
Qed.

(** A thread that runs alone computes [write_disk]. *)
Lemma run_writer_alone s :
  run_writer 12 rnd p data s WExists = returns (write_disk rnd s p data).
Proof.
  unfold write_disk. destruct (exists_path s p) as [s1 [[]|e]] eqn:E1; cbn [io_bind];
    (erewrite run_step by (cbn [write_step]; by rewrite E1)).
  - destruct (file_size s1 p) as [s2 [z|e]] eqn:E2; cbn [io_bind]; (erewrite run_step by (cbn [write_step]; by rewrite E2)).
    + case_bool_decide as Hz; [rewrite decide_True by done; apply run_done|].
      rewrite decide_False by done. apply run_write_new.
    + apply run_done.
  - apply (run_write_new 1).
  - apply run_done.
Qed.

End Alone.

Section Race.
Context (s0 : fs) (d c data : str) (loc : list str) (rnds : list Z).
Context (Hd : has_filename d = true) (Hc : plain c).
Context (Hres : resolve s0 d = Some loc) (Hdir : is_dir_at s0 loc = true).
Context (Hf0 : faults s0 = []) (Hrnds : Forall (Z.le 0) rnds) (Hnodup : NoDup rnds).
Context (Hnew : nodes s0 !! (target c loc) = None).
Context (Htmp : forall r, r ∈ rnds -> nodes s0 !! (temp c loc r) = None).

Abbreviation full_path := (d ++ SLASH :: c).

Lemma temp_inj r r' : (0 <= r)%Z -> (0 <= r')%Z -> temp c loc r = temp c loc r' -> r = r'.
Proof.
  intros Hr Hr' H. apply app_inv_head in H. injection H as H. unfold temp_name in H.
  apply app_inv_head in H. apply app_inv_head in H. unfold generate_temp_suffix, to_string in H.
  rewrite !decide_False in H by lia. by apply dec_inj.
Qed.

(** The temporary file of a thread. *)
Definition temp_node (pc : writer_pc) : option node :=
  match pc with
  | WWrite _ => Some (File [])
  | WClose _ | WRename => Some (File data)
  | _ => None
  end.

(** What a thread knows of the disk besides: it never comes to the error paths. *)
Definition pc_ok (s : fs) (r : Z) (pc : writer_pc) : Prop :=
  match pc with
  | WWrite l | WClose l => l = temp c loc r
  | WSize | WStatus | WVerify => nodes s !! (target c loc) = Some (File data)
  | WDone b => b = Ok true /\ nodes s !! (target c loc) = Some (File data)
  | WDropTemp | WDrop | WLogSize | WGiveUp => False
  | _ => True
  end.

Definition thread_ok (s : fs) (t : Z * writer_pc) : Prop :=
  t.1 ∈ rnds /\ nodes s !! (temp c loc t.1) = temp_node t.2 /\ pc_ok s t.1 t.2.

Record race_inv (x : race) : Prop := {
  ri_cwd : cwd x.1 = cwd s0;
  ri_faults : faults x.1 = [];
  ri_target : nodes x.1 !! (target c loc) = None \/ nodes x.1 !! (target c loc) = Some (File data);
  ri_other k : k <> target c loc -> (forall r, r ∈ rnds -> k <> temp c loc r) ->
    nodes x.1 !! k = nodes s0 !! k;
  ri_temp r : r ∈ rnds -> nodes x.1 !! (temp c loc r) <> Some Dir;
  ri_threads : Forall (thread_ok x.1) x.2;
  ri_rnds : x.2.*1 = rnds;
}.

Lemma rnd_nonneg r : r ∈ rnds -> (0 <= r)%Z.
Proof. apply (proj1 (list.Forall_forall _ _) Hrnds). Qed.

Lemma target_temp r : target c loc <> temp c loc r.
Proof. intros H. by apply (temp_target c loc r). Qed.

Lemma inv_same_dirs x : race_inv x -> same_dirs s0 x.1.
Proof.
  intros I. split; [apply I|]. intros k. destruct (decide (k = target c loc)) as [->|Hk].
  - unfold is_dir_at. rewrite Hnew. destruct (ri_target _ I) as [-> | ->]; [done|]. by rewrite !bool_decide_false.
  - destruct (decide (k ∈ (temp c loc) <$> rnds)) as [(r & -> & Hr)%list_elem_of_fmap|Hn].
    + unfold is_dir_at. rewrite (Htmp r Hr). rewrite !bool_decide_false; [done|done|by apply I].
    + unfold is_dir_at. rewrite (ri_other _ I k Hk); [done|]. intros r Hr ->. apply Hn.
      apply list_elem_of_fmap. eauto.
Qed.

(** What one step of a thread does to the disk. *)
Inductive effect (s : fs) (r : Z) : writer_pc -> fs -> writer_pc -> Prop :=
| eff_absent : effect s r WExists s WDirs
| eff_there : nodes s !! (target c loc) = Some (File data) -> effect s r WExists s WSize
| eff_found : effect s r WSize s (WDone (Ok true))
| eff_dirs : effect s r WDirs s WOpen
| eff_open : effect s r WOpen (set_nodes (<[temp c loc r := File []]> (nodes s)) s) (WWrite (temp c loc r))
| eff_write : effect s r (WWrite (temp c loc r)) (set_nodes (<[temp c loc r := File data]> (nodes s)) s)
    (WClose (temp c loc r))
| eff_close : effect s r (WClose (temp c loc r)) (set_nodes (<[temp c loc r := File data]> (nodes s)) s) WRename
| eff_rename : effect s r WRename
    (set_nodes (<[target c loc := File data]> (delete (temp c loc r) (nodes s))) s) WStatus
| eff_status : effect s r WStatus s WVerify
| eff_verify : effect s r WVerify s (WDone (Ok true)).

(** On a disk that works, where the directories are those of [s0], where nothing but the
    complete file can be at the target and where the thread finds its temporary file. *)
Lemma write_step_effect s r pc s' pc' :
  (0 <= r)%Z -> same_dirs s0 s -> faults s = [] ->
  nodes s !! (target c loc) = None \/ nodes s !! (target c loc) = Some (File data) ->
  nodes s !! (temp c loc r) = temp_node pc -> pc_ok s r pc ->
  write_step r full_path data s pc = Some (s', pc') -> effect s r pc s' pc'.
Proof.
  intros Hr Hs Hf Htg Htn Hpc Hstep.
  pose proof (resolve_full s0 d c loc Hd Hc Hres Hdir s Hs) as Rf.
  pose proof (resolve_temp s0 d c loc r Hd Hc Hr Hres Hdir s Hs) as Rt.
  pose proof (lookup_path_at _ _ _ Rf) as Hl.
  assert (is_dir_at s loc = true) as Hdl by by rewrite (proj2 Hs).
  assert (resolve s d = Some loc) as Rd.
  { rewrite <- Hres. apply resolve_dirs; apply Hs. }
  assert (forall k, is_dir_at s (parent_loc (loc ++ [k])) = true) as Hpar
    by (intros k; by rewrite parent_loc_snoc).
  assert (is_dir_at s (target c loc) = false) as Htd.
  { apply bool_decide_false. by destruct Htg as [H|H]; rewrite H. }
  assert (is_dir_at s (temp c loc r) = false) as Htt.
  { apply bool_decide_false. rewrite Htn. by destruct pc. }
  assert (forall n, n = Z.of_nat (length data) -> bool_decide (n = Z.of_nat (length data)) = true) as Hsame
    by (intros n ->; by apply bool_decide_true).
  destruct pc; cbn [write_step pc_ok temp_node] in *; try done.
  - rewrite exists_path_clean, Hl in Hstep by done. cbn [after] in Hstep. destruct Htg as [H|H]; rewrite H in Hstep.
    + injection Hstep as <- <-. constructor.
    + injection Hstep as <- <-. by constructor.
  - rewrite Hpc in Hl. rewrite (file_size_clean _ _ data Hf Hl) in Hstep. cbn [after] in Hstep.
    rewrite Hsame in Hstep by done. injection Hstep as <- <-. constructor.
  - rewrite parent_path_app in Hstep by (done || apply Hc).
    rewrite (proj2 (proj2 (create_directories_existing s d loc Rd Hdl)) Hf) in Hstep.
    injection Hstep as <- <-. constructor.
  - rewrite (open_trunc_clean s _ _ Hf Rt (Hpar _) Htt) in Hstep. injection Hstep as <- <-. constructor.
  - subst l. rewrite write_stream_clean in Hstep by done. injection Hstep as <- <-. constructor.
  - subst l. rewrite close_file_clean in Hstep by done. injection Hstep as <- <-. constructor.
  - rewrite (rename_clean s _ _ _ _ data Hf Rt Rf Htn (Hpar _) Htd) in Hstep. injection Hstep as <- <-.
    constructor.
  - unfold fs_status in Hstep. rewrite ask_clean, Hl, Hpc in Hstep by done. injection Hstep as <- <-. constructor.
  - rewrite Hpc in Hl. rewrite (file_size_clean _ _ data Hf Hl) in Hstep. cbn [after] in Hstep.
    rewrite Hsame in Hstep by done. injection Hstep as <- <-. constructor.
Qed.

Lemma race_step_effect s ts r pc s' pc' :
  race_inv (s, ts) -> thread_ok s (r, pc) -> write_step r full_path data s pc = Some (s', pc') ->
  effect s r pc s' pc'.
Proof.
  intros I (Hr & Ht & Hpc). cbn [fst snd] in *. apply write_step_effect.
  - by apply rnd_nonneg.
  - apply (inv_same_dirs _ I).
  - apply (ri_faults _ I).
  - apply (ri_target _ I).
  - done.
  - done.
Qed.

(** The disk after a step, seen by everyone. *)
Lemma effect_nodes s r pc s' pc' :
  effect s r pc s' pc' ->
  cwd s' = cwd s /\ faults s' = faults s /\
  (forall k, k <> target c loc -> k <> temp c loc r -> nodes s' !! k = nodes s !! k) /\
  (nodes s' !! (target c loc) = nodes s !! (target c loc) \/ nodes s' !! (target c loc) = Some (File data)).
Proof.
  pose proof (target_temp r) as Hne. destruct 1; cbn [cwd faults nodes set_nodes]; split_and!; try done; try (by left);
    try (intros k Hk1 Hk2; by rewrite ?lookup_insert_ne, ?lookup_delete_ne by done);
    try (left; by rewrite lookup_insert_ne).
  right. by rewrite lookup_insert_eq.
Qed.

(** The thread that made the step knows what it needs for the next one. *)
Lemma effect_thread s r pc s' pc' :
  thread_ok s (r, pc) -> effect s r pc s' pc' -> thread_ok s' (r, pc').
Proof.
  intros (Hr & Ht & Hpc) He. split; [done|]. cbn [fst snd] in *.
  pose proof (target_temp r) as Hne.
  destruct He; cbn [temp_node pc_ok nodes set_nodes] in *; (split; [|by try rewrite lookup_insert_eq]);
    rewrite ?lookup_insert_eq; try done.
  by rewrite lookup_insert_ne, lookup_delete_eq.
Qed.

Lemma thread_ok_other s s' r t :
  t.1 <> r -> r ∈ rnds ->
  (forall k, k <> target c loc -> k <> temp c loc r -> nodes s' !! k = nodes s !! k) ->
  (nodes s' !! (target c loc) = nodes s !! (target c loc) \/ nodes s' !! (target c loc) = Some (File data)) ->
  thread_ok s t -> thread_ok s' t.
Proof.
  intros Hne Hr Hk Htg (Hin & Ht & Hpc). split; [done|]. split.
  - rewrite Hk; [done|by apply not_eq_sym, target_temp|].
    intros E. apply Hne. apply temp_inj; [by apply rnd_nonneg..|done].
  - destruct t.2; try done; cbn [pc_ok] in *; try (destruct Htg as [-> | ->]; done). destruct Hpc as [-> Hpc].
    split; [done|]. destruct Htg as [-> | ->]; done.
Qed.

Lemma race_step_inv x y : race_inv x -> race_step full_path data x y -> race_inv y.
Proof.
  intros I Hstep. destruct Hstep as [s ts i r pc s' pc' Hi Hw].
  pose proof (proj1 (list.Forall_lookup _ _) (ri_threads _ I) _ _ Hi) as Hok. cbn [fst snd] in *.
  pose proof (race_step_effect _ _ _ _ _ _ I Hok Hw) as He.
  pose proof (effect_thread _ _ _ _ _ Hok He) as Hok'.
  destruct (effect_nodes _ _ _ _ _ He) as (E1 & E2 & E3 & E4). pose proof (proj1 Hok) as Hr. cbn [fst] in Hr.
  split; cbn [fst snd].
  - rewrite E1. apply I.
  - rewrite E2. apply I.
  - destruct E4 as [-> | ->]; [apply I|by right].
  - intros k Hk1 Hk2. rewrite E3; [by apply I|done|by apply Hk2].
  - intros r' Hr'. destruct (decide (r' = r)) as [->|Hne].
    + destruct Hok' as (_ & Ht & _). cbn [fst snd] in Ht. rewrite Ht. by destruct pc'.
    + rewrite E3; [by apply I|by apply not_eq_sym, target_temp|].
      intros E. apply Hne. apply temp_inj; [by apply rnd_nonneg..|done].
  - apply list.Forall_lookup. intros j t Hj. destruct (decide (i = j)) as [<-|Hij].
    + rewrite list_lookup_insert_eq in Hj by by eapply lookup_lt_Some. by injection Hj as <-.
    + rewrite list_lookup_insert_ne in Hj by done.
      apply (thread_ok_other s s' r); [|done..|by apply (proj1 (list.Forall_lookup _ _) (ri_threads _ I) j)].
      intros E. apply Hij. pose proof (ri_rnds _ I) as Hrs. cbn [snd] in Hrs.
      assert (ts.*1 !! i = Some r) as Hi1 by (rewrite list_lookup_fmap, Hi; done).
      assert (ts.*1 !! j = Some r) as Hj1 by (rewrite list_lookup_fmap, Hj; simpl; by rewrite E).
      rewrite Hrs in Hi1, Hj1. by eapply NoDup_lookup.
  - rewrite list_fmap_insert. cbn [fst]. pose proof (ri_rnds _ I) as Hrs. cbn [snd] in Hrs. rewrite Hrs.
    apply list_insert_id. rewrite <- Hrs, list_lookup_fmap, Hi. done.
Qed.

Lemma race_start_inv : race_inv (race_start s0 rnds).
Proof.
  split; cbn [fst snd race_start]; try done.
  - by left.
  - intros r Hr. by rewrite Htmp.
  - apply list.Forall_forall. intros t (r & -> & Hr)%list_elem_of_fmap. split; [done|].
    cbn [fst snd]. split; [by apply Htmp|done].
  - rewrite <- list_fmap_compose. apply list_fmap_id.
Qed.

Lemma race_reachable_inv x : rtc (race_step full_path data) (race_start s0 rnds) x -> race_inv x.
Proof.
  intros H. pose proof race_start_inv as Hs. revert Hs.
  induction H as [|a b e Hab _ IH]; intros Ha; [done|]. apply IH. by eapply race_step_inv.
Qed.

(** What the invariant says to the callers. *)
Lemma race_inv_safe s ts :
  race_inv (s, ts) ->
  (nodes s !! (target c loc) = None \/ nodes s !! (target c loc) = Some (File data)) /\
  (forall r b, (r, WDone b) ∈ ts -> b = Ok true /\ nodes s !! (target c loc) = Some (File data)) /\
  ((forall r pc, (r, pc) ∈ ts -> exists b, pc = WDone b) -> rnds <> [] ->
   nodes s = <[target c loc := File data]> (nodes s0)).
Proof.
  intros I. pose proof (proj1 (list.Forall_forall _ _) (ri_threads _ I)) as Hall.
  cbn [fst snd] in Hall. split_and!.
  - apply I.
  - intros r b Hb. destruct (Hall _ Hb) as (_ & _ & Hpc). exact Hpc.
  - intros Hdone Hne. apply map_eq. intros k. destruct (decide (k = target c loc)) as [->|Hk].
    { rewrite lookup_insert_eq. pose proof (ri_rnds _ I) as Hrs. cbn [snd] in Hrs.
      destruct ts as [|[r pc] ts]; [by rewrite <- Hrs in Hne|]. destruct (Hdone r pc ltac:(by left)) as [b ->].
      by destruct (Hall (r, WDone b) ltac:(by left)) as (_ & _ & _ & ?). }
    rewrite lookup_insert_ne by done.
    destruct (decide (k ∈ (temp c loc) <$> rnds)) as [(r & -> & Hr)%list_elem_of_fmap|Hn].
    + rewrite (Htmp r Hr). pose proof (ri_rnds _ I) as Hrs. cbn [snd] in Hrs. rewrite <- Hrs in Hr.
      apply list_elem_of_fmap in Hr as ([r' pc] & -> & Hin). destruct (Hdone _ _ Hin) as [b ->].
      by destruct (Hall _ Hin) as (_ & ? & _).
    + apply (ri_other _ I k Hk). intros r Hr ->. apply Hn. apply list_elem_of_fmap. eauto.
Qed.

(** * Properties *)

(** Threads that write the same new file at once do not disturb each other when
    they drew different numbers: in every reachable state the target is absent or
    complete, a call that has returned has returned true and the target is then
    complete, and when all have returned no temporary file is left and nothing else
    has changed. *)
Theorem concurrent_writers_safe s ts :
  rtc (race_step full_path data) (race_start s0 rnds) (s, ts) ->
  (nodes s !! (target c loc) = None \/ nodes s !! (target c loc) = Some (File data)) /\
  (forall r b, (r, WDone b) ∈ ts -> b = Ok true /\ nodes s !! (target c loc) = Some (File data)) /\
  ((forall r pc, (r, pc) ∈ ts -> exists b, pc = WDone b) -> rnds <> [] ->
   nodes s = <[target c loc := File data]> (nodes s0)).
Proof. intros I%race_reachable_inv. by apply race_inv_safe. Qed.

End Race.

(** ** Schedules *)

(** Thread [i] makes its next step, if it has one. *)
Definition schedule_step (full_path data : str) (x : race) (i : nat) : race :=
  match x.2 !! i with
  | Some (rnd, pc) =>
      match write_step rnd full_path data x.1 pc with
      | Some (s', pc') => (s', <[i := (rnd, pc')]> x.2)
      | None => x
      end
  | None => x
  end.

Lemma schedule_reachable full_path data x schedule :
  rtc (race_step full_path data) x (foldl (schedule_step full_path data) x schedule).
Proof.
  revert x. induction schedule as [|i schedule IH]; intros [s ts]; [done|]. cbn [foldl].
  unfold schedule_step at 2. cbn [fst snd]. destruct (ts !! i) as [[r pc]|] eqn:Hi; [|apply IH].
  destruct (write_step r full_path data s pc) as [[s' pc']|] eqn:Hw; [|apply IH].
  eapply rtc_l; [by econstructor|apply IH].
Qed.

End Writers.

Import PlainText.

Definition hot_path : str := lit "/data/store/x".

(** Two threads that drew these numbers write [hello], in the given order of steps. *)
Definition hot_race (rnds : list Z) (schedule : list nat) : race :=
  foldl (schedule_step hot_path (lit "hello")) (race_start store_disk rnds) schedule.

(** Two threads that drew the same number share the temporary file: the second
    rename fails, and its clean-up removes the file whose writer was told it is
    saved. *)
Theorem same_number_loses_file :
  exists s ts, rtc (race_step hot_path (lit "hello")) (race_start store_disk [123456; 123456]%Z) (s, ts) /\
    ts !! 0 = Some (123456%Z, WDone (Ok true)) /\ ts !! 1 = Some (123456%Z, WDone (Ok false)) /\
    lookup_path s hot_path = None.
Proof.
  exists (fst (hot_race [123456; 123456]%Z [0; 0; 0; 0; 0; 1; 1; 1; 1; 1; 0; 0; 0; 1; 1])),
    (snd (hot_race [123456; 123456]%Z [0; 0; 0; 0; 0; 1; 1; 1; 1; 1; 0; 0; 0; 1; 1])).
  split; [|split_and!; vm_compute; reflexivity].
  rewrite <- surjective_pairing. apply schedule_reachable.
Qed.

Lemma concurrent_writers_safe_witness :
  nodes (fst (hot_race [123456; 654321]%Z [0; 1; 0; 1; 1; 0; 0; 1; 1; 0; 1; 0; 0; 0; 1; 1])) =
  <[[lit "data"; lit "store"; lit "x"] := File (lit "hello")]> (nodes store_disk).
Proof.
  destruct (concurrent_writers_safe store_disk (lit "/data/store") (lit "x") (lit "hello") store_loc
              [123456; 654321]%Z) with (s := fst (hot_race [123456; 654321]%Z [0; 1; 0; 1; 1; 0; 0; 1; 1; 0; 1; 0; 0; 0; 1; 1]))
    (ts := snd (hot_race [123456; 654321]%Z [0; 1; 0; 1; 1; 0; 0; 1; 1; 0; 1; 0; 0; 0; 1; 1])) as (_ & _ & H).
  - reflexivity.
  - by_decide.
  - vm_compute. reflexivity.
  - vm_compute. reflexivity.
  - reflexivity.
  - by_decide.
  - by_decide.
  - vm_compute. reflexivity.
  - intros r Hr. rewrite !elem_of_cons, elem_of_nil in Hr.
    destruct Hr as [-> | [-> | []]]; vm_compute; reflexivity.
  - rewrite <- surjective_pairing. apply schedule_reachable.
  - apply H; [|discriminate].
    assert (snd (hot_race [123456; 654321]%Z [0; 1; 0; 1; 1; 0; 0; 1; 1; 0; 1; 0; 0; 0; 1; 1]) =
            [(123456%Z, WDone (Ok true)); (654321%Z, WDone (Ok true))]) as -> by (vm_compute; reflexivity).
    intros r pc Hin. rewrite !elem_of_cons, elem_of_nil in Hin.
    destruct Hin as [[= _ ->] | [[= _ ->] | []]]; eexists; reflexivity.
Defined.
