(* ===== verification/UploadRace.v ===== *)
(** Uploads of the same file at the same time ([controller/FileCtl.cpp],
    [file/filestore.cpp], [file/MetadataStore.cpp]): every call of the file system and
    every section of the metadata store is a step, and the steps of any number of
    upload handlers interleave. The disk follows [FileRace], the index [MetaConc]. *)

From stdpp Require Import base list strings gmap sorting numbers fin_maps relations.
From Stdlib Require Import ZArith Ascii Lia.
From S2P Require Import Prelude Algorithm Util UrlUtils Json MetaFile LevelDB MetadataStore.
From S2P Require Import MetaRefine MetaConc Multipart Http Paths CryptoUtils FileSystem FileStore.
From S2P Require Import FileCtl FileRace.

Section Uploads.
Context {L : LevelDB} {J : JsonLib} {M : Md5Lib} {DO : DirOrder} {T : FsText}.
Context (config_ : StoreConfig).

(** The upload: the name in the form, the name it is recorded under, the content and the
    scene. *)
Context (filename_ clean_name content_ scene_ : str).

(** ** One handler *)

Abbreviation digest := (CryptoUtils.md5 content_).
Abbreviation rel_path := (sharded (CryptoUtils.md5 content_) ++ path_extension filename_).

(** [abs_file_path] of [save_file]. *)
Definition upload_target : str := path_append (path_append (root_dir config_) scene_) rel_path.

(** The record, for the time it is made at. *)
Definition record_at (st : store) (now : Z) : MetaFile :=
  upload_meta st clean_name scene_ digest (Z.of_nat (length content_)) (path_append scene_ rel_path) now.

(** Where a handler is in the [try] of [handleUpload]: at the first check of
    [save_file], at its [create_directories], in [write_disk], in [save_meta], or in the
    [catch]. *)
Inductive upload_pc : Type :=
| UExists
| UDirs
| UWrite (pc : writer_pc)
| UMeta (t : thread)
| UThrew (e : str).

(** After [save_file]. *)
Definition after_save (st : store) (now : Z) (saved : bool) : upload_pc :=
  if decide (clean_name = []) then
    UThrew (lit "[FileStore] Filename is empty after trimming special characters.")
  else if saved then UMeta (Run (OpSave (record_at st now)))
  else UThrew (lit "bad optional access").

Definition upload_step (rnd now : Z) (s : fs) (st : store) (pc : upload_pc)
  : option (fs * store * upload_pc) :=
  match pc with
  | UExists =>
      match exists_path s upload_target with
      | (s', Ok there) => Some (s', st, if (there : bool) then after_save st now true else UDirs)
      | (s', Throw e) => Some (s', st, UThrew e)
      end
  | UDirs =>
      let '(s', ok) := create_directories s (parent_path upload_target) in
      Some (s', st, if (ok : bool) then UWrite WExists else after_save st now false)
  | UWrite (WDone (Ok b)) => Some (s, st, after_save st now b)
  | UWrite (WDone (Throw e)) => Some (s, st, UThrew e)
  | UWrite pc =>
      match write_step rnd upload_target content_ s pc with
      | Some (s', pc') => Some (s', st, UWrite pc')
      | None => None
      end
  | UMeta t =>
      match thread_step st t with
      | Some (st', t') => Some (s, st', UMeta t')
      | None => None
      end
  | UThrew _ => None
  end.

Fixpoint run_upload (n : nat) (rnd now : Z) (s : fs) (st : store) (pc : upload_pc)
  : fs * store * upload_pc :=
  match n with
  | O => (s, st, pc)
  | S n' =>
      match upload_step rnd now s st pc with
      | Some (s', st', pc') => run_upload n' rnd now s' st' pc'
      | None => (s, st, pc)
      end
  end.

(** ** Several handlers *)

Record uploads : Type := {
  u_disk : fs;
  u_store : store;
  u_threads : list (Z * upload_pc);
}.

Inductive uploads_step (now : Z) : uploads -> uploads -> Prop :=
| uploads_thread s st ts i rnd pc s' st' pc' :
    ts !! i = Some (rnd, pc) -> upload_step rnd now s st pc = Some (s', st', pc') ->
    uploads_step now {| u_disk := s; u_store := st; u_threads := ts |}
      {| u_disk := s'; u_store := st'; u_threads := <[i := (rnd, pc')]> ts |}.

Definition uploads_start (s : fs) (st : store) (rnds : list Z) : uploads :=
  {| u_disk := s; u_store := st; u_threads := (fun r => (r, UExists)) <$> rnds |}.

(** The handlers, as a function of the schedule: one that cannot step is skipped. *)
Fixpoint schedule_uploads (now : Z) (x : uploads) (sched : list nat) : uploads :=
  match sched with
  | [] => x
  | i :: sched' =>
      schedule_uploads now
        match u_threads x !! i with
        | Some (rnd, pc) =>
            match upload_step rnd now (u_disk x) (u_store x) pc with
            | Some (s', st', pc') =>
                {| u_disk := s'; u_store := st'; u_threads := <[i := (rnd, pc')]> (u_threads x) |}
            | None => x
            end
        | None => x
        end sched'
  end.

(** * Lemmas *)

Lemma schedule_uploads_steps now sched x : rtc (uploads_step now) x (schedule_uploads now x sched).
Proof.
  revert x. induction sched as [|i sched IH]; intros [s st ts]; simpl; [apply rtc_refl|].
  destruct (ts !! i) as [[rnd pc]|] eqn:Hi; [|apply IH].
  destruct (upload_step rnd now s st pc) as [[[s' st'] pc']|] eqn:Ht; [|apply IH].
  eapply rtc_l; [by eapply uploads_thread|apply IH].
Qed.

(** ** A handler that runs alone *)

Lemma run_upload_step n rnd now s st pc s' st' pc' :
  upload_step rnd now s st pc = Some (s', st', pc') ->
  run_upload (S n) rnd now s st pc = run_upload n rnd now s' st' pc'.
Proof. intros H. cbn [run_upload]. by rewrite H. Qed.

Lemma run_upload_end n rnd now s st pc :
  upload_step rnd now s st pc = None -> run_upload n rnd now s st pc = (s, st, pc).
Proof. intros H. destruct n; [done|]. cbn [run_upload]. by rewrite H. Qed.

Lemma run_upload_meta n rnd now s st m :
  run_upload (S (S n)) rnd now s st (UMeta (Run (OpSave m))) =
  (s, fst (save_meta st m), UMeta (Finished (snd (save_meta st m)))).
Proof.
  unfold save_meta. destruct (save_meta_check st m) eqn:Hc.
  - erewrite run_upload_step; [|simpl; by rewrite Hc]. by apply run_upload_end.
  - erewrite run_upload_step; [|simpl; by rewrite Hc].
    destruct (save_meta_commit st m) as [st' b] eqn:Hm.
    erewrite run_upload_step; [|simpl; by rewrite Hm]. by apply run_upload_end.
Qed.

(** What follows a [write_disk] that has returned. *)
Definition after_write (st : store) (now : Z) (r : outcome bool) : upload_pc :=
  match r with Ok b => after_save st now b | Throw e => UThrew e end.

Lemma run_upload_write k rnd now s st pc s' r n :
  run_writer k rnd upload_target content_ s pc = (s', WDone r) ->
  exists j, run_upload (k + S n) rnd now s st (UWrite pc) =
            run_upload (j + n) rnd now s' st (after_write st now r).
Proof.
  revert s pc. induction k as [|k IH]; intros s pc Hrun; cbn [run_writer] in Hrun.
  - injection Hrun as <- ->. exists 0. cbn [run_upload upload_step plus]. by destruct r.
  - destruct (write_step rnd upload_target content_ s pc) as [[s1 pc1]|] eqn:Hw.
    + assert (run_upload (S k + S n) rnd now s st (UWrite pc) =
              run_upload (k + S n) rnd now s1 st (UWrite pc1)) as ->.
      { cbn [run_upload plus upload_step]. destruct pc; try done; by rewrite Hw. }
      by apply IH.
    + injection Hrun as <- ->. exists (S k). cbn [run_upload plus upload_step].
      replace (k + S n) with (S k + n) by lia. by destruct r.
Qed.

Lemma run_upload_saved n rnd now s st b :
  2 <= n ->
  exists pc, run_upload n rnd now s st (after_save st now b) =
    (s, if decide (clean_name = []) then st
        else if b then fst (save_meta st (record_at st now)) else st, pc).
Proof.
  intros Hn. destruct n as [|[|n]]; [lia..|]. unfold after_save. case_decide; [by eexists|].
  destruct b; [|by eexists]. rewrite run_upload_meta. by eexists.
Qed.

(** A handler that runs alone leaves the disk and the metadata that [upload_store]
    leaves. *)
Lemma run_upload_alone e a ctx :
  exists pc, run_upload 17 (env_rnd e) (env_now e) (disk a) (mstore a) UExists =
    (disk (fst (upload_store config_ e a ctx filename_ clean_name content_ scene_)),
     mstore (fst (upload_store config_ e a ctx filename_ clean_name content_ scene_)), pc).
Proof.
  pose proof (md5_digest_ok content_) as [Hlen Hsl].
  unfold upload_store, save_file. cbv zeta.
  rewrite (decide_False (P := digest = [])) by (by intros E; rewrite E in Hlen).
  rewrite md5_to_rel_path_ok by (done || lia). cbn [io_bind]. fold upload_target.
  destruct (exists_path (disk a) upload_target) as [s0 [[]|ex]] eqn:He; cbn [io_bind];
    (erewrite run_upload_step; [|cbn [upload_step]; by rewrite He]).
  { destruct (run_upload_saved 16 (env_rnd e) (env_now e) s0 (mstore a) true) as [pc ->]; [lia|].
    exists pc. by case_decide. }
  2: { rewrite run_upload_end by done. by eexists. }
  destruct (create_directories s0 (parent_path upload_target)) as [s1 ok] eqn:Hd.
  erewrite run_upload_step; [|simpl; by rewrite Hd]. destruct ok; cbn [negb].
  2: { destruct (run_upload_saved 15 (env_rnd e) (env_now e) s1 (mstore a) false) as [pc ->]; [lia|].
       exists pc. by case_decide. }
  destruct (run_upload_write 12 (env_rnd e) (env_now e) s1 (mstore a) WExists
    (fst (write_disk (env_rnd e) s1 upload_target content_))
    (snd (write_disk (env_rnd e) s1 upload_target content_)) 2) as [j Hj].
  { apply run_writer_alone. }
  change 15 with (12 + 3). rewrite Hj. clear Hj.
  destruct (write_disk (env_rnd e) s1 upload_target content_) as [s2 [b|ex]]; cbn [fst snd after_write io_bind].
  - destruct (run_upload_saved (j + 2) (env_rnd e) (env_now e) s2 (mstore a) b) as [pc ->]; [lia|].
    exists pc. destruct b; by case_decide.
  - rewrite run_upload_end by done. by eexists.
Qed.

(** ** The disk and the index under interleaving *)

(** What [write_disk] and the metadata store see of a handler. *)
Definition writer_of (pc : upload_pc) : writer_pc :=
  match pc with
  | UExists | UDirs | UThrew _ => WExists
  | UWrite pc => pc
  | UMeta _ => WDone (Ok true)
  end.

Definition saver_of (m : MetaFile) (pc : upload_pc) : thread :=
  match pc with UMeta t => t | _ => Run (OpSave m) end.

Definition race_of (x : uploads) : race := (u_disk x, prod_map id writer_of <$> u_threads x).

Definition meta_of (m : MetaFile) (x : uploads) : MetaConc.config :=
  {| shared := u_store x; MetaConc.threads := (saver_of m ∘ snd) <$> u_threads x |}.

Section Race.
Context {LS : LevelDBSpec L} {JL : JsonLaws J}.
Context (s0 : fs) (st0 : store) (loc : list str) (rnds : list Z) (now : Z) (idx : index).

Abbreviation m := (record_at st0 now).
Abbreviation dir := (file_dir (root_dir config_) scene_ digest).
Abbreviation name_ := (file_name digest (path_extension filename_)).

(** The directory of the content is there on [s0], without the file, the disk works, the
    handlers drew different numbers, and the record is new. *)
Record ready : Prop := {
  ready_root : has_filename (root_dir config_) = true;
  ready_scene : plain scene_;
  ready_name : clean_name <> [];
  ready_dir : resolve s0 dir = Some loc;
  ready_is_dir : is_dir_at s0 loc = true;
  ready_faults : faults s0 = [];
  ready_rnds : Forall (Z.le 0) rnds;
  ready_distinct : NoDup rnds;
  ready_target : nodes s0 !! target name_ loc = None;
  ready_temps r : r ∈ rnds -> nodes s0 !! temp name_ loc r = None;
  ready_index : represents st0 idx;
  ready_record : record_ok m;
  ready_path : path_free idx m;
  ready_new : idx !! MetaFile.md5 m = None; }.

Context (Hr : ready).

Lemma upload_target_eq : upload_target = dir ++ SLASH :: name_.
Proof. apply abs_file_path; [apply Hr|apply Hr|apply md5_digest_ok]. Qed.

(** The invariant: both projections are reachable, nobody is in the [catch], and the
    configuration of the store does not change. *)
Record uploads_inv (x : uploads) : Prop := {
  ui_race : race_inv s0 name_ content_ loc rnds (race_of x);
  ui_meta : rtc meta_step (spawn st0 ((fun _ => OpSave m) <$> rnds)) (meta_of m x);
  ui_calm r e : (r, UThrew e) ∉ u_threads x;
  ui_config : MetadataStore.config_ (u_store x) = MetadataStore.config_ st0; }.

Lemma record_at_config st : MetadataStore.config_ st = MetadataStore.config_ st0 -> record_at st now = m.
Proof. intros E. unfold record_at, upload_meta, get_peer_id. by rewrite E. Qed.

Lemma thread_step_config st t st' t' :
  thread_step st t = Some (st', t') -> MetadataStore.config_ st' = MetadataStore.config_ st.
Proof.
  destruct t as [[]|m'|b|e]; simpl; unfold delete_meta, update_status, save_meta_shard, save_meta_commit, outcome_bind;
    repeat case_match; intros; simplify_eq/=; done.
Qed.

(** A step of one handler is a step of one projection, or of none. *)
Lemma uploads_update x i r pc s' st' pc' :
  uploads_inv x -> u_threads x !! i = Some (r, pc) ->
  race_inv s0 name_ content_ loc rnds (s', <[i := (r, writer_of pc')]> (race_of x).2) ->
  rtc meta_step (meta_of m x)
    {| shared := st'; MetaConc.threads := <[i := saver_of m pc']> (MetaConc.threads (meta_of m x)) |} ->
  (forall e, pc' <> UThrew e) -> MetadataStore.config_ st' = MetadataStore.config_ st0 ->
  uploads_inv {| u_disk := s'; u_store := st'; u_threads := <[i := (r, pc')]> (u_threads x) |}.
Proof.
  intros I Hi Hrace Hmeta Hcalm Hcfg. split; cbn [u_disk u_store u_threads].
  - unfold race_of. cbn [u_disk u_threads]. by rewrite list_fmap_insert.
  - unfold meta_of. cbn [u_store u_threads]. rewrite list_fmap_insert.
    etrans; [apply I|]. exact Hmeta.
  - intros r' e [[= _ <-]|Hin]%elem_of_list_insert; [by apply (Hcalm e)|by apply (ui_calm _ I r' e)].
  - done.
Qed.

Lemma race_same x i r pc pc' :
  uploads_inv x -> u_threads x !! i = Some (r, pc) -> writer_of pc' = writer_of pc ->
  race_inv s0 name_ content_ loc rnds (u_disk x, <[i := (r, writer_of pc')]> (race_of x).2).
Proof.
  intros I Hi E. rewrite list_insert_id; [apply I|].
  unfold race_of. cbn [snd]. rewrite list_lookup_fmap, Hi. simpl. by rewrite E.
Qed.

Lemma meta_same x i r pc pc' :
  u_threads x !! i = Some (r, pc) -> saver_of m pc' = saver_of m pc ->
  rtc meta_step (meta_of m x)
    {| shared := u_store x; MetaConc.threads := <[i := saver_of m pc']> (MetaConc.threads (meta_of m x)) |}.
Proof.
  intros Hi E. rewrite list_insert_id; [apply rtc_refl|].
  unfold meta_of. cbn [MetaConc.threads]. rewrite list_lookup_fmap, Hi. simpl. by rewrite E.
Qed.

(** A call of [write_disk] is a step of the writers. *)
Lemma race_advance x i r pc s' w :
  uploads_inv x -> u_threads x !! i = Some (r, pc) ->
  write_step r upload_target content_ (u_disk x) (writer_of pc) = Some (s', w) ->
  race_inv s0 name_ content_ loc rnds (s', <[i := (r, w)]> (race_of x).2).
Proof.
  intros I Hi Hw. rewrite upload_target_eq in Hw.
  eapply (race_step_inv s0 dir name_ content_ loc rnds); try apply Hr.
  - apply file_dir_filename, md5_digest_ok.
  - apply file_name_plain, md5_digest_ok.
  - exact (ui_race _ I).
  - apply (race_thread _ _ _ _ i r (writer_of pc)); [|exact Hw].
    unfold race_of. cbn [snd]. by rewrite list_lookup_fmap, Hi.
Qed.

(** What the race says of the disk of a handler. *)
Lemma uploads_disk x :
  uploads_inv x ->
  faults (u_disk x) = [] /\
  lookup_path (u_disk x) upload_target = nodes (u_disk x) !! target name_ loc /\
  create_directories (u_disk x) (parent_path upload_target) = (u_disk x, true).
Proof.
  intros I. pose proof (ui_faults := ri_faults _ _ _ _ _ _ (ui_race _ I)). cbn in ui_faults.
  assert (same_dirs s0 (u_disk x)) as Hs.
  { apply (inv_same_dirs s0 name_ content_ loc rnds (ready_target Hr) (ready_temps Hr) _ (ui_race _ I)). }
  assert (has_filename dir = true) as Hfn by apply file_dir_filename, md5_digest_ok.
  assert (plain name_) as Hpl by apply file_name_plain, md5_digest_ok.
  split_and!; [done| |].
  - rewrite upload_target_eq. apply lookup_path_at.
    by apply (resolve_full s0 dir name_ loc Hfn Hpl (ready_dir Hr) (ready_is_dir Hr)).
  - rewrite upload_target_eq, parent_path_app by (done || apply Hpl).
    apply (create_directories_existing (u_disk x) dir loc); [|by rewrite (proj2 Hs); apply Hr|done].
    rewrite <- (ready_dir Hr). apply resolve_dirs; apply Hs.
Qed.

Lemma after_save_config st b :
  MetadataStore.config_ st = MetadataStore.config_ st0 ->
  after_save st now b = if b then UMeta (Run (OpSave m)) else UThrew (lit "bad optional access").
Proof. intros E. unfold after_save. rewrite decide_False by apply Hr. by rewrite record_at_config. Qed.

(** A step that neither projection sees. *)
Lemma uploads_idle x i r pc pc' :
  uploads_inv x -> u_threads x !! i = Some (r, pc) ->
  writer_of pc' = writer_of pc -> saver_of m pc' = saver_of m pc -> (forall e, pc' <> UThrew e) ->
  uploads_inv {| u_disk := u_disk x; u_store := u_store x; u_threads := <[i := (r, pc')]> (u_threads x) |}.
Proof.
  intros I Hi Hw Hsv Hc. apply (uploads_update x i r pc _ _ pc' I Hi); [..|done|apply I].
  - by apply (race_same x i r pc).
  - by apply (meta_same x i r pc).
Qed.

(** A step that only the writers see. *)
Lemma uploads_write x i r pc pc' s' :
  uploads_inv x -> u_threads x !! i = Some (r, pc) ->
  write_step r upload_target content_ (u_disk x) (writer_of pc) = Some (s', writer_of pc') ->
  saver_of m pc' = saver_of m pc -> (forall e, pc' <> UThrew e) ->
  uploads_inv {| u_disk := s'; u_store := u_store x; u_threads := <[i := (r, pc')]> (u_threads x) |}.
Proof.
  intros I Hi Hw Hsv Hc. apply (uploads_update x i r pc _ _ pc' I Hi); [..|done|apply I].
  - by apply (race_advance x i r pc).
  - by apply (meta_same x i r pc).
Qed.

(** A handler that finds the file finds it complete, as a writer would in two steps. *)
Lemma race_found x i r pc :
  uploads_inv x -> u_threads x !! i = Some (r, pc) -> writer_of pc = WExists ->
  is_Some (lookup_path (u_disk x) upload_target) ->
  race_inv s0 name_ content_ loc rnds (u_disk x, <[i := (r, WDone (Ok true))]> (race_of x).2).
Proof.
  intros I Hi Hpc He. destruct (uploads_disk x I) as (Hf & Hl & _).
  assert (lookup_path (u_disk x) upload_target = Some (File content_)) as Hlook.
  { rewrite Hl in *. destruct (ri_target _ _ _ _ _ _ (ui_race _ I)) as [H|H]; cbn in H; rewrite H in *; [by destruct He|done]. }
  assert ((race_of x).2 !! i = Some (r, WExists)) as Hri.
  { unfold race_of. cbn [snd]. rewrite list_lookup_fmap, Hi. simpl. by rewrite Hpc. }
  assert (race_inv s0 name_ content_ loc rnds (u_disk x, <[i := (r, WSize)]> (race_of x).2)) as I1.
  { apply (race_advance x i r pc); [done|done|]. rewrite Hpc. cbn [write_step].
    by rewrite exists_path_clean, Hlook. }
  rewrite <- (list_insert_insert_eq (race_of x).2 i (r, WDone (Ok true)) (r, WSize)).
  eapply (race_step_inv s0 dir name_ content_ loc rnds); try apply Hr; [..|exact I1|].
  - apply file_dir_filename, md5_digest_ok.
  - apply file_name_plain, md5_digest_ok.
  - apply (race_thread _ _ _ _ i r WSize).
    + apply list_lookup_insert_eq. by eapply lookup_lt_Some.
    + cbn [write_step]. rewrite <- upload_target_eq, (file_size_clean _ _ content_) by done. cbn [after].
      by rewrite bool_decide_true.
Qed.

(** A handler that is done with [write_disk] has written the file. *)
Lemma uploads_written x i r o :
  uploads_inv x -> u_threads x !! i = Some (r, UWrite (WDone o)) -> o = Ok true.
Proof.
  intros I Hi.
  assert ((race_of x).2 !! i = Some (r, WDone o)) as Hri.
  { unfold race_of. cbn [snd]. by rewrite list_lookup_fmap, Hi. }
  apply (proj1 (list.Forall_lookup _ _) (ri_threads _ _ _ _ _ _ (ui_race _ I)) i (r, WDone o)) in Hri.
  by destruct Hri as (_ & _ & H & _).
Qed.

Lemma uploads_step_inv x y : uploads_step now x y -> uploads_inv x -> uploads_inv y.
Proof.
  intros Hstep I. destruct Hstep as [s st ts i r pc s' st' pc' Hi Hs].
  set (x := {| u_disk := s; u_store := st; u_threads := ts |}) in *.
  pose proof (ui_config x I) as Hcfg. cbn [u_store x] in Hcfg.
  destruct pc as [| |w|t|e]; cbn [upload_step] in Hs; [..|done].
  - destruct (uploads_disk x I) as (Hf & _ & _). cbn [u_disk x] in Hf.
    rewrite exists_path_clean in Hs by done. injection Hs as <- <- <-. case_bool_decide as He.
    + rewrite after_save_config by done. apply (uploads_update x i r UExists _ _ _ I Hi); [..|done|done].
      * by apply (race_found x i r UExists).
      * by apply (meta_same x i r UExists).
    + by apply (uploads_idle x i r UExists).
  - destruct (uploads_disk x I) as (_ & _ & Hcd). cbn [u_disk x] in Hcd. rewrite Hcd in Hs.
    injection Hs as <- <- <-. by apply (uploads_idle x i r UDirs).
  - destruct w as [| | | |l|l| | | | | | | |o];
      try (destruct (write_step _ _ _ _ _) as [[s1 w1]|] eqn:Hw; [|done]; injection Hs as <- <- <-;
           by apply (uploads_write x i r _ (UWrite w1) s1 I Hi)).
    pose proof (uploads_written x i r o I Hi) as ->. injection Hs as <- <- <-.
    rewrite after_save_config by done. by apply (uploads_idle x i r _ _ I Hi).
  - destruct (thread_step st t) as [[st1 t1]|] eqn:Ht; [|done]. injection Hs as <- <- <-.
    apply (uploads_update x i r (UMeta t) s st1 _ I Hi); [|..|done|].
    + by apply (race_same x i r (UMeta t)).
    + apply rtc_once. apply (meta_step_thread _ _ i t); [|exact Ht].
      unfold meta_of. cbn [MetaConc.threads u_threads x]. by rewrite list_lookup_fmap, Hi.
    + rewrite <- Hcfg. by eapply thread_step_config.
Qed.

(** Handlers of which none has come further than the first check of [write_disk]. *)
Lemma uploads_fresh_inv ts :
  ts.*1 = rnds -> (forall r pc, (r, pc) ∈ ts -> pc = UExists \/ pc = UDirs \/ pc = UWrite WExists) ->
  uploads_inv {| u_disk := s0; u_store := st0; u_threads := ts |}.
Proof.
  intros Hts Hpc. split; cbn [u_threads u_disk u_store].
  - unfold race_of. cbn [u_disk u_threads].
    replace (prod_map id writer_of <$> ts) with ((fun r => (r, WExists)) <$> rnds).
    { apply (race_start_inv s0 name_ content_ loc rnds); apply Hr. }
    rewrite <- Hts, <- list_fmap_compose. apply list_fmap_ext. intros i [r pc] Hi. simpl.
    by destruct (Hpc r pc (list_elem_of_lookup_2 _ _ _ Hi)) as [->|[->| ->]].
  - unfold meta_of, spawn. cbn [u_store u_threads].
    replace (saver_of m ∘ snd <$> ts) with (Run <$> ((fun _ => OpSave m) <$> rnds)); [apply rtc_refl|].
    rewrite <- Hts, <- !list_fmap_compose. apply list_fmap_ext. intros i [r pc] Hi. simpl.
    by destruct (Hpc r pc (list_elem_of_lookup_2 _ _ _ Hi)) as [->|[->| ->]].
  - intros r e Hin. by destruct (Hpc _ _ Hin) as [?|[?|?]].
  - done.
Qed.

(** ** Before the directories *)

(** The disk the uploads start on; the first handler to create the directories makes it
    [s0]. *)
Context (s_start : fs) (Hdirs : create_directories s_start (parent_path upload_target) = (s0, true)).

Lemma start_node k v : nodes s_start !! k = Some v -> nodes s0 !! k = Some v.
Proof.
  intros Hk. pose proof (create_directories_only s_start (parent_path upload_target) k) as H.
  rewrite Hdirs in H. cbn [fst] in H. destruct H as [->|[H _]]; [done|congruence].
Qed.

Lemma start_target : nodes s_start !! target name_ loc = None.
Proof.
  destruct (nodes s_start !! target name_ loc) as [v|] eqn:E; [|done].
  apply start_node in E. by rewrite (ready_target Hr) in E.
Qed.

Context (Hstart : faults s_start = []).

Lemma start_missing : exists_path s_start upload_target = (s_start, Ok false).
Proof.
  rewrite exists_path_clean by done. do 2 f_equal. apply bool_decide_false. unfold lookup_path.
  destruct (resolve s_start upload_target) as [l|] eqn:E; [|by intros [? ?]].
  apply (resolve_mono _ s0) in E.
  - rewrite upload_target_eq, (resolve_in s0), (ready_dir Hr), (ready_is_dir Hr) in E.
    + injection E as <-. change (loc ++ [name_]) with (target name_ loc). rewrite start_target. by intros [? ?].
    + intros Hn. pose proof (file_dir_filename (root_dir config_) scene_ digest (md5_digest_ok content_)) as Hf.
      by rewrite Hn in Hf.
    + apply file_name_plain, md5_digest_ok.
  - apply (create_directories_walk _ _ _ Hdirs).
  - intros k. unfold is_dir_at. intros Hk%bool_decide_eq_true. apply bool_decide_true. by apply start_node.
Qed.

Record early (x : uploads) : Prop := {
  early_disk : u_disk x = s_start;
  early_store : u_store x = st0;
  early_rnds : (u_threads x).*1 = rnds;
  early_pcs r pc : (r, pc) ∈ u_threads x -> pc = UExists \/ pc = UDirs; }.

Lemma insert_pcs (P : upload_pc -> Prop) (ts : list (Z * upload_pc)) (i : nat) r pc :
  (forall r' pc', (r', pc') ∈ ts -> P pc') -> P pc -> forall r' pc', (r', pc') ∈ <[i := (r, pc)]> ts -> P pc'.
Proof.
  intros Hts Hp r' pc' [[= _ ->]|Hin]%elem_of_list_insert; [done|by apply (Hts r')].
Qed.

Lemma early_step x y : uploads_step now x y -> early x -> early y \/ uploads_inv y.
Proof.
  intros Hstep [E1 E2 E3 E4]. destruct Hstep as [s st ts i r pc s' st' pc' Hi Hs]. simpl in *. subst s st.
  assert (forall pc1, (<[i := (r, pc1)]> ts).*1 = rnds) as Hfst.
  { intros pc1. rewrite list_fmap_insert, list_insert_id; [exact E3|]. by rewrite list_lookup_fmap, Hi. }
  destruct (E4 r pc (list_elem_of_lookup_2 _ _ _ Hi)) as [->| ->]; cbn [upload_step] in Hs.
  - rewrite start_missing in Hs. injection Hs as <- <- <-. left. split; [done|done|apply Hfst|].
    apply (insert_pcs (fun pc => pc = UExists \/ pc = UDirs)); auto.
  - rewrite Hdirs in Hs. injection Hs as <- <- <-. right. apply uploads_fresh_inv; [apply Hfst|].
    apply (insert_pcs (fun pc => pc = UExists \/ pc = UDirs \/ pc = UWrite WExists)); [|by auto].
    intros r' pc' Hin. destruct (E4 r' pc' Hin); auto.
Qed.

Lemma uploads_run_inv x :
  rtc (uploads_step now) (uploads_start s_start st0 rnds) x -> early x \/ uploads_inv x.
Proof.
  intros H.
  assert (early (uploads_start s_start st0 rnds) \/ uploads_inv (uploads_start s_start st0 rnds)) as H0.
  { left. split; [done..| |].
    - cbn [uploads_start u_threads]. rewrite <- list_fmap_compose. apply list_fmap_id.
    - intros r pc (r' & [= -> ->] & _)%list_elem_of_fmap. by left. }
  revert H0. induction H as [|a b c Hab _ IH]; [done|]. intros [Ha|Ha]; apply IH.
  - by apply (early_step a).
  - right. by apply (uploads_step_inv a).
Qed.

(** ** The index *)

Lemma uploads_conc_ok : conc_ok idx ((fun _ => OpSave m) <$> rnds).
Proof.
  split.
  - intros i o Ho. apply list_lookup_fmap_Some in Ho as (r & -> & _). split; apply Hr.
  - intros i j o o' m1 m2 Hi Hj _ H1 H2. apply list_lookup_fmap_Some in Hi as (r & -> & _), Hj as (r1 & -> & _).
    simplify_eq/=. done.
Qed.

(** Saves of one new record leave the index without it or with it, and with it once a
    save has returned true. *)
Lemma save_trace tr a :
  abs_trace idx tr a -> (forall e, e ∈ tr -> ev_op e = OpSave m) ->
  a = <[MetaFile.md5 m := stored m]> idx \/ a = idx /\ forall e, e ∈ tr -> ev_res e = false.
Proof.
  intros Htr. induction Htr as [|tr a e a' _ IH Hs]; intros Hall.
  { right. split; [done|]. by intros e ?%elem_of_nil. }
  assert (ev_op e = OpSave m) as He by (apply Hall, elem_of_app; right; by left).
  destruct IH as [->|[-> Hres]]; [intros e' He'; by apply Hall, elem_of_app; left| |].
  - left. inversion Hs as [i o b er a1 Hsp|i m1 m0 b a1 Hm0 Hk Ha']; subst; simpl in He; simplify_eq.
    + inversion Hsp; subst; rewrite ?insert_insert_eq; try done.
      match goal with H : _ = _ \/ _ = _ |- _ => destruct H as [->| ->] end; by rewrite ?insert_insert_eq.
    + destruct Ha' as [->|[_ ->]]; by rewrite ?insert_insert_eq.
  - inversion Hs as [i o b er a1 Hsp|i m1 m0 b a1 Hm0 Hk Ha']; subst; simpl in He; simplify_eq.
    2: { by rewrite (ready_new Hr) in Hm0. }
    inversion Hsp; subst.
    + pose proof (ready_new Hr). congruence.
    + by left.
    + match goal with H : _ = _ \/ _ = _ |- _ => destruct H as [->| ->] end; [right|by left].
      split; [done|]. intros e' [He'|He']%elem_of_app; [by apply Hres|].
      by apply list_elem_of_singleton in He' as ->.
Qed.

Lemma uploads_index x :
  uploads_inv x ->
  (represents (u_store x) idx \/ represents (u_store x) (<[MetaFile.md5 m := stored m]> idx)) /\
  (forall r, (r, UMeta (Finished true)) ∈ u_threads x ->
     represents (u_store x) (<[MetaFile.md5 m := stored m]> idx)).
Proof.
  intros I. destruct (sim_steps st0 idx _ _ _ _ _ uploads_conc_ok (ui_meta _ I)
    (sim_spawn _ _ _ uploads_conc_ok (ready_index Hr))) as (tr & a & S). rewrite app_nil_l in S.
  apply sim_linearized in S. pose proof (lin_store _ _ _ _ _ _ S) as R. cbn [shared meta_of] in R.
  assert (forall e, e ∈ tr -> ev_op e = OpSave m) as Hall.
  { intros e He. destruct (lin_owner _ _ _ _ _ _ S e He) as (o & Ho & Hin).
    apply list_lookup_fmap_Some in Ho as (r & -> & _). by apply list_elem_of_singleton in Hin. }
  destruct (save_trace tr a (lin_trace _ _ _ _ _ _ S) Hall) as [->|[-> Hres]]; [by auto|].
  split; [by left|]. intros r [i Hi]%list_elem_of_lookup_1.
  assert (MetaConc.threads (meta_of m x) !! i = Some (Finished true)) as Ht.
  { unfold meta_of. cbn [MetaConc.threads]. by rewrite list_lookup_fmap, Hi. }
  assert (exists o, ((fun _ => OpSave m) <$> rnds) !! i = Some o) as [o Ho].
  { pose proof (ri_rnds _ _ _ _ _ _ (ui_race _ I)) as Hrs. unfold race_of in Hrs. cbn [snd] in Hrs.
    assert (rnds !! i = Some r) as Hri.
    { rewrite <- Hrs, !list_lookup_fmap, Hi. done. }
    rewrite list_lookup_fmap, Hri. by eexists. }
  destruct (lin_calls _ _ _ _ _ _ S i o Ho) as (t & Ht' & Hcase). rewrite Ht in Ht'. injection Ht' as <-.
  destruct Hcase as [_ Hlast]. destruct (last (by_thread i tr)) as [e|] eqn:He; [|done].
  injection Hlast as Hb. apply last_Some_elem_of in He. apply list_elem_of_filter in He as [_ He].
  by rewrite (Hres e He) in Hb.
Qed.

(** What a state of undisturbed uploads is like: nobody has thrown; the file is absent or
    complete, and complete once a handler is at the metadata; the index is the old one or
    has the record, and has it once a save has returned true; at the end only the file has
    been added to the disk with its directories. *)
Definition undisturbed (x : uploads) : Prop :=
  let file := target name_ loc in
  (forall r pc, (r, pc) ∈ u_threads x -> forall e, pc <> UThrew e) /\
  (nodes (u_disk x) !! file = None \/ nodes (u_disk x) !! file = Some (File content_)) /\
  (forall r t, (r, UMeta t) ∈ u_threads x -> nodes (u_disk x) !! file = Some (File content_)) /\
  (represents (u_store x) idx \/ represents (u_store x) (<[digest := stored m]> idx)) /\
  (forall r, (r, UMeta (Finished true)) ∈ u_threads x ->
     represents (u_store x) (<[digest := stored m]> idx)) /\
  ((forall r pc, (r, pc) ∈ u_threads x -> exists t, pc = UMeta t) -> rnds <> [] ->
   nodes (u_disk x) = <[file := File content_]> (nodes s0)).

Lemma early_safe x : early x -> undisturbed x.
Proof.
  intros [E1 E2 E3 E4]. unfold undisturbed. rewrite E1, E2, start_target.
  assert (forall r pc, (r, pc) ∈ u_threads x -> forall t, pc <> UMeta t) as Hm.
  { intros r pc Hin t ->. by destruct (E4 _ _ Hin). }
  split_and!; [| |..|left; apply Hr| |].
  - intros r pc Hin e ->. by destruct (E4 _ _ Hin).
  - by left.
  - intros r t Hin. by destruct (Hm _ _ Hin t).
  - intros r Hin. by destruct (Hm _ _ Hin (Finished true)).
  - intros Hall Hne. exfalso. destruct (u_threads x) as [|[r pc] ts]; [by simpl in E3; subst|].
    destruct (Hall r pc) as [t ->]; [by left|]. by apply (Hm r (UMeta t)) with t; [left|].
Qed.

Lemma inv_safe x : uploads_inv x -> undisturbed x.
Proof.
  intros I. unfold undisturbed. destruct (uploads_index x I) as [Hi1 Hi2].
  pose proof (race_inv_safe s0 name_ content_ loc rnds (ready_temps Hr) _ _ (ui_race _ I)) as (Ht & Hdone & Hall).
  assert (forall r pc, (r, pc) ∈ u_threads x -> (r, writer_of pc) ∈ (race_of x).2) as Hproj.
  { intros r pc Hin. unfold race_of. cbn [snd]. apply list_elem_of_fmap. by exists (r, pc). }
  split_and!; [| |..|done|done|].
  - intros r pc Hin e ->. by apply (ui_calm _ I r e).
  - exact Ht.
  - intros r t Hin. by apply (Hdone r (Ok true)), (Hproj r (UMeta t)).
  - intros Hm Hne. apply Hall; [|done]. intros r w Hin. unfold race_of in Hin. cbn [snd] in Hin.
    apply list_elem_of_fmap in Hin as ([r' pc] & [= -> ->] & Hin). destruct (Hm _ _ Hin) as [t ->].
    by eexists.
Qed.

(** * Properties *)

(** C7: any number of uploads of the same new file (the same name, content and scene),
    interleaved call by call on a disk whose calls succeed, do not disturb each other
    when they drew different numbers and work in the same second, whether the
    directories of the content exist or the first of them creates them: none fails; the
    file is absent or complete, and complete before any handler turns to the metadata;
    the database stores the index without or with the record, and with it once a save
    has returned true; and when all handlers are done with the file, nothing else on
    the disk has changed but for the directories. *)
Theorem concurrent_uploads_safe x :
  rtc (uploads_step now) (uploads_start s_start st0 rnds) x -> undisturbed x.
Proof. intros [E|I]%uploads_run_inv; [by apply early_safe|by apply inv_safe]. Qed.

End Race.
End Uploads.

(** * Witnesses *)

Import TaggedJson PadMd5 ListOrder PlainText MergeSort.

(** The disk of a fresh store, with the directory of the content once it is created. *)
Definition hello_dir : str := file_dir (root_dir default_StoreConfig) (lit "default") hello_md5.
Definition hello_disk : fs := fst (create_directories store_disk hello_dir).

(** Two uploads of [a.txt], call by call in turn. *)
Definition two_uploads : uploads :=
  schedule_uploads default_StoreConfig (lit "a.txt") (lit "a.txt") (lit "hello") (lit "default") 1680000000
    (uploads_start store_disk fresh_store [123456; 654321]%Z)
    (concat (replicate 14 [0; 1])).

Definition hello_loc : list str := store_loc ++ [lit "default"; take 2 hello_md5; take 2 (drop 2 hello_md5)].

Definition hello_record : MetaFile :=
  record_at (lit "a.txt") (lit "a.txt") (lit "hello") (lit "default") fresh_store 1680000000.

Lemma hello_ready :
  ready default_StoreConfig (lit "a.txt") (lit "a.txt") (lit "hello") (lit "default")
    hello_disk fresh_store hello_loc [123456; 654321]%Z 1680000000 ∅.
Proof.
  split.
  - reflexivity.
  - by_decide.
  - discriminate.
  - vm_compute. reflexivity.
  - vm_compute. reflexivity.
  - vm_compute. reflexivity.
  - by_decide.
  - by_decide.
  - vm_compute. reflexivity.
  - intros r Hr. rewrite !elem_of_cons, elem_of_nil in Hr.
    destruct Hr as [-> | [-> | []]]; vm_compute; reflexivity.
  - exact fresh_represents.
  - split_and!; by_decide || by vm_compute.
  - apply path_free_empty.
  - reflexivity.
Qed.

Lemma concurrent_uploads_safe_witness :
  represents (u_store two_uploads) (<[hello_md5 := stored hello_record]> ∅).
Proof.
  destruct (concurrent_uploads_safe default_StoreConfig (lit "a.txt") (lit "a.txt") (lit "hello")
    (lit "default") hello_disk fresh_store hello_loc [123456; 654321]%Z 1680000000 ∅ hello_ready
    store_disk eq_refl eq_refl two_uploads (schedule_uploads_steps _ _ _ _ _ _ _ _)) as (_ & _ & _ & _ & H & _).
  apply (H 123456%Z). apply (list_elem_of_lookup_2 _ 0). vm_compute. reflexivity.
Defined.
