(* ===== verification/ChunkRace.v ===== *)
(** Chunks of one file that are uploaded at the same time ([controller/FileCtl.cpp],
    [file/filestore.cpp]): every call of the file system is a step, and the steps of any
    number of [handleChunkUpload] calls interleave. *)

From stdpp Require Import base list strings gmap numbers relations.
From Stdlib Require Import ZArith Ascii Lia.
From S2P Require Import Prelude Algorithm Util UrlUtils Json MetaFile LevelDB MetadataStore.
From S2P Require Import Multipart Http Paths CryptoUtils FileSystem FileStore FileCtl FileRace.

Import MultipartParser.

Section Chunks.
Context {L : LevelDB} {J : JsonLib} {M : Md5Lib} {DO : DirOrder} {T : FsText} {SS : StdSort}.
Context (config_ : StoreConfig).

(** The digest in the forms. *)
Context (digest_ : str).

(** ** One handler *)

(** A form: the text of its [chunk] parameter, its content, and the number the thread
    draws. *)
Record chunk : Type := { chunk_index : str; chunk_content : str; chunk_rnd : Z }.

(** [file_path] of [handleChunkUpload], and [full_path] of [save_file]. *)
Definition chunk_rel_path (u : chunk) : str :=
  get_temp_dir config_ ++ lit "/" ++ digest_ ++ lit "/" ++ chunk_index u.

Definition chunk_path (u : chunk) : str := path_append (root_dir config_) (chunk_rel_path u).

(** Where a call of [save_file] is: at its [create_directories], in [write_disk], at the
    [remove] after a failed write, or back in the handler. *)
Inductive chunk_pc : Type :=
| KDirs
| KWrite (pc : writer_pc)
| KRemove
| KDone (r : outcome bool).

(** The check of the path. *)
Definition chunk_start (u : chunk) : chunk_pc :=
  if bool_decide (is_Some (find (lit "..") (chunk_rel_path u) 0)) then KDone (Ok false) else KDirs.

Definition chunk_step (u : chunk) (s : fs) (pc : chunk_pc) : option (fs * chunk_pc) :=
  match pc with
  | KDirs =>
      let '(s', ok) := create_directories s (parent_path (chunk_path u)) in
      Some (s', if (ok : bool) then KWrite WExists else KDone (Ok false))
  | KWrite (WDone (Ok true)) => Some (s, KDone (Ok true))
  | KWrite (WDone (Ok false)) => Some (s, KRemove)
  | KWrite (WDone (Throw e)) => Some (s, KDone (Throw e))
  | KWrite pc =>
      match write_step (chunk_rnd u) (chunk_path u) (chunk_content u) s pc with
      | Some (s', pc') => Some (s', KWrite pc')
      | None => None
      end
  | KRemove =>
      Some (fst (no_throw tt (remove s (chunk_path u))), KDone (Ok false))
  | KDone _ => None
  end.

Fixpoint run_chunk (n : nat) (u : chunk) (s : fs) (pc : chunk_pc) : fs * chunk_pc :=
  match n with
  | O => (s, pc)
  | S n' => match chunk_step u s pc with
            | Some (s', pc') => run_chunk n' u s' pc'
            | None => (s, pc)
            end
  end.

(** ** Several handlers *)

Record chunks : Type := { k_disk : fs; k_threads : list (chunk * chunk_pc) }.

Inductive chunks_step : chunks -> chunks -> Prop :=
| chunks_thread s ts i u pc s' pc' :
    ts !! i = Some (u, pc) -> chunk_step u s pc = Some (s', pc') ->
    chunks_step {| k_disk := s; k_threads := ts |} {| k_disk := s'; k_threads := <[i := (u, pc')]> ts |}.

Definition chunks_start (s : fs) (us : list chunk) : chunks :=
  {| k_disk := s; k_threads := (fun u => (u, chunk_start u)) <$> us |}.

(** The handlers, as a function of the schedule: one that cannot step is skipped. *)
Fixpoint schedule_chunks (x : chunks) (sched : list nat) : chunks :=
  match sched with
  | [] => x
  | i :: sched' =>
      schedule_chunks
        match k_threads x !! i with
        | Some (u, pc) =>
            match chunk_step u (k_disk x) pc with
            | Some (s', pc') => {| k_disk := s'; k_threads := <[i := (u, pc')]> (k_threads x) |}
            | None => x
            end
        | None => x
        end sched'
  end.

Lemma schedule_chunks_steps sched x : rtc chunks_step x (schedule_chunks x sched).
Proof.
  revert x. induction sched as [|i sched IH]; intros [s ts]; simpl; [apply rtc_refl|].
  destruct (ts !! i) as [[u pc]|] eqn:Hi; [|apply IH].
  destruct (chunk_step u s pc) as [[s' pc']|] eqn:Ht; [|apply IH].
  eapply rtc_l; [by eapply chunks_thread|apply IH].
Qed.

(** ** A handler that runs alone *)

Lemma run_chunk_write k u s pc s' r n :
  run_writer k (chunk_rnd u) (chunk_path u) (chunk_content u) s pc = (s', WDone r) -> 2 <= n ->
  run_chunk (k + n) u s (KWrite pc) =
  match r with
  | Ok true => (s', KDone (Ok true))
  | Ok false => (fst (no_throw tt (remove s' (chunk_path u))), KDone (Ok false))
  | Throw e => (s', KDone (Throw e))
  end.
Proof.
  assert (forall n s r, 2 <= n -> run_chunk n u s (KWrite (WDone r)) =
    match r with
    | Ok true => (s, KDone (Ok true))
    | Ok false => (fst (no_throw tt (remove s (chunk_path u))), KDone (Ok false))
    | Throw e => (s, KDone (Throw e))
    end) as Hdone.
  { intros [|[|n1]] s1 r1 Hn; [lia..|]. destruct r1 as [[]|e]; [done| |done]. simpl. by destruct n1. }
  revert s pc. induction k as [|k IH]; intros s pc Hrun Hn; cbn [run_writer] in Hrun.
  - injection Hrun as <- ->. by apply Hdone.
  - destruct (write_step _ _ _ s pc) as [[s1 pc1]|] eqn:Hw.
    + assert (run_chunk (S k + n) u s (KWrite pc) = run_chunk (k + n) u s1 (KWrite pc1)) as ->; [|by apply IH].
      destruct pc; try done; cbn [run_chunk plus chunk_step]; by rewrite Hw.
    + injection Hrun as <- ->. apply Hdone. lia.
Qed.

(** A handler that runs alone leaves the disk and the result of [save_file]. *)
Lemma run_chunk_alone u s :
  run_chunk 15 u s (chunk_start u) =
  (fst (save_file_at config_ (chunk_rnd u) s (chunk_content u) (chunk_rel_path u)),
   KDone (snd (save_file_at config_ (chunk_rnd u) s (chunk_content u) (chunk_rel_path u)))).
Proof.
  unfold chunk_start, save_file_at. case_bool_decide; [done|]. fold (chunk_path u).
  change (run_chunk 15 u s KDirs) with
    (match chunk_step u s KDirs with
     | Some (s', pc') => run_chunk 14 u s' pc'
     | None => (s, KDirs)
     end). cbn [chunk_step].
  destruct (create_directories _ _) as [s1 []]; [|done]. cbn [negb].
  change 14 with (12 + 2). erewrite run_chunk_write; [|apply run_writer_alone|lia].
  destruct (write_disk _ _ _ _) as [s2 [[]|e]]; try done. cbn [fst snd io_bind]. by destruct (no_throw _ _).
Qed.

(** ** The disk under interleaving *)

Section Race.
Context (s_start s0 : fs) (loc : list str) (us : list chunk).

(** The number in a [chunk] parameter. *)
Definition chunk_no (u : chunk) : Z := match stoi (chunk_index u) with Ok i => i | Throw _ => 0 end.

Abbreviation dir := (chunk_dir config_ digest_).
Abbreviation tgt u := (target (chunk_index u) loc).
Abbreviation tmp u := (temp (chunk_index u) loc (chunk_rnd u)).

(** Different chunks of one file; [s0] is the disk once the first handler has created
    the directory of the chunks, in which these chunks are still missing. *)
Record chunks_ready : Prop := {
  cr_root : has_filename (root_dir config_) = true;
  cr_temp : plain (temp_dir config_);
  cr_digest : plain digest_;
  cr_dots u : u ∈ us -> find (lit "..") (chunk_rel_path u) 0 = None;
  cr_index u : u ∈ us -> (0 <= chunk_no u < 2 ^ 31)%Z /\ chunk_index u = to_string (chunk_no u);
  cr_rnd u : u ∈ us -> (0 <= chunk_rnd u)%Z;
  cr_distinct : NoDup (chunk_index <$> us);
  cr_dirs : create_directories s_start dir = (s0, true);
  cr_loc : resolve s0 dir = Some loc;
  cr_is_dir : is_dir_at s0 loc = true;
  cr_faults : faults s0 = [];
  cr_free u c : u ∈ us -> stoi c = Ok (chunk_no u) -> nodes s0 !! (loc ++ [c]) = None; }.

Context (Hr : chunks_ready).

(** *** Locations *)

Lemma dir_filename : has_filename dir = true.
Proof.
  unfold chunk_dir. rewrite !app_assoc. rewrite has_filename_app by apply (cr_digest Hr).
  apply has_filename_fresh; apply (cr_digest Hr).
Qed.

Lemma chunk_plain u : u ∈ us -> plain (chunk_index u).
Proof. intros Hu. destruct (cr_index Hr u Hu) as [? ->]. apply to_string_plain. lia. Qed.

Lemma chunk_path_eq u : chunk_path u = dir ++ SLASH :: chunk_index u.
Proof.
  unfold chunk_path, chunk_rel_path. rewrite path_append_name; [|apply Hr|].
  - unfold chunk_dir, get_root_dir. change (lit "/") with [SLASH]. by rewrite <- !app_assoc.
  - apply plain_app_relative, Hr.
Qed.

Lemma chunk_parent u : u ∈ us -> parent_path (chunk_path u) = dir.
Proof.
  intros Hu. pose proof (chunk_plain u Hu) as Hp. rewrite chunk_path_eq.
  by rewrite parent_path_app by (apply dir_filename || apply Hp).
Qed.

Lemma chunk_started u : u ∈ us -> chunk_start u = KDirs.
Proof. intros Hu. unfold chunk_start. rewrite (cr_dots Hr u Hu). by rewrite bool_decide_false by by intros []. Qed.

(** The names a handler uses carry its number, so different handlers use different
    locations. *)
Definition owns (u : chunk) (k : list str) : Prop := k = tgt u \/ k = tmp u.

Lemma owns_no u k : u ∈ us -> owns u k -> exists c, k = loc ++ [c] /\ stoi c = Ok (chunk_no u).
Proof.
  intros Hu Hk. destruct (cr_index Hr u Hu) as [Hn Hi]. destruct Hk as [-> | ->]; eexists; (split; [done|]).
  - rewrite Hi at 1. by apply stoi_to_string.
  - rewrite Hi at 1. by apply stoi_temp_name.
Qed.

Lemma owns_free u k : u ∈ us -> owns u k -> nodes s0 !! k = None.
Proof. intros Hu Hk. destruct (owns_no u k Hu Hk) as (c & -> & Hc). by apply (cr_free Hr u). Qed.

Lemma owns_unique u v k : u ∈ us -> v ∈ us -> owns u k -> owns v k -> u = v.
Proof.
  intros Hu Hv Hk Hk'. destruct (owns_no u k Hu Hk) as (c & -> & Hc).
  destruct (owns_no v _ Hv Hk') as (c' & [= <-]%app_inv_head & Hc').
  assert (chunk_index u = chunk_index v) as Hi.
  { destruct (cr_index Hr u Hu) as [_ ->], (cr_index Hr v Hv) as [_ ->]. f_equal. congruence. }
  apply list_elem_of_lookup_1 in Hu as [i Hu], Hv as [j Hv].
  assert (i = j) as <-; [|congruence].
  apply (NoDup_lookup (chunk_index <$> us) i j (chunk_index u)); [apply Hr|..]; rewrite list_lookup_fmap.
  - by rewrite Hu.
  - rewrite Hv. simpl. by rewrite Hi.
Qed.

(** *** The invariant *)

(** What a handler finds at its locations: every other place is no business of its. *)
Definition written (pc : chunk_pc) : bool :=
  match pc with KWrite (WStatus | WVerify | WDone (Ok true)) | KDone (Ok true) => true | _ => false end.

Definition calm (pc : chunk_pc) : bool :=
  match pc with
  | KRemove | KDone (Ok false) | KDone (Throw _) => false
  | KWrite (WSize | WDropTemp | WDrop | WLogSize | WGiveUp | WDone (Ok false) | WDone (Throw _)) => false
  | _ => true
  end.

Record chunk_ok (s : fs) (t : chunk * chunk_pc) : Prop := {
  co_calm : calm t.2 = true;
  co_target : nodes s !! tgt t.1 = if written t.2 then Some (File (chunk_content t.1)) else None;
  co_temp : nodes s !! tmp t.1 = (match t.2 with KWrite pc => temp_node (chunk_content t.1) pc | _ => None end);
  co_stream : match t.2 with KWrite (WWrite l | WClose l) => l = tmp t.1 | _ => True end; }.

Record chunks_inv (x : chunks) : Prop := {
  ci_chunks : (k_threads x).*1 = us;
  ci_cwd : cwd (k_disk x) = cwd s0;
  ci_faults : faults (k_disk x) = [];
  ci_other k : (forall u, u ∈ us -> ~ owns u k) -> nodes (k_disk x) !! k = nodes s0 !! k;
  ci_threads : Forall (chunk_ok (k_disk x)) (k_threads x); }.

Lemma thread_chunk x i u pc : chunks_inv x -> k_threads x !! i = Some (u, pc) -> u ∈ us.
Proof.
  intros I Hi. rewrite <- (ci_chunks _ I). apply list_elem_of_fmap. exists (u, pc).
  split; [done|]. by eapply list_elem_of_lookup_2.
Qed.

Lemma chunk_thread x u : chunks_inv x -> u ∈ us -> exists pc, (u, pc) ∈ k_threads x.
Proof.
  intros I Hu. rewrite <- (ci_chunks _ I) in Hu. apply list_elem_of_fmap in Hu as ([u' pc] & -> & Hin). by exists pc.
Qed.

(** The handlers only put files where nothing was. *)
Lemma inv_node x k : chunks_inv x -> nodes (k_disk x) !! k = nodes s0 !! k \/
  nodes s0 !! k = None /\ nodes (k_disk x) !! k <> Some Dir.
Proof.
  intros I. destruct (decide (Exists (fun u => owns u k) us)) as [Hex|Hn].
  - apply list.Exists_exists in Hex as (u & Hu & Hk). right. split; [by apply (owns_free u)|].
    destruct (chunk_thread x u I Hu) as [pc Hin].
    destruct (proj1 (list.Forall_forall _ _) (ci_threads _ I) _ Hin) as [_ H1 H2 _]. cbn [fst snd] in *.
    destruct Hk as [-> | ->]; [rewrite H1; by destruct (written pc)|rewrite H2].
    destruct pc as [|w| |]; try done. by destruct w.
  - left. apply I. intros u Hu Hk. apply Hn. apply list.Exists_exists. eauto.
Qed.

Lemma chunks_same_dirs x : chunks_inv x -> same_dirs s0 (k_disk x).
Proof.
  intros I. split; [apply I|]. intros k. unfold is_dir_at. destruct (inv_node x k I) as [->|[H1 H2]]; [done|].
  rewrite H1. by rewrite !bool_decide_false.
Qed.

(** *** Steps *)

(** A step of one handler that leaves everything but its own locations alone. *)
Lemma chunks_update x i u pc s' pc' :
  chunks_inv x -> k_threads x !! i = Some (u, pc) ->
  cwd s' = cwd (k_disk x) -> faults s' = faults (k_disk x) ->
  (forall k, ~ owns u k -> nodes s' !! k = nodes (k_disk x) !! k) -> chunk_ok s' (u, pc') ->
  chunks_inv {| k_disk := s'; k_threads := <[i := (u, pc')]> (k_threads x) |}.
Proof.
  intros I Hi Hcw Hf Hk Hok. pose proof (thread_chunk x i u pc I Hi) as Hu.
  split; cbn [k_disk k_threads].
  - rewrite list_fmap_insert, list_insert_id; [apply I|]. by rewrite list_lookup_fmap, Hi.
  - rewrite Hcw. apply I.
  - rewrite Hf. apply I.
  - intros k Hn. rewrite Hk by by apply Hn. by apply I.
  - apply list.Forall_lookup. intros j [v pcv] Hj.
    apply list_lookup_insert_Some in Hj as [(_ & [= -> ->] & _)|[Hne Hj]]; [done|].
    pose proof (thread_chunk x j v pcv I Hj) as Hv.
    assert (forall k, owns v k -> nodes s' !! k = nodes (k_disk x) !! k) as Hsame.
    { intros k Hvk. apply Hk. intros Huk. apply Hne. rewrite (owns_unique u v k Hu Hv Huk Hvk) in Hi.
      apply (NoDup_lookup us i j v); [apply (NoDup_fmap_1 chunk_index), Hr|..]; rewrite <- (ci_chunks _ I);
        rewrite list_lookup_fmap; [by rewrite Hi|by rewrite Hj]. }
    destruct (proj1 (list.Forall_lookup _ _) (ci_threads _ I) j _ Hj) as [H1 H2 H3 H4]. cbn [fst snd] in *.
    split; cbn [fst snd]; [done|by rewrite Hsame; [|left]|by rewrite Hsame; [|right]|done].
Qed.

(** A step that leaves the disk alone. *)
Lemma chunks_idle x i u pc pc' :
  chunks_inv x -> k_threads x !! i = Some (u, pc) -> chunk_ok (k_disk x) (u, pc') ->
  chunks_inv {| k_disk := k_disk x; k_threads := <[i := (u, pc')]> (k_threads x) |}.
Proof. intros I Hi Hok. by apply (chunks_update x i u pc). Qed.

Lemma chunk_effect s u pc s' pc' :
  effect (chunk_index u) (chunk_content u) loc s (chunk_rnd u) pc s' pc' -> chunk_ok s (u, KWrite pc) ->
  cwd s' = cwd s /\ faults s' = faults s /\ (forall k, ~ owns u k -> nodes s' !! k = nodes s !! k) /\
  chunk_ok s' (u, KWrite pc').
Proof.
  intros He [Hcalm Ht Hp _]. cbn [fst snd] in *. pose proof (effect_nodes _ _ _ _ _ _ _ _ He) as (E1 & E2 & E3 & _).
  split_and!; [done..| |].
  { intros k Hk. apply E3; intros ->; apply Hk; [by left|by right]. }
  pose proof (target_temp (chunk_index u) loc (chunk_rnd u)) as Hne.
  destruct He; cbn [written calm temp_node] in *; try done; split; cbn [fst snd written calm temp_node nodes set_nodes]; try done; try congruence;
    rewrite ?lookup_insert_eq; try done; rewrite lookup_insert_ne by done; rewrite ?lookup_delete_eq; done.
Qed.

(** A handler inside [write_disk] knows what a writer must. *)
Lemma chunk_pc_ok s u pc : chunk_ok s (u, KWrite pc) -> pc_ok (chunk_index u) (chunk_content u) loc s (chunk_rnd u) pc.
Proof. intros [Hc Ht _ Hl]. cbn [fst snd] in *. destruct pc as [| | | | | | | | | | | | |[[]|e]]; done. Qed.

Lemma chunks_step_inv x y : chunks_step x y -> chunks_inv x -> chunks_inv y.
Proof.
  intros Hstep I. destruct Hstep as [s ts i u pc s' pc' Hi Hs].
  set (x := {| k_disk := s; k_threads := ts |}) in *.
  pose proof (thread_chunk x i u pc I Hi) as Hu. pose proof (chunks_same_dirs x I) as Hsd.
  pose proof (proj1 (list.Forall_lookup _ _) (ci_threads _ I) i _ Hi) as Hok.
  pose proof Hok as [Hc Ht Hp _]. cbn [fst snd k_disk x] in *.
  destruct pc as [|w| |r]; [| |done..].
  { cbn [chunk_step] in Hs. rewrite (chunk_parent u Hu) in Hs.
    rewrite (proj2 (proj2 (create_directories_existing s dir loc
      ltac:(rewrite <- (cr_loc Hr); apply resolve_dirs; apply Hsd)
      ltac:(rewrite (proj2 Hsd); apply Hr))) (ci_faults _ I)) in Hs.
    injection Hs as <- <-. by apply (chunks_idle x i u KDirs). }
  assert (w = WDone (Ok true) \/ w <> WDone (Ok true)) as [-> | Hw].
  { destruct w as [| | | | | | | | | | | | |[[]|e]]; first [by left|by right]. }
  { cbn [chunk_step] in Hs. injection Hs as <- <-. by apply (chunks_idle x i u _ _ I Hi). }
  assert (exists w1, write_step (chunk_rnd u) (chunk_path u) (chunk_content u) s w = Some (s', w1) /\ pc' = KWrite w1)
    as (w1 & Hws & ->).
  { destruct w as [| | | | | | | | | | | | |[[]|e]]; try done; cbn [chunk_step] in Hs;
      (destruct (write_step _ _ _ _ _) as [[s1 w1]|]; [|done]); injection Hs as <- <-; by eexists. }
  rewrite chunk_path_eq in Hws.
  apply (write_step_effect s0 dir _ _ loc dir_filename (chunk_plain u Hu) (cr_loc Hr) (cr_is_dir Hr)) in Hws;
    [|by apply (cr_rnd Hr)|done|apply (ci_faults _ I)|rewrite Ht; destruct (written _); by auto|exact Hp|by apply chunk_pc_ok].
  destruct (chunk_effect _ _ _ _ _ Hws Hok) as (E1 & E2 & E3 & E4).
  by apply (chunks_update x i u _ _ _ I Hi).
Qed.

Lemma chunks_start_threads s : k_threads (chunks_start s us) = (fun u => (u, KDirs)) <$> us.
Proof.
  unfold chunks_start. cbn [k_threads]. apply list_fmap_ext. intros i u Hi.
  by rewrite chunk_started by by eapply list_elem_of_lookup_2.
Qed.

Lemma chunks_fresh_inv : chunks_inv (chunks_start s0 us).
Proof.
  split; rewrite ?chunks_start_threads; cbn [chunks_start k_disk]; try done.
  - rewrite <- list_fmap_compose. apply list_fmap_id.
  - apply Hr.
  - apply list.Forall_forall. intros t (u & -> & Hu)%list_elem_of_fmap.
    split; [done|..|done]; cbn [fst snd written]; apply (owns_free u); first [done | by left | by right].
Qed.

(** Until the first handler has created the directory nothing happens. *)
Lemma chunks_run_inv x : rtc chunks_step (chunks_start s_start us) x -> x = chunks_start s_start us \/ chunks_inv x.
Proof.
  revert x. apply rtc_ind_r; [by left|]. intros y z _ Hstep [->|I]; right; [|by apply (chunks_step_inv y)].
  pose proof (chunks_start_threads s_start) as Hts. pose proof chunks_fresh_inv as I.
  unfold chunks_start in Hstep, I. cbn [chunks_start k_threads] in Hts. rewrite Hts in Hstep, I.
  inversion Hstep as [s ts i u pc s' pc' Hi Hs]; subst s ts z.
  pose proof Hi as Hi'. apply list_lookup_fmap_Some in Hi' as (u' & [= <- ->] & Hu%list_elem_of_lookup_2).
  cbn [chunk_step] in Hs. rewrite (chunk_parent u Hu), (cr_dirs Hr) in Hs. injection Hs as <- <-.
  apply (chunks_idle _ i u KDirs (KWrite WExists) I Hi).
  split; [done|..|done]; cbn [fst snd written k_disk temp_node]; apply (owns_free u); first [done | by left | by right].
Qed.

(** What the invariant says when all handlers are back. *)
Lemma chunks_done_written x u :
  chunks_inv x -> (forall v pc, (v, pc) ∈ k_threads x -> exists r, pc = KDone r) -> u ∈ us ->
  nodes (k_disk x) !! tgt u = Some (File (chunk_content u)) /\ nodes (k_disk x) !! tmp u = None.
Proof.
  intros I Hall Hu. destruct (chunk_thread x u I Hu) as [pc Hin]. destruct (Hall u pc Hin) as [r ->].
  destruct (proj1 (list.Forall_forall _ _) (ci_threads _ I) _ Hin) as [H1 H2 H3 _]. cbn [fst snd] in *.
  by destruct r as [[]|].
Qed.

Lemma chunks_resolve x : chunks_inv x -> resolve (k_disk x) dir = Some loc /\ is_dir_at (k_disk x) loc = true.
Proof.
  intros I. destruct (chunks_same_dirs x I) as [H1 H2]. rewrite H2, <- (cr_loc Hr).
  split; [by apply resolve_dirs|apply Hr].
Qed.

(** The files with a number in the directory of the chunks. *)
Lemma chunks_done_numbers x c d i :
  chunks_inv x -> (forall v pc, (v, pc) ∈ k_threads x -> exists r, pc = KDone r) ->
  stoi c = Ok i ->
  nodes (k_disk x) !! (loc ++ [c]) = Some (File d) <->
  nodes s0 !! (loc ++ [c]) = Some (File d) \/
  exists u, u ∈ us /\ c = chunk_index u /\ d = chunk_content u /\ i = chunk_no u.
Proof.
  intros I Hall Hc. split.
  - intros Hn. destruct (decide (Exists (fun u => owns u (loc ++ [c])) us)) as [Hex|Hno].
    + right. apply list.Exists_exists in Hex as (u & Hu & Hk). exists u.
      destruct (owns_no u _ Hu Hk) as (c' & [= <-]%app_inv_head & Hc').
      destruct (chunks_done_written x u I Hall Hu) as [H1 H2].
      destruct Hk as [Hk|Hk]; rewrite Hk in Hn; [|by rewrite H2 in Hn].
      apply app_inv_head in Hk as [= ->]. split_and!; [done|done|congruence|congruence].
    + left. rewrite <- Hn. symmetry. apply I. intros u Hu Hk. apply Hno. apply list.Exists_exists. eauto.
  - intros [Hn|(u & Hu & -> & -> & _)]; [|by apply (chunks_done_written x u)].
    destruct (inv_node x (loc ++ [c]) I) as [->|[H _]]; [done|congruence].
Qed.

(** * Properties *)

(** C10: any number of chunks of one file, uploaded at the same time and interleaved call
    by call, do not disturb each other, whether or not the directory of the chunks
    exists yet: at every moment each chunk is absent or complete, no handler fails, and a
    handler that has returned has stored its chunk. When all have returned, the disk has
    changed by exactly these files and the directory, and [handleCheckChunk] lists
    exactly the chunks that were there and the new ones. *)
Theorem parallel_chunks_stored x :
  rtc chunks_step (chunks_start s_start us) x -> us <> [] ->
  (forall u, u ∈ us -> nodes (k_disk x) !! tgt u = None \/
                       nodes (k_disk x) !! tgt u = Some (File (chunk_content u))) /\
  (forall u r, (u, KDone r) ∈ k_threads x ->
     r = Ok true /\ nodes (k_disk x) !! tgt u = Some (File (chunk_content u))) /\
  ((forall u pc, (u, pc) ∈ k_threads x -> exists r, pc = KDone r) ->
   (forall k, (forall u, u ∈ us -> k <> tgt u) -> nodes (k_disk x) !! k = nodes s0 !! k) /\
   forall a ctx, disk a = k_disk x -> query_md5 ctx = digest_ ->
     exists js js0, handleCheckChunk config_ a ctx = (a, success ctx (mk_obj [(lit "list", JArr (JInt <$> js))]) []) /\
       get_shard_index s0 dir = (s0, Ok js0) /\ forall i, i ∈ js <-> i ∈ js0 \/ i ∈ chunk_no <$> us).
Proof.
  intros [-> | I]%chunks_run_inv Hne.
  - rewrite chunks_start_threads. cbn [chunks_start k_disk]. split_and!.
    + intros u Hu. left. destruct (create_directories_only s_start dir (tgt u)) as [H|[H _]]; [|done].
      rewrite (cr_dirs Hr) in H. cbn [fst] in H. rewrite <- H. apply (owns_free u); [done|by left].
    + by intros u r (u' & [=] & _)%list_elem_of_fmap.
    + intros Hall. exfalso. destruct us as [|u us']; [done|]. by destruct (Hall u KDirs) as [r ?]; [left|].
  - pose proof (proj1 (list.Forall_forall _ _) (ci_threads _ I)) as Hok. split_and!.
    + intros u Hu. destruct (chunk_thread x u I Hu) as [pc Hin]. destruct (Hok _ Hin) as [_ H _ _]. cbn [fst snd] in H.
      destruct (written pc); auto.
    + intros u r Hin. destruct (Hok _ Hin) as [H1 H2 _ _]. cbn [fst snd] in *. by destruct r as [[]|].
    + intros Hall. split.
      * intros k Hk. destruct (decide (Exists (fun u => owns u k) us)) as [Hex|Hno].
        -- apply list.Exists_exists in Hex as (u & Hu & [->|Ht]); [by destruct (Hk u Hu)|].
           rewrite (owns_free u k Hu) by by right. rewrite Ht. by apply (chunks_done_written x u).
        -- apply I. intros u Hu Ho. apply Hno, list.Exists_exists. eauto.
      * intros a ctx Ha Hq. destruct (chunks_resolve x I) as [R1 R2].
        exists (shard_numbers (k_disk x) loc), (shard_numbers s0 loc). split_and!.
        { unfold handleCheckChunk. cbv zeta. rewrite Hq, decide_False by apply (cr_digest Hr). rewrite Ha.
          fold dir. rewrite (get_shard_index_clean _ _ _ (ci_faults _ I) R1 R2). by rewrite <- Ha, set_disk_id. }
        { apply get_shard_index_clean; apply Hr. }
        intros i. rewrite !shard_numbers_elem.
        rewrite list_elem_of_fmap. split.
        -- intros (c & d & Hd & Hc). apply (chunks_done_numbers x c d i I Hall Hc) in Hd as [Hd|(u & Hu & _ & _ & ->)]; eauto.
        -- intros [(c & d & Hd & Hc)|(u & -> & Hu)].
           ++ exists c, d. split; [|done]. apply (chunks_done_numbers x c d i I Hall Hc). by left.
           ++ exists (chunk_index u), (chunk_content u). split; [by apply (chunks_done_written x u)|].
              destruct (cr_index Hr u Hu) as [Hn Hi]. rewrite Hi at 1. by apply stoi_to_string.
Qed.

End Race.
End Chunks.

(** * Witnesses *)

Import TaggedJson PadMd5 ListOrder PlainText MergeSort.

(** Three chunks of a file, uploaded in turn, call by call. *)
Definition demo_chunks : list chunk :=
  [ {| chunk_index := lit "1"; chunk_content := lit "lo "; chunk_rnd := 111111 |};
    {| chunk_index := lit "0"; chunk_content := lit "hel"; chunk_rnd := 222222 |};
    {| chunk_index := lit "2"; chunk_content := lit "you"; chunk_rnd := 111111 |} ].

Definition demo_dir : str := chunk_dir default_StoreConfig (lit "abcd").
Definition demo_chunk_disk : fs := fst (create_directories store_disk demo_dir).
Definition demo_loc : list str := store_loc ++ [lit "_tmp"; lit "abcd"].

Definition sent_chunks (sched : list nat) : chunks :=
  schedule_chunks default_StoreConfig (lit "abcd")
    (chunks_start default_StoreConfig (lit "abcd") store_disk demo_chunks) sched.

Definition all_sent : chunks := sent_chunks (concat (replicate 10 [0; 1; 2])).

(** A chunk is listed while it is being uploaded: the temporary file of a write that
    is not finished carries the number of the chunk, so [handleCheckChunk] reports a
    chunk of which no file exists. *)
Theorem chunk_listed_early :
  let x := sent_chunks [0; 0; 0; 0; 0; 0] in
  rtc (chunks_step default_StoreConfig (lit "abcd"))
    (chunks_start default_StoreConfig (lit "abcd") store_disk demo_chunks) x /\
  snd <$> k_threads x !! 0 = Some (KWrite WRename) /\
  snd (get_shard_index (k_disk x) demo_dir) = Ok [1%Z] /\
  lookup_path (k_disk x) (demo_dir ++ lit "/1") = None.
Proof. split; [apply schedule_chunks_steps|split_and!; vm_compute; reflexivity]. Qed.

(** The directory of the chunks is empty. *)
Lemma demo_dir_empty c : nodes demo_chunk_disk !! (demo_loc ++ [c]) = None.
Proof.
  assert (Forall (fun kv => length kv.1 <= length demo_loc) (map_to_list (nodes demo_chunk_disk))) as H by by_decide.
  destruct (nodes demo_chunk_disk !! (demo_loc ++ [c])) as [v|] eqn:E; [|done].
  apply elem_of_map_to_list in E. apply (proj1 (list.Forall_forall _ _) H) in E.
  cbn [fst] in E. rewrite length_app in E. simpl in E. lia.
Qed.

Lemma demo_chunks_ready :
  chunks_ready default_StoreConfig (lit "abcd") store_disk demo_chunk_disk demo_loc demo_chunks.
Proof.
  assert (forall (P : chunk -> Prop), Forall P demo_chunks -> forall u, u ∈ demo_chunks -> P u) as Hall.
  { intros P H. by apply list.Forall_forall. }
  split.
  - reflexivity.
  - by_decide.
  - by_decide.
  - apply Hall. repeat constructor; vm_compute; reflexivity.
  - apply Hall. repeat constructor; vm_compute; congruence.
  - apply Hall. repeat constructor; vm_compute; congruence.
  - by_decide.
  - apply pair_fst. vm_compute. reflexivity.
  - vm_compute. reflexivity.
  - vm_compute. reflexivity.
  - vm_compute. reflexivity.
  - intros u c _ _. apply demo_dir_empty.
Qed.

Lemma all_sent_done u pc : (u, pc) ∈ k_threads all_sent -> exists r, pc = KDone r.
Proof.
  assert (k_threads all_sent = (fun u => (u, KDone (Ok true))) <$> demo_chunks) as -> by (vm_compute; reflexivity).
  intros (u' & [= _ ->] & _)%list_elem_of_fmap. by eexists.
Qed.

Lemma parallel_chunks_stored_witness :
  exists js, handleCheckChunk default_StoreConfig (set_disk demo_app (k_disk all_sent))
      (get_ctx {[lit "md5" := lit "abcd"]} []) =
    (set_disk demo_app (k_disk all_sent),
     success (get_ctx {[lit "md5" := lit "abcd"]} []) (mk_obj [(lit "list", JArr (JInt <$> js))]) []) /\ 2%Z ∈ js.
Proof.
  destruct (parallel_chunks_stored default_StoreConfig (lit "abcd") store_disk demo_chunk_disk demo_loc demo_chunks
    demo_chunks_ready all_sent (schedule_chunks_steps _ _ _ _)) as (_ & _ & H); [discriminate|].
  destruct (H all_sent_done) as [_ Hl].
  destruct (Hl (set_disk demo_app (k_disk all_sent)) (get_ctx {[lit "md5" := lit "abcd"]} [])) as (js & js0 & H1 & _ & H2).
  - reflexivity.
  - vm_compute. reflexivity.
  - exists js. split; [exact H1|]. apply H2. right. by_decide.
Defined.
