(* ===== verification/Confine.v ===== *)
(** Where a chunk upload can write ([file/filestore.cpp], [controller/FileCtl.cpp]):
    [save_file] refuses a path that contains two dots, and what it accepts stays below
    the directory of the chunks, whatever texts the request carries and whatever call of
    the file system fails. *)

From stdpp Require Import base list strings gmap numbers fin_maps.
From Stdlib Require Import ZArith Ascii Lia.
From S2P Require Import Prelude Algorithm Util UrlUtils Json MetaFile LevelDB MetadataStore.
From S2P Require Import Multipart Http Paths CryptoUtils FileSystem FileStore FileCtl.

Import MultipartParser.

Create HintDb confine.

(** ** Paths without two dots *)

Abbreviation DOTS := [DOT; DOT].

Lemma split_on_prefix c s : match split_on c s with x :: _ => x `prefix_of` s | [] => False end.
Proof.
  induction s as [|d s IH]; simpl; [done|]. case_decide; [apply prefix_nil|].
  destruct (split_on c s) as [|x r]; [done|]. by apply prefix_cons.
Qed.

Lemma split_on_infix c s x : x ∈ split_on c s -> exists a b, s = a ++ x ++ b.
Proof.
  revert x. induction s as [|d s IH]; intros x; simpl.
  { intros ->%list_elem_of_singleton. by exists [], []. }
  case_decide as Hd.
  { intros [->|Hx]%elem_of_cons; [by exists [], (d :: s)|].
    destruct (IH x Hx) as (a & b & ->). by exists (d :: a), b. }
  destruct (split_on c s) as [|y r] eqn:E; [by apply split_on_nonempty in E|].
  intros [->|Hx]%elem_of_cons.
  - pose proof (split_on_prefix c s) as Hp. rewrite E in Hp. destruct Hp as [b ->]. by exists [], b.
  - destruct (IH x) as (a & b & ->); [by right|]. by exists (d :: a), b.
Qed.

(** A text in which two dots are not found has no component of two dots, and neither has
    any prefix of it. *)
Lemma no_dots s t : find0 (lit "..") s = None -> t `prefix_of` s -> DOTS ∉ split_on SLASH t.
Proof.
  intros Hs [u ->] (a & b & ->)%split_on_infix. rewrite find0_None in Hs. apply (Hs (length a)).
  - rewrite !length_app. lia.
  - rewrite <- !app_assoc, drop_app_length. by apply prefix_app_r.
Qed.

(** A longer last component. *)
Lemma split_on_longer c t w :
  c ∉ w -> exists i x, split_on c t = i ++ [x] /\ split_on c (t ++ w) = i ++ [x ++ w].
Proof.
  intros Hw. induction t as [|d t (i & x & E1 & E2)]; simpl.
  { exists [], []. by rewrite split_on_fresh. }
  rewrite E1, E2. case_decide; [by exists ([] :: i), x|].
  destruct i as [|y i]; [by exists [], (d :: x)|by exists ((d :: y) :: i), x].
Qed.

Lemma temp_no_dots t rnd :
  DOTS ∉ split_on SLASH t -> (0 <= rnd)%Z -> DOTS ∉ split_on SLASH (t ++ lit ".tmp." ++ generate_temp_suffix rnd).
Proof.
  intros Ht Hr. destruct (split_on_longer SLASH t (lit ".tmp." ++ generate_temp_suffix rnd)) as (i & x & E1 & E2).
  { intros [H|H]%elem_of_app; [by revert H; by_decide|by apply (temp_suffix_fresh rnd)]. }
  rewrite E1 in Ht. rewrite E2. rewrite elem_of_app in *. intros [H|H]; [tauto|].
  apply list_elem_of_singleton in H. apply (f_equal length) in H. rewrite !length_app in H. simpl in H. lia.
Qed.

Lemma walk_inside s l names l' : DOTS ∉ names -> walk s l names = Some l' -> l `prefix_of` l'.
Proof.
  revert l. induction names as [|c names IH]; intros l; simpl; [by intros _ [= ->]|].
  rewrite not_elem_of_cons. intros [Hc Hn]. destruct (is_dir_at s l); [|done].
  intros Hw%IH; [|done]. etrans; [|exact Hw]. unfold enter. case_decide; [done|].
  rewrite decide_False by done. by apply prefix_app_r.
Qed.

(** The way to a place passes only through places above it. *)
Lemma walk_above s s' l names l' :
  DOTS ∉ names -> walk s l names = Some l' ->
  (forall k, k `prefix_of` l' -> is_dir_at s' k = is_dir_at s k) -> walk s' l names = Some l'.
Proof.
  revert l. induction names as [|c names IH]; intros l; [done|]. rewrite not_elem_of_cons. intros [Hc Hn] Hw Hk.
  pose proof (walk_inside s l (c :: names) l') as Hp. simpl in *. rewrite Hk.
  - destruct (is_dir_at s l); [|done]. by apply IH.
  - apply Hp; [|done]. by apply not_elem_of_cons.
Qed.

(** Directories are created only at and below the place the names start from. *)
Lemma make_dirs_inside s l names k :
  DOTS ∉ names -> is_dir_at s l = true -> ~ below l k ->
  nodes (fst (make_dirs s l names)) !! k = nodes s !! k.
Proof.
  revert s l. induction names as [|c names IH]; intros s l; [done|]. rewrite not_elem_of_cons.
  intros [Hc Hn] Hl Hk. simpl. rewrite Hl.
  assert (enter l c = l \/ enter l c = l ++ [c]) as He.
  { unfold enter. case_decide; [by left|]. rewrite decide_False by done. by right. }
  assert (below (enter l c) k -> below l k) as Hb.
  { destruct He as [-> | ->]; [done|]. intros [H1 H2]. split; [|].
    - etrans; [|exact H1]. by apply prefix_app_r.
    - intros ->. apply prefix_length in H1. rewrite length_app in H1. simpl in H1. lia. }
  destruct (nodes s !! enter l c) as [[|x]|] eqn:E.
  - apply IH; [done|by apply bool_decide_true|tauto].
  - assert (is_dir_at s (enter l c) = false) as Hx by (apply bool_decide_false; by rewrite E).
    destruct names as [|c' names]; [done|]. simpl. by rewrite Hx.
  - rewrite IH; [|done|apply bool_decide_true; cbn; by rewrite lookup_insert_eq|tauto].
    cbn [nodes set_nodes]. rewrite lookup_insert_ne; [done|]. intros <-. destruct He as [He|He].
    + rewrite He in E. apply bool_decide_eq_true in Hl. congruence.
    + apply Hk. rewrite He. split; [by apply prefix_app_r|]. intros H%(f_equal length).
      rewrite length_app in H. simpl in H. lia.
Qed.

Lemma make_dirs_skip s l n1 n2 l' :
  walk s l n1 = Some l' -> is_dir_at s l' = true -> make_dirs s l (n1 ++ n2) = make_dirs s l' n2.
Proof.
  intros Hw Hd. revert l Hw. induction n1 as [|c n1 IH]; intros l; simpl; [by intros [= ->]|].
  destruct (is_dir_at s l) eqn:Hl; [|done]. intros Hw.
  assert (is_dir_at s (enter l c) = true) as He.
  { destruct n1 as [|c' n1]; simpl in Hw; [by injection Hw as ->|]. by destruct (is_dir_at s (enter l c)). }
  apply bool_decide_eq_true in He. rewrite He. by apply IH.
Qed.

Section Confine.
Context {T : FsText} (config_ : StoreConfig) (s0 : fs) (rl : list str).
Context (Hroot : has_filename (root_dir config_) = true) (Htemp : plain (temp_dir config_)).
Context (Hdots : DOTS ∉ split_on SLASH (root_dir config_)).
Context (Hres : resolve s0 (root_dir config_) = Some rl) (Hdir : is_dir_at s0 rl = true).

(** The directory of all chunks. *)
Definition chunk_base : list str := rl ++ [temp_dir config_].
Abbreviation base_path := (root_dir config_ ++ (SLASH :: temp_dir config_)).

(** Nothing has changed outside of it. *)
Definition only_there (s : fs) : Prop :=
  cwd s = cwd s0 /\ forall k, ~ chunk_base `prefix_of` k -> nodes s !! k = nodes s0 !! k.

Lemma above_base k : k `prefix_of` rl -> ~ chunk_base `prefix_of` k.
Proof.
  intros H1%prefix_length H2%prefix_length. unfold chunk_base in H2. rewrite length_app in H2. simpl in H2. lia.
Qed.

Lemma root_stays s : only_there s ->
  walk s (start_loc s (root_dir config_)) (split_on SLASH (root_dir config_)) = Some rl /\ is_dir_at s rl = true.
Proof.
  intros [Hc Hn]. unfold resolve in Hres. case_decide; [done|].
  assert (forall k, k `prefix_of` rl -> is_dir_at s k = is_dir_at s0 k) as Hk.
  { intros k Hk. unfold is_dir_at. rewrite Hn; [done|by apply above_base]. }
  split; [|by rewrite Hk]. unfold start_loc in *. rewrite Hc. by apply (walk_above s0).
Qed.

(** A path below the directory of the chunks, without two dots after it. *)
Definition inside (p : str) : Prop :=
  exists t, p = base_path ++ SLASH :: t /\ DOTS ∉ split_on SLASH t.

Lemma inside_names t :
  split_on SLASH (base_path ++ SLASH :: t) =
  split_on SLASH (root_dir config_) ++ temp_dir config_ :: split_on SLASH t.
Proof.
  rewrite <- app_assoc, <- app_comm_cons, split_on_app_any. f_equal. apply split_on_app. apply Htemp.
Qed.

Lemma base_start s t : start_loc s (base_path ++ t) = start_loc s (root_dir config_).
Proof. rewrite <- app_assoc. apply start_loc_app. by destruct (root_dir config_). Qed.

Lemma inside_resolve s p l : only_there s -> inside p -> resolve s p = Some l -> chunk_base `prefix_of` l.
Proof.
  intros Hs (t & -> & Ht). destruct (root_stays s Hs) as [Hw Hd]. unfold resolve.
  case_decide as Hnil; [done|]. rewrite inside_names, base_start, walk_app, Hw. simpl. rewrite Hd.
  rewrite enter_plain by done. intros Hl. by apply (walk_inside s _ _ _ Ht).
Qed.

(** ** The calls *)

Lemma there_nodes s s' : nodes s' = nodes s -> cwd s' = cwd s -> only_there s -> only_there s'.
Proof. intros Hn Hc [H1 H2]. split; [congruence|]. intros k. rewrite Hn. apply H2. Qed.

Lemma there_fault s f s' : next_fault s = (f, s') -> only_there s -> only_there s'.
Proof. intros [Hn Hc]%next_fault_nodes. by apply there_nodes. Qed.

Lemma there_insert s l n :
  only_there s -> chunk_base `prefix_of` l -> only_there (set_nodes (<[l := n]> (nodes s)) s).
Proof.
  intros [H1 H2] Hl. split; [done|]. intros k Hk. cbn [nodes set_nodes].
  rewrite lookup_insert_ne; [by apply H2|]. by intros <-.
Qed.

Lemma there_delete s l :
  only_there s -> chunk_base `prefix_of` l -> only_there (set_nodes (delete l (nodes s)) s).
Proof.
  intros [H1 H2] Hl. split; [done|]. intros k Hk. cbn [nodes set_nodes].
  rewrite lookup_delete_ne; [by apply H2|]. by intros <-.
Qed.
#[local] Hint Resolve there_insert there_delete inside_resolve : confine.

Lemma there_ask {A} call s p (answer : fs -> outcome A) :
  only_there s -> only_there (fst (ask call s p answer)).
Proof.
  intros Hs. destruct (ask call s p answer) as [s' r] eqn:E. apply ask_cases in E as (Hn & Hc & _).
  by apply (there_nodes s).
Qed.

Lemma there_file_size s p : only_there s -> only_there (fst (file_size s p)).
Proof. apply there_ask. Qed.

Lemma there_status s p : only_there s -> only_there (fst (fs_status s p)).
Proof. apply there_ask. Qed.

Lemma there_exists s p : only_there s -> only_there (fst (exists_path s p)).
Proof.
  intros Hs%(there_status s p). unfold exists_path. by destruct (fs_status s p) as [s1 [x|e]].
Qed.

Lemma there_remove s p : only_there s -> inside p -> only_there (fst (remove s p)).
Proof.
  intros Hs Hp. unfold remove. destruct (next_fault s) as [f s1] eqn:E. apply there_fault in E; [|done].
  destruct f; [|done..]. destruct (resolve s1 p) as [l|] eqn:Hl; [|done].
  destruct (nodes s1 !! l) as [[|d]|]; [destruct (_ || _)|..]; cbn [fst]; eauto with confine.
Qed.

Lemma there_rename s p q : only_there s -> inside p -> inside q -> only_there (fst (rename s p q)).
Proof.
  intros Hs Hp Hq. unfold rename. destruct (next_fault s) as [f s1] eqn:E. apply there_fault in E; [|done].
  destruct f; [|done..]. destruct (resolve s1 p) as [la|] eqn:Ha, (resolve s1 q) as [lb|] eqn:Hb; try done.
  destruct (nodes s1 !! la) as [[|d]|]; try done. destruct (_ && _); [|done]. cbn [fst].
  set (s2 := set_nodes (delete la (nodes s1)) s1).
  change (set_nodes _ s1) with (set_nodes (<[lb := File d]> (nodes s2)) s2).
  apply there_insert; unfold s2; eauto with confine.
Qed.

Lemma there_write s p data : only_there s -> inside p -> only_there (fst (write_file s p data)).
Proof.
  intros Hs Hp. unfold write_file, open_trunc, write_stream, close_file.
  destruct (next_fault s) as [f s1] eqn:E. apply there_fault in E; [|done].
  destruct f; [|done..]. destruct (resolve s1 p) as [l|] eqn:Hl; [|done]. destruct (_ && _); [|done].
  assert (chunk_base `prefix_of` l) as Hb by eauto with confine.
  set (s2 := set_nodes _ s1). assert (only_there s2) as H2 by (unfold s2; eauto with confine).
  destruct (next_fault s2) as [g s3] eqn:E2. apply there_fault in E2; [|done].
  destruct g; cbn [fst]; auto with confine.
  all: destruct (next_fault _) as [g s4] eqn:E4; apply there_fault in E4; auto with confine.
Qed.

(** The parent of a path inside is inside, or the directory itself. *)
Lemma parent_names t :
  find0 (lit "..") t = None ->
  exists u names, parent_path (base_path ++ SLASH :: t) = base_path ++ u /\ (DOTS ∉ names) /\
    split_on SLASH (base_path ++ u) = split_on SLASH (root_dir config_) ++ temp_dir config_ :: names.
Proof.
  intros Ht. assert (has_filename base_path = true) as Hfn.
  { change base_path with (root_dir config_ ++ [SLASH] ++ temp_dir config_).
    rewrite app_assoc, has_filename_app by apply Htemp. apply has_filename_fresh; apply Htemp. }
  destruct (parent_path_below base_path t Hfn) as (u & Hp & [v Hv]). exists u. destruct u as [|b u].
  - exists []. rewrite Hp, app_nil_r, split_on_app_any. split_and!; [done|apply not_elem_of_nil|]. f_equal.
    apply split_on_fresh, Htemp.
  - injection Hv as <- Hv. exists (split_on SLASH u). split_and!; [done| |apply inside_names].
    apply (no_dots t); [done|]. by exists v.
Qed.

Lemma there_directories s t :
  only_there s -> find0 (lit "..") t = None ->
  only_there (fst (create_directories s (parent_path (base_path ++ SLASH :: t)))).
Proof.
  intros Hs Ht. destruct (parent_names t Ht) as (u & names & -> & Hno & Hns).
  unfold create_directories. destruct (next_fault s) as [f s1] eqn:E. apply there_fault in E; [|done].
  case_decide; [done|]. rewrite Hns, base_start. destruct (root_stays s1 E) as [Hw Hd].
  assert (forall m, DOTS ∉ take m (temp_dir config_ :: names)) as Hm.
  { intros m Hin%(subseteq_take m). apply elem_of_cons in Hin as [Heq|?]; [|done]. destruct Htemp as (_ & _ & Hdd & _). congruence. }
  assert (forall m, only_there (fst (make_dirs s1 rl (take m (temp_dir config_ :: names))))) as Hrl.
  { intros m. split; [rewrite make_dirs_cwd; apply E|]. intros k Hk.
    destruct m as [|m]; [by apply E|]. simpl. rewrite Hd, enter_plain by done. change (rl ++ [_]) with chunk_base.
    assert (DOTS ∉ take m names) as Hmn by (intros H'%(subseteq_take m); by apply Hno).
    assert (~ below chunk_base k) as Hb by (by intros [? _]).
    destruct (nodes s1 !! chunk_base) as [[|x]|] eqn:Ec.
    - rewrite make_dirs_inside; [by apply E|done|by apply bool_decide_true|done].
    - destruct (take m names) as [|c' r]; [by apply E|]. simpl.
      assert (is_dir_at s1 chunk_base = false) as -> by (apply bool_decide_false; by rewrite Ec). by apply E.
    - rewrite make_dirs_inside; [|done|apply bool_decide_true; cbn; by rewrite lookup_insert_eq|done].
      cbn [nodes set_nodes]. rewrite lookup_insert_ne; [by apply E|]. by intros <-. }
  assert (forall m, only_there (fst (make_dirs s1 (start_loc s1 (root_dir config_))
            (take m (split_on SLASH (root_dir config_) ++ temp_dir config_ :: names))))) as Hall.
  { intros m. rewrite take_app. set (r := split_on SLASH (root_dir config_)) in *.
    destruct (decide (m <= length r)) as [Hle|Hgt].
    - replace (m - length r) with 0 by lia. rewrite take_0, app_nil_r.
      by rewrite (make_dirs_prefix s1 _ r rl) by done.
    - rewrite (take_ge r) by lia. rewrite (make_dirs_skip s1 _ r _ rl) by done. apply Hrl. }
  destruct f as [|n|n|gone]; [|apply Hall..|done].
  specialize (Hall (length (split_on SLASH (root_dir config_) ++ temp_dir config_ :: names))). by rewrite take_ge in Hall.
Qed.

(** ** [save_file] *)

Lemma there_give_up s p : only_there s -> inside p -> only_there (fst (give_up_on s p)).
Proof.
  intros Hs Hp. pose proof (there_remove s p Hs Hp). unfold give_up_on. by destruct (remove s p) as [s1 [u|e]].
Qed.

Lemma there_try {A} (m : io A) p f :
  inside p -> only_there (fst m) -> (forall s a, only_there s -> only_there (fst (f s a))) ->
  only_there (fst (io_try m p f)).
Proof. intros Hp Hm Hf. destruct m as [s [a|e]]; [by apply Hf|by apply there_give_up]. Qed.

Lemma there_drop s p : only_there s -> inside p -> only_there (fst (drop_written s p)).
Proof.
  intros Hs Hp. apply there_try; [done|by apply there_remove|]. intros s1 _ H1.
  apply there_try; [done|by apply there_file_size|done].
Qed.

Lemma there_verify s p data : only_there s -> inside p -> only_there (fst (verify_written s p data)).
Proof.
  intros Hs Hp. apply there_try; [done|by apply there_status|]. intros s1 [nd|] H1; [|by apply there_drop].
  apply there_try; [done|by apply there_file_size|]. intros s2 n H2. case_decide; [done|by apply there_drop].
Qed.

Lemma inside_text t : find0 (lit "..") t = None -> inside (base_path ++ SLASH :: t).
Proof. intros Ht. exists t. split; [done|]. by apply (no_dots t). Qed.

Lemma inside_temp t rnd :
  find0 (lit "..") t = None -> (0 <= rnd)%Z ->
  inside ((base_path ++ SLASH :: t) ++ lit ".tmp." ++ generate_temp_suffix rnd).
Proof.
  intros Ht Hr. exists (t ++ lit ".tmp." ++ generate_temp_suffix rnd). split; [by rewrite <- app_assoc|].
  apply temp_no_dots; [by apply (no_dots t)|done].
Qed.

Lemma there_write_new rnd s t data :
  (0 <= rnd)%Z -> only_there s -> find0 (lit "..") t = None ->
  only_there (fst (write_new rnd s (base_path ++ SLASH :: t) data)).
Proof.
  intros Hr Hs Ht. pose proof (inside_text t Ht) as Hp. pose proof (inside_temp t rnd Ht Hr) as Hq.
  unfold write_new. pose proof (there_directories s t Hs Ht) as H1.
  destruct (create_directories _ _) as [s1 ok]. cbn [fst] in H1.
  pose proof (there_write s1 _ data H1 Hq) as H2. destruct (write_file _ _ _) as [s2 []]; cbn [fst] in H2; [done| |].
  - apply there_try; [done|by apply there_remove|done].
  - apply there_try; [done|by apply there_rename|]. intros s3 _ H3. by apply there_verify.
Qed.

Lemma there_write_disk rnd s t data :
  (0 <= rnd)%Z -> only_there s -> find0 (lit "..") t = None ->
  only_there (fst (write_disk rnd s (base_path ++ SLASH :: t) data)).
Proof.
  intros Hr Hs Ht. unfold write_disk. pose proof (there_exists s (base_path ++ SLASH :: t) Hs) as H1.
  destruct (exists_path _ _) as [s1 [[]|e]]; cbn [io_bind fst] in *; [|by apply there_write_new|done].
  pose proof (there_file_size s1 (base_path ++ SLASH :: t) H1) as H2.
  destruct (file_size _ _) as [s2 [n|e]]; cbn [io_bind fst] in *; [|done].
  case_decide; [done|by apply there_write_new].
Qed.

Lemma there_save rnd s data t :
  (0 <= rnd)%Z -> only_there s ->
  only_there (fst (save_file_at config_ rnd s data (temp_dir config_ ++ SLASH :: t))).
Proof.
  intros Hr Hs. unfold save_file_at. case_bool_decide as Hf; [done|]. cbv zeta.
  rewrite path_append_name by (done || by apply plain_app_relative).
  replace (root_dir config_ ++ SLASH :: temp_dir config_ ++ SLASH :: t) with (base_path ++ SLASH :: t)
    by (by rewrite <- app_assoc).
  assert (find0 (lit "..") t = None) as Ht.
  { destruct (find0 (lit "..") t) as [i|] eqn:E; [|done]. exfalso. apply Hf. rewrite find_0.
    destruct (find0 (lit "..") (temp_dir config_ ++ SLASH :: t)) as [j|] eqn:E2; [by eexists|].
    rewrite find0_None in E2. apply find0_Some in E as (Hi & Hp & _).
    destruct (E2 (length (temp_dir config_) + S i)); [rewrite length_app; simpl; lia|].
    by rewrite drop_app_add. }
  pose proof (there_directories s t Hs Ht) as H1.
  destruct (create_directories _ _) as [s1 []]; cbn [negb fst] in *; [|done].
  pose proof (there_write_disk rnd s1 t data Hr H1 Ht) as H2.
  destruct (write_disk _ _ _ _) as [s2 [[]|e]]; cbn [io_bind fst] in *; [done| |done].
  pose proof (there_remove s2 _ H2 (inside_text t Ht)) as H3. by destruct (remove _ _) as [s3 [u|e]].
Qed.

End Confine.

(** * Properties *)

Section Property.
Context {J : JsonLib} {T : FsText} {L : LevelDB}.

(** C14: a chunk upload is confined: whatever texts the request gives as digest and chunk
    index (separators, dots, absolute paths), whatever content it carries and whatever
    calls of the file system fail, whether it is answered or throws, nothing on the disk
    changes outside the chunk directory [root/_tmp], and the metadata and the upload
    counter stay as they are. The root directory must exist and be configured
    without a [..] component and without a separator at its end, and the temporary
    directory must be one plain name. *)
Theorem chunk_upload_confined config_ e a ctx rl :
  has_filename (root_dir config_) = true -> plain (temp_dir config_) ->
  DOTS ∉ split_on SLASH (root_dir config_) ->
  resolve (disk a) (root_dir config_) = Some rl -> is_dir_at (disk a) rl = true -> (0 <= env_rnd e)%Z ->
  let a' := fst (handleChunkUpload config_ e a ctx) in
  (forall k, ~ chunk_base config_ rl `prefix_of` k -> nodes (disk a') !! k = nodes (disk a) !! k) /\
  mstore a' = mstore a /\ concurrent_uploads_ a' = concurrent_uploads_ a.
Proof.
  intros Hroot Htemp Hdots Hres Hdir Hr. unfold handleChunkUpload. cbv zeta. case_decide; [done|].
  set (t := get_param (snd (get_form ctx)) (lit "md5") [] ++ SLASH :: get_param (snd (get_form ctx)) (lit "chunk") []).
  change (get_temp_dir config_ ++ lit "/" ++ get_param (snd (get_form ctx)) (lit "md5") [] ++ lit "/" ++
    get_param (snd (get_form ctx)) (lit "chunk") []) with (temp_dir config_ ++ SLASH :: t).
  assert (only_there config_ (disk a) rl (disk a)) as H0 by done.
  pose proof (there_save config_ (disk a) rl Hroot Htemp Hdots Hres Hdir (env_rnd e) (disk a)
    (content (snd (get_form ctx))) t Hr H0) as [_ Hk].
  by destruct (save_file_at _ _ _ _ _) as [s1 [[]|ex]].
Qed.

End Property.

(** * Witness *)

Import TaggedJson PadMd5 ListOrder PlainText MergeSort.

(** A chunk index that is an absolute path, on a disk on which the fourth call fails. *)
Lemma chunk_upload_confined_witness :
  nodes (disk (fst (handleChunkUpload default_StoreConfig demo_env
    (set_disk demo_app (store_with [Good; Good; Good; Bad 0])) (chunk_form (lit "/srv/x") (lit "part"))))) !! [lit "srv"] =
  nodes store_disk !! [lit "srv"].
Proof.
  apply (chunk_upload_confined default_StoreConfig demo_env (set_disk demo_app (store_with [Good; Good; Good; Bad 0]))
    (chunk_form (lit "/srv/x") (lit "part")) store_loc);
    [reflexivity | by_decide | by_decide | vm_compute; reflexivity | vm_compute; reflexivity | vm_compute; discriminate |].
  intros [t Ht]. discriminate.
Defined.
