(* ===== verification/FileGuard.v ===== *)
(** [file/FileGuard.h]: a guard that removes a file when it goes out of scope, unless
    it was told to keep it. *)

From stdpp Require Import base list strings gmap numbers.
From Stdlib Require Import ZArith Ascii Lia.
From S2P Require Import Prelude Paths FileSystem FileStore.

Record FileGuard : Type := { path : str; commit : bool }.

(** A guard as it is declared. *)
Definition FileGuard_new (p : str) : FileGuard := {| path := p; commit := false |}.

Definition set_commit (g : FileGuard) : FileGuard := {| path := path g; commit := true |}.

Section Guard.
Context {T : FsText}.

(** The destructor. It may not throw: an exception of [remove] ends the program. *)
Inductive destroyed : Type :=
| Gone (s : fs)
| Terminated.

Definition FileGuard_destroy (s : fs) (g : FileGuard) : destroyed :=
  if negb (commit g) && negb (bool_decide (path g = [])) then
    match remove s (path g) with
    | (s', Ok _) => Gone s'
    | (_, Throw _) => Terminated
    end
  else Gone s.

(** A scope that writes a file under a guard, with the last line that commits it
    reached or not. *)
Definition guarded_write (s : fs) (p data : str) (completes : bool) : destroyed :=
  let g := FileGuard_new p in
  let '(s, _) := write_file s p data in
  FileGuard_destroy s (if completes then set_commit g else g).

(** The guard of a regular file (or of a name that is free): with a commit the disk is
    untouched; without one the file is gone and nothing else has changed, unless the
    call fails, which ends the program. *)
Theorem FileGuard_destroy_file s g l :
  path g <> [] -> resolve s (path g) = Some l -> is_dir_at s l = false ->
  match FileGuard_destroy s g with
  | Gone s' => nodes s' = if commit g then nodes s else delete l (nodes s)
  | Terminated => commit g = false /\ faults s <> []
  end.
Proof.
  intros Hp Hr Hd. unfold FileGuard_destroy. rewrite bool_decide_false by done.
  destruct (commit g); [done|]. cbn [negb andb].
  destruct (decide (faults s = [])) as [Hf|Hf]; [by rewrite (remove_clean s _ l)|].
  destruct (remove s (path g)) as [s' r] eqn:E.
  by destruct (remove_cases s (path g) l r s' Hr Hd E) as [_ [[-> Hn]|(s1 & -> & _)]].
Qed.

(** The guard of a directory that is not empty ends the program. *)
Theorem FileGuard_destroy_dir s g l :
  commit g = false -> resolve s (path g) = Some l -> nodes s !! l = Some Dir -> has_children s l = true ->
  FileGuard_destroy s g = Terminated.
Proof.
  intros Hc Hr Hl Hch. unfold FileGuard_destroy. rewrite Hc.
  rewrite bool_decide_false by (intros E; by rewrite E in Hr). cbn [negb andb].
  unfold remove. destruct (next_fault s) as [f s1] eqn:E. destruct (next_fault_nodes _ _ _ E) as [Hn Hcw].
  rewrite (resolve_dirs s s1), Hr, Hn, Hl by (done || intros k; by apply is_dir_at_ext).
  unfold has_children. rewrite Hn. fold (has_children s l). rewrite Hch. by destruct f.
Qed.

End Guard.

Import PlainText.

(** A guarded write that is interrupted leaves no file behind. *)
Theorem guarded_write_interrupted :
  guarded_write store_disk (lit "/data/x") (lit "half") false = Gone store_disk /\
  exists s, guarded_write store_disk (lit "/data/x") (lit "half") true = Gone s /\
    lookup_path s (lit "/data/x") = Some (File (lit "half")).
Proof.
  split; [vm_compute; reflexivity|].
  exists (fst (write_file store_disk (lit "/data/x") (lit "half"))). split; vm_compute; reflexivity.
Qed.
