(* ===== verification/HttpSession.v ===== *)
(** [server/HttpSession.h], [server/HttpSession.cc], [server/cServer.cc] and
    [common/global.cc]: the life of a connection as completion handlers of
    asynchronous operations, the accept loop, and the global counters. *)

From stdpp Require Import base list strings gmap numbers relations.
From Stdlib Require Import ZArith Ascii Lia.
From S2P Require Import Prelude Util Json Multipart Http.

(** ** Global counters *)

Record globals : Type := {
  g_bytes_sent : Z;
  g_bytes_received : Z;
  g_active_connections : Z;
  g_total_latency_us : Z;
  g_max_latency_us : Z;
}.

Definition zero_globals : globals :=
  {| g_bytes_sent := 0; g_bytes_received := 0; g_active_connections := 0;
     g_total_latency_us := 0; g_max_latency_us := 0 |}.

Definition add_received (n : Z) (g : globals) : globals :=
  {| g_bytes_sent := g_bytes_sent g;
     g_bytes_received := if decide (n > 0)%Z then u64 (g_bytes_received g + n) else g_bytes_received g;
     g_active_connections := g_active_connections g;
     g_total_latency_us := g_total_latency_us g; g_max_latency_us := g_max_latency_us g |}.

Definition add_sent (n : Z) (g : globals) : globals :=
  {| g_bytes_sent := if decide (n > 0)%Z then u64 (g_bytes_sent g + n) else g_bytes_sent g;
     g_bytes_received := g_bytes_received g; g_active_connections := g_active_connections g;
     g_total_latency_us := g_total_latency_us g; g_max_latency_us := g_max_latency_us g |}.

Definition add_connections (n : Z) (g : globals) : globals :=
  {| g_bytes_sent := g_bytes_sent g; g_bytes_received := g_bytes_received g;
     g_active_connections := i32 (g_active_connections g + n);
     g_total_latency_us := g_total_latency_us g; g_max_latency_us := g_max_latency_us g |}.

(** The latency of a request in microseconds. The compare-exchange loop ends with
    the larger of the old maximum and the [int] cast of the duration. *)
Definition record_latency (duration : Z) (g : globals) : globals :=
  if decide (duration > 0)%Z then
    {| g_bytes_sent := g_bytes_sent g; g_bytes_received := g_bytes_received g;
       g_active_connections := g_active_connections g;
       g_total_latency_us := u64 (g_total_latency_us g + duration);
       g_max_latency_us := if decide (duration > g_max_latency_us g)%Z then i32 duration
                           else g_max_latency_us g |}
  else g.

(** ** A session *)

(** The completion code of an asynchronous operation. *)
Inductive error_code : Type :=
| ec_success
| ec_end_of_stream
| ec_operation_aborted
| ec_body_limit
| ec_other (n : nat).

#[global] Instance error_code_eq_dec : EqDecision error_code.
Proof. solve_decision. Defined.

(** The operation a session waits for; [need_close] is the flag bound by
    [do_write]. *)
Inductive pending : Type :=
| Idle
| Reading
| Writing (need_close : bool).

#[global] Instance pending_eq_dec : EqDecision pending.
Proof. solve_decision. Defined.

(** [expired] counts the expiries of the timer whose handlers are queued and have
    not run: cancelling or resetting the timer does not withdraw them. *)
Record session : Type := {
  socket_open : bool;
  timer_armed : bool;
  expired : nat;
  buffer_ : str;
  pend : pending;
  req_start_time_ : Z;
}.

Definition close_socket (s : session) : session :=
  {| socket_open := false; timer_armed := timer_armed s; expired := expired s; buffer_ := buffer_ s; pend := Idle;
     req_start_time_ := req_start_time_ s |}.

(** The limit [do_read] sets on the body of a request, and the code with which the
    read of a request completes: the parser refuses a longer body. *)
Definition body_limit : Z := 50 * 1024 * 1024.

Definition read_code (rq : StringRequest) : error_code :=
  if decide (Z.of_nat (length (req_body rq)) <= body_limit)%Z then ec_success else ec_body_limit.

(** [do_read]: an asynchronous read of one request. *)
Definition do_read (s : session) : session :=
  {| socket_open := socket_open s; timer_armed := timer_armed s; expired := expired s; buffer_ := buffer_ s;
     pend := Reading; req_start_time_ := req_start_time_ s |}.

(** The constructor and [run]: the timer is armed for 30 seconds. *)
Definition new_session : session :=
  do_read {| socket_open := true; timer_armed := true; expired := 0; buffer_ := []; pend := Idle;
             req_start_time_ := 0 |}.

(** [do_write]: [keep_alive] is the constant true. *)
Definition do_write (s : session) (msg : response) : session :=
  let keep_alive := true in
  let need_close := negb keep_alive in
  {| socket_open := socket_open s; timer_armed := timer_armed s; expired := expired s; buffer_ := buffer_ s;
     pend := Writing need_close; req_start_time_ := req_start_time_ s |}.

(** [log_and_close]: every branch closes the socket and returns true. *)
Definition log_and_close (ec : error_code) (s : session) : session * bool := (close_socket s, true).

(** [on_read]: [leftover] is what the read left in the buffer after the request,
    [handle] what dispatching the request does to the counters and sends, or its
    exception, which leaves [on_read] and with it the last reference to the session. *)
Definition on_read (g : globals) (s : session) (ec : error_code) (bytes now : Z) (leftover : str)
    (handle : globals -> globals * outcome response) : globals * session :=
  let g := add_received bytes g in
  let s := {| socket_open := socket_open s; timer_armed := false; expired := expired s; buffer_ := leftover;
              pend := Idle; req_start_time_ := now |} in
  if decide (ec = ec_end_of_stream) then (g, close_socket s)
  else if decide (ec <> ec_success) then (g, fst (log_and_close ec s))
  else match handle g with
       | (g, Ok msg) => (g, do_write s msg)
       | (g, Throw _) => (g, close_socket s)
       end.

Definition reset_timeout_timer (s : session) : session :=
  {| socket_open := socket_open s; timer_armed := true; expired := expired s; buffer_ := buffer_ s; pend := pend s;
     req_start_time_ := req_start_time_ s |}.

(** [buffer_.consume(buffer_.size())]. *)
Definition consume_buffer (s : session) : session :=
  {| socket_open := socket_open s; timer_armed := timer_armed s; expired := expired s; buffer_ := []; pend := pend s;
     req_start_time_ := req_start_time_ s |}.

Definition on_write (g : globals) (s : session) (close : bool) (ec : error_code) (bytes now : Z)
  : globals * session :=
  let g := record_latency (now - req_start_time_ s) (add_sent bytes g) in
  let s := {| socket_open := socket_open s; timer_armed := timer_armed s; expired := expired s; buffer_ := buffer_ s;
              pend := Idle; req_start_time_ := req_start_time_ s |} in
  if decide (ec <> ec_success) then (g, fst (log_and_close ec s))
  else if close then (g, close_socket s)
  else (g, do_read (consume_buffer (reset_timeout_timer s))).

(** The 30 seconds are over: the wait handler is queued. *)
Definition expire (s : session) : session :=
  {| socket_open := socket_open s; timer_armed := false; expired := S (expired s);
     buffer_ := buffer_ s; pend := pend s; req_start_time_ := req_start_time_ s |}.

(** The wait handler runs: the socket is closed, the pending operation will complete
    with an error. *)
Definition on_timeout (s : session) : session :=
  {| socket_open := false; timer_armed := timer_armed s; expired := expired s - 1;
     buffer_ := buffer_ s; pend := pend s; req_start_time_ := req_start_time_ s |}.

(** ** The server: accepts and live sessions *)

Record server : Type := {
  gl : globals;
  accepts : nat;          (* pending [async_accept] operations *)
  sessions : list session;
  dangling : nat;         (* queued wait handlers whose session is destroyed *)
}.

(** [cServer::start_accept]. *)
Definition start_accept (sv : server) : server :=
  {| gl := gl sv; accepts := S (accepts sv); sessions := sessions sv;
     dangling := dangling sv |}.

Definition make_session (sv : server) : server :=
  {| gl := add_connections 1 (gl sv); accepts := accepts sv;
     sessions := sessions sv ++ [new_session]; dangling := dangling sv |}.

(** The accept handler: after an error it does not return. Its [catch] is reached only
    when an allocation fails. *)
Definition on_accept (sv : server) (failed : bool) : server :=
  let sv := {| gl := gl sv; accepts := accepts sv - 1; sessions := sessions sv;
               dangling := dangling sv |} in
  let sv := if failed then start_accept sv else sv in
  start_accept (make_session sv).

(** [cServer::cServer]: the acceptor is opened, bound and listening, or throws; no
    accept is pending yet. *)
Definition cServer_new (bound : bool) : outcome server :=
  if bound then Ok {| gl := zero_globals; accepts := 0; sessions := []; dangling := 0 |}
  else Throw (lit "bind").

(** The server after the first call of [start_accept]. *)
Definition boot : server := start_accept
  {| gl := zero_globals; accepts := 0; sessions := []; dangling := 0 |}.

(** Handling a request opens and closes no connection. *)
Definition keeps_connections (handle : globals -> globals * outcome response) : Prop :=
  forall g, g_active_connections (fst (handle g)) = g_active_connections g.

(** A closed socket completes its operations with an error. *)
Definition completes (s : session) (ec : error_code) : Prop :=
  socket_open s = false -> ec <> ec_success.

(** One completion handler, timer expiry or destructor. The wait handler captures
    [this] and holds no reference, so a session is destroyed once it waits for no
    read or write, queued wait handlers or not. *)
Inductive server_step : server -> server -> Prop :=
| step_accept sv failed :
    0 < accepts sv -> server_step sv (on_accept sv failed)
| step_read sv i s ec bytes now leftover handle g' s' :
    sessions sv !! i = Some s -> pend s = Reading -> completes s ec -> keeps_connections handle ->
    on_read (gl sv) s ec bytes now leftover handle = (g', s') ->
    server_step sv {| gl := g'; accepts := accepts sv; sessions := <[i := s']> (sessions sv);
                      dangling := dangling sv |}
| step_write sv i s close ec bytes now g' s' :
    sessions sv !! i = Some s -> pend s = Writing close -> completes s ec ->
    on_write (gl sv) s close ec bytes now = (g', s') ->
    server_step sv {| gl := g'; accepts := accepts sv; sessions := <[i := s']> (sessions sv);
                      dangling := dangling sv |}
| step_expire sv i s :
    sessions sv !! i = Some s -> timer_armed s = true ->
    server_step sv {| gl := gl sv; accepts := accepts sv;
                      sessions := <[i := expire s]> (sessions sv); dangling := dangling sv |}
| step_timeout sv i s :
    sessions sv !! i = Some s -> 0 < expired s ->
    server_step sv {| gl := gl sv; accepts := accepts sv;
                      sessions := <[i := on_timeout s]> (sessions sv); dangling := dangling sv |}
| step_destroy sv i s :
    sessions sv !! i = Some s -> pend s = Idle ->
    server_step sv {| gl := add_connections (-1) (gl sv); accepts := accepts sv;
                      sessions := delete i (sessions sv);
                      dangling := dangling sv + expired s |}.

(** * Lemmas *)

(** A session that waits for nothing is closed, an open one waits for exactly one
    operation; the timer runs only while a request is awaited, and an open session
    that awaits one has its timer running or expired. *)
Definition session_inv (s : session) : Prop :=
  (pend s = Idle -> socket_open s = false) /\
  (timer_armed s = true -> pend s = Reading) /\
  (forall c, pend s = Writing c -> c = false) /\
  (pend s = Reading -> socket_open s = true -> timer_armed s = true \/ 0 < expired s).

Definition server_inv (sv : server) : Prop :=
  Forall session_inv (sessions sv) /\ 0 < accepts sv /\
  g_active_connections (gl sv) = i32 (Z.of_nat (length (sessions sv))).

Lemma new_session_inv : session_inv new_session.
Proof. split_and!; try done. by left. Qed.

Lemma on_read_inv g s ec bytes now leftover handle g' s' :
  keeps_connections handle -> on_read g s ec bytes now leftover handle = (g', s') ->
  session_inv s' /\ g_active_connections g' = g_active_connections g.
Proof.
  intros Hk. unfold on_read. cbv zeta.
  case_decide; [by intros [= <- <-]; split_and!|].
  case_decide as Hec; [by intros [= <- <-]; split_and!|].
  specialize (Hk (add_received bytes g)).
  destruct (handle _) as [g1 [msg|ex]]; cbn [fst] in Hk; intros [= <- <-]; split; try exact Hk; split_and!; try done.
  by intros c [= <-].
Qed.

Lemma record_latency_connections d g :
  g_active_connections (record_latency d g) = g_active_connections g.
Proof. unfold record_latency. by case_decide. Qed.

Lemma on_write_inv g s close ec bytes now g' s' :
  session_inv s -> pend s = Writing close -> on_write g s close ec bytes now = (g', s') ->
  session_inv s' /\ g_active_connections g' = g_active_connections g.
Proof.
  intros (H1 & H2 & H3 & H4) Hw. assert (timer_armed s = false) as Ht.
  { destruct (timer_armed s); [|done]. by rewrite (H2 eq_refl) in Hw. }
  unfold on_write. cbv zeta. rewrite Ht.
  case_decide as Hec; [|destruct close]; intros [= <- <-];
    (split; [|by rewrite record_latency_connections]); split_and!; try done. by left.
Qed.

Lemma on_timeout_inv s : session_inv s -> session_inv (on_timeout s).
Proof. intros (H1 & H2 & H3 & H4). by split_and!. Qed.

Lemma expire_inv s : session_inv s -> session_inv (expire s).
Proof. intros (H1 & H2 & H3 & H4). split_and!; try done. right. simpl. lia. Qed.

Lemma i32_add_l a b : i32 (i32 a + b) = i32 (a + b).
Proof.
  unfold swrap at 1 3. cut (wrap 32 (i32 a + b) = wrap 32 (a + b)); [by intros ->|].
  rewrite <- wrap_add_l by lia. rewrite wrap_swrap by lia. by rewrite wrap_add_l by lia.
Qed.

Lemma Forall_insert_list {A} (P : A -> Prop) l i x : Forall P l -> P x -> Forall P (<[i := x]> l).
Proof.
  intros Hl Hx. revert i. induction Hl as [|y l Hy Hl IH]; intros [|i]; simpl;
    [constructor|constructor|by constructor|constructor; [done|apply IH]].
Qed.

Lemma server_step_inv sv sv' : server_inv sv -> server_step sv sv' -> server_inv sv'.
Proof.
  intros (Hs & Ha & Hg) Hstep. pose proof (proj1 (list.Forall_forall _ _) Hs) as Hall.
  destruct Hstep as [sv failed Hacc|sv i s ec bytes now leftover handle g' s' Hi Hp Hc Hk Hr
    |sv i s close ec bytes now g' s' Hi Hp Hc Hw|sv i s Hi Ht|sv i s Hi Ht|sv i s Hi Hp]; unfold server_inv; simpl.
  - split_and!.
    + destruct failed; apply list.Forall_app; (split; [done|]); constructor; [|constructor| |constructor];
        apply new_session_inv.
    + lia.
    + assert (i32 (g_active_connections (gl sv) + 1) = i32 (Z.of_nat (length (sessions sv ++ [new_session]))))
        as H by (rewrite Hg, i32_add_l, length_app; f_equal; simpl; lia).
      by destruct failed.
  - destruct (on_read_inv _ _ _ _ _ _ _ _ _ Hk Hr) as [Hs' Hg'].
    rewrite Hg', length_insert. split_and!; [by apply Forall_insert_list|done|done].
  - destruct (on_write_inv _ _ _ _ _ _ _ _ (Hall _ (list_elem_of_lookup_2 _ _ _ Hi)) Hp Hw) as [Hs' Hg'].
    rewrite Hg', length_insert. split_and!; [by apply Forall_insert_list|done|done].
  - rewrite length_insert. split_and!; [|done|done].
    apply Forall_insert_list; [done|]. apply expire_inv, Hall. by eapply list_elem_of_lookup_2.
  - rewrite length_insert. split_and!; [|done|done].
    apply Forall_insert_list; [done|]. apply on_timeout_inv, Hall. by eapply list_elem_of_lookup_2.
  - rewrite Hg, i32_add_l. split_and!; [|done|].
    + rewrite delete_take_drop. apply list.Forall_app. split; [by apply Forall_take|by apply Forall_drop].
    + f_equal. rewrite length_delete by by eexists. apply lookup_lt_Some in Hi. lia.
Qed.

Lemma boot_inv : server_inv boot.
Proof. split_and!; [constructor|simpl; lia|done]. Qed.

Lemma reachable_inv sv : rtc server_step boot sv -> server_inv sv.
Proof.
  intros H. assert (server_inv boot) as Hb by apply boot_inv. revert Hb.
  induction H as [|x y z Hxy _ IH]; intros Hx; [done|]. apply IH. by eapply server_step_inv.
Qed.

(** ** Silent clients *)

(** On every run [P] is reached: it holds, or a step of [F] is due and every step of [R]
    leads to a state from which it is reached. [F] holds the steps that happen of
    themselves, [R] all that may happen. *)
Inductive inevitably {A} (F R : A -> A -> Prop) (P : A -> Prop) : A -> Prop :=
| inev_now x : P x -> inevitably F R P x
| inev_later x : (exists y, F x y) -> (forall y, R x y -> inevitably F R P y) -> inevitably F R P x.

(** The steps of the server while nobody connects and no client sends a request. A read
    or write that is pending completes when [ends] holds of its session. *)
Inductive quiet_step (ends : session -> Prop) : server -> server -> Prop :=
| quiet_read sv i s ec bytes now leftover handle g' s' :
    sessions sv !! i = Some s -> pend s = Reading -> ends s -> ec <> ec_success -> keeps_connections handle ->
    on_read (gl sv) s ec bytes now leftover handle = (g', s') ->
    quiet_step ends sv {| gl := g'; accepts := accepts sv; sessions := <[i := s']> (sessions sv);
                          dangling := dangling sv |}
| quiet_write sv i s close ec bytes now g' s' :
    sessions sv !! i = Some s -> pend s = Writing close -> ends s -> completes s ec ->
    on_write (gl sv) s close ec bytes now = (g', s') ->
    quiet_step ends sv {| gl := g'; accepts := accepts sv; sessions := <[i := s']> (sessions sv);
                          dangling := dangling sv |}
| quiet_expire sv i s :
    sessions sv !! i = Some s -> timer_armed s = true ->
    quiet_step ends sv {| gl := gl sv; accepts := accepts sv;
                          sessions := <[i := expire s]> (sessions sv); dangling := dangling sv |}
| quiet_timeout sv i s :
    sessions sv !! i = Some s -> 0 < expired s ->
    quiet_step ends sv {| gl := gl sv; accepts := accepts sv;
                          sessions := <[i := on_timeout s]> (sessions sv); dangling := dangling sv |}
| quiet_destroy sv i s :
    sessions sv !! i = Some s -> pend s = Idle ->
    quiet_step ends sv {| gl := add_connections (-1) (gl sv); accepts := accepts sv;
                          sessions := delete i (sessions sv);
                          dangling := dangling sv + expired s |}.

(** On an open socket an operation ends when the client does something (it takes the
    reply, or goes away); on a closed one it ends of itself. *)
Definition any_end (s : session) : Prop := True.
Definition own_end (s : session) : Prop := socket_open s = false.
Definition write_end (s : session) : Prop := socket_open s = false \/ pend s <> Reading.

Lemma quiet_server_step ends sv sv' : quiet_step ends sv sv' -> server_step sv sv'.
Proof.
  destruct 1; [eapply step_read; eauto; by intros _|by eapply step_write|by apply step_expire
              |by apply step_timeout|by apply step_destroy].
Qed.

(** A connection whose client does not take its reply: nothing is due for it. *)
Definition stalled (s : session) : Prop :=
  pend s = Writing false /\ socket_open s = true /\ timer_armed s = false /\ expired s = 0.

#[global] Instance stalled_dec s : Decision (stalled s).
Proof. unfold stalled. apply _. Defined.

(** How far a session is from its end. *)
Definition rank (s : session) : nat :=
  expired s + (if timer_armed s then 2 else 0) +
  match pend s with Idle => 1 | Reading => 2 | Writing _ => 5 end.

Definition total_rank (sv : server) : nat := sum_list_with rank (sessions sv).

Lemma sum_insert l i (s s' : session) :
  l !! i = Some s -> rank s' < rank s -> sum_list_with rank (<[i := s']> l) < sum_list_with rank l.
Proof. intros Hi Hr. pose proof (sum_list_with_insert rank l i s s' Hi). lia. Qed.

Lemma sum_delete l i (s : session) :
  l !! i = Some s -> 0 < rank s -> sum_list_with rank (delete i l) < sum_list_with rank l.
Proof.
  revert i. induction l as [|x l IH]; intros [|i] Hi Hr; simplify_eq/=; [lia|].
  specialize (IH i Hi Hr). lia.
Qed.

Lemma on_read_rank g s ec bytes now leftover handle :
  pend s = Reading -> ec <> ec_success -> rank (snd (on_read g s ec bytes now leftover handle)) < rank s.
Proof.
  intros Hp He. unfold on_read, rank. cbv zeta. rewrite Hp.
  case_decide; [simpl; lia|]. rewrite decide_True by done. simpl. lia.
Qed.

Lemma on_write_rank g s close ec bytes now :
  session_inv s -> pend s = Writing close -> rank (snd (on_write g s close ec bytes now)) < rank s.
Proof.
  intros (_ & H2 & _) Hp. unfold on_write, rank. cbv zeta. rewrite Hp.
  destruct (timer_armed s) eqn:Ht; [by rewrite (H2 eq_refl) in Hp|].
  case_decide; [simpl; lia|]. destruct close; simpl; lia.
Qed.

Lemma quiet_step_rank ends sv sv' : server_inv sv -> quiet_step ends sv sv' -> total_rank sv' < total_rank sv.
Proof.
  intros (Hs & _) Hstep. pose proof (proj1 (list.Forall_forall _ _) Hs) as Hall. unfold total_rank.
  destruct Hstep as [sv i s ec bytes now leftover handle g' s' Hi Hp _ He _ Hr
    |sv i s close ec bytes now g' s' Hi Hp _ _ Hw|sv i s Hi Ht|sv i s Hi Ht|sv i s Hi Hp]; cbn [sessions].
  - apply (sum_insert _ _ s); [done|]. change s' with (snd (g', s')). rewrite <- Hr. by apply on_read_rank.
  - apply (sum_insert _ _ s); [done|]. change s' with (snd (g', s')). rewrite <- Hw.
    apply on_write_rank; [|done]. apply Hall. by eapply list_elem_of_lookup_2.
  - apply (sum_insert _ _ s); [done|]. unfold rank. rewrite Ht. simpl. lia.
  - apply (sum_insert _ _ s); [done|]. unfold rank. simpl. lia.
  - apply (sum_delete _ _ s); [done|]. unfold rank. rewrite Hp. lia.
Qed.

(** A session can always go on, of itself or because its reply is taken, unless it is
    stalled and its reply is not taken. *)
Lemma quiet_step_due (ends : session -> Prop) sv i s :
  (forall s, own_end s -> ends s) -> session_inv s -> sessions sv !! i = Some s ->
  ~ stalled s \/ ends s -> exists sv', quiet_step ends sv sv'.
Proof.
  intros Hown (H1 & H2 & H3 & H4) Hi Hs. destruct (pend s) as [| |c] eqn:Hp.
  - eexists. by apply (quiet_destroy ends sv i s).
  - destruct (timer_armed s) eqn:Ht; [eexists; by apply (quiet_expire ends sv i s)|].
    destruct (socket_open s) eqn:Ho.
    + destruct (H4 eq_refl eq_refl) as [|He]; [done|]. eexists. by apply (quiet_timeout ends sv i s).
    + destruct (on_read (gl sv) s ec_operation_aborted 0 0 [] (fun g => (g, Throw []))) as [g' s'] eqn:Er.
      eexists. eapply (quiet_read ends sv i s ec_operation_aborted 0 0 [] (fun g => (g, Throw [])));
        [done|done|by apply Hown|done|by intros g|exact Er].
  - assert (ends s -> exists sv', quiet_step ends sv sv') as Hend.
    { intros He. destruct (on_write (gl sv) s c ec_operation_aborted 0 0) as [g' s'] eqn:Ew.
      eexists. by eapply (quiet_write ends sv i s c ec_operation_aborted). }
    destruct Hs as [Hs|Hs]; [|by apply Hend].
    destruct (socket_open s) eqn:Ho; [|by apply Hend, Hown].
    destruct (expired s) as [|n] eqn:He; [|eexists; apply (quiet_timeout ends sv i s); [done|lia]].
    exfalso. apply Hs. unfold stalled. rewrite Hp, (H3 c eq_refl). split_and!; try done.
    destruct (timer_armed s) eqn:Ht; [|done]. by specialize (H2 eq_refl).
Qed.

(** Every run of a server that ranks down, as long as some session is not stalled or its
    reply is taken. *)
Lemma drained_aux (ends : session -> Prop) (P : server -> Prop) n sv :
  (forall s, own_end s -> ends s) ->
  (forall sv, server_inv sv -> P sv \/ exists i s, sessions sv !! i = Some s /\ (~ stalled s \/ ends s)) ->
  total_rank sv < n -> server_inv sv -> inevitably (quiet_step ends) (quiet_step any_end) P sv.
Proof.
  intros Hown HP. revert sv. induction n as [|n IH]; intros sv Hn Hinv; [lia|].
  destruct (HP sv Hinv) as [H0|(i & s & Hi & Hs)]; [by apply inev_now|].
  apply inev_later.
  - apply (quiet_step_due ends sv i s); [done| |done|done].
    apply (proj1 (list.Forall_forall _ _) (proj1 Hinv)). by eapply list_elem_of_lookup_2.
  - intros sv' Hq. apply IH; [|by eapply server_step_inv, quiet_server_step].
    pose proof (quiet_step_rank _ _ _ Hinv Hq). lia.
Qed.

Lemma stalled_stay sv sv' : Forall stalled (sessions sv) -> ~ quiet_step own_end sv sv'.
Proof.
  intros Hs Hq. pose proof (proj1 (list.Forall_lookup _ _) Hs) as Hall. unfold own_end in Hq.
  destruct Hq as [? i s ? ? ? ? ? ? ? Hi Hp|? i s ? ? ? ? ? ? Hi Hp He|? i s Hi Ht|? i s Hi Ht|? i s Hi Hp];
    destruct (Hall i s Hi) as (E1 & E2 & E3 & E4); try congruence. lia.
Qed.

(** A request is read and its reply written without an error. *)
Definition request_cycle (g : globals) (s : session) (received read_at : Z) (leftover : str)
    (msg : response) (sent written_at : Z) : globals * session :=
  let '(g, s) := on_read g s ec_success received read_at leftover (fun g => (g, Ok msg)) in
  match pend s with
  | Writing close => on_write g s close ec_success sent written_at
  | _ => (g, s)
  end.

Fixpoint accept_failures (n : nat) (sv : server) : server :=
  match n with O => sv | S n' => on_accept (accept_failures n' sv) true end.

(** * Properties *)

(** C15: in every reachable state of the server each open connection waits for exactly
    one operation, a connection that waits for none is closed, the time-out runs
    only while a request is awaited (never while a reply is written), an accept is
    pending, and the connection counter is the number of live connections. *)
Theorem server_invariant sv :
  rtc server_step boot sv ->
  (forall s, s ∈ sessions sv ->
     (socket_open s = true -> pend s = Reading \/ pend s = Writing false) /\
     (pend s = Idle -> socket_open s = false) /\
     (timer_armed s = true -> pend s = Reading)) /\
  0 < accepts sv /\
  ((Z.of_nat (length (sessions sv)) < 2 ^ 31)%Z ->
   g_active_connections (gl sv) = Z.of_nat (length (sessions sv))).
Proof.
  intros (Hs & Ha & Hg)%reachable_inv. split_and!; [|done|].
  - intros s Hin. destruct (proj1 (list.Forall_forall _ _) Hs s Hin) as (H1 & H2 & H3 & H4).
    split_and!; [|done|done]. intros Ho. destruct (pend s) as [| |c] eqn:Hp; [|by left|].
    + by rewrite (H1 eq_refl) in Ho.
    + right. by rewrite (H3 c eq_refl).
  - intros Hl. rewrite Hg. apply swrap_small; lia.
Qed.

(** C16: silent clients are got rid of, but for those that do not take a reply. From
    every reachable state of the server, once nobody connects and no request arrives,
    whatever the order of the handlers and whichever replies are taken: every run comes
    to a state in which all connections left are waiting to write on an open socket, and
    for these nothing is ever due, no time-out either. If every pending write ends,
    because its reply is taken or its client goes away, every run comes to a state
    without sessions and with the connection counter at 0. *)
Theorem silent_clients_drained sv :
  rtc server_step boot sv ->
  inevitably (quiet_step own_end) (quiet_step any_end)
    (fun sv => Forall stalled (sessions sv) /\ forall sv', ~ quiet_step own_end sv sv') sv /\
  inevitably (quiet_step write_end) (quiet_step any_end)
    (fun sv => sessions sv = [] /\ g_active_connections (gl sv) = 0%Z) sv.
Proof.
  intros H%reachable_inv. split; apply (drained_aux _ _ (S (total_rank sv))); try done; try lia; try (by left).
  - intros sv' _. destruct (decide (Forall stalled (sessions sv'))) as [Hs|Hs].
    + left. split; [done|]. intros sv''. by apply stalled_stay.
    + right. apply not_Forall_Exists, list.Exists_exists in Hs as (s & [i Hi]%list_elem_of_lookup_1 & Hs); [|apply _].
      eauto.
  - intros sv' (_ & _ & Hg). destruct (sessions sv') as [|s l] eqn:E; [left; split; [done|by rewrite Hg]|].
    right. exists 0, s. split; [done|]. destruct (decide (stalled s)) as [(Hp & _)|?]; [|by left].
    right. right. by rewrite Hp.
Qed.

(** After a reply is written the connection always waits for the next request
    with a fresh time-out, whatever the request or the reply say about keep-alive,
    and whatever the client had already sent behind the request is thrown away;
    the byte counters grow by what was received and sent. *)
Theorem request_cycle_spec g s received read_at leftover msg sent written_at :
  (0 < received)%Z -> (0 < sent)%Z ->
  exists g', request_cycle g s received read_at leftover msg sent written_at =
    (g', {| socket_open := socket_open s; timer_armed := true; expired := expired s;
            buffer_ := []; pend := Reading; req_start_time_ := read_at |}) /\
  g_bytes_received g' = u64 (g_bytes_received g + received) /\
  g_bytes_sent g' = u64 (g_bytes_sent g + sent).
Proof.
  intros Hr Hs. unfold request_cycle, on_read. cbv zeta. rewrite decide_False by done.
  rewrite decide_False by (intros H; by apply H). cbn [pend do_write]. unfold on_write. cbv zeta.
  rewrite decide_False by (intros H; by apply H). eexists. split; [reflexivity|].
  unfold record_latency, add_sent, add_received. repeat case_decide; try lia; done.
Qed.

(** The accept handler goes on after an error: every failed accept leaves one more
    accept pending and one more session on a socket that was never connected. *)
Theorem accept_failures_multiply n :
  accepts (accept_failures n boot) = S n /\ length (sessions (accept_failures n boot)) = n.
Proof.
  induction n as [|n [IH1 IH2]]; [done|]. cbn [accept_failures].
  unfold on_accept, start_accept, make_session. cbn [accepts sessions].
  rewrite IH1, length_app, IH2. simpl. split; lia.
Qed.

(** A client that goes away just when its 30 seconds are over. *)
Definition timed_out : server :=
  {| gl := add_connections 1 zero_globals; accepts := 1; sessions := [expire new_session];
     dangling := 0 |}.

Definition gone : session :=
  snd (on_read zero_globals (expire new_session) ec_end_of_stream 0 7 [] (fun g => (g, Throw []))).

(** C36: the wait handler of the time-out can run after its session is destroyed: a
    connection that ends between the expiry of its timer and the wait handler is
    destroyed while the handler, which holds the bare [this], is still queued. *)
Theorem timeout_handler_dangles :
  exists sv, rtc server_step boot sv /\ sessions sv = [] /\ dangling sv = 1.
Proof.
  eexists. split.
  - apply (rtc_l _ _ (on_accept boot false)); [apply step_accept; simpl; lia|].
    apply (rtc_l _ _ timed_out); [exact (step_expire (on_accept boot false) 0 new_session eq_refl eq_refl)|].
    eapply rtc_l.
    { by eapply (step_read timed_out 0 (expire new_session) ec_end_of_stream 0 7 [] (fun g => (g, Throw []))). }
    apply rtc_once. by eapply (step_destroy _ 0 gone).
  - done.
Qed.

(** * Witnesses *)

Lemma server_invariant_witness :
  rtc server_step boot (on_accept boot false) /\
  g_active_connections (gl (on_accept boot false)) = 1%Z.
Proof.
  assert (rtc server_step boot (on_accept boot false)) as H
    by (apply rtc_once, step_accept; simpl; lia).
  split; [exact H|]. apply (server_invariant _ H). simpl. lia.
Defined.

Lemma silent_clients_drained_witness :
  inevitably (quiet_step write_end) (quiet_step any_end)
    (fun sv => sessions sv = [] /\ g_active_connections (gl sv) = 0%Z)
    (on_accept (on_accept boot false) true).
Proof.
  apply silent_clients_drained. apply (rtc_l _ _ (on_accept boot false)); [apply step_accept; simpl; lia|].
  apply rtc_once, step_accept. simpl. lia.
Defined.

Definition bye : response :=
  {| res_status := 200; res_version := 11; res_keep_alive := Some false; res_fields := ∅;
     res_body := StringBody (lit "bye") |}.

Lemma request_cycle_spec_witness :
  exists g', request_cycle zero_globals new_session 40 5 (lit "GET /second") bye 3 9 =
    (g', {| socket_open := true; timer_armed := true; expired := 0; buffer_ := [];
            pend := Reading; req_start_time_ := 5 |}) /\
  g_bytes_received g' = 40%Z /\ g_bytes_sent g' = 3%Z.
Proof. apply (request_cycle_spec zero_globals new_session); lia. Defined.
