(* ===== verification/SystemCtl.v ===== *)
(** [controller/SystemCtl.h]: the status page. It reads [/proc/self/status],
    [/proc/stat] and [/proc/self/stat], keeps the processor times of the previous
    call, and reports them with the global counters. *)

From stdpp Require Import base list strings gmap numbers.
From Stdlib Require Import ZArith SpecFloat Ascii Lia.
From S2P Require Import Prelude Double Json Multipart Http HttpSession.

Local Open Scope outcome_scope.

(** ** Streams *)

(** The lines a [std::getline] loop sees; [cur] is the line being read. *)
Fixpoint getlines (cur s : str) : list str :=
  match s with
  | [] => if decide (cur = []) then [] else [cur]
  | c :: s' => if decide (c = LF) then cur :: getlines [] s' else getlines (cur ++ [c]) s'
  end.

(** The lines of a file; [None] is a file that does not open. *)
Definition file_lines (f : option str) : list str :=
  match f with Some s => getlines [] s | None => [] end.

(** An input stream: what is left to read, [None] once an extraction has failed. *)
Definition istream : Type := option str.

Fixpoint drop_word (s : str) : str :=
  match s with
  | c :: s' => if is_space c then s else drop_word s'
  | [] => []
  end.

(** [stream >> junk]. *)
Definition skip_word (st : istream) : istream :=
  match st with
  | None => None
  | Some s => match skip_spaces s with [] => None | s' => Some (drop_word s') end
  end.

Fixpoint drop_digits (s : str) : str :=
  match s with
  | c :: s' => match digit_val c with Some _ => drop_digits s' | None => s end
  | [] => []
  end.

(** [stream >> x] for a [uint64_t]: a stream that has failed or has ended leaves [x]
    as it was, a text that is no number sets it to 0, a number that is too large to
    the maximum. *)
Definition read_u64 (x : Z) (st : istream) : Z * istream :=
  match st with
  | None => (x, None)
  | Some s =>
      match skip_spaces s with
      | [] => (x, None)
      | c :: s' =>
          let t := if decide (c = chr 45 \/ c = chr 43) then s' else c :: s' in
          match read_digits None t with
          | None => (0%Z, None)
          | Some n =>
              if decide (n < 2 ^ 64)%Z
              then ((if decide (c = chr 45) then u64 (- n) else n), Some (drop_digits t))
              else ((2 ^ 64 - 1)%Z, None)
          end
      end
  end.

(** [stream >> x0 >> x1 >> ...]. *)
Fixpoint read_u64s (xs : list Z) (st : istream) : list Z * istream :=
  match xs with
  | [] => ([], st)
  | x :: xs' =>
      let '(y, st) := read_u64 x st in
      let '(ys, st) := read_u64s xs' st in (y :: ys, st)
  end.

(** ** The controller *)

Record CpuSnapshot : Type := { total_time : Z; proc_time : Z }.

Record SystemCtl : Type := { last_cpu_ : CpuSnapshot }.

Definition new_SystemCtl : SystemCtl := {| last_cpu_ := {| total_time := 0; proc_time := 0 |} |}.

(** What a call reads from the machine: the three files, the number of processors,
    the time in nanoseconds, and the values the uninitialised counters of
    [get_cpu_usage] start with. *)
Record machine : Type := {
  proc_self_status : option str;
  proc_stat : option str;
  proc_self_stat : option str;
  nprocessors : Z;
  steady_now : Z;
  garbage_sys : list Z;
  garbage_proc : list Z;
}.

(** The seven and the two counters are 64-bit words. *)
Definition machine_ok (m : machine) : Prop :=
  length (garbage_sys m) = 7 /\ length (garbage_proc m) = 2.

Definition parse_kb (line : str) : outcome Z :=
  match find_first_of (lit "0123456789") line 0 with
  | None => Throw (lit "basic_string::substr")
  | Some i => stol (substr_from line i)
  end.

(** One line of [/proc/self/status]. *)
Definition status_line (acc : Z * Z * Z) (line : str) : outcome (Z * Z * Z) :=
  let '(mem_kb, threads, ctxt_switches) := acc in
  if starts_with (lit "VmRSS:") line then
    let* v := parse_kb line in Ok (v, threads, ctxt_switches)
  else if starts_with (lit "Threads:") line then
    let* v := stoi (substr_from line 8) in Ok (mem_kb, v, ctxt_switches)
  else if starts_with (lit "voluntary_ctxt_switches:") line then
    let* v := stol (substr_from line 24) in Ok (mem_kb, threads, v)
  else Ok acc.

Fixpoint status_lines (acc : Z * Z * Z) (lines : list str) : outcome (Z * Z * Z) :=
  match lines with
  | [] => Ok acc
  | l :: lines' => let* acc' := status_line acc l in status_lines acc' lines'
  end.

Definition get_proc_status (m : machine) (acc : Z * Z * Z) : outcome (Z * Z * Z) :=
  status_lines acc (file_lines (proc_self_status m)).

Definition sum_u64 (xs : list Z) : Z := foldl (fun a x => u64 (a + x)) 0%Z xs.

(** The processor times, in total and of the process. *)
Definition read_times (m : machine) : outcome CpuSnapshot :=
  let line := default [] (head (file_lines (proc_stat m))) in
  if decide (length line < 5) then Throw (lit "basic_string::substr")
  else
    let total_sys := sum_u64 (fst (read_u64s (garbage_sys m) (Some (substr_from line 5)))) in
    let self_stat := Nat.iter 13 skip_word (proc_self_stat m) in
    let total_proc := sum_u64 (fst (read_u64s (garbage_proc m) self_stat)) in
    Ok {| total_time := total_sys; proc_time := total_proc |}.

Definition dzero : double := S754_zero false.

(** The percentage between two snapshots. *)
Definition usage_between (nproc : Z) (last cur : CpuSnapshot) : double :=
  if decide (total_time last <> 0%Z) then
    let diff_sys := u64 (total_time cur - total_time last) in
    let diff_proc := u64 (proc_time cur - proc_time last) in
    if decide (diff_sys > 0)%Z then
      dmul (dmul (ddiv (double_of diff_proc) (double_of diff_sys)) (double_of nproc)) (double_of 100)
    else dzero
  else dzero.

Definition get_cpu_usage (m : machine) (c : SystemCtl) : SystemCtl * outcome double :=
  match read_times m with
  | Throw e => (c, Throw e)
  | Ok cur => ({| last_cpu_ := cur |}, Ok (usage_between (nprocessors m) (last_cpu_ c) cur))
  end.

(** [g_max_latency_us.exchange(0)]. *)
Definition reset_max_latency (g : globals) : globals :=
  {| g_bytes_sent := g_bytes_sent g; g_bytes_received := g_bytes_received g;
     g_active_connections := g_active_connections g;
     g_total_latency_us := g_total_latency_us g; g_max_latency_us := 0 |}.

Definition status_json (ps : Z * Z * Z) (cpu_usage : double) (g : globals)
    (req_count uptime_sec max_us : Z) : json :=
  let '(mem_kb, threads, ctxt_switches) := ps in
  mk_obj
    [ (lit "memory_mb", JFloat (ddiv (double_of mem_kb) (double_of 1024)));
      (lit "cpu_percent", JFloat cpu_usage);
      (lit "threads", JInt threads);
      (lit "total_requests", JInt req_count);
      (lit "connections", JInt (g_active_connections g));
      (lit "bytes_sent_mb",
       JFloat (ddiv (ddiv (double_of (g_bytes_sent g)) (double_of 1024)) (double_of 1024)));
      (lit "bytes_recv_mb",
       JFloat (ddiv (ddiv (double_of (g_bytes_received g)) (double_of 1024)) (double_of 1024)));
      (lit "ctxt_switches", JInt ctxt_switches);
      (lit "uptime_seconds", JInt uptime_sec);
      (lit "total_latency_us", JInt (g_total_latency_us g));
      (lit "max_latency_ms", JFloat (ddiv (double_of max_us) (double_of 1000))) ].

(** [status], given the counters [dispatch] and the sessions keep and the time the
    server was started. *)
Definition status {J : JsonLib} (m : machine) (g_start_time g_total_requests : Z) (g : globals)
    (c : SystemCtl) (ctx : HttpContext) : globals * SystemCtl * outcome response :=
  let uptime_sec := Z.quot (steady_now m - g_start_time) 1000000000 in
  match get_proc_status m (0, 0, 0)%Z with
  | Throw e => (g, c, Throw e)
  | Ok ps =>
      let max_us := g_max_latency_us g in
      let g' := reset_max_latency g in
      match get_cpu_usage m c with
      | (c, Throw e) => (g', c, Throw e)
      | (c, Ok cpu_usage) =>
          (g', c, success ctx (status_json ps cpu_usage g g_total_requests uptime_sec max_us) [])
      end
  end.

(** ** What the kernel writes *)

Definition SPACE : ascii := chr 32.

(** Fields separated by single spaces. *)
Definition fields (ws : list str) : str := concat ((fun w => SPACE :: w) <$> ws).

Definition words_text (ws : list str) : str :=
  match ws with [] => [] | w :: ws' => w ++ fields ws' end.

Definition lines_text (ls : list str) : str := concat ((fun l => l ++ [LF]) <$> ls).

(** A line of [/proc/self/status] about something else. *)
Definition other_line (l : str) : Prop :=
  (LF ∉ l) /\ starts_with (lit "VmRSS:") l = false /\ starts_with (lit "Threads:") l = false /\
  starts_with (lit "voluntary_ctxt_switches:") l = false.

(** White space inside a line. *)
Definition blank (sp : str) : Prop := forallb is_space sp = true /\ LF ∉ sp.

Definition rss_line (sp : str) (kb : Z) : str := lit "VmRSS:" ++ sp ++ dec kb ++ lit " kB".
Definition threads_line (sp : str) (n : Z) : str := lit "Threads:" ++ sp ++ dec n.
Definition switches_line (sp : str) (n : Z) : str := lit "voluntary_ctxt_switches:" ++ sp ++ dec n.

Definition is_word (w : str) : Prop := w <> [] /\ forallb (fun c => negb (is_space c)) w = true.

(** The machine shows these processor times: the first seven counters of the first
    line of [/proc/stat], and the fields 14 and 15 of [/proc/self/stat]. *)
Record shows (m : machine) (sys : list Z) (utime stime : Z) : Prop := {
  sh_ok : machine_ok m;
  sh_stat : exists more other, Forall (Z.le 0) more /\
    proc_stat m = Some (lit "cpu  " ++ words_text (dec <$> (sys ++ more)) ++ LF :: other);
  sh_sys : length sys = 7 /\ Forall (Z.le 0) sys;
  sh_self : exists ws rest, length ws = 13 /\ Forall is_word ws /\
    proc_self_stat m = Some (words_text (ws ++ [dec utime; dec stime]) ++ SPACE :: rest);
  sh_proc : (0 <= utime)%Z /\ (0 <= stime)%Z;
}.

(** The snapshot they make, when nothing wraps around. *)
Definition times_of (sys : list Z) (utime stime : Z) : CpuSnapshot :=
  {| total_time := foldr Z.add 0%Z sys; proc_time := utime + stime |}.

Definition fits (c : CpuSnapshot) : Prop := (total_time c < 2 ^ 64 /\ proc_time c < 2 ^ 64)%Z.

(** * Lemmas *)

(** ** Lines *)

Lemma getlines_line cur l s : LF ∉ l -> getlines cur (l ++ LF :: s) = (cur ++ l) :: getlines [] s.
Proof.
  revert cur. induction l as [|c l IH]; intros cur Hl; simpl.
  - by rewrite app_nil_r.
  - apply not_elem_of_cons in Hl as [Hc Hl]. rewrite decide_False by congruence.
    rewrite IH by done. by rewrite <- app_assoc.
Qed.

Lemma file_lines_text ls : Forall (fun l => LF ∉ l) ls -> file_lines (Some (lines_text ls)) = ls.
Proof.
  unfold file_lines, lines_text. induction 1 as [|l ls Hl _ IH]; [done|].
  cbn [fmap list_fmap concat]. rewrite <- app_assoc. cbn [app]. rewrite getlines_line by done.
  simpl in *. by rewrite IH.
Qed.

Lemma status_lines_app acc ls ls' :
  status_lines acc (ls ++ ls') = let* acc' := status_lines acc ls in status_lines acc' ls'.
Proof.
  revert acc. induction ls as [|l ls IH]; intros acc; [done|]. simpl.
  destruct (status_line acc l); [apply IH|done].
Qed.

Lemma status_lines_other acc ls : Forall other_line ls -> status_lines acc ls = Ok acc.
Proof.
  induction 1 as [|l ls (_ & H1 & H2 & H3) _ IH]; [done|]. simpl. unfold status_line.
  destruct acc as [[a b] c]. by rewrite H1, H2, H3.
Qed.

Lemma find_first_of0_app cs a c b :
  Forall (fun x => x ∉ cs) a -> c ∈ cs -> find_first_of0 cs (a ++ c :: b) = Some (length a).
Proof.
  intros Ha Hc. induction Ha as [|x a Hx _ IH]; simpl.
  - by rewrite decide_True.
  - rewrite decide_False by done. by rewrite IH.
Qed.

Lemma digits_not_space c : c ∈ lit "0123456789" -> is_space c = false.
Proof.
  intros Hc. apply digit_not_space. revert c Hc. apply list.Forall_forall.
  unfold is_digit. by_decide.
Qed.

Lemma digit_in c : is_digit c -> c ∈ lit "0123456789".
Proof.
  unfold is_digit. intros Hc. rewrite <- (ascii_nat_embedding c). unfold code in Hc.
  remember (nat_of_ascii c) as n eqn:E. clear E c. revert n Hc.
  assert (Forall (fun n => chr n ∈ lit "0123456789") (seq 48 10)) as H by by_decide.
  intros n Hn. apply (proj1 (list.Forall_forall _ _) H). apply elem_of_seq. lia.
Qed.

Lemma parse_kb_line sp kb :
  blank sp -> (0 <= kb < 2 ^ 63)%Z -> parse_kb (rss_line sp kb) = Ok kb.
Proof.
  intros [Hsp _] Hkb. unfold parse_kb, rss_line. pose proof (dec_digits kb ltac:(lia)) as Hd.
  pose proof (read_int_dec_app kb (lit " kB") ltac:(lia)) as Hr.
  destruct (dec kb) as [|d ds] eqn:E; [by apply dec_nonempty in E; [|lia]|].
  inversion_clear Hd as [|? ? Hd0 _]. unfold find_first_of. rewrite decide_True by lia. rewrite drop_0.
  rewrite app_assoc. set (pre := lit "VmRSS:" ++ sp). change ((d :: ds) ++ lit " kB") with (d :: ds ++ lit " kB").
  rewrite find_first_of0_app; [|apply list.Forall_app; split|by apply digit_in].
  - change (Nat.add 0 <$> Some (length pre)) with (Some (length pre)). unfold substr_from. rewrite drop_app_length.
    unfold stol. change (d :: ds ++ lit " kB") with ((d :: ds) ++ lit " kB"). rewrite Hr.
    + by rewrite decide_True by lia.
    + by intros c [= <-].
  - by_decide.
  - apply list.Forall_forall. intros x Hx Hin. apply digits_not_space in Hin.
    rewrite forallb_forall in Hsp. apply list_elem_of_In in Hx. apply Hsp in Hx. congruence.
Qed.

Lemma stoi_spaced sp n : blank sp -> (0 <= n < 2 ^ 31)%Z -> stoi (sp ++ dec n) = Ok n.
Proof.
  intros [Hsp _] Hn. unfold stoi. rewrite <- (app_nil_r (dec n)), read_int_dec_spaced by (done || lia).
  by rewrite decide_True by lia.
Qed.

Lemma stol_spaced sp n : blank sp -> (0 <= n < 2 ^ 63)%Z -> stol (sp ++ dec n) = Ok n.
Proof.
  intros [Hsp _] Hn. unfold stol. rewrite <- (app_nil_r (dec n)), read_int_dec_spaced by (done || lia).
  by rewrite decide_True by lia.
Qed.

Lemma dec_no_LF n : (0 <= n)%Z -> LF ∉ dec n.
Proof.
  intros Hn Hin. pose proof (proj1 (list.Forall_forall _ _) (dec_digits n Hn) _ Hin) as Hd.
  unfold is_digit in Hd. vm_compute (code LF) in Hd. lia.
Qed.

(** The three values, wherever their lines are. *)
Lemma proc_status_lines a b c d s1 s2 s3 kb n sw acc :
  Forall other_line (a ++ b ++ c ++ d) -> blank s1 -> blank s2 -> blank s3 ->
  (0 <= kb < 2 ^ 63)%Z -> (0 <= n < 2 ^ 31)%Z -> (0 <= sw < 2 ^ 63)%Z ->
  status_lines acc (a ++ rss_line s1 kb :: b ++ threads_line s2 n :: c ++ switches_line s3 sw :: d) =
  Ok (kb, n, sw).
Proof.
  rewrite !list.Forall_app. intros (Ha & Hb & Hc & Hd) H1 H2 H3 Hkb Hn Hsw. destruct acc as [[x y] z].
  rewrite status_lines_app, status_lines_other by done. cbn [outcome_bind status_lines].
  unfold status_line at 1. change (starts_with (lit "VmRSS:") (rss_line s1 kb)) with true.
  rewrite parse_kb_line by done.
  cbn [outcome_bind]. rewrite status_lines_app, status_lines_other by done.
  cbn [outcome_bind status_lines]. unfold status_line at 1.
  change (starts_with (lit "VmRSS:") (threads_line s2 n)) with false.
  change (starts_with (lit "Threads:") (threads_line s2 n)) with true. unfold threads_line, substr_from.
  rewrite (drop_app_length (lit "Threads:")), stoi_spaced by done.
  cbn [outcome_bind]. rewrite status_lines_app, status_lines_other by done.
  cbn [outcome_bind status_lines]. unfold status_line at 1.
  change (starts_with (lit "VmRSS:") (switches_line s3 sw)) with false.
  change (starts_with (lit "Threads:") (switches_line s3 sw)) with false.
  change (starts_with (lit "voluntary_ctxt_switches:") (switches_line s3 sw)) with true. unfold switches_line, substr_from.
  rewrite (drop_app_length (lit "voluntary_ctxt_switches:")), stol_spaced by done.
  cbn [outcome_bind]. by apply status_lines_other.
Qed.

(** ** Numbers and words *)

Lemma drop_digits_dec n rest :
  (0 <= n)%Z -> (forall c, head rest = Some c -> digit_val c = None) ->
  drop_digits (dec n ++ rest) = rest.
Proof.
  intros Hn Hr. pose proof (dec_digits n Hn) as Hd. induction Hd as [|c l Hc _ IH]; simpl.
  - destruct rest as [|c rest]; [done|]. simpl. by rewrite Hr.
  - unfold digit_val. unfold is_digit in Hc. by rewrite decide_True.
Qed.

Lemma read_u64_dec x sp n rest :
  forallb is_space sp = true -> (0 <= n < 2 ^ 64)%Z ->
  (forall c, head rest = Some c -> digit_val c = None) ->
  read_u64 x (Some (sp ++ dec n ++ rest)) = (n, Some rest).
Proof.
  intros Hsp Hn Hr. unfold read_u64. rewrite skip_spaces_app by done.
  pose proof (dec_digits n ltac:(lia)) as Hd. pose proof (read_digits_dec_None n rest ltac:(lia)) as Hv.
  pose proof (drop_digits_dec n rest ltac:(lia) Hr) as Hdr.
  destruct (dec n) as [|c l] eqn:E; [by apply dec_nonempty in E; [|lia]|].
  inversion_clear Hd as [|? ? Hc _]. cbn [app skip_spaces] in *. rewrite digit_not_space by done.
  assert (c <> chr 45 /\ c <> chr 43) as [N1 N2].
  { split; intros ->; revert Hc; unfold is_digit; rewrite code_chr; lia. }
  rewrite decide_False by tauto. rewrite Hv, Hdr.
  assert (read_digits (Some n) rest = Some n) as ->.
  { destruct rest as [|y rest]; [done|]. cbn [read_digits]. by rewrite Hr. }
  by rewrite decide_True, decide_False by (done || lia).
Qed.

(** Numbers in fields, and the first without its space. *)
Lemma read_u64s_fields xs ns rest :
  length xs = length ns -> Forall (fun n => 0 <= n < 2 ^ 64)%Z ns ->
  (forall c, head rest = Some c -> digit_val c = None) ->
  read_u64s xs (Some (fields (dec <$> ns) ++ rest)) = (ns, Some rest).
Proof.
  intros Hl Hn Hr. revert xs Hl. induction Hn as [|n ns Hn _ IH]; intros [|x xs] Hl; try done.
  cbn [read_u64s fmap list_fmap]. unfold fields. cbn [fmap list_fmap concat].
  rewrite <- !app_assoc. change (SPACE :: dec n) with ([SPACE] ++ dec n). rewrite <- app_assoc.
  rewrite read_u64_dec; [|done..|].
  - fold (fields (dec <$> ns)). rewrite IH; [done|by injection Hl].
  - destruct ns as [|n' ns]; [done|]. by intros c [= <-].
Qed.

Lemma read_u64s_words xs ns rest :
  length xs = length ns -> Forall (fun n => 0 <= n < 2 ^ 64)%Z ns -> ns <> [] ->
  (forall c, head rest = Some c -> digit_val c = None) ->
  read_u64s xs (Some (words_text (dec <$> ns) ++ rest)) = (ns, Some rest).
Proof.
  intros Hl Hn Hne Hr. rewrite <- (read_u64s_fields xs ns rest Hl Hn Hr).
  destruct ns as [|n ns]; [done|]. destruct xs as [|x xs]; [done|].
  inversion_clear Hn as [|? ? Hn0 Hns]. cbn [words_text fmap list_fmap read_u64s].
  unfold fields at 2. cbn [fmap list_fmap concat]. fold (fields (dec <$> ns)).
  rewrite <- !app_assoc. change (SPACE :: dec n) with ([SPACE] ++ dec n). rewrite <- app_assoc.
  assert (forall c, head (fields (dec <$> ns) ++ rest) = Some c -> digit_val c = None) as Hh.
  { destruct ns as [|n' ns]; [done|]. by intros c [= <-]. }
  rewrite (read_u64_dec x [SPACE] n) by done. 
  pose proof (read_u64_dec x [] n _ eq_refl Hn0 Hh) as H0. cbn [app] in H0. by rewrite H0.
Qed.

Lemma drop_word_app w rest :
  forallb (fun c => negb (is_space c)) w = true -> (forall c, head rest = Some c -> is_space c = true) ->
  drop_word (w ++ rest) = rest.
Proof.
  intros Hw Hr. induction w as [|c w IH]; simpl.
  - destruct rest as [|c rest]; [done|]. simpl. by rewrite Hr.
  - simpl in Hw. apply andb_prop in Hw as [Hc Hw]. apply negb_true_iff in Hc. rewrite Hc. by apply IH.
Qed.

Lemma skip_word_spaced sp w rest :
  forallb is_space sp = true -> is_word w -> (forall c, head rest = Some c -> is_space c = true) ->
  skip_word (Some (sp ++ w ++ rest)) = Some rest.
Proof.
  intros Hsp [Hne Hw] Hr. unfold skip_word. rewrite skip_spaces_app by done.
  destruct w as [|c w]; [done|]. cbn [app skip_spaces]. pose proof Hw as [Hc _]%andb_prop.
  apply negb_true_iff in Hc. rewrite Hc. f_equal. by apply (drop_word_app (c :: w)).
Qed.

Lemma skip_fields ws rest :
  Forall is_word ws -> (forall c, head rest = Some c -> is_space c = true) ->
  Nat.iter (length ws) skip_word (Some (fields ws ++ rest)) = Some rest.
Proof.
  intros Hws Hr. induction Hws as [|w ws Hw _ IH]; [done|]. cbn [length]. rewrite Nat.iter_succ_r.
  unfold fields. cbn [fmap list_fmap concat]. fold (fields ws).
  change (SPACE :: w) with ([SPACE] ++ w). rewrite <- !app_assoc. rewrite skip_word_spaced; [done..|].
  destruct ws as [|w' ws]; [done|]. by intros c [= <-].
Qed.

(** ** Processor times *)

Lemma sum_u64_from a ns :
  (0 <= a)%Z -> Forall (Z.le 0) ns -> (a + foldr Z.add 0 ns < 2 ^ 64)%Z ->
  foldl (fun a x => u64 (a + x)) a ns = (a + foldr Z.add 0 ns)%Z.
Proof.
  intros Ha Hn. revert a Ha. induction Hn as [|n ns Hn Hns IH]; intros a Ha Hs; simpl in *; [lia|].
  assert (0 <= foldr Z.add 0 ns)%Z by (clear -Hns; induction Hns; simpl; lia).
  rewrite wrap_small by lia. rewrite IH by lia. lia.
Qed.

Lemma sum_bound ns b :
  Forall (Z.le 0) ns -> (foldr Z.add 0 ns < b)%Z -> Forall (fun n => 0 <= n < b)%Z ns.
Proof.
  induction 1 as [|n ns Hn Hns IH]; simpl; intros Hs; constructor.
  - assert (0 <= foldr Z.add 0 ns)%Z by (clear -Hns; induction Hns; simpl; lia). lia.
  - apply IH. lia.
Qed.

Lemma fields_no_LF ns : Forall (Z.le 0) ns -> LF ∉ fields (dec <$> ns).
Proof.
  induction 1 as [|n ns Hn _ IH]; [by apply not_elem_of_nil|]. unfold fields. cbn [fmap list_fmap concat].
  rewrite elem_of_app, elem_of_cons. intros [[H|H]|H]; [done|by apply dec_no_LF in H|by apply IH].
Qed.

Lemma words_text_app w ws ws' : words_text ((w :: ws) ++ ws') = words_text (w :: ws) ++ fields ws'.
Proof.
  cbn [words_text app]. rewrite <- app_assoc. f_equal. unfold fields.
  by rewrite fmap_app, concat_app.
Qed.

Lemma words_no_LF ns : Forall (Z.le 0) ns -> LF ∉ words_text (dec <$> ns).
Proof.
  destruct 1 as [|n ns Hn Hns]; [by apply not_elem_of_nil|]. cbn [words_text fmap list_fmap].
  rewrite elem_of_app. intros [H|H]; [by apply dec_no_LF in H|by apply fields_no_LF in H].
Qed.

Lemma fields_head_blank ws rest c :
  ws <> [] -> head (fields ws ++ rest) = Some c -> c = SPACE.
Proof. destruct ws; [done|]. by intros _ [= <-]. Qed.

(** The total of the first line. *)
Lemma read_sys m sys more other :
  length (garbage_sys m) = 7 -> length sys = 7 -> Forall (Z.le 0) (sys ++ more) ->
  (foldr Z.add 0 sys < 2 ^ 64)%Z ->
  proc_stat m = Some (lit "cpu  " ++ words_text (dec <$> (sys ++ more)) ++ LF :: other) ->
  let line := default [] (head (file_lines (proc_stat m))) in
  5 <= length line /\
  sum_u64 (fst (read_u64s (garbage_sys m) (Some (substr_from line 5)))) = foldr Z.add 0%Z sys.
Proof.
  intros Hg Hl Hpos Hs Hf. rewrite Hf. cbv zeta. cbn [file_lines]. rewrite app_assoc, getlines_line.
  2: { rewrite elem_of_app. intros [H|H]; [by revert H; by_decide|by apply words_no_LF in H]. }
  set (body := words_text _). change (default [] _) with (lit "cpu  " ++ body). split.
  { rewrite length_app. change (length (lit "cpu  ")) with 5. lia. }
  unfold substr_from. rewrite (drop_app_length (lit "cpu  ")). subst body.
  apply list.Forall_app in Hpos as [Hsys _]. pose proof (sum_bound _ _ Hsys Hs) as Hb.
  destruct sys as [|n sys]; [done|]. rewrite fmap_app. cbn [fmap list_fmap]. rewrite words_text_app.
  change (dec n :: (dec <$> sys)) with (dec <$> (n :: sys)). rewrite read_u64s_words; [|by rewrite Hg|done|done|].
  - unfold sum_u64. cbn [fst]. rewrite sum_u64_from; [lia|lia|done|lia].
  - intros c Hc. destruct more as [|x more]; [done|]. rewrite <- (app_nil_r (fields _)) in Hc.
    by apply fields_head_blank in Hc as ->.
Qed.

(** The times of the process. *)
Lemma read_proc m ws u s rest :
  length (garbage_proc m) = 2 -> length ws = 13 -> Forall is_word ws ->
  (0 <= u)%Z -> (0 <= s)%Z -> (u + s < 2 ^ 64)%Z ->
  proc_self_stat m = Some (words_text (ws ++ [dec u; dec s]) ++ SPACE :: rest) ->
  sum_u64 (fst (read_u64s (garbage_proc m) (Nat.iter 13 skip_word (proc_self_stat m)))) = (u + s)%Z.
Proof.
  intros Hg Hl Hw Hu Hs Hb Hf. rewrite Hf. destruct ws as [|w ws]; [done|].
  inversion_clear Hw as [|? ? Hw0 Hws]. injection Hl as Hl. rewrite words_text_app.
  change [dec u; dec s] with (dec <$> [u; s]). cbn [words_text]. rewrite <- !app_assoc.
  rewrite (Nat.iter_succ_r 12).
  assert (skip_word (Some (w ++ fields ws ++ fields (dec <$> [u; s]) ++ SPACE :: rest)) =
          Some (fields ws ++ fields (dec <$> [u; s]) ++ SPACE :: rest)) as ->.
  { apply (skip_word_spaced [] w); [done|done|]. destruct ws as [|w' ws]; by intros c [= <-]. }
  rewrite <- Hl, skip_fields; [|done|by intros c [= <-]].
  rewrite read_u64s_fields; [|done|by repeat constructor; lia|by intros c [= <-]].
  unfold sum_u64. cbn [fst]. rewrite sum_u64_from; [simpl; lia|lia|by repeat constructor|simpl; lia].
Qed.

Lemma read_times_shown m sys u s :
  shows m sys u s -> fits (times_of sys u s) -> read_times m = Ok (times_of sys u s).
Proof.
  intros [[Hg1 Hg2] (more & other & Hm & Hf) [Hl Hsys] (ws & rest & Hlw & Hw & Hf') [Hu Hs]] [Ht Hp].
  cbn in Ht, Hp. destruct (read_sys m sys more other) as [Hlen Hsum]; [done|done| |done|done|].
  { by apply list.Forall_app. }
  unfold read_times. cbv zeta in *. rewrite decide_False by lia. rewrite Hsum.
  by rewrite (read_proc m ws u s rest).
Qed.

(** ** The highest latency *)

(** Requests with these durations are answered. *)
Definition record_all (g : globals) (ds : list Z) : globals := foldl (fun g d => record_latency d g) g ds.

Lemma record_all_max g ds :
  Forall (fun d => d < 2 ^ 31)%Z ds -> (0 <= g_max_latency_us g)%Z ->
  g_max_latency_us (record_all g ds) = foldr Z.max (g_max_latency_us g) ds.
Proof.
  unfold record_all. intros Hd. revert g. induction Hd as [|d ds Hd _ IH]; intros g Hg; [done|]. cbn [foldl].
  assert (g_max_latency_us (record_latency d g) = Z.max d (g_max_latency_us g)) as Hm.
  { unfold record_latency. case_decide; [|lia]. cbn [g_max_latency_us]. case_decide; [|lia].
    rewrite swrap_small by lia. lia. }
  rewrite IH by lia. rewrite Hm. clear. induction ds as [|x ds IH]; simpl in *; lia.
Qed.

(** * Properties *)

(** [get_proc_status] reads back what the kernel writes: with the resident
    memory, the number of threads and the voluntary context switches on their lines,
    among any other lines, it returns these three numbers; the line of the
    nonvoluntary switches does not disturb it. *)
Theorem get_proc_status_reads m a b c d s1 s2 s3 kb n sw acc :
  Forall other_line (a ++ b ++ c ++ d) -> blank s1 -> blank s2 -> blank s3 ->
  (0 <= kb < 2 ^ 63)%Z -> (0 <= n < 2 ^ 31)%Z -> (0 <= sw < 2 ^ 63)%Z ->
  proc_self_status m =
    Some (lines_text (a ++ rss_line s1 kb :: b ++ threads_line s2 n :: c ++ switches_line s3 sw :: d)) ->
  get_proc_status m acc = Ok (kb, n, sw).
Proof.
  intros Ho H1 H2 H3 Hkb Hn Hsw Hf. unfold get_proc_status. rewrite Hf, file_lines_text.
  { by apply proc_status_lines. }
  assert (forall p sp x rest, blank sp -> (0 <= x)%Z -> LF ∉ lit p -> LF ∉ rest ->
            LF ∉ lit p ++ sp ++ dec x ++ rest) as Hline.
  { intros p sp x rest [_ Hsp] Hx Hp Hr. rewrite !elem_of_app. intros [?|[?|[H|?]]]; try done.
    by apply dec_no_LF in H. }
  pose proof (Hline "Threads:"%string s2 n [] H2 ltac:(lia)) as L2. rewrite app_nil_r in L2.
  pose proof (Hline "voluntary_ctxt_switches:"%string s3 sw [] H3 ltac:(lia)) as L3. rewrite app_nil_r in L3.
  rewrite !list.Forall_app in Ho. destruct Ho as (Ha & Hb & Hc & Hd).
  repeat first [apply list.Forall_app; split | constructor];
    first [by eapply Forall_weaken; [|eassumption]; intros l (H & _) | idtac].
  - apply Hline; [done|lia|by_decide|by_decide].
  - apply L2; by_decide.
  - apply L3; by_decide.
Qed.

(** C32: the processor usage is measured between calls. When the two files of the kernel
    show the times of the system and of the process in their usual form ([shows]), the
    sums fit 64 bits, the time of the system has grown since the last call and that of
    the process has not shrunk, the first call returns 0 and keeps the times it read,
    and the next one returns the share of the process in the time that has passed since,
    times the number of processors, as a percentage, in double precision. *)
Theorem cpu_usage_between_samples m1 m2 sys1 u1 s1 sys2 u2 s2 :
  shows m1 sys1 u1 s1 -> shows m2 sys2 u2 s2 ->
  let c1 := times_of sys1 u1 s1 in let c2 := times_of sys2 u2 s2 in
  fits c1 -> fits c2 -> (0 < total_time c1 < total_time c2)%Z -> (proc_time c1 <= proc_time c2)%Z ->
  get_cpu_usage m1 new_SystemCtl = ({| last_cpu_ := c1 |}, Ok dzero) /\
  get_cpu_usage m2 {| last_cpu_ := c1 |} =
    ({| last_cpu_ := c2 |},
     Ok (dmul (dmul (ddiv (double_of (proc_time c2 - proc_time c1))
                          (double_of (total_time c2 - total_time c1)))
                    (double_of (nprocessors m2))) (double_of 100))).
Proof.
  intros H1 H2 c1 c2 F1 F2 Ht Hp. unfold get_cpu_usage.
  rewrite (read_times_shown _ _ _ _ H1 F1), (read_times_shown _ _ _ _ H2 F2). fold c1 c2.
  assert (0 <= proc_time c1)%Z by (destruct (sh_proc _ _ _ _ H1); simpl; lia).
  destruct F2. split; [done|]. unfold usage_between. cbn [last_cpu_].
  rewrite decide_True by lia. cbv zeta. rewrite !wrap_small by lia. by rewrite decide_True by lia.
Qed.

Section Status.
Context {J : JsonLib} {JL : JsonLaws J}.

Lemma status_json_utf8 ps cpu g n up mx : json_utf8 (status_json ps cpu g n up mx) = true.
Proof. destruct ps as [[a b] c]. by vm_compute. Qed.

(** The status page reports the highest latency since the page was last shown:
    after requests that took [ds] microseconds each it is answered with status 200,
    shows the largest of them (0 when there were none) with the counters, and
    starts again from 0. *)
Theorem status_reports_peak m start n g c ctx ds ps sys u s :
  g_max_latency_us g = 0%Z -> Forall (fun d => 0 < d < 2 ^ 31)%Z ds ->
  get_proc_status m (0, 0, 0)%Z = Ok ps -> shows m sys u s -> fits (times_of sys u s) ->
  let g1 := record_all g ds in
  exists r cpu, status m start n g1 c ctx = (reset_max_latency g1, {| last_cpu_ := times_of sys u s |}, Ok r) /\
    res_status r = status_ok /\ g_max_latency_us (reset_max_latency g1) = 0%Z /\
    success ctx (status_json ps cpu g1 n (Z.quot (steady_now m - start) 1000000000)
                   (foldr Z.max 0%Z ds)) [] = Ok r.
Proof.
  intros Hg Hd Hps Hsh Hfit g1.
  assert (g_max_latency_us g1 = foldr Z.max 0%Z ds) as Hm.
  { subst g1. rewrite record_all_max, Hg; [done| |lia]. eapply Forall_weaken; [|exact Hd]. simpl; lia. }
  unfold status. cbv zeta. rewrite Hps. unfold get_cpu_usage. rewrite (read_times_shown _ _ _ _ Hsh Hfit).
  rewrite Hm. set (cpu := usage_between _ _ _).
  destruct (success_ok ctx (status_json ps cpu g1 n (Z.quot (steady_now m - start) 1000000000)
              (foldr Z.max 0%Z ds)) []) as (r & Hr & Hst); [apply status_json_utf8|done|].
  exists r, cpu. rewrite Hr. by split_and!.
Qed.

(** When [/proc/stat] cannot be read the page is not answered: the exception leaves
    the handler after the highest latency was reset. *)
Theorem status_throws m start n g c ctx ps :
  get_proc_status m (0, 0, 0)%Z = Ok ps -> proc_stat m = None ->
  status m start n g c ctx = (reset_max_latency g, c, Throw (lit "basic_string::substr")).
Proof.
  intros Hps Hf. unfold status. cbv zeta. rewrite Hps. unfold get_cpu_usage, read_times. by rewrite Hf.
Qed.

End Status.

(** The name of the program is not skipped as a whole: with a blank in it every later
    field is taken for the next one, and the time of the process is computed from
    the fields [cmajflt] and [utime]. *)
Theorem comm_blank_shifts m pid name1 name2 ws cmajflt utime rest :
  length (garbage_proc m) = 2 -> length ws = 10 -> Forall is_word ([pid; name1; name2] ++ ws) ->
  (0 <= cmajflt)%Z -> (0 <= utime)%Z -> (cmajflt + utime < 2 ^ 64)%Z ->
  proc_self_stat m =
    Some (words_text (pid :: (name1 ++ SPACE :: name2) :: ws ++ [dec cmajflt; dec utime]) ++ SPACE :: rest) ->
  forall cur, read_times m = Ok cur -> proc_time cur = (cmajflt + utime)%Z.
Proof.
  intros Hg Hl Hw Hc Hu Hs Hf cur. unfold read_times. cbv zeta. case_decide; [done|]. intros [= <-].
  cbn [proc_time]. apply (read_proc m ([pid; name1; name2] ++ ws) cmajflt utime rest); try done.
  - by rewrite length_app, Hl.
  - rewrite Hf. do 2 f_equal. cbn [app words_text]. f_equal. unfold fields. cbn [fmap list_fmap concat].
    cbn [app]. by rewrite <- app_assoc.
Qed.

(** * Witnesses *)

Import TaggedJson.

Definition demo_status : str :=
  lines_text ([lit "Name:	cdfs"] ++ rss_line (lit "	    ") 5120 :: [] ++ threads_line (lit "	") 9 ::
              [lit "SigQ:	0/127"] ++ switches_line (lit "	") 77 ::
              [lit "nonvoluntary_ctxt_switches:	12"]).

Definition demo_words : list str :=
  [lit "42"; lit "(cdfs)"; lit "S"; lit "1"; lit "42"; lit "42"; lit "0"; lit "-1"; lit "4194304";
   lit "900"; lit "0"; lit "3"; lit "0"].

Definition demo_sys (k : Z) : list Z := [100 * k; 5; 40 * k; 900 * k; 7; 1; 2]%Z.

Definition demo_machine (k : Z) : machine :=
  {| proc_self_status := Some demo_status;
     proc_stat := Some (lit "cpu  " ++ words_text (dec <$> (demo_sys k ++ [0; 0; 0]%Z)) ++ LF :: lit "cpu0 1");
     proc_self_stat := Some (words_text (demo_words ++ [dec (20 * k); dec (5 * k)]) ++ SPACE :: lit "0 0 20");
     nprocessors := 4; steady_now := 61500000000; garbage_sys := replicate 7 (-1)%Z;
     garbage_proc := replicate 2 (-1)%Z |}.

Lemma demo_shows k : (0 <= k)%Z -> shows (demo_machine k) (demo_sys k) (20 * k) (5 * k).
Proof.
  intros Hk. split.
  - by split.
  - exists [0; 0; 0]%Z, (lit "cpu0 1"). split; [repeat constructor; lia|done].
  - split; [done|]. repeat constructor; lia.
  - exists demo_words, (lit "0 0 20"). split_and!; [done| |done]. unfold is_word. by_decide.
  - lia.
Qed.

Lemma get_proc_status_reads_witness :
  get_proc_status (demo_machine 1) (0, 0, 0)%Z = Ok (5120, 9, 77)%Z.
Proof.
  apply (get_proc_status_reads (demo_machine 1) [lit "Name:	cdfs"] [] [lit "SigQ:	0/127"]
           [lit "nonvoluntary_ctxt_switches:	12"] (lit "	    ") (lit "	") (lit "	"));
    [unfold other_line; by_decide | split; by_decide | split; by_decide | split; by_decide | lia | lia | lia
    | reflexivity].
Defined.

Lemma cpu_usage_between_samples_witness :
  snd (get_cpu_usage (demo_machine 2) {| last_cpu_ := times_of (demo_sys 1) 20 5 |}) =
  Ok (dmul (dmul (ddiv (double_of 25) (double_of 1040)) (double_of 4)) (double_of 100)).
Proof.
  pose proof (cpu_usage_between_samples (demo_machine 1) (demo_machine 2) (demo_sys 1) 20 5 (demo_sys 2) 40 10
                (demo_shows 1 ltac:(lia)) (demo_shows 2 ltac:(lia)) ltac:(split; by vm_compute)
                ltac:(split; by vm_compute) ltac:(split; by vm_compute) ltac:(by vm_compute)) as [_ ->].
  reflexivity.
Defined.

Lemma status_reports_peak_witness :
  exists r c', status (demo_machine 1) 1500000000 7 (record_all zero_globals [300; 1200; 40]%Z) new_SystemCtl
      (make_context {| req_method := Util.verb_get; req_target := lit "/status"; req_version := 11;
                       req_keep_alive := true; req_content_type := []; req_body := [] |}
         (lit "GET") (lit "/status") ∅ []) =
    (reset_max_latency (record_all zero_globals [300; 1200; 40]%Z), c', Ok r) /\ res_status r = status_ok.
Proof.
  destruct (status_reports_peak (demo_machine 1) 1500000000 7 zero_globals new_SystemCtl
      (make_context {| req_method := Util.verb_get; req_target := lit "/status"; req_version := 11;
                       req_keep_alive := true; req_content_type := []; req_body := [] |}
         (lit "GET") (lit "/status") ∅ []) [300; 1200; 40]%Z (5120, 9, 77)%Z (demo_sys 1) 20 5)
    as (r & cpu & H1 & H2 & _);
    [reflexivity | by_decide | vm_compute; reflexivity | by apply demo_shows | split; by vm_compute |].
  exists r. eexists. split; [exact H1 | exact H2].
Defined.
