(* ===== verification/Latency.v ===== *)
(** The latency counters under concurrent use ([server/HttpSession.cc],
    [controller/SystemCtl.h], [common/global.cc]): worker threads that add the latency of
    a request and raise the highest latency in a compare-and-exchange loop, and status
    requests that read the total and take the highest latency away. Every access of an
    atomic variable is a step. *)

From stdpp Require Import base list strings gmap numbers relations.
From Stdlib Require Import ZArith Ascii Lia.
From S2P Require Import Prelude HttpSession SystemCtl.

Local Open Scope Z_scope.

(** ** Atomic accesses *)

(** [g_total_latency_us += duration]. *)
Definition add_total (duration : Z) (g : globals) : globals :=
  {| g_bytes_sent := g_bytes_sent g; g_bytes_received := g_bytes_received g;
     g_active_connections := g_active_connections g;
     g_total_latency_us := u64 (g_total_latency_us g + duration);
     g_max_latency_us := g_max_latency_us g |}.

(** A successful [compare_exchange_weak(current_max, (int)duration)]. *)
Definition store_max (duration : Z) (g : globals) : globals :=
  {| g_bytes_sent := g_bytes_sent g; g_bytes_received := g_bytes_received g;
     g_active_connections := g_active_connections g; g_total_latency_us := g_total_latency_us g;
     g_max_latency_us := i32 duration |}.

(** [g_max_latency_us.exchange(0)]. *)
Definition exchange_max (g : globals) : globals * Z := (reset_max_latency g, g_max_latency_us g).

(** ** Threads *)

(** The end of a reply that took [duration], or a status request. *)
Inductive lat_call : Type :=
| CallWrite (duration : Z)
| CallStatus.

(** In [on_write]: before the addition, before the [load], before the next
    [compare_exchange_weak], after the loop. In [status]: before the [load] of the total,
    before the [exchange], after it. *)
Inductive lat_thread : Type :=
| LAdd (duration : Z)
| LLoad (duration : Z)
| LCas (duration current_max : Z)
| LDone (duration : Z)
| STotal
| SExchange (total_us : Z)
| SDone (total_us max_us : Z).

Definition lat_start (call : lat_call) : lat_thread :=
  match call with
  | CallWrite duration => if decide (duration > 0) then LAdd duration else LDone duration
  | CallStatus => STotal
  end.

(** The left operand of [&&] in the condition of the loop. *)
Definition loop_test (duration current_max : Z) : lat_thread :=
  if decide (duration > current_max) then LCas duration current_max else LDone duration.

(** The next access; [spurious] makes a weak exchange fail that need not. The accesses of
    [status] are the [load] of the total and [exchange_max]. *)
Definition lat_next (spurious : bool) (g : globals) (t : lat_thread) : option (globals * lat_thread) :=
  match t with
  | LAdd d => Some (add_total d g, LLoad d)
  | LLoad d => Some (g, loop_test d (g_max_latency_us g))
  | LCas d current_max =>
      if decide (g_max_latency_us g = current_max /\ spurious = false)
      then Some (store_max d g, LDone d)
      else Some (g, loop_test d (g_max_latency_us g))
  | STotal => Some (g, SExchange (g_total_latency_us g))
  | SExchange total_us => let '(g', max_us) := exchange_max g in Some (g', SDone total_us max_us)
  | LDone _ | SDone _ _ => None
  end.

Record lat_state : Type := { counters : globals; lat_threads : list lat_thread }.

(** With [weak] exchanges may fail spuriously. *)
Inductive lat_step (weak : bool) : lat_state -> lat_state -> Prop :=
| lat_step_thread g ts i t spurious g' t' :
    ts !! i = Some t -> (spurious = true -> weak = true) -> lat_next spurious g t = Some (g', t') ->
    lat_step weak {| counters := g; lat_threads := ts |} {| counters := g'; lat_threads := <[i := t']> ts |}.

Definition lat_init (g : globals) (calls : list lat_call) : lat_state :=
  {| counters := g; lat_threads := lat_start <$> calls |}.

(** The threads, as a function of the schedule. *)
Fixpoint run_latency (x : lat_state) (sched : list (nat * bool)) : lat_state :=
  match sched with
  | [] => x
  | (i, spurious) :: sched' =>
      run_latency
        match lat_threads x !! i with
        | Some t => match lat_next spurious (counters x) t with
                    | Some (g', t') => {| counters := g'; lat_threads := <[i := t']> (lat_threads x) |}
                    | None => x
                    end
        | None => x
        end sched'
  end.

Lemma run_latency_steps sched x : rtc (lat_step true) x (run_latency x sched).
Proof.
  revert x. induction sched as [|[i sp] sched IH]; intros [g ts]; simpl; [apply rtc_refl|].
  destruct (ts !! i) as [t|] eqn:Hi; [|apply IH].
  destruct (lat_next sp g t) as [[g' t']|] eqn:Ht; [|apply IH].
  eapply rtc_l; [by apply (lat_step_thread _ _ _ i t sp)|apply IH].
Qed.

(** A thread that runs alone, without spurious failures, does what [on_write] does. *)
Lemma run_latency_alone d g :
  run_latency (lat_init g [CallWrite d]) [(0%nat, false); (0%nat, false); (0%nat, false)] =
  {| counters := record_latency d g; lat_threads := [LDone d] |}.
Proof.
  unfold lat_init, record_latency. simpl. case_decide as Hd; [|done]. simpl.
  unfold loop_test. case_decide as Hm; [|done]. simpl. by rewrite decide_True.
Qed.

(** ** The abstract counters *)

(** The atomic operations the threads are to look like: an addition, raising the
    maximum, reading the total, and taking the maximum. *)
Inductive lat_event : Type :=
| EAdd (d : Z)
| EMax (d : Z)
| ETotal (total_us : Z)
| ETake (max_us : Z).

Definition raise_max (d : Z) (g : globals) : globals :=
  if decide (d > g_max_latency_us g) then store_max d g else g.

Inductive abs_event (g : globals) : lat_event -> globals -> Prop :=
| abs_add d : abs_event g (EAdd d) (add_total d g)
| abs_max d : abs_event g (EMax d) (raise_max d g)
| abs_total : abs_event g (ETotal (g_total_latency_us g)) g
| abs_take : abs_event g (ETake (g_max_latency_us g)) (reset_max_latency g).

Inductive abs_run (g0 : globals) : list (nat * lat_event) -> globals -> Prop :=
| abs_run_nil : abs_run g0 [] g0
| abs_run_snoc tr g i e g' : abs_run g0 tr g -> abs_event g e g' -> abs_run g0 (tr ++ [(i, e)]) g'.

Definition events_of (i : nat) (tr : list (nat * lat_event)) : list lat_event :=
  (filter (fun e => e.1 = i) tr).*2.

(** What a thread has done. *)
Definition events_done (t : lat_thread) : list lat_event :=
  match t with
  | LAdd _ | STotal => []
  | LLoad d | LCas d _ => [EAdd d]
  | LDone d => if decide (d > 0) then [EAdd d; EMax d] else []
  | SExchange total_us => [ETotal total_us]
  | SDone total_us max_us => [ETotal total_us; ETake max_us]
  end.

Definition call_of (t : lat_thread) : lat_call :=
  match t with
  | LAdd d | LLoad d | LCas d _ | LDone d => CallWrite d
  | STotal | SExchange _ | SDone _ _ => CallStatus
  end.

Definition lat_finished (t : lat_thread) : bool :=
  match t with LDone _ | SDone _ _ => true | _ => false end.

(** ** Linearization *)

(** A duration in the loop is positive and above the value it was compared with. *)
Definition loop_ok (t : lat_thread) : Prop :=
  match t with
  | LAdd d | LLoad d => d > 0
  | LCas d current_max => d > 0 /\ d > current_max
  | _ => True
  end.

Record lat_sim (g0 : globals) (calls : list lat_call) (x : lat_state) (tr : list (nat * lat_event)) : Prop := {
  ls_run : abs_run g0 tr (counters x);
  ls_calls : call_of <$> lat_threads x = calls;
  ls_loop i t : lat_threads x !! i = Some t -> loop_ok t;
  ls_events i t : lat_threads x !! i = Some t -> events_of i tr = events_done t;
  ls_owner i e : (i, e) ∈ tr -> is_Some (lat_threads x !! i);
}.

Lemma loop_test_effect d g :
  d > 0 ->
  loop_ok (loop_test d (g_max_latency_us g)) /\ call_of (loop_test d (g_max_latency_us g)) = CallWrite d /\
  (events_done (loop_test d (g_max_latency_us g)) = [EAdd d] \/
   events_done (loop_test d (g_max_latency_us g)) = [EAdd d; EMax d] /\ raise_max d g = g).
Proof.
  intros Hd. unfold loop_test, raise_max. case_decide; simpl; [by auto|].
  rewrite decide_True by done. by auto.
Qed.

(** An access is one abstract operation, or none. *)
Lemma lat_next_effect sp g t g' t' :
  lat_next sp g t = Some (g', t') -> loop_ok t ->
  loop_ok t' /\ call_of t' = call_of t /\
  (events_done t' = events_done t /\ g' = g \/
   exists e, events_done t' = events_done t ++ [e] /\ abs_event g e g').
Proof.
  assert (forall d, d > 0 -> forall t1, t1 = loop_test d (g_max_latency_us g) ->
            loop_ok t1 /\ call_of t1 = CallWrite d /\
            (events_done t1 = [EAdd d] /\ g = g \/
             exists e, events_done t1 = [EAdd d] ++ [e] /\ abs_event g e g)) as Htest.
  { intros d Hd t1 ->. destruct (loop_test_effect d g Hd) as (H1 & H2 & [H3|[H3 H4]]); split_and!; auto.
    right. exists (EMax d). split; [done|]. rewrite <- H4 at 2. constructor. }
  destruct t as [d|d|d cur|d| |u|u v]; simpl; intros Hn Hok; try done.
  - injection Hn as <- <-. split_and!; try done. right. exists (EAdd d). split; [done|constructor].
  - injection Hn as <- Ht. by apply Htest.
  - destruct Hok as [Hd Hc]. case_decide as Hm; injection Hn as <- Ht; [|by apply Htest].
    destruct Hm as [Hm _]. subst t'. split_and!; try done. right. exists (EMax d). simpl.
    rewrite decide_True by done. split; [done|].
    replace (store_max d g) with (raise_max d g); [constructor|]. unfold raise_max. by rewrite decide_True by lia.
  - injection Hn as <- <-. split_and!; try done. right. eexists. split; [done|constructor].
  - injection Hn as <- <-. split_and!; try done. right. eexists. split; [done|constructor].
Qed.

Lemma events_of_snoc i tr j e :
  events_of i (tr ++ [(j, e)]) = events_of i tr ++ (if decide (j = i) then [e] else []).
Proof. unfold events_of. rewrite filter_app, fmap_app, filter_cons, filter_nil. simpl. by case_decide. Qed.

Lemma lat_sim_init g calls : lat_sim g calls (lat_init g calls) [].
Proof.
  split; cbn [lat_init counters lat_threads].
  - constructor.
  - rewrite <- list_fmap_compose. rewrite <- (list_fmap_id calls) at 2. apply list_fmap_ext.
    intros i [d|] _; simpl; [by case_decide|done].
  - intros i t ([d|] & -> & _)%list_lookup_fmap_Some; simpl; [by case_decide|done].
  - intros i t ([d|] & -> & _)%list_lookup_fmap_Some; simpl; [|done].
    case_decide; simpl; [done|]. by rewrite decide_False.
  - by intros i e ?%elem_of_nil.
Qed.

Lemma lat_sim_step weak g0 calls x y tr :
  lat_sim g0 calls x tr -> lat_step weak x y -> exists tr', lat_sim g0 calls y tr'.
Proof.
  intros S Hstep. destruct Hstep as [g ts i t sp g' t' Hi _ Hn].
  destruct (lat_next_effect _ _ _ _ _ Hn (ls_loop _ _ _ _ S i t Hi)) as (Hok & Hcall & Hev).
  assert (call_of <$> <[i := t']> ts = calls) as Hcalls.
  { rewrite list_fmap_insert, Hcall, list_insert_id; [apply S|]. by rewrite list_lookup_fmap, Hi. }
  assert (forall j t1, <[i := t']> ts !! j = Some t1 -> i = j /\ t1 = t' \/ i <> j /\ ts !! j = Some t1) as Hj.
  { intros j t1 H. apply list_lookup_insert_Some in H as [(-> & -> & _)|[? ?]]; auto. }
  assert (forall j, is_Some (ts !! j) -> is_Some (<[i := t']> ts !! j)) as Hsome.
  { intros j. rewrite !lookup_lt_is_Some. by rewrite length_insert. }
  destruct Hev as [[Hev ->]|(e & Hev & He)].
  - exists tr. split; cbn [counters lat_threads]; [apply S|done|..].
    + intros j t1 [[_ ->]|[_ H]]%Hj; [done|by apply (ls_loop _ _ _ _ S j)].
    + intros j t1 [[<- ->]|[_ H]]%Hj; [rewrite Hev|]; by apply S.
    + intros j e Hin. by apply Hsome, (ls_owner _ _ _ _ S j e).
  - exists (tr ++ [(i, e)]). split; cbn [counters lat_threads]; [|done|..].
    + econstructor; [apply S|done].
    + intros j t1 [[_ ->]|[_ H]]%Hj; [done|by apply (ls_loop _ _ _ _ S j)].
    + intros j t1 Hl. rewrite events_of_snoc. apply Hj in Hl as [[<- ->]|[Hne Hl]].
      * rewrite decide_True by done. rewrite Hev. f_equal. by apply S.
      * rewrite decide_False by done. rewrite app_nil_r. by apply S.
    + intros j e1 [Hin|Hin]%elem_of_app; apply Hsome; [by apply (ls_owner _ _ _ _ S j e1)|].
      apply list_elem_of_singleton in Hin as [= -> _]. by exists t.
Qed.

Lemma lat_sim_run weak g0 calls x : rtc (lat_step weak) (lat_init g0 calls) x -> exists tr, lat_sim g0 calls x tr.
Proof.
  intros H. assert (exists tr, lat_sim g0 calls (lat_init g0 calls) tr) as H0 by (eexists; apply lat_sim_init).
  revert H0. induction H as [|a b c Hab _ IH]; [done|]. intros [tr S]. apply IH. by eapply lat_sim_step.
Qed.

(** ** Peaks *)

(** A value the highest latency can have: the one before, 0, or a latency recorded. *)
Definition seen (g0 : globals) (tr : list (nat * lat_event)) (v : Z) : Prop :=
  v = g_max_latency_us g0 \/ v = 0 \/ exists i, (i, EMax v) ∈ tr.

Lemma seen_snoc g0 tr e v : seen g0 tr v -> seen g0 (tr ++ [e]) v.
Proof. intros [?|[?|[i Hi]]]; [by left|by right; left|]. right; right. exists i. apply elem_of_app. by left. Qed.

(** The latencies of a run fit [int]. *)
Definition max_fits (tr : list (nat * lat_event)) : Prop :=
  forall i d, (i, EMax d) ∈ tr -> 0 < d < 2 ^ 31.

Lemma abs_run_peaks g0 tr g :
  abs_run g0 tr g -> max_fits tr -> 0 <= g_max_latency_us g0 ->
  0 <= g_max_latency_us g /\ seen g0 tr (g_max_latency_us g) /\
  (forall i d, (i, EMax d) ∈ tr -> d <= g_max_latency_us g \/ exists j v, (j, ETake v) ∈ tr /\ d <= v) /\
  (forall j v, (j, ETake v) ∈ tr -> seen g0 tr v).
Proof.
  intros Hrun Hfit H0. induction Hrun as [|tr g i e g' _ IH He].
  { split_and!; [done|by left|by intros ? ? ?%elem_of_nil..]. }
  destruct IH as (I1 & I2 & I3 & I4).
  { intros j d Hj. apply (Hfit j d), elem_of_app. by left. }
  assert (forall j d, (j, EMax d) ∈ tr -> d <= g_max_latency_us g \/
            exists k v, (k, ETake v) ∈ tr ++ [(i, e)] /\ d <= v) as I3'.
  { intros j d [?|(k & v & Hk & ?)]%I3; [by left|]. right. exists k, v. split; [|done]. apply elem_of_app. by left. }
  assert (forall j v, (j, ETake v) ∈ tr -> seen g0 (tr ++ [(i, e)]) v) as I4'.
  { intros j v Hj. by eapply seen_snoc, I4. }
  destruct He as [d|d| |]; cbn [add_total g_max_latency_us reset_max_latency] in *.
  - split_and!; [done|by apply seen_snoc|..]; intros j v [Hin|Hin]%elem_of_app; eauto;
      by apply list_elem_of_singleton in Hin.
  - assert (0 < d < 2 ^ 31) as Hd by (apply (Hfit i), elem_of_app; right; by left).
    assert (i32 d = d) as Hi by (apply swrap_small; lia).
    unfold raise_max. case_decide as Hc; cbn [store_max g_max_latency_us]; rewrite ?Hi; split_and!; try lia.
    + right; right. exists i. apply elem_of_app. right. by left.
    + intros j v [Hin|Hin]%elem_of_app; [destruct (I3' _ _ Hin); [left; lia|by right]|].
      apply list_elem_of_singleton in Hin as [= _ ->]. left. lia.
    + intros j v [Hin|Hin]%elem_of_app; [eauto|by apply list_elem_of_singleton in Hin].
    + by apply seen_snoc.
    + intros j v [Hin|Hin]%elem_of_app; [eauto|]. apply list_elem_of_singleton in Hin as [= _ ->]. left. lia.
    + intros j v [Hin|Hin]%elem_of_app; [eauto|by apply list_elem_of_singleton in Hin].
  - split_and!; [done|by apply seen_snoc|..]; intros j v [Hin|Hin]%elem_of_app; eauto;
      by apply list_elem_of_singleton in Hin.
  - split_and!; [done|by right; left|..]; intros j v [Hin|Hin]%elem_of_app.
    + destruct (I3' _ _ Hin) as [Hv|?]; [|by right]. right. exists i, (g_max_latency_us g).
      split; [apply elem_of_app; right; by left|done].
    + by apply list_elem_of_singleton in Hin.
    + eauto.
    + apply list_elem_of_singleton in Hin as [= _ ->]. by apply seen_snoc.
Qed.

(** The operations of a thread are those of the trace that bear its number. *)
Lemma elem_of_events_of i e tr : e ∈ events_of i tr <-> (i, e) ∈ tr.
Proof.
  unfold events_of. rewrite list_elem_of_fmap. split.
  - intros ([j e'] & -> & [Hj Hin]%list_elem_of_filter). simpl in *. by subst.
  - intros Hin. exists (i, e). split; [done|]. by apply list_elem_of_filter.
Qed.

Lemma lat_sim_done g0 calls x tr i e :
  lat_sim g0 calls x tr -> (i, e) ∈ tr -> exists t, lat_threads x !! i = Some t /\ e ∈ events_done t.
Proof.
  intros S Hin. destruct (ls_owner _ _ _ _ S i e Hin) as [t Ht]. exists t. split; [done|].
  rewrite <- (ls_events _ _ _ _ S i t Ht). by apply elem_of_events_of.
Qed.

Lemma events_done_max t d : EMax d ∈ events_done t -> t = LDone d.
Proof. destruct t; simpl; try case_decide; rewrite ?elem_of_cons, elem_of_nil; intuition (simplify_eq; eauto). Qed.

Lemma events_done_take t v : ETake v ∈ events_done t -> exists u, t = SDone u v.
Proof. destruct t; simpl; try case_decide; rewrite ?elem_of_cons, elem_of_nil; intuition (simplify_eq; eauto). Qed.

(** ** The loop ends *)

Definition unfinished (t : lat_thread) : nat := if lat_finished t then 0 else 1.

(** The accesses a thread makes before it finishes or another one interferes. *)
Definition phase (g : globals) (t : lat_thread) : nat :=
  match t with
  | LAdd _ => 3
  | LLoad _ => 2
  | LCas _ current_max => if decide (current_max = g_max_latency_us g) then 0 else 1
  | STotal => 1
  | _ => 0
  end.

Definition lat_measure (x : lat_state) : nat :=
  sum_list_with unfinished (lat_threads x) * S (length (lat_threads x)) +
  sum_list_with (phase (counters x)) (lat_threads x).

(** What an access does to the measure of its own thread, and which accesses can raise
    the phase of others. *)
Lemma lat_next_measure g t g' t' :
  lat_next false g t = Some (g', t') ->
  (unfinished t = 1 /\ unfinished t' = 0 /\ phase g' t' = 0 \/
   unfinished t = 1 /\ unfinished t' = 1 /\ g_max_latency_us g' = g_max_latency_us g /\
   phase g' t' < phase g t)%nat.
Proof.
  unfold lat_next, unfinished. destruct t as [d|d|d cur|d| |u|u v]; intros Hn; try done.
  - injection Hn as <- <-. right. simpl. lia.
  - injection Hn as <- <-. unfold loop_test. case_decide; [|by left]. right. simpl. rewrite decide_True by done. lia.
  - case_decide as Hc.
    + injection Hn as <- <-. by left.
    + injection Hn as <- <-. unfold loop_test. case_decide; [|by left]. right. simpl. rewrite decide_True by done.
      rewrite decide_False; [lia|]. intros E. by apply Hc.
  - injection Hn as <- <-. right. simpl. lia.
  - injection Hn as <- <-. by left.
Qed.

Lemma phase_bound g g' (ts : list lat_thread) :
  (sum_list_with (phase g') ts <= sum_list_with (phase g) ts + length ts)%nat.
Proof.
  induction ts as [|t ts IH]; simpl; [lia|].
  assert (phase g' t <= phase g t + 1)%nat by (destruct t; simpl; repeat case_decide; lia). lia.
Qed.

Lemma phase_ext g g' (ts : list lat_thread) :
  g_max_latency_us g' = g_max_latency_us g -> sum_list_with (phase g') ts = sum_list_with (phase g) ts.
Proof. intros E. induction ts as [|t ts IH]; simpl; [done|]. rewrite IH. destruct t; simpl; by rewrite ?E. Qed.

Lemma lat_step_measure x y : lat_step false x y -> (lat_measure y < lat_measure x)%nat.
Proof.
  intros [g ts i t sp g' t' Hi Hsp Hn]. destruct sp; [by specialize (Hsp eq_refl)|].
  unfold lat_measure. cbn [counters lat_threads]. rewrite length_insert.
  pose proof (sum_list_with_insert unfinished ts i t t' Hi) as Hu.
  pose proof (sum_list_with_insert (phase g') ts i t t' Hi) as Hp.
  destruct (lat_next_measure _ _ _ _ Hn) as [(E1 & E2 & E3)|(E1 & E2 & E3 & E4)].
  - pose proof (phase_bound g g' ts). nia.
  - rewrite (phase_ext g g' ts E3) in Hp.
    assert (phase g' t = phase g t) as Et by (destruct t; simpl; by rewrite ?E3).
    rewrite E1, E2 in Hu. rewrite Et in Hp.
    replace (sum_list_with unfinished (<[i := t']> ts)) with (sum_list_with unfinished ts) by lia. lia.
Qed.

Lemma lat_init_measure g calls : (lat_measure (lat_init g calls) <= length calls * (length calls + 4))%nat.
Proof.
  unfold lat_measure, lat_init. cbn [counters lat_threads]. rewrite length_fmap.
  assert (sum_list_with unfinished (lat_start <$> calls) <= length calls)%nat.
  { clear. induction calls as [|c calls IH]; [simpl; lia|]. rewrite fmap_cons. simpl.
    assert (unfinished (lat_start c) <= 1)%nat by (unfold unfinished; case_match; lia). lia. }
  assert (sum_list_with (phase g) (lat_start <$> calls) <= 3 * length calls)%nat.
  { clear. induction calls as [|c calls IH]; [simpl; lia|]. rewrite fmap_cons. simpl in *.
    assert (phase g (lat_start c) <= 3)%nat by (unfold lat_start; destruct c; [case_decide|]; simpl; lia). lia. }
  nia.
Qed.

Lemma lat_progress g t : lat_finished t = false -> is_Some (lat_next false g t).
Proof. destruct t; simpl; intros Ht; try done; try case_decide; by eexists. Qed.

(** * Properties *)

(** C19: replies that end and status requests that run at the same time use the latency
    counters as if every one of them did its additions, its raising of the maximum, its
    reading and its taking of the maximum at one moment each: in every reachable state
    there is an order of these operations that explains the counters and what the
    status requests read, in which each thread has done exactly the operations of its
    call so far, even when exchanges fail for no reason. *)
Theorem latency_linearizes g0 calls x :
  rtc (lat_step true) (lat_init g0 calls) x ->
  exists tr, abs_run g0 tr (counters x) /\
    forall i call, calls !! i = Some call ->
      exists t, lat_threads x !! i = Some t /\ call_of t = call /\ events_of i tr = events_done t.
Proof.
  intros [tr S]%lat_sim_run. exists tr. split; [apply S|]. intros i call Hi.
  rewrite <- (ls_calls _ _ _ _ S) in Hi. apply list_lookup_fmap_Some in Hi as (t & -> & Ht).
  exists t. by rewrite (ls_events _ _ _ _ S i t Ht).
Qed.

(** C20: no peak is lost between the threads, for latencies above 0 and below [2 ^ 31]
    microseconds, which fit the counter, and an initial maximum that is not negative:
    the latency of a reply whose thread has left the loop is at most the current
    maximum, or at most what the exchange of some status request has taken out of it;
    and what an exchange takes is the initial maximum, 0, or the latency of one of the
    replies. *)
Theorem no_peak_lost g0 calls x :
  (forall i d, calls !! i = Some (CallWrite d) -> 0 < d < 2 ^ 31) -> 0 <= g_max_latency_us g0 ->
  rtc (lat_step true) (lat_init g0 calls) x ->
  (forall i d, lat_threads x !! i = Some (LDone d) ->
     d <= g_max_latency_us (counters x) \/
     exists j u v, lat_threads x !! j = Some (SDone u v) /\ d <= v) /\
  (forall j u v, lat_threads x !! j = Some (SDone u v) ->
     v = g_max_latency_us g0 \/ v = 0 \/ exists i, calls !! i = Some (CallWrite v)).
Proof.
  intros Hfit H0 [tr S]%lat_sim_run.
  assert (forall i t, lat_threads x !! i = Some t -> calls !! i = Some (call_of t)) as Hcall.
  { intros i t Ht. rewrite <- (ls_calls _ _ _ _ S). by rewrite list_lookup_fmap, Ht. }
  assert (forall i d, (i, EMax d) ∈ tr -> lat_threads x !! i = Some (LDone d)) as Hmax.
  { intros i d Hin. destruct (lat_sim_done _ _ _ _ _ _ S Hin) as (t & Ht & ->%events_done_max). done. }
  destruct (abs_run_peaks g0 tr (counters x)) as (_ & _ & P1 & P2); [apply S| |done|].
  { intros i d Hin. by apply (Hfit i), (Hcall i (LDone d)), Hmax. }
  split.
  - intros i d Hi. pose proof (Hfit i d (Hcall _ _ Hi)) as Hd.
    assert ((i, EMax d) ∈ tr) as Hin.
    { apply elem_of_events_of. rewrite (ls_events _ _ _ _ S i _ Hi). simpl. rewrite decide_True by lia.
      right. by left. }
    destruct (P1 i d Hin) as [?|(j & v & Hj & ?)]; [by left|].
    destruct (lat_sim_done _ _ _ _ _ _ S Hj) as (t & Ht & [u ->]%events_done_take). right. by exists j, u, v.
  - intros j u v Hj. destruct (P2 j v) as [?|[?|[i Hi]]]; [|by left|by right; left|].
    + apply elem_of_events_of. rewrite (ls_events _ _ _ _ S j _ Hj). right. by left.
    + right; right. exists i. by apply (Hcall i (LDone v)), Hmax.
Qed.

(** C21: without spurious failures the loops end whatever the schedule: [n] calls make at
    most [n * (n + 4)] accesses, and where no thread can go on all have finished. *)
Theorem latency_loops_end g0 calls n x :
  nsteps (lat_step false) n (lat_init g0 calls) x ->
  (n <= length calls * (length calls + 4))%nat /\
  ((forall y, ~ lat_step false x y) -> Forall (fun t => lat_finished t = true) (lat_threads x)).
Proof.
  intros Hrun. split.
  - apply (nsteps_measure _ lat_measure) in Hrun; [|apply lat_step_measure].
    pose proof (lat_init_measure g0 calls). lia.
  - intros Hstuck. apply Forall_lookup. intros i t Hi. apply not_false_is_true. intros Ht.
    destruct x as [g ts]. destruct (lat_progress g t Ht) as [[g' t'] Hn].
    by apply (Hstuck {| counters := g'; lat_threads := <[i := t']> ts |}), (lat_step_thread _ _ _ i t false).
Qed.

(** A reply that takes longer than [int] can hold, more than 35 minutes, makes the
    highest latency negative. *)
Theorem latency_wraps : g_max_latency_us (record_latency (2 ^ 31) zero_globals) = - 2 ^ 31.
Proof. reflexivity. Qed.

(** * Witnesses *)

(** Three replies and a status request between them: the first two exchanges of thread 0
    fail because of the others, the first of thread 3 for no reason. *)
Definition demo_calls : list lat_call := [CallWrite 300; CallWrite 200; CallStatus; CallWrite 100].

Definition demo_latency : lat_state :=
  run_latency (lat_init zero_globals demo_calls)
    [(0, false); (0, false); (1, false); (1, false); (1, false); (2, false); (0, false);
     (2, false); (3, false); (3, false); (3, true); (3, false); (0, false); (0, false)]%nat.

Lemma latency_linearizes_witness :
  exists tr, abs_run zero_globals tr (counters demo_latency) /\
    events_of 2 tr = [ETotal 500; ETake 200] /\ g_max_latency_us (counters demo_latency) = 300.
Proof.
  destruct (latency_linearizes zero_globals demo_calls demo_latency) as (tr & Hrun & H).
  - apply run_latency_steps.
  - exists tr. split; [done|]. split; [|vm_compute; reflexivity].
    destruct (H 2%nat CallStatus) as (t & Ht & _ & E); [reflexivity|]. rewrite E.
    assert (Some t = Some (SDone 500 200)) as [= ->] by (rewrite <- Ht; vm_compute; reflexivity). reflexivity.
Defined.

Lemma no_peak_lost_witness :
  300 <= g_max_latency_us (counters demo_latency) \/
  exists j u v, lat_threads demo_latency !! j = Some (SDone u v) /\ 300 <= v.
Proof.
  destruct (no_peak_lost zero_globals demo_calls demo_latency) as [H _].
  - intros [|[|[|[|i]]]] d Hi; simplify_eq/=; lia.
  - discriminate.
  - apply run_latency_steps.
  - apply (H 0%nat). vm_compute. reflexivity.
Defined.

(** One reply: addition, load, exchange. *)
Lemma one_reply_run :
  nsteps (lat_step false) 3 (lat_init zero_globals [CallWrite 5])
    {| counters := record_latency 5 zero_globals; lat_threads := [LDone 5] |}.
Proof.
  apply (nsteps_l _ _ _ {| counters := add_total 5 zero_globals; lat_threads := [LLoad 5] |}).
  { by apply (lat_step_thread false zero_globals [LAdd 5] 0 (LAdd 5) false _ (LLoad 5)). }
  apply (nsteps_l _ _ _ {| counters := add_total 5 zero_globals; lat_threads := [LCas 5 0] |}).
  { by apply (lat_step_thread false _ [LLoad 5] 0 (LLoad 5) false _ (LCas 5 0)). }
  apply nsteps_once. by apply (lat_step_thread false _ [LCas 5 0] 0 (LCas 5 0) false _ (LDone 5)).
Qed.

Lemma latency_loops_end_witness : (3 <= 1 * (1 + 4))%nat /\ Forall (fun t => lat_finished t = true) [LDone 5].
Proof.
  destruct (latency_loops_end zero_globals [CallWrite 5] 3 _ one_reply_run) as [H1 H2].
  split; [exact H1|]. apply H2. intros y Hy. inversion Hy as [g ts [|i] t sp g' t' Hi _ Hn]; by simplify_eq/=.
Defined.
