(* ===== verification/Server.v ===== *)
(** The whole server, as [test/server_test.cc] puts it together: the router singleton
    with its routes, the handlers behind it, the sessions in front of it, and the
    worker threads that run the completion handlers. A step of this system is one
    completion handler run to its end, so requests are handled one after the other, in
    any order. Where handlers of several workers overlap, the state they share is
    modelled at the grain of its accesses: the metadata store in [MetaConc], the
    files in [FileRace], [UploadRace] and [ChunkRace], the upload counter in
    [UploadSlots], the latency counters in [Latency], the singletons in [Singleton]. *)

From stdpp Require Import base list strings gmap numbers relations.
From Stdlib Require Import ZArith Ascii Lia.
From S2P Require Import Prelude Algorithm Util UrlUtils Json MetaFile LevelDB MetadataStore MetaRefine.
From S2P Require Import Multipart Http Router Singleton Paths CryptoUtils FileSystem FileStore FileCtl.
From S2P Require Import MetaConc HttpSession SystemCtl.

Import MultipartParser.

Local Open Scope outcome_scope.

(** ** Routes *)

(** The handlers [main] registers, one per lambda. *)
Inductive handler : Type :=
| HCheck | HUpload | HDownload | HCheckChunk | HChunkUpload | HStatus | HMerge.

Definition main_routes : list (registration (H := handler)) :=
  [ RegRoute verb_post (lit "/check") (Some HCheck);
    RegRoute verb_post (lit "/upload") (Some HUpload);
    RegPrefix verb_get (lit "/group1") (Some HDownload);
    RegRoute verb_get (lit "/check_chunk") (Some HCheckChunk);
    RegRoute verb_get (lit "/upload_chunk") (Some HChunkUpload);
    RegRoute verb_get (lit "/status") (Some HStatus);
    RegRoute verb_post (lit "/merge") (Some HMerge) ].

Section Server.
Context {L : LevelDB} {J : JsonLib} {M : Md5Lib} {O : DirOrder} {T : FsText} {SS : StdSort} {B : BeastLib}.
Context (config : StoreConfig) (dir_st_size : Z).

(** What is behind the sessions: the router, the controllers, the request counter and
    the time of the start. *)
Record application : Type := {
  router_instance : option (Router (H := handler));
  file_ctl : app;
  system_ctl : SystemCtl;
  g_total_requests : Z;
  g_start_time : Z;
}.

Definition set_file_ctl (ap : application) (a : app) : application :=
  {| router_instance := router_instance ap; file_ctl := a; system_ctl := system_ctl ap;
     g_total_requests := g_total_requests ap; g_start_time := g_start_time ap |}.

Definition set_system_ctl (ap : application) (c : SystemCtl) : application :=
  {| router_instance := router_instance ap; file_ctl := file_ctl ap; system_ctl := c;
     g_total_requests := g_total_requests ap; g_start_time := g_start_time ap |}.

(** What one request reads from outside. *)
Record request_env : Type := { re_env : env; re_machine : machine }.

(** The state, the counters and the reply after a request, or the exception that
    leaves [dispatch]. *)
Definition served : Type := (application * globals * outcome response)%type.

(** A call of a lambda. *)
Definition run_handler (re : request_env) (h : handler) (ap : application) (g : globals)
    (ctx : HttpContext) : served :=
  let by_file_ctl (x : handled) : served := (set_file_ctl ap (fst x), g, snd x) in
  let a := file_ctl ap in
  match h with
  | HCheck => by_file_ctl (handleCheck a ctx)
  | HUpload => by_file_ctl (handleUpload config (re_env re) a ctx)
  | HDownload => by_file_ctl (handleDownload config dir_st_size a ctx)
  | HCheckChunk => by_file_ctl (handleCheckChunk config a ctx)
  | HChunkUpload => by_file_ctl (handleChunkUpload config (re_env re) a ctx)
  | HMerge => by_file_ctl (handleMerge config (re_env re) a ctx)
  | HStatus =>
      let '(g, c, r) := status (re_machine re) (g_start_time ap) (g_total_requests ap) g
                          (system_ctl ap) ctx in
      (set_system_ctl ap c, g, r)
  end.

(** [Router::getInstance()->dispatch(req, send)] in [on_read]. *)
Definition handle_request (re : request_env) (ap : application) (g : globals) (rq : StringRequest)
  : served :=
  let '(router, inst) := getInstance empty_router (router_instance ap) in
  let '(n, act) := dispatch router (g_total_requests ap) rq in
  let ap := {| router_instance := inst; file_ctl := file_ctl ap; system_ctl := system_ctl ap;
               g_total_requests := n; g_start_time := g_start_time ap |} in
  match act with
  | Throw e => (ap, g, Throw e)
  | Ok (Send r) => (ap, g, Ok r)
  | Ok (Call h ctx) => run_handler re h ap g ctx
  end.

(** ** The server *)

(** [workers] counts the threads that are still in [ioc.run()]. *)
Record system : Type := {
  application_of : application;
  server_of : server;
  workers : nat;
}.

Definition set_server (y : system) (sv : server) : system :=
  {| application_of := application_of y; server_of := sv; workers := workers y |}.

(** [main] up to the start of the threads: a constructor that throws ends it. [bound]
    says whether the acceptor could bind its port. *)
Definition start_main (s0 : fs) (opened : DB + str) (bound : bool) (now : Z) (num_threads : nat)
  : outcome system :=
  let* s := FileStore_new s0 config in
  let* st := MetadataStore_new opened default_metaConfig in
  let '(router, _) := getInstance empty_router None in
  let* sv := cServer_new bound in
  Ok {| application_of :=
          {| router_instance := Some (foldl register router main_routes);
             file_ctl := FileCtl_new s st;
             system_ctl := new_SystemCtl; g_total_requests := 0; g_start_time := now |};
        server_of := start_accept sv; workers := num_threads |}.

(** The bytes of a request arrive on session [i]: [on_read] runs on a worker thread,
    and an exception that leaves it ends this worker. *)
Definition serve (y : system) (i : nat) (s : session) (bytes now : Z) (leftover : str)
    (re : request_env) (rq : StringRequest) : system :=
  let sv := server_of y in
  let call g := handle_request re (application_of y) g rq in
  let ec := read_code rq in
  let '(g', s') := on_read (gl sv) s ec bytes now leftover
                     (fun g => let '(_, g, r) := call g in (g, r)) in
  let '(ap, workers') :=
    if decide (ec = ec_success) then
      let '(ap, _, r) := call (add_received bytes (gl sv)) in
      (ap, match r with Ok _ => workers y | Throw _ => workers y - 1 end)
    else (application_of y, workers y) in
  {| application_of := ap;
     server_of := {| gl := g'; accepts := accepts sv; sessions := <[i := s']> (sessions sv);
                     dangling := dangling sv |};
     workers := workers' |}.

(** The steps of the system: those of the sessions, with real requests. Completion
    handlers need a worker. *)
Inductive system_step : system -> system -> Prop :=
| sys_request y i s bytes now leftover re rq :
    0 < workers y -> sessions (server_of y) !! i = Some s -> pend s = Reading ->
    socket_open s = true ->
    system_step y (serve y i s bytes now leftover re rq)
| sys_accept y failed :
    0 < workers y -> 0 < accepts (server_of y) ->
    system_step y (set_server y (on_accept (server_of y) failed))
| sys_quiet y sv :
    0 < workers y -> quiet_step any_end (server_of y) sv -> system_step y (set_server y sv)
| sys_expire y i s :
    sessions (server_of y) !! i = Some s -> timer_armed s = true ->
    system_step y (set_server y
      {| gl := gl (server_of y); accepts := accepts (server_of y);
         sessions := <[i := expire s]> (sessions (server_of y));
         dangling := dangling (server_of y) |}).

(** * Lemmas *)

(** ** The router *)

(** The same router is dispatched to for the whole run. *)
Definition routed (ap : application) : Prop := router_instance ap = Some (registered main_routes).

(** ** The counters *)

Lemma status_connections m t n g c ctx :
  g_active_connections (fst (fst (status m t n g c ctx))) = g_active_connections g.
Proof.
  unfold status. cbv zeta. destruct (get_proc_status _ _) as [ps|]; [|done].
  by destruct (get_cpu_usage _ _) as [c' [x|e]].
Qed.

Lemma handle_request_connections re ap rq :
  keeps_connections (fun g => let '(_, g, r) := handle_request re ap g rq in (g, r)).
Proof.
  intros g. unfold handle_request. destruct (getInstance _ _) as [router inst].
  destruct (dispatch _ _ _) as [n [[h ctx|r]|e]]; [|done..]. destruct h; try done. simpl.
  pose proof (status_connections (re_machine re) (g_start_time ap) n g (system_ctl ap) ctx) as H.
  by destruct (status _ _ _ _ _ _) as [[g' c] r].
Qed.

(** ** The records *)

Section Records.
Context {LS : LevelDBSpec L}.

(** Every handler keeps the metadata or saves one record. *)
Definition saves (a a' : app) : Prop :=
  mstore a' = mstore a \/ exists m, mstore a' = fst (save_meta (mstore a) m).

Lemma upload_form_saves e a ctx : saves a (fst (upload_form config e a ctx)).
Proof.
  unfold upload_form. destruct (negb _); [by left|]. case_decide; [by left|].
  destruct (negb _); [by left|]. rewrite catch_reply_fst. unfold upload_store. cbv zeta.
  destruct (save_file _ _ _ _ _ _ _) as [s [[p|]|ex]]; [| |by left]; (case_decide; [by left|]); [|by left].
  right. by eexists.
Qed.

Lemma handleUpload_saves e a ctx : saves a (fst (handleUpload config e a ctx)).
Proof.
  unfold handleUpload. cbv zeta. case_decide; [by left|].
  pose proof (upload_form_saves e (set_uploads a (i32 (concurrent_uploads_ a + 1))) ctx).
  case_decide; [done|]. by destruct (get_meta _ _); [left|].
Qed.

Lemma handleMerge_saves e a ctx : saves a (fst (handleMerge config e a ctx)).
Proof.
  unfold handleMerge. cbv zeta. case_decide; [by left|].
  destruct (exists_path _ _) as [s0 [[]|ex0]]; [|by left..]. cbn [negb].
  rewrite catch_reply_fst. unfold merge_try.
  destruct (directory_iterator _ _) as [s1 [entries|ex1]]; [|by left]. cbv zeta. case_decide; [by left|].
  unfold merge_store. cbv zeta. destruct (open_trunc _ _) as [s1' [l|]]; [|by left].
  destruct (merge_loop _ _ _ _ _) as [[s2 acc] [[]|ex]]; [|by left].
  destruct (md5_to_rel_path _) as [rp|]; [|by left].
  destruct (create_directories _ _) as [s3 []]; [|by left]. cbn [negb].
  destruct (io_bind _ _) as [s4 [sz|ex]]; [|by left]. right. by eexists.
Qed.

Lemma run_handler_saves re h ap g ctx :
  saves (file_ctl ap) (file_ctl (fst (fst (run_handler re h ap g ctx)))).
Proof.
  destruct h; simpl.
  - unfold handleCheck. cbv zeta. repeat case_match; by left.
  - apply handleUpload_saves.
  - unfold handleDownload. cbv zeta. case_decide; [by left|]. destruct (open_read _ _) as [s r].
    by destruct r; left.
  - unfold handleCheckChunk. cbv zeta. case_decide; [by left|].
    by destruct (get_shard_index _ _) as [s1 [l|ex]]; left.
  - unfold handleChunkUpload. cbv zeta. case_decide; [by left|].
    by destruct (save_file_at _ _ _ _ _) as [s1 [[]|ex]]; left.
  - by destruct (status _ _ _ _ _ _) as [[g' c] r]; left.
  - apply handleMerge_saves.
Qed.

Lemma handle_request_keeps re ap g rq h m :
  key_ok h -> get_meta (mstore (file_ctl ap)) h = Some m ->
  get_meta (mstore (file_ctl (fst (fst (handle_request re ap g rq))))) h = Some m.
Proof.
  intros Hk Hm. unfold handle_request. destruct (getInstance _ _) as [router inst].
  destruct (dispatch _ _ _) as [n [[hd ctx|r]|e]]; [|done..].
  match goal with |- context [run_handler re hd ?ap' g ctx] =>
    destruct (run_handler_saves re hd ap' g ctx) as [-> | [m' ->]] end; [done|by apply save_meta_keeps].
Qed.

End Records.

(** ** Dispatching on the routes of [main] *)

Lemma splitTarget_plain t : chr 35 ∉ t -> chr 63 ∉ t -> splitTarget t = (t, []).
Proof.
  intros H1 H2. unfold splitTarget. cbv zeta.
  rewrite (find_0 [chr 35] t), (find0_char_fresh (chr 35) t) by done.
  by rewrite (find_0 [chr 63] t), (find0_char_fresh (chr 63) t).
Qed.

Lemma main_prefix_routes :
  prefix_routes_ (registered main_routes) =
  [{| pr_method := verb_get; pr_prefix := lit "/group1"; pr_handler := Some HDownload |}].
Proof. apply Permutation_singleton_r. apply (proj1 (registered_inv main_routes)). Qed.

Lemma dispatch_upload n rq :
  req_method rq = verb_post -> req_target rq = lit "/upload" ->
  dispatch (registered main_routes) n rq =
  (u64 (n + 1), Ok (Call HUpload (make_context rq (lit "POST") (lit "/upload") ∅ []))).
Proof.
  intros Hm Ht. unfold dispatch. rewrite Ht, Hm.
  change (splitTarget (lit "/upload")) with (lit "/upload", @nil ascii).
  cbn [parseQuery outcome_bind VerbToString].
  by rewrite (registered_route (take 1 main_routes) (drop 2 main_routes) verb_post (lit "/upload") (Some HUpload))
    by by_decide.
Qed.

Lemma dispatch_download n rq suffix :
  req_method rq = verb_get -> req_target rq = lit "/group1" ++ suffix ->
  chr 35 ∉ suffix -> chr 63 ∉ suffix ->
  dispatch (registered main_routes) n rq =
  (u64 (n + 1), Ok (Call HDownload (make_context rq (lit "GET") (lit "/group1" ++ suffix) ∅ suffix))).
Proof.
  intros Hm Ht H1 H2. unfold dispatch. rewrite Ht, Hm, splitTarget_plain;
    [|rewrite elem_of_app; intros [H|H]; [by revert H; by_decide|done]..].
  cbn [parseQuery outcome_bind VerbToString].
  assert (routers_ (registered main_routes) !! (verb_get, lit "/group1" ++ suffix) = None) as ->.
  { unfold registered. rewrite foldl_register_other; [done|].
    repeat constructor; (intros [Hv Hp] || intros []);
      (discriminate Hv || (apply (f_equal (take 2)) in Hp; by vm_compute in Hp)). }
  rewrite main_prefix_routes. cbn [dispatch_prefix pr_method pr_prefix pr_handler].
  rewrite bool_decide_true by done. cbn [negb].
  rewrite bool_decide_true by (apply find_prefix; by eexists). cbn [negb].
  rewrite decide_False by (rewrite length_app; lia). unfold substr_from. by rewrite drop_app_length.
Qed.

(** ** Steps *)

(** The application changes only when a request is handled. *)
Lemma system_step_application (P : application -> Prop) y y' :
  (forall re ap g rq, P ap -> P (fst (fst (handle_request re ap g rq)))) ->
  system_step y y' -> P (application_of y) -> P (application_of y').
Proof.
  intros HP [y0 i s bytes now leftover re rq| | |]; try done. intros Hy. unfold serve. cbv zeta.
  destruct (on_read _ _ _ _ _ _ _) as [g' s']. case_decide; [|done].
  specialize (HP re (application_of y0) (add_received bytes (gl (server_of y0))) rq Hy).
  by destruct (handle_request _ _ _ _) as [[ap g] r].
Qed.

Lemma system_run_application (P : application -> Prop) y y' :
  (forall re ap g rq, P ap -> P (fst (fst (handle_request re ap g rq)))) ->
  rtc system_step y y' -> P (application_of y) -> P (application_of y').
Proof.
  intros HP. induction 1 as [|x y z Hxy _ IH]; [done|]. intros Hx. apply IH.
  by eapply system_step_application.
Qed.

Lemma system_step_server y y' : system_step y y' -> server_step (server_of y) (server_of y').
Proof.
  intros [y0 i s bytes now leftover re rq _ Hi Hp Ho|y0 failed _ Ha|y0 sv _ Hq|y0 i s Hi Ht].
  - unfold serve. cbv zeta. destruct (on_read _ _ _ _ _ _ _) as [g' s'] eqn:Er.
    destruct (if decide _ then _ else _) as [ap w]. cbn [server_of].
    eapply step_read; [exact Hi|exact Hp| |apply handle_request_connections|exact Er].
    intros Hc. congruence.
  - by apply step_accept.
  - by eapply quiet_server_step.
  - by apply step_expire.
Qed.

Lemma start_main_inv s0 opened bound now n y :
  start_main s0 opened bound now n = Ok y ->
  server_of y = boot /\ workers y = n /\ routed (application_of y) /\
  FileStore_new s0 config = Ok (disk (file_ctl (application_of y))).
Proof.
  unfold start_main. destruct (FileStore_new s0 config) as [s|]; [|done]. simpl.
  destruct (MetadataStore_new _ _) as [st|]; [|done]. simpl. destruct bound; [|done]. by intros [= <-].
Qed.

(** A request whose query has a malformed escape. *)
Definition malformed (method : verb) : StringRequest :=
  {| req_method := method; req_target := lit "/?a=%zz"; req_version := 11; req_keep_alive := true;
     req_content_type := []; req_body := [] |}.

Lemma handle_malformed re ap g :
  exists ap' e, handle_request re ap g (malformed verb_get) = (ap', g, Throw e).
Proof.
  unfold handle_request. destruct (getInstance _ _) as [router inst].
  assert (snd (dispatch router (g_total_requests ap) (malformed verb_get)) =
          Throw (lit "Invalid URL encode: %zz")) as Hd by reflexivity.
  destruct (dispatch _ _ _) as [n act]. cbn [snd] in Hd. subst act. by do 2 eexists.
Qed.

(** One connection with a malformed request takes one worker away. *)
Lemma malformed_stops_worker (re : request_env) y :
  0 < accepts (server_of y) -> 0 < workers y ->
  exists y', rtc system_step y y' /\ workers y' = workers y - 1 /\ 0 < accepts (server_of y').
Proof.
  intros Ha Hw. set (y1 := set_server y (on_accept (server_of y) false)).
  set (i := length (sessions (server_of y))).
  assert (sessions (server_of y1) !! i = Some new_session) as Hi by by apply list_lookup_middle.
  exists (serve y1 i new_session 20 0 [] re (malformed verb_get)). split_and!.
  - apply (rtc_l _ _ y1); [by apply sys_accept|]. apply rtc_once. by apply sys_request.
  - unfold serve. cbv zeta. destruct (on_read _ _ _ _ _ _ _) as [g' s'].
    rewrite decide_True by by_decide.
    destruct (handle_malformed re (application_of y1) (add_received 20 (gl (server_of y1)))) as (ap' & e & ->).
    done.
  - unfold serve. cbv zeta. destruct (on_read _ _ _ _ _ _ _) as [g' s'].
    destruct (if decide _ then _ else _) as [ap w]. simpl. lia.
Qed.

Lemma malformed_stops_all (re : request_env) n y :
  workers y = n -> 0 < accepts (server_of y) ->
  exists y', rtc system_step y y' /\ workers y' = 0.
Proof.
  revert y. induction n as [|n IH]; intros y Hn Ha; [by exists y|].
  destruct (malformed_stops_worker re y Ha ltac:(lia)) as (y1 & H1 & Hw & Ha1).
  destruct (IH y1) as (y2 & H2 & Hw2); [lia|done|]. exists y2. split; [by etrans|done].
Qed.

(** Without workers nothing happens but the expiry of timers. *)
Lemma no_workers y y' :
  rtc system_step y y' -> workers y = 0 -> workers y' = 0 /\ application_of y' = application_of y /\
    accepts (server_of y') = accepts (server_of y) /\ gl (server_of y') = gl (server_of y).
Proof.
  induction 1 as [|x y z Hxy _ IH]; [done|]. intros Hw.
  destruct Hxy as [? ? ? ? ? ? ? ? H|? ? H|? ? H|]; [lia..|]. by destruct (IH Hw) as (? & ? & ? & ?).
Qed.

(** * Properties *)

(** C11: the server never loses or changes a record that its metadata store returns
    for a digest of 32 bytes without a colon, whatever writes of the database fail.
    A handler changes the store by at most one call of [save_meta]; requests that are
    handled one after the other keep the record; and any number of calls of
    [save_meta], interleaved section by section as worker threads run them, keep it
    too, unless one of them had looked the digest up before the record was there and
    has still to commit. *)
Theorem records_never_lost {LS : LevelDBSpec L} h m :
  key_ok h ->
  (forall re hd ap g ctx, let st := mstore (file_ctl ap) in
     let st' := mstore (file_ctl (fst (fst (run_handler re hd ap g ctx)))) in
     st' = st \/ exists m', st' = fst (save_meta st m')) /\
  (forall y y', rtc system_step y y' ->
     get_meta (mstore (file_ctl (application_of y))) h = Some m ->
     get_meta (mstore (file_ctl (application_of y'))) h = Some m) /\
  (forall c c', rtc meta_step c c' -> Forall (saves_past h) (threads c) ->
     get_meta (shared c) h = Some m -> get_meta (shared c') h = Some m).
Proof.
  intros Hk. split_and!.
  - intros re hd ap g ctx. apply run_handler_saves.
  - intros y y' Hr.
    apply (system_run_application (fun ap => get_meta (mstore (file_ctl ap)) h = Some m) y y'); [|done].
    intros re ap g rq. by apply handle_request_keeps.
  - intros c c' Hr Hall. by apply saves_keep.
Qed.

(** As many connections as there are worker threads, each with one request whose
    query has a malformed escape, stop the server: the exceptions end the threads,
    and from then on no connection is accepted and no request handled. *)
Theorem malformed_requests_stop_server s0 opened bound now n y (re : request_env) :
  start_main s0 opened bound now n = Ok y ->
  exists y', rtc system_step y y' /\ workers y' = 0 /\
    forall y'', rtc system_step y' y'' ->
      application_of y'' = application_of y' /\ accepts (server_of y'') = accepts (server_of y') /\
      gl (server_of y'') = gl (server_of y').
Proof.
  intros (Hb & Hw & _)%start_main_inv.
  destruct (malformed_stops_all re n y Hw) as (y' & Hr & H0); [rewrite Hb; simpl; lia|].
  exists y'. split_and!; [done|done|]. intros y'' Hr'. by apply no_workers.
Qed.

Section RoundTrip.
Context {LS : LevelDBSpec L} {JL : JsonLaws J}.

(** The disk works again. *)
Definition repaired (ap : application) : application :=
  set_file_ctl ap (set_disk (file_ctl ap) (no_faults (disk (file_ctl ap)))).

(** C5: what is uploaded can be downloaded. A POST to /upload with an acceptable form
    whose content is new and whose writes succeed is answered with status 200; a
    later GET of /group1/ followed by the recorded path is answered with status 200
    and the exact content of the upload. *)
Theorem upload_then_download re re' ap g g' rq rq' s p st :
  routed ap -> req_method rq = verb_post -> req_target rq = lit "/upload" ->
  let ctx := make_context rq (lit "POST") (lit "/upload") ∅ [] in
  let form := snd (get_form ctx) in let a := file_ctl ap in
  let scene_ := get_param form (lit "scene") (lit "default") in
  let m := accepted_meta (re_env re) a form p in
  acceptable config a ctx -> has_filename (root_dir config) = true -> plain scene_ ->
  (0 <= env_rnd (re_env re))%Z ->
  save_file config (env_rnd (re_env re)) (disk a) (filename form) (content form) scene_
    (CryptoUtils.md5 (content form)) = (s, Ok (Some p)) ->
  (forall l, resolve s (path_append (root_dir config) p) = Some l -> nodes (disk a) !! l = None) ->
  save_meta (mstore a) m = (st, true) -> json_utf8 (upload_reply st m) = true ->
  chr 35 ∉ p -> chr 63 ∉ p ->
  req_method rq' = verb_get -> req_target rq' = lit "/group1/" ++ p ->
  exists ap1 r ap2 r',
    handle_request re ap g rq = (ap1, g, Ok r) /\ res_status r = status_ok /\
    handle_request re' (repaired ap1) g' rq' = (ap2, g', Ok r') /\ res_status r' = status_ok /\
    res_body r' = FileBody (content form).
Proof.
  intros Hro Hm Ht ctx form a scene_ m Hacc Hr Hsc Hrnd Hs Hnew Hsm Hu N1 N2 Hm' Ht'.
  destruct (handleUpload_effect config (re_env re) a ctx s p st Hacc Hs Hsm Hu) as (r & Hup & Hst).
  destruct (save_file_saved config (env_rnd (re_env re)) (disk a) (filename form) (content form) scene_
              (CryptoUtils.md5 (content form)) s p Hr Hsc (md5_digest_ok _) Hrnd Hs) as [_ Hl].
  pose proof (accepted_path config _ _ _ _ _ _ _ Hr Hsc Hrnd Hs) as Hp.
  set (a1 := {| disk := s; mstore := st; concurrent_uploads_ := _ |}) in Hup.
  destruct (download_serves_file config dir_st_size (set_disk a1 (no_faults s))
              (make_context rq' (lit "GET") (lit "/group1" ++ SLASH :: p) ∅ (SLASH :: p)) p (content form))
    as (r' & Hd & Hst' & Hb & _); [done| |done|done| |].
  { rewrite Hp. destruct Hsc as (Hne & _ & _ & Hsl). destruct scene_ as [|c sc]; [done|].
    rewrite <- app_comm_cons, is_absolute_cons. apply bool_decide_false. intros ->. apply Hsl. by left. }
  { unfold lookup_path. cbn [set_disk disk]. rewrite resolve_no_faults. by apply Hl. }
  eexists _, r, _, r'. split_and!; [|done| |done|done].
  - unfold handle_request. rewrite Hro. cbn [getInstance]. rewrite (dispatch_upload _ rq Hm Ht).
    cbn [run_handler file_ctl]. fold a. fold ctx. rewrite Hup. reflexivity.
  - unfold handle_request, repaired.
    cbn [fst set_file_ctl router_instance getInstance file_ctl g_total_requests].
    rewrite (dispatch_download _ rq' (SLASH :: p) Hm' Ht') by (apply not_elem_of_cons; by split).
    cbn [run_handler file_ctl set_file_ctl]. cbn [disk a1]. rewrite Hd. reflexivity.
Qed.

End RoundTrip.

End Server.

(** * Witnesses *)

Import TaggedJson PadMd5 ListOrder PlainText MergeSort.

#[local] Instance main_beast : BeastLib := {| BOOST_BEAST_VERSION_STRING := lit "Boost.Beast/347" |}.

(** The application behind a fresh server on the given stores. *)
Definition demo_application (a : app) : application :=
  {| router_instance := Some (registered main_routes); file_ctl := a; system_ctl := new_SystemCtl;
     g_total_requests := 0; g_start_time := 1500000000 |}.

(** Two worker threads. *)
Definition demo_system : system :=
  {| application_of := demo_application demo_app; server_of := boot; workers := 2 |}.

Lemma demo_started :
  start_main default_StoreConfig bare_disk (inl (MemDB.empty : @DB MemDB.mem_leveldb)) true 1500000000 2 =
  Ok demo_system.
Proof.
  unfold start_main.
  assert (FileStore_new bare_disk default_StoreConfig = Ok store_disk) as -> by (vm_compute; reflexivity).
  reflexivity.
Qed.

Definition demo_re : request_env := {| re_env := demo_env; re_machine := demo_machine 1 |}.

Definition upload_rq : StringRequest := req upload_ctx.

(** A server that has a record already. *)
Definition saved_system : system :=
  {| application_of := demo_application served_app; server_of := on_accept boot false; workers := 2 |}.

(** Two more saves of its digest are under way. *)
Definition resaving : MetaConc.config := spawn (mstore served_app) [OpSave test_meta; OpSave other_meta].

Lemma records_never_lost_witness :
  get_meta (mstore (file_ctl (application_of
    (serve default_StoreConfig 4096 saved_system 0 new_session 300 5 [] demo_re upload_rq))))
    (MetaFile.md5 test_meta) = Some test_meta /\
  get_meta (shared (run_schedule resaving [0; 1; 1; 0])) (MetaFile.md5 test_meta) = Some test_meta.
Proof.
  assert (key_ok (MetaFile.md5 test_meta)) as Hk by by_decide.
  destruct (records_never_lost default_StoreConfig 4096 (MetaFile.md5 test_meta) test_meta Hk)
    as (_ & Hsys & Hconc). split.
  - apply (Hsys saved_system); [|vm_compute; reflexivity].
    apply rtc_once, sys_request; try reflexivity. simpl. lia.
  - apply (Hconc resaving); [apply run_schedule_steps|by repeat constructor|vm_compute; reflexivity].
Defined.

Lemma malformed_requests_stop_server_witness :
  exists y', rtc (system_step default_StoreConfig 4096) demo_system y' /\ workers y' = 0.
Proof.
  destruct (malformed_requests_stop_server default_StoreConfig 4096 _ _ _ _ _ _ demo_re demo_started)
    as (y' & H1 & H2 & _).
  exists y'. split; [exact H1 | exact H2].
Defined.

Definition fetch_rq : StringRequest := get_request (lit "/group1/" ++ hello_path).

Lemma upload_then_download_witness :
  exists ap1 r ap2 r',
    handle_request default_StoreConfig 4096 demo_re (demo_application demo_app) zero_globals upload_rq =
      (ap1, zero_globals, Ok r) /\ res_status r = status_ok /\
    handle_request default_StoreConfig 4096 demo_re (repaired ap1) zero_globals fetch_rq =
      (ap2, zero_globals, Ok r') /\ res_status r' = status_ok /\ res_body r' = FileBody (lit "hello").
Proof.
  apply (upload_then_download default_StoreConfig 4096 demo_re demo_re (demo_application demo_app)
           zero_globals zero_globals upload_rq fetch_rq uploaded_disk hello_path
           (fst (save_meta fresh_store
             (accepted_meta demo_env demo_app (snd (get_form upload_ctx)) hello_path)))).
  - reflexivity.
  - reflexivity.
  - reflexivity.
  - split_and!; vm_compute; (reflexivity || discriminate).
  - reflexivity.
  - by_decide.
  - vm_compute. discriminate.
  - apply pair_fst. vm_compute. reflexivity.
  - assert (resolve uploaded_disk (path_append (root_dir default_StoreConfig) hello_path) =
      Some (store_loc ++ [lit "default"; take 2 hello_md5; take 2 (drop 2 hello_md5);
                          hello_md5 ++ lit ".txt"])) as Hl by (vm_compute; reflexivity).
    intros l. rewrite Hl. intros [= <-]. vm_compute. reflexivity.
  - apply pair_fst. vm_compute. reflexivity.
  - vm_compute. reflexivity.
  - by_decide.
  - by_decide.
  - reflexivity.
  - reflexivity.
Defined.
