(* ===== verification/Answered.v ===== *)
(** Which requests get a reply. A reply is a JSON document, which can be written only
    when its texts are UTF-8; a handler that catches an exception puts the message in
    the reply, and the message of a [filesystem_error] contains the paths of the call. *)

From stdpp Require Import base list strings gmap sorting numbers fin_maps.
From Stdlib Require Import ZArith Ascii Lia.
From S2P Require Import Prelude Algorithm Util UrlUtils Json Utf8 MetaFile LevelDB MetadataStore.
From S2P Require Import MetaRefine Multipart Http Router Singleton Paths CryptoUtils FileSystem FileStore FileCtl.
From S2P Require Import HttpSession SystemCtl Server.

Import MultipartParser.

Create HintDb utf8.

(** ** Texts of records *)

Lemma at_utf8 k j v : json_utf8 j = true -> at_ k j = Ok v -> json_utf8 v = true.
Proof.
  intros Hj. destruct j as [| | | | | |m]; try done. simpl.
  destruct (members_get k m) as [x|] eqn:E; [|done]. intros [= <-].
  by apply (obj_get_utf8 k (JObj m)).
Qed.

Lemma get_str_utf8 j s : json_utf8 j = true -> get_str j = Ok s -> utf8 s = true.
Proof. destruct j; try done. by intros ? [= <-]. Qed.

Lemma get_list_utf8 {A} (P : A -> bool) (f : json -> outcome A) j l :
  (forall x y, json_utf8 x = true -> f x = Ok y -> P y = true) ->
  json_utf8 j = true -> get_list f j = Ok l -> forallb P l = true.
Proof.
  intros Hf. destruct j as [| | | | |xs|]; try done. simpl. revert l.
  induction xs as [|x xs IH]; intros l; simpl; [by intros _ [= <-]|].
  intros [Hx Hxs]%andb_true_iff. destruct (f x) as [y|] eqn:Hy; [|done]. simpl.
  destruct (outcome_map f xs) as [ys|] eqn:Hys; [|done]. intros [= <-]. simpl.
  by rewrite (Hf _ _ Hx Hy), (IH _ Hxs eq_refl).
Qed.

(** Step through the members read by a conversion. *)
Ltac read_member :=
  match goal with
  | |- context [outcome_bind (at_ ?k ?j) _] =>
      let v := fresh "v" in let E := fresh "E" in
      destruct (at_ k j) as [v|] eqn:E; cbn [outcome_bind]; [|done];
      apply at_utf8 in E; [|assumption]
  | |- context [outcome_bind ?x _] =>
      let v := fresh "v" in let E := fresh "E" in
      destruct x as [v|] eqn:E; cbn [outcome_bind]; [|done]
  end.

Lemma shard_from_json_utf8 j s : json_utf8 j = true -> shard_from_json j = Ok s -> shard_utf8 s = true.
Proof.
  intros Hj. unfold shard_from_json. repeat read_member. intros [= <-]. unfold shard_utf8. simpl.
  apply andb_true_iff. split; (eapply get_str_utf8; [|eassumption]; assumption).
Qed.

(** What was read from JSON can be written as JSON. *)
Lemma meta_from_json_utf8 j m : json_utf8 j = true -> meta_from_json j = Ok m -> meta_utf8 m = true.
Proof.
  intros Hj. unfold meta_from_json. repeat read_member. intros [= <-]. unfold meta_utf8. simpl.
  rewrite !andb_true_iff. split_and!;
    first [ eapply get_str_utf8; [|eassumption]; assumption
          | eapply get_list_utf8; [exact shard_from_json_utf8| |eassumption]; assumption
          | eapply get_list_utf8; [exact get_str_utf8| |eassumption]; assumption ].
Qed.

Lemma get_meta_utf8 {L : LevelDB} {J : JsonLib} {JL : JsonLaws J} st key m :
  get_meta st key = Some m -> json_utf8 (meta_to_json m) = true.
Proof.
  unfold get_meta. intros H. rewrite meta_json_utf8.
  destruct (if is_md5 key then _ else _) as [h|]; [|done]. destruct (db_get _ h) as [v|]; [|done].
  unfold deserialize in H. destruct (Json.parse v) as [j|e] eqn:Hp; [|done]. simpl in H.
  destruct (meta_from_json j) as [m'|e] eqn:Hm; [|done]. injection H as ->.
  eapply meta_from_json_utf8; [|exact Hm]. by eapply parse_utf8.
Qed.

(** ** Texts of paths *)

Lemma ascii7_slash : ascii7 SLASH.
Proof. by_decide. Qed.
Lemma ascii7_dot : ascii7 DOT.
Proof. by_decide. Qed.
#[export] Hint Resolve utf8_app utf8_all_ascii ascii7_slash ascii7_dot : utf8.

Lemma path_append_utf8 p q : utf8 p = true -> utf8 q = true -> utf8 (path_append p q) = true.
Proof. intros Hp Hq. unfold path_append. repeat case_match; auto with utf8. Qed.
#[export] Hint Resolve path_append_utf8 : utf8.

Lemma path_append_ascii p q : Forall ascii7 p -> Forall ascii7 q -> Forall ascii7 (path_append p q).
Proof.
  intros Hp Hq. unfold path_append. repeat case_match; [done| |by apply Forall_app].
  apply Forall_app. split; [done|]. simpl. apply Forall_cons_2; [apply ascii7_slash|done].
Qed.

Lemma path_filename_utf8 p : utf8 p = true -> utf8 (path_filename p) = true.
Proof.
  destruct (path_filename_split p) as [->|[d E]]; [done|]. intros Hp. rewrite E in Hp.
  eapply utf8_after; [apply ascii7_slash|exact Hp].
Qed.

Lemma path_extension_utf8 p : utf8 p = true -> utf8 (path_extension p) = true.
Proof.
  intros Hp%path_filename_utf8. unfold path_extension. case_decide; [done|].
  destruct (last_dot _) as [e|] eqn:E; [|done]. case_decide; [done|].
  apply last_dot_split in E as (d & e' & E & ->). rewrite E in Hp.
  by apply utf8_cut in Hp as [_ ?]; [|apply ascii7_dot].
Qed.
#[export] Hint Resolve path_extension_utf8 : utf8.

Lemma utf8_before_slashes d n : utf8 (d ++ replicate n SLASH) = true -> utf8 d = true.
Proof.
  destruct n as [|n]; simpl; [by rewrite app_nil_r|]. intros H.
  by apply utf8_cut in H as [? _]; [|apply ascii7_slash].
Qed.

Lemma parent_path_utf8 p : utf8 p = true -> utf8 (parent_path p) = true.
Proof.
  intros Hp. unfold parent_path. set (dir := take _ p).
  assert (utf8 dir = true) as Hdir.
  { subst dir. destruct (path_filename_split p) as [E|[d E]].
    - by rewrite E, Nat.sub_diag, take_0.
    - remember (path_filename p) as f. rewrite E in Hp |- *. rewrite length_app. simpl.
      replace (length d + S (length f) - length f) with (length (d ++ [SLASH]))
        by (rewrite length_app; simpl; lia).
      replace (d ++ SLASH :: f) with ((d ++ [SLASH]) ++ f) by by rewrite <- app_assoc.
      rewrite take_app_length. apply utf8_cut in Hp as [Hd _]; [|apply ascii7_slash].
      auto with utf8. }
  destruct (strip_slashes_split (reverse dir)) as [n E].
  assert (utf8 (reverse (strip_slashes (reverse dir))) = true) as Hs.
  { apply (utf8_before_slashes _ n). rewrite <- reverse_replicate, <- reverse_app, <- E.
    by rewrite reverse_involutive. }
  case_match; [by case_match|done].
Qed.
#[export] Hint Resolve parent_path_utf8 : utf8.

Lemma is_hex_ascii c : is_hex c -> ascii7 c.
Proof. unfold is_hex, ascii7. lia. Qed.

Lemma md5_ascii {M : Md5Lib} data : Forall ascii7 (CryptoUtils.md5 data).
Proof. eapply Forall_weaken; [|apply md5_hex]. apply is_hex_ascii. Qed.

Lemma md5_to_rel_path_utf8 h p : Forall ascii7 h -> md5_to_rel_path h = Ok p -> utf8 p = true.
Proof.
  intros Hh. unfold md5_to_rel_path. case_decide; [done|]. intros [= <-]. apply utf8_all_ascii.
  assert (forall i n, Forall ascii7 (substr h i n)) as Hs.
  { intros i n. unfold substr. case_decide; auto using Forall_take, Forall_drop. }
  repeat apply path_append_ascii; auto.
Qed.

Lemma md5_to_rel_path_throws h e : Forall ascii7 h -> md5_to_rel_path h = Throw e -> utf8 e = true.
Proof.
  intros Hh. unfold md5_to_rel_path. case_decide; [|done]. intros He.
  replace e with (lit "[FileStore] MD5 length too short: " ++ h) by congruence.
  apply utf8_app; [done|]. by apply utf8_all_ascii.
Qed.

(** ** Messages of exceptions *)

(** The error texts of the system are UTF-8. *)
Class FsTextLaws (T : FsText) : Prop := {
  system_what_utf8 call s : utf8 (system_what call s) = true }.

Section Handlers.
Context {L : LevelDB} {J : JsonLib} {JL : JsonLaws J} {M : Md5Lib} {O : DirOrder} {T : FsText}.
Context {TL : FsTextLaws T} {SS : StdSort} (config_ : StoreConfig) (dir_st_size : Z).

Lemma fs_error_utf8 call s ps : Forall (fun p => utf8 p = true) ps -> utf8 (fs_error call s ps) = true.
Proof.
  intros Hps. unfold fs_error. apply utf8_app; [done|]. apply utf8_app; [apply system_what_utf8|].
  induction Hps as [|p ps Hp _ IH]; [done|]. rewrite fmap_cons. cbn [concat].
  apply utf8_app; [|done]. apply utf8_app; [done|]. by apply utf8_app.
Qed.

(** The message contains the paths of the call. *)
Lemma fs_error_not_utf8 call s ps p : p ∈ ps -> utf8 p = false -> utf8 (fs_error call s ps) = false.
Proof.
  intros Hin Hp. apply not_true_iff_false. intros H. apply not_true_iff_false in Hp. apply Hp.
  apply list_elem_of_split in Hin as (l1 & l2 & ->). revert H. unfold fs_error.
  rewrite fmap_app, fmap_cons, concat_app. cbn [concat].
  set (before := concat _). set (after := concat _).
  replace (lit "filesystem error: " ++ system_what call s ++ before ++ (lit " [" ++ p ++ lit "]") ++ after)
    with ((lit "filesystem error: " ++ system_what call s ++ before ++ lit " ") ++ chr 91 :: (p ++ chr 93 :: after))
    by (rewrite <- !app_assoc; reflexivity).
  intros [_ H]%utf8_cut; [|by_decide]. by apply utf8_cut in H as [H _]; [|by_decide].
Qed.

(** A call whose exceptions have UTF-8 messages. *)
Definition says_utf8 {A} (m : io A) : Prop := forall e, snd m = Throw e -> utf8 e = true.

Lemma says_bind {A B} (m : io A) (f : fs -> A -> io B) :
  says_utf8 m -> (forall s a, says_utf8 (f s a)) -> says_utf8 (io_bind m f).
Proof. destruct m as [s [a|e]]; intros Hm Hf; [apply Hf|]. intros e' [= <-]. by apply Hm. Qed.

Lemma says_ok {A} s (a : A) : says_utf8 (s, Ok a).
Proof. done. Qed.

Lemma says_error {A} s call s1 ps :
  Forall (fun p => utf8 p = true) ps -> says_utf8 (s, Throw (fs_error call s1 ps) : outcome A).
Proof. intros Hps e [= <-]. by apply fs_error_utf8. Qed.

Lemma says_status s p : utf8 p = true -> says_utf8 (fs_status s p).
Proof.
  intros Hp. unfold fs_status, ask. destruct (next_fault s) as [f s1].
  destruct f; (apply says_ok || (apply says_error; by constructor)).
Qed.

Lemma says_exists s p : utf8 p = true -> says_utf8 (exists_path s p).
Proof. intros Hp. apply says_bind; [by apply says_status|done]. Qed.

Lemma says_file_size s p : utf8 p = true -> says_utf8 (file_size s p).
Proof.
  intros Hp. unfold file_size, ask. destruct (next_fault s) as [f s1].
  destruct f; repeat case_match; (apply says_ok || (apply says_error; by constructor)).
Qed.

Lemma says_remove s p : utf8 p = true -> says_utf8 (remove s p).
Proof.
  intros Hp. unfold remove. destruct (next_fault s) as [f s1].
  destruct f; repeat case_match; (apply says_ok || (apply says_error; by constructor)).
Qed.

Lemma says_rename s p q : utf8 p = true -> utf8 q = true -> says_utf8 (rename s p q).
Proof.
  intros Hp Hq. unfold rename. destruct (next_fault s) as [f s1].
  destruct f; repeat case_match; (apply says_ok || (apply says_error; by repeat constructor)).
Qed.

Lemma says_remove_all s p : utf8 p = true -> says_utf8 (remove_all s p).
Proof.
  intros Hp. unfold remove_all. destruct (next_fault s) as [f s1].
  destruct f; repeat case_match; (apply says_ok || (apply says_error; by constructor)).
Qed.

Lemma says_iterator s p : utf8 p = true -> says_utf8 (directory_iterator s p).
Proof.
  intros Hp. unfold directory_iterator, ask. destruct (next_fault s) as [f s1].
  destruct f; repeat case_match; (apply says_ok || (apply says_error; by constructor)).
Qed.
#[local] Hint Resolve says_bind says_ok says_status says_exists says_file_size says_remove says_rename
  says_remove_all says_iterator : utf8.

Lemma says_try {A} (m : io A) p (f : fs -> A -> io bool) :
  utf8 p = true -> (forall s a, says_utf8 (f s a)) -> says_utf8 (io_try m p f).
Proof.
  intros Hp Hf. destruct m as [s [a|e]]; [apply Hf|]. apply says_bind; [by apply says_remove|done].
Qed.
#[local] Hint Resolve says_try : utf8.

Lemma says_drop s p : utf8 p = true -> says_utf8 (drop_written s p).
Proof. intros Hp. unfold drop_written. eauto 6 with utf8. Qed.
#[local] Hint Resolve says_drop : utf8.

Lemma says_write_new rnd s p data : utf8 p = true -> says_utf8 (write_new rnd s p data).
Proof.
  intros Hp. unfold write_new. destruct (create_directories _ _) as [s1 b].
  destruct (write_file _ _ _) as [s2 []]; [done|by apply says_try|].
  apply says_try; [done|]. intros s3 _. unfold verify_written. apply says_try; [done|].
  intros s4 [n|]; [|by apply says_drop]. apply says_try; [done|]. intros s5 n'.
  case_decide; [done|by apply says_drop].
Qed.

(** [write_disk] throws only the errors of calls on its path. *)
Lemma says_write_disk rnd s p data : utf8 p = true -> says_utf8 (write_disk rnd s p data).
Proof.
  intros Hp. unfold write_disk. apply says_bind; [by apply says_exists|]. intros s1 [].
  - apply says_bind; [by apply says_file_size|]. intros s2 n. case_decide; [done|by apply says_write_new].
  - by apply says_write_new.
Qed.

Lemma save_file_throws rnd s f data scene_ h :
  Forall ascii7 h -> utf8 (root_dir config_) = true -> utf8 f = true -> utf8 scene_ = true ->
  says_utf8 (save_file config_ rnd s f data scene_ h).
Proof.
  intros Hh Hr Hf Hs. unfold save_file. cbv zeta. set (fh := if decide _ then _ else _).
  assert (Forall ascii7 fh) as Hfh by (subst fh; case_decide; [apply md5_ascii|done]).
  destruct (md5_to_rel_path fh) as [rp|e'] eqn:Hrp; cbn [io_bind].
  2: { intros e [= <-]. by eapply md5_to_rel_path_throws. }
  apply md5_to_rel_path_utf8 in Hrp; [|done]. set (p := path_append (path_append _ _) _).
  assert (utf8 p = true) as Hp by (subst p; auto 6 with utf8).
  apply says_bind; [by apply says_exists|]. intros s1 [|]; [done|].
  destruct (create_directories _ _) as [s2 []]; cbn [negb]; [|done].
  apply says_bind; [by apply says_write_disk|]. by intros s3 [].
Qed.

(** ** Replies *)

Definition answered (r : handled) : Prop := exists x, snd r = Ok x.

Lemma error_answered a ctx msg st : utf8 msg = true -> answered (a, error ctx msg st).
Proof. intros Hm. destruct (error_ok ctx msg st Hm) as (r & Hr & _). by exists r. Qed.

Lemma success_answered a ctx data msg :
  json_utf8 data = true -> utf8 msg = true -> answered (a, success ctx data msg).
Proof. intros Hd Hm. destruct (success_ok ctx data msg Hd Hm) as (r & Hr & _). by exists r. Qed.

(** A reply that cannot be written throws a message that can. *)
Lemma success_throws ctx data msg e : success ctx data msg = Throw e -> utf8 e = true.
Proof.
  unfold success. set (j := mk_obj _). destruct (json_utf8 j) eqn:Hj.
  - destruct (dump_utf8 _ Hj) as [s ->]. done.
  - destruct (dump_not_utf8 _ Hj) as (e' & -> & He). by intros [= <-].
Qed.

Lemma catch_answered ctx prefix r :
  utf8 prefix = true -> (forall e, snd r = Throw e -> utf8 e = true) -> answered (catch_reply ctx prefix r).
Proof.
  intros Hp He. destruct r as [a [x|e]]; simpl; [by exists x|].
  apply error_answered, utf8_app; [done|]. by apply He.
Qed.

(** ** The handlers *)

(** The texts of a request that handlers put into paths. *)
Record texts_ok (form : MultipartForm) : Prop := {
  text_upload : utf8 (filename form) = true;
  text_name : utf8 (get_param form (lit "filename") []) = true;
  text_scene : utf8 (get_param form (lit "scene") (lit "default")) = true;
  text_md5 : Forall ascii7 (get_param form (lit "md5") []);
  text_chunk : utf8 (get_param form (lit "chunk") []) = true; }.

(** A call that throws. *)
Definition throws {A} (m : io A) : bool :=
  match snd m with Ok _ => false | Throw _ => true end.

(** A handler that throws when [b] is true and is answered otherwise. *)
Definition decided (b : bool) (r : handled) : Prop :=
  if b then exists e, snd r = Throw e else answered r.

Record config_ok : Prop := {
  config_root : utf8 (root_dir config_) = true; config_temp : utf8 (temp_dir config_) = true }.

Lemma check_answered a ctx : answered (handleCheck a ctx).
Proof.
  unfold handleCheck. cbv zeta. repeat case_match;
    [by apply error_answered|by apply success_answered..].
Qed.

Lemma download_answered a ctx : answered (handleDownload config_ dir_st_size a ctx).
Proof.
  unfold handleDownload. cbv zeta. case_decide; [by apply error_answered|].
  destruct (open_read _ _) as [s [n| |]]; [by eexists|by apply error_answered..].
Qed.

Lemma json_ints_utf8 l : forallb json_utf8 (JInt <$> l) = true.
Proof. induction l as [|x l IH]; [done|]. exact IH. Qed.

(** The calls outside a [try]: the listing of the chunks, ... *)
Definition check_chunk_escapes (a : app) (ctx : HttpContext) : bool :=
  if decide (query_md5 ctx = []) then false
  else throws (get_shard_index (disk a)
         (get_root_dir config_ ++ lit "/" ++ get_temp_dir config_ ++ lit "/" ++ query_md5 ctx)).

Lemma check_chunk_decided a ctx :
  decided (check_chunk_escapes a ctx) (handleCheckChunk config_ a ctx).
Proof.
  unfold handleCheckChunk, check_chunk_escapes, throws. cbv zeta.
  case_decide; [by apply error_answered|].
  destruct (get_shard_index _ _) as [s1 [l|ex]]; [|by eexists]. apply success_answered; [|done].
  apply json_utf8_mk_obj. repeat constructor. apply json_ints_utf8.
Qed.

(** ... the writing of a chunk, ... *)
Definition chunk_upload_escapes (e : env) (a : app) (ctx : HttpContext) : bool :=
  let form := snd (get_form ctx) in
  let file_md5 := get_param form (lit "md5") [] in
  let chunk_index := get_param form (lit "chunk") [] in
  if decide (file_md5 = [] \/ content form = [] \/ chunk_index = []) then false
  else throws (save_file_at config_ (env_rnd e) (disk a) (content form)
         (get_temp_dir config_ ++ lit "/" ++ file_md5 ++ lit "/" ++ chunk_index)).

Lemma chunk_upload_decided e a ctx :
  texts_ok (snd (get_form ctx)) ->
  decided (chunk_upload_escapes e a ctx) (handleChunkUpload config_ e a ctx).
Proof.
  intros Ht. unfold handleChunkUpload, chunk_upload_escapes, throws. cbv zeta.
  case_decide; [by apply error_answered|].
  destruct (save_file_at _ _ _ _ _) as [s1 [[]|ex]]; [|by apply error_answered|by eexists].
  apply success_answered; [|done]. apply json_utf8_mk_obj. repeat constructor. apply (text_chunk _ Ht).
Qed.

Lemma upload_store_throws e a ctx f c x sc ex :
  config_ok -> utf8 f = true -> utf8 sc = true ->
  snd (upload_store config_ e a ctx f c x sc) = Throw ex -> utf8 ex = true.
Proof.
  intros Hc Hf Hs. unfold upload_store. cbv zeta.
  destruct (save_file _ _ _ _ _ _ _) as [s [p|e1]] eqn:Hsv; simpl.
  - case_decide; [by intros [= <-]|]. destruct p; [apply success_throws|by intros [= <-]].
  - assert (says_utf8 (s, Throw e1 : outcome (option str))) as Hthrows
      by (rewrite <- Hsv; apply save_file_throws; [apply md5_ascii|apply Hc|done..]).
    intros [= <-]. by apply Hthrows.
Qed.

Lemma upload_answered e a ctx : config_ok -> texts_ok (snd (get_form ctx)) -> answered (handleUpload config_ e a ctx).
Proof.
  intros Hc Ht. assert (forall a, answered (upload_form config_ e a ctx)) as Hform.
  { intros a'. unfold upload_form. cbv zeta. repeat (case_match; [by apply error_answered|]).
    apply catch_answered; [done|]. intros ex.
    apply upload_store_throws; [done|apply (text_upload _ Ht)|apply (text_scene _ Ht)]. }
  unfold handleUpload. cbv zeta. case_decide; [by apply error_answered|].
  case_decide; [done|]. destruct (get_meta _ _) as [m|] eqn:Hm; [|done].
  apply success_answered; [|done]. by eapply get_meta_utf8.
Qed.

Lemma to_string_utf8 z : utf8 (to_string z) = true.
Proof.
  assert (forall n, (0 <= n)%Z -> Forall ascii7 (dec n)) as Hd.
  { intros n Hn. eapply Forall_weaken; [|by apply dec_digits]. unfold is_digit, ascii7. lia. }
  apply utf8_all_ascii. unfold to_string. case_decide; [|apply Hd; lia].
  apply Forall_cons_2; [by_decide|]. apply Hd. lia.
Qed.

Lemma merge_loop_throws s dir ns good acc s' acc' e :
  merge_loop s dir ns good acc = (s', acc', Throw e) -> utf8 e = true.
Proof.
  revert s good acc. induction ns as [|i ns IH]; intros s good acc; [done|]. cbn [merge_loop].
  destruct (open_stream _ _) as [s1 [n|]].
  - destruct good; [|by apply IH]. destruct (read_stream _ _) as [[s2 d] ok]. apply IH.
  - intros H. replace e with (lit "Cannot open chunk: " ++ to_string i) by congruence.
    apply utf8_app; [done|]. apply to_string_utf8.
Qed.

Lemma merge_store_throws e a ctx dir ns h f sc ex :
  config_ok -> utf8 dir = true -> Forall ascii7 h -> utf8 f = true -> utf8 sc = true ->
  snd (merge_store config_ e a ctx dir ns h f sc) = Throw ex -> utf8 ex = true.
Proof.
  intros Hc Hdir Hh Hf Hs. unfold merge_store. cbv zeta.
  assert (utf8 h = true) as Hh8 by auto with utf8. set (merged := path_append _ _).
  assert (utf8 merged = true) as Hm by (subst merged; auto 6 with utf8).
  destruct (open_trunc _ _) as [s1 [l|]]; [|by intros [= <-]].
  destruct (merge_loop _ _ _ _ _) as [[s2 acc] [u|e2]] eqn:Hl;
    [|intros [= <-]; by eapply merge_loop_throws].
  destruct (md5_to_rel_path h) as [rp|e3] eqn:Hrp;
    [|intros [= <-]; by eapply md5_to_rel_path_throws].
  apply md5_to_rel_path_utf8 in Hrp; [|done]. set (final := path_append (path_append _ _) _).
  assert (utf8 final = true) as Hfin.
  { pose proof (config_root Hc). subst final. unfold get_root_dir. auto 6 with utf8. }
  destruct (create_directories _ _) as [s3 []]; cbn [negb].
  2: { intros [= <-]. apply fs_error_utf8, Forall_singleton. auto with utf8. }
  assert (says_utf8 (io_bind (rename s3 merged final) (fun s _ =>
            io_bind (remove_all s dir) (fun s _ => file_size s final)))) as Hcalls.
  { apply says_bind; [by apply says_rename|]. intros s4 _.
    apply says_bind; [by apply says_remove_all|]. intros s5 _. by apply says_file_size. }
  destruct (io_bind _ _) as [s4 [sz|e4]]; [apply success_throws|]. intros [= <-]. by apply Hcalls.
Qed.

(** ... and the first look at the directory of a merge. *)
Definition merge_escapes (a : app) (ctx : HttpContext) : bool :=
  let form := snd (get_form ctx) in
  let file_md5 := get_param form (lit "md5") [] in
  if decide (file_md5 = [] \/ get_param form (lit "filename") [] = []) then false
  else throws (exists_path (disk a) (merge_dir config_ file_md5)).

Lemma merge_decided e a ctx :
  config_ok -> texts_ok (snd (get_form ctx)) -> decided (merge_escapes a ctx) (handleMerge config_ e a ctx).
Proof.
  intros Hc Ht. unfold handleMerge, merge_escapes, throws. cbv zeta.
  case_decide; [by apply error_answered|]. set (h := get_param _ (lit "md5") []).
  destruct (exists_path _ _) as [s1 [[]|ex1]]; [|by apply error_answered|by eexists].
  cbn [snd decided]. apply catch_answered; [done|].
  assert (utf8 h = true) as Hh by (apply utf8_all_ascii, (text_md5 _ Ht)).
  assert (utf8 (merge_dir config_ h) = true) as Hdir.
  { pose proof (config_root Hc). pose proof (config_temp Hc). unfold merge_dir, get_root_dir, get_temp_dir.
    apply path_append_utf8; [|done]. apply utf8_app; [done|]. by apply utf8_app. }
  intros ex. unfold merge_try. pose proof (says_iterator s1 _ Hdir) as Hit. cbn [disk set_disk].
  destruct (directory_iterator _ _) as [s2 [entries|ex2]]; [|intros [= <-]; by apply Hit].
  cbv zeta. case_decide.
  { destruct (error_ok ctx (lit "No chunks found") bad_request) as (r & Hr & _); [done|].
    cbn [snd]. by rewrite Hr. }
  apply merge_store_throws; [done|exact Hdir|apply (text_md5 _ Ht)|apply (text_name _ Ht)|apply (text_scene _ Ht)].
Qed.

(** A merge whose [try] throws a message that is not UTF-8 throws again in the
    handler. *)
Lemma error_throws ctx msg st : utf8 msg = false -> exists e, error ctx msg st = Throw e.
Proof.
  intros Hm. unfold error. set (j := mk_obj _).
  destruct (dump_not_utf8 j) as (e & -> & _); [|by exists e].
  apply not_true_iff_false. intros Hj. apply not_true_iff_false in Hm. apply Hm.
  exact (obj_get_utf8 (lit "message") j (JStr msg) Hj eq_refl).
Qed.

End Handlers.

(** ** The server *)

Section Server.
Context {L : LevelDB} {J : JsonLib} {JL : JsonLaws J} {M : Md5Lib} {O : DirOrder} {T : FsText}.
Context {TL : FsTextLaws T} {SS : StdSort} {B : BeastLib} (config : StoreConfig) (dir_st_size : Z).

(** The form in the body of a request. *)
Definition request_form (rq : StringRequest) : MultipartForm :=
  snd (get_form (make_context rq [] [] ∅ [])).

Lemma get_form_context rq m p q x : snd (get_form (make_context rq m p q x)) = request_form rq.
Proof. unfold request_form, get_form. cbn. by destruct (MultipartParser.parse _ _ _) as [[f|]|]. Qed.

Lemma dispatch_prefix_context rq m p q es h ctx :
  dispatch_prefix (H := handler) rq m p q es = Ok (Call h ctx) -> snd (get_form ctx) = request_form rq.
Proof.
  induction es as [|e es IH]; [done|]. cbn [dispatch_prefix].
  repeat (case_match; [apply IH|]). destruct (pr_handler e) as [h'|].
  { intros E. injection E as _ <-. apply get_form_context. }
  by destruct (not_found _ _).
Qed.

Lemma dispatch_context r n rq h ctx :
  snd (dispatch (H := handler) r n rq) = Ok (Call h ctx) -> snd (get_form ctx) = request_form rq.
Proof.
  unfold dispatch. destruct (splitTarget _) as [p q]. cbn [snd].
  destruct (parseQuery q) as [qs|]; [|done]. cbn [outcome_bind].
  destruct (routers_ r !! _) as [[h'|]|]; [|done|apply dispatch_prefix_context].
  intros E. injection E as _ <-. apply get_form_context.
Qed.

(** Whether a call outside a [try] throws in the handler of a request. *)
Definition escapes (re : request_env) (a : app) (act : action (H := handler)) : bool :=
  match act with
  | Call HCheckChunk ctx => check_chunk_escapes config a ctx
  | Call HChunkUpload ctx => chunk_upload_escapes config (re_env re) a ctx
  | Call HMerge ctx => merge_escapes config a ctx
  | _ => false
  end.

(** The status of the machine is a report of its own. *)
Definition asks_status (act : action (H := handler)) : Prop :=
  match act with Call HStatus _ => True | _ => False end.

Lemma handle_request_decided re ap g rq act :
  config_ok config -> routed ap -> texts_ok (request_form rq) ->
  snd (dispatch (registered main_routes) (g_total_requests ap) rq) = Ok act -> ~ asks_status act ->
  let r := snd (handle_request config dir_st_size re ap g rq) in
  if escapes re (file_ctl ap) act then exists e, r = Throw e else exists x, r = Ok x.
Proof.
  intros Hc Hr Ht Hd Hg. cbv zeta. unfold handle_request. rewrite Hr. cbn [getInstance].
  destruct (dispatch _ _ _) as [n act'] eqn:E. cbn [snd] in Hd. subst act'.
  destruct act as [h ctx|r]; [|by exists r].
  assert (texts_ok (snd (get_form ctx))) as Ht'.
  { by rewrite (dispatch_context (registered main_routes) (g_total_requests ap) rq h ctx); [|rewrite E]. }
  destruct h; cbn [run_handler escapes snd file_ctl].
  - apply check_answered.
  - by apply upload_answered.
  - apply download_answered.
  - apply check_chunk_decided.
  - by apply chunk_upload_decided.
  - by destruct Hg.
  - by apply merge_decided.
Qed.

(** A session after a request that was answered, and after one whose handler threw. *)
Definition replying (s s' : session) : Prop := pend s' = Writing false /\ socket_open s' = socket_open s.
Definition dropped (s' : session) : Prop := pend s' = Idle /\ socket_open s' = false.

Lemma serve_outcome y i s bytes now leftover re rq :
  (Z.of_nat (length (req_body rq)) <= body_limit)%Z -> sessions (server_of y) !! i = Some s ->
  let r := snd (handle_request config dir_st_size re (application_of y)
                  (add_received bytes (gl (server_of y))) rq) in
  let y' := serve config dir_st_size y i s bytes now leftover re rq in
  exists s', sessions (server_of y') !! i = Some s' /\
    match r with
    | Ok _ => workers y' = workers y /\ replying s s'
    | Throw _ => workers y' = workers y - 1 /\ dropped s'
    end.
Proof.
  intros Hl Hi. unfold serve, read_code. cbv zeta. rewrite (decide_True _ _ Hl).
  rewrite (decide_True (P := ec_success = ec_success)) by done. unfold on_read.
  rewrite decide_False by done. rewrite (decide_False (P := ec_success <> ec_success)) by (intros H; by apply H).
  destruct (handle_request _ _ _ _ _ _) as [[ap g] r]. cbn [snd].
  destruct r as [x|e]; cbn [server_of sessions]; eexists;
    (split; [apply list_lookup_insert_eq; by eapply lookup_lt_Some|done]).
Qed.

(** * Properties *)

(** C25: a request within the body limit whose query decodes and whose form texts are
    UTF-8 (the digest ASCII), other than one for the status of the machine, is
    answered unless a call that its handler makes outside a [try] throws: the listing
    of the chunks in [handleCheckChunk], the writing of the chunk in
    [handleChunkUpload], the first look at the directory in [handleMerge]. Whatever
    other calls of the file system or writes of the database fail, the worker thread
    survives and the session starts to write a reply; in these three cases the worker
    thread ends and the connection is closed without a reply. *)
Theorem utf8_requests_answered y i s bytes now leftover re rq act :
  config_ok config -> routed (application_of y) -> texts_ok (request_form rq) ->
  (Z.of_nat (length (req_body rq)) <= body_limit)%Z ->
  snd (dispatch (registered main_routes) (g_total_requests (application_of y)) rq) = Ok act ->
  ~ asks_status act -> sessions (server_of y) !! i = Some s ->
  let y' := serve config dir_st_size y i s bytes now leftover re rq in
  exists s', sessions (server_of y') !! i = Some s' /\
    if escapes re (file_ctl (application_of y)) act
    then workers y' = workers y - 1 /\ dropped s'
    else workers y' = workers y /\ replying s s'.
Proof.
  intros Hc Hr Ht Hl Hd Hg Hi.
  destruct (serve_outcome y i s bytes now leftover re rq Hl Hi) as (s' & Hs' & Hout).
  pose proof (handle_request_decided re (application_of y) (add_received bytes (gl (server_of y)))
    rq act Hc Hr Ht Hd Hg) as Hdec.
  exists s'. split; [exact Hs'|]. destruct (escapes _ _ _); destruct Hdec as [x Hx]; by rewrite Hx in Hout.
Qed.

(** C38: the message of a file-system error contains the paths of the call, and the
    handler of [handleMerge] puts it into its reply: a merge that finds its directory
    and then fails with an error on a path that is not UTF-8 makes the handler throw
    again, which ends the worker thread and closes the connection without a reply. *)
Theorem merge_error_ends_worker y i s bytes now leftover re rq ctx s1 call s2 ps p :
  let a := file_ctl (application_of y) in
  let h := get_param (request_form rq) (lit "md5") [] in
  let f := get_param (request_form rq) (lit "filename") [] in
  let sc := get_param (request_form rq) (lit "scene") (lit "default") in
  routed (application_of y) -> (Z.of_nat (length (req_body rq)) <= body_limit)%Z ->
  snd (dispatch (registered main_routes) (g_total_requests (application_of y)) rq) = Ok (Call HMerge ctx) ->
  sessions (server_of y) !! i = Some s -> h <> [] -> f <> [] ->
  exists_path (disk a) (merge_dir config h) = (s1, Ok true) ->
  snd (merge_try config (re_env re) (set_disk a s1) ctx (merge_dir config h) h f sc) =
    Throw (fs_error call s2 ps) ->
  p ∈ ps -> utf8 p = false ->
  let y' := serve config dir_st_size y i s bytes now leftover re rq in
  workers y' = workers y - 1 /\ exists s', sessions (server_of y') !! i = Some s' /\ dropped s'.
Proof.
  intros a h f sc Hr Hl Hd Hi Hh Hf He Ht Hp Hu.
  destruct (serve_outcome y i s bytes now leftover re rq Hl Hi) as (s' & Hs' & Hout).
  assert (exists e, snd (handle_request config dir_st_size re (application_of y)
            (add_received bytes (gl (server_of y))) rq) = Throw e) as [e Hthrow].
  { pose proof (dispatch_context _ _ _ _ _ Hd) as Hform.
    unfold handle_request. rewrite Hr. cbn [getInstance].
    destruct (dispatch _ _ _) as [n act']. cbn [snd] in Hd. subst act'.
    cbn [run_handler snd file_ctl]. unfold handleMerge. rewrite Hform. cbv zeta. fold a h f sc.
    rewrite decide_False by (by intros [?|?]). rewrite He.
    destruct (merge_try _ _ _ _ _ _ _ _) as [a' r]. cbn [snd] in Ht. subst r. cbn [catch_reply snd].
    apply error_throws. apply not_true_iff_false. intros Hw.
    apply (utf8_after (lit "Merge failed:") (chr 32)) in Hw; [|by_decide].
    by rewrite (fs_error_not_utf8 _ _ _ _ Hp Hu) in Hw. }
  rewrite Hthrow in Hout. destruct Hout as [Hw Hdr]. split; [done|]. by exists s'.
Qed.

(** A request with a longer body is dropped: the connection is closed without a reply,
    and the application does not see the request. *)
Theorem oversized_request_dropped y i s bytes now leftover re rq :
  (body_limit < Z.of_nat (length (req_body rq)))%Z -> sessions (server_of y) !! i = Some s ->
  let y' := serve config dir_st_size y i s bytes now leftover re rq in
  application_of y' = application_of y /\ workers y' = workers y /\
  exists s', sessions (server_of y') !! i = Some s' /\ pend s' = Idle /\ socket_open s' = false.
Proof.
  intros Hl Hi. unfold serve, read_code. cbv zeta. rewrite decide_False by lia.
  unfold on_read. rewrite !(decide_False (P := ec_body_limit = _)) by done.
  rewrite decide_True by done. cbn [fst log_and_close]. split_and!; [done..|].
  cbn [server_of sessions]. eexists.
  split; [apply list_lookup_insert_eq; by eapply lookup_lt_Some|done].
Qed.

End Server.

(** * Witnesses *)

Import TaggedJson PadMd5 ListOrder PlainText MergeSort.

#[local] Instance answered_beast : BeastLib :=
  {| BOOST_BEAST_VERSION_STRING := lit "Boost.Beast/347" |}.

#[export] Instance plain_text_laws : FsTextLaws plain_text.
Proof. split. intros [] s; reflexivity. Qed.

Lemma default_config_ok : config_ok default_StoreConfig.
Proof. split; reflexivity. Qed.

Lemma upload_rq_texts : texts_ok (request_form upload_rq).
Proof. split; first [by_decide | vm_compute; reflexivity]. Qed.

(** The upload of a file, on a disk on which every call fails. *)
Definition broken_system : system :=
  let a := set_disk demo_app {| nodes := nodes store_disk; cwd := []; faults := replicate 9 (Bad 0) |} in
  set_server {| application_of := demo_application a; server_of := boot; workers := 2 |}
    (on_accept boot false).

Lemma utf8_requests_answered_witness :
  workers (serve default_StoreConfig 4096 broken_system 0 new_session 300 5 [] demo_re upload_rq) = 2.
Proof.
  destruct (utf8_requests_answered default_StoreConfig 4096 broken_system 0 new_session 300 5 []
    demo_re upload_rq (Call HUpload (make_context upload_rq (lit "POST") (lit "/upload") ∅ []))
    default_config_ok eq_refl upload_rq_texts) as (s' & _ & Hw & _).
  - vm_compute. discriminate.
  - rewrite dispatch_upload; reflexivity.
  - exact id.
  - reflexivity.
  - exact Hw.
Defined.

(** ** An exception inside the [catch] *)

(** A digest whose chunk is there, and a regular file whose name is not UTF-8. *)
Definition trap_digest : str := lit "abcd1234".
Definition latin1_name : str := [chr 255].

Definition trap_disk : fs :=
  set_nodes (<[store_loc ++ [lit " _tmp"] := Dir]>
            (<[store_loc ++ [lit " _tmp"; trap_digest] := Dir]>
            (<[store_loc ++ [lit " _tmp"; trap_digest; lit "0"] := File (lit "x")]>
            (<[store_loc ++ [latin1_name] := File (lit "y")]> (nodes store_disk))))) store_disk.

(** A request to merge the chunk into that file as if it were a directory. *)
Definition trap_rq : StringRequest :=
  {| req_method := verb_post; req_target := lit "/merge"; req_version := 11; req_keep_alive := true;
     req_content_type := demo_ct;
     req_body := render (lit "--XyZ")
       [field_part (lit "md5", trap_digest); field_part (lit "filename", lit "a.txt");
        field_part (lit "scene", latin1_name); text_file (lit "z")] CRLF |}.

Definition trap_system : system :=
  set_server {| application_of := demo_application (set_disk demo_app trap_disk);
                server_of := boot; workers := 2 |} (on_accept boot false).

(** The directory is there, and the scene cannot be created. *)
Definition trap_path : str := parent_path (path_append (path_append (root_dir default_StoreConfig) latin1_name)
                                (lit "ab/cd/abcd1234.txt")).

Lemma merge_error_ends_worker_witness :
  workers (serve default_StoreConfig 4096 trap_system 0 new_session 400 5 [] demo_re trap_rq) = 1.
Proof.
  pose (ctx := make_context trap_rq (lit "POST") (lit "/merge") ∅ []).
  pose (r := merge_try default_StoreConfig demo_env (set_disk demo_app trap_disk) ctx
               (merge_dir default_StoreConfig trap_digest) trap_digest (lit "a.txt") latin1_name).
  refine (proj1 (merge_error_ends_worker default_StoreConfig 4096 trap_system 0 new_session 400 5 []
    demo_re trap_rq ctx trap_disk CallCreateDirectories (disk (fst r)) [trap_path] trap_path
    eq_refl _ _ eq_refl _ _ _ _ _ _)).
  - vm_compute. discriminate.
  - vm_compute. reflexivity.
  - by_decide.
  - by_decide.
  - vm_compute. reflexivity.
  - vm_compute. reflexivity.
  - by left.
  - vm_compute. reflexivity.
Defined.
