(* ===== verification/Main.v ===== *)
(** The life of the process, [main] of [test/server_test.cc]: which failures end it and
    how, and what its exit code says. *)

From stdpp Require Import base list strings gmap numbers relations.
From Stdlib Require Import ZArith Ascii Lia.
From S2P Require Import Prelude Algorithm Util UrlUtils Json MetaFile LevelDB MetadataStore MetaRefine.
From S2P Require Import Multipart Http Router Singleton Paths CryptoUtils FileSystem FileStore FileCtl.
From S2P Require Import HttpSession SystemCtl Server.

Local Open Scope outcome_scope.

(** ** Configuration *)

Record AppConfig : Type := { ac_store : StoreConfig; ac_meta : metaConfig; db_path : str }.

Definition app_config : AppConfig :=
  {| ac_store := default_StoreConfig; ac_meta := default_metaConfig; db_path := lit "test.db" |}.

Section Main.
Context {L : LevelDB} {J : JsonLib} {M : Md5Lib} {O : DirOrder} {T : FsText} {SS : StdSort} {B : BeastLib}.
Context (dir_st_size : Z).

Abbreviation config := (ac_store app_config).

(** ** The process *)

(** The threads run; [main] has returned, with what it wrote to [std::cerr]; or
    [std::terminate] has ended the program, after the exception [e] has left [main] or
    has destroyed threads that were not joined. *)
Inductive process : Type :=
| Running (y : system)
| Exited (code : Z) (err : str)
| Terminated (e : str).

(** The loop that creates the threads. [launch i] is the exception of the constructor of
    the thread number [i], if it throws; the result is the number of threads, or the
    exception with the number of threads created before. *)
Fixpoint start_threads (launch : nat -> option str) (todo created : nat) : nat + nat * str :=
  match todo with
  | 0 => inl created
  | S todo' =>
      match launch created with
      | None => start_threads launch todo' (S created)
      | Some e => inr (created, e)
      end
  end.

(** The handler of [main]. *)
Definition fatal (e : str) : process := Exited 1 (lit "Fatal exception: " ++ e ++ [LF]).

(** [main] up to the start of the threads. The stores are opened before the [try], the
    acceptor and the threads are made inside it. [open_db] opens the database of a path.
    Of the two stores, which are arguments of one call, the file store is made first
    here. When a thread cannot be created, the vector of the threads is destroyed before
    the handler runs, and a thread in it, which was not joined, ends the program. *)
Definition main_boot (s0 : fs) (open_db : str -> DB + str) (bound : bool) (now : Z) (num_threads : nat)
    (launch : nat -> option str) : process :=
  match FileStore_new s0 config with
  | Throw e => Terminated e
  | Ok s =>
      match MetadataStore_new (open_db (db_path app_config)) default_metaConfig with
      | Throw e => Terminated e
      | Ok st =>
          let '(router, _) := getInstance empty_router None in
          match cServer_new bound with
          | Throw e => fatal e
          | Ok sv =>
              match start_threads launch num_threads 0 with
              | inr (0, e) => fatal e
              | inr (S _, e) => Terminated e
              | inl created =>
                  Running
                    {| application_of :=
                         {| router_instance := Some (foldl register router main_routes);
                            file_ctl := FileCtl_new s st; system_ctl := new_SystemCtl;
                            g_total_requests := 0; g_start_time := now |};
                       server_of := start_accept sv; workers := created |}
              end
          end
      end
  end.

(** A request whose handling throws: the exception leaves [ioc.run()], is logged, and the
    thread ends. *)
Definition threw (y y' : system) : Prop :=
  exists i s bytes now leftover re rq e,
    0 < workers y /\ sessions (server_of y) !! i = Some s /\ pend s = Reading /\ socket_open s = true /\
    y' = serve config dir_st_size y i s bytes now leftover re rq /\ read_code rq = ec_success /\
    snd (handle_request config dir_st_size re (application_of y) (add_received bytes (gl (server_of y))) rq) =
      Throw e.

(** Nothing is left that [ioc.run()] could wait for. *)
Definition out_of_work (sv : server) : Prop :=
  accepts sv = 0 /\ dangling sv = 0 /\
  Forall (fun s => pend s = Idle /\ timer_armed s = false /\ expired s = 0) (sessions sv).

Definition fewer_workers (y : system) : system :=
  {| application_of := application_of y; server_of := server_of y; workers := workers y - 1 |}.

(** A run of the process in which [k] requests have thrown: [ioc.run()] returns when it is
    out of work, and [main] returns when all threads are joined. *)
Inductive main_run : nat -> process -> process -> Prop :=
| run_here m : main_run 0 m m
| run_throw k y y' m :
    threw y y' -> main_run k (Running y') m -> main_run (S k) (Running y) m
| run_step k y y' m :
    system_step config dir_st_size y y' -> ~ threw y y' -> main_run k (Running y') m ->
    main_run k (Running y) m
| run_idle k y m :
    0 < workers y -> out_of_work (server_of y) -> main_run k (Running (fewer_workers y)) m ->
    main_run k (Running y) m
| run_join y : workers y = 0 -> main_run 0 (Running y) (Exited 0 []).

(** * Lemmas *)

(** All threads are created, or one of them is the first that is not. *)
Definition launched (launch : nat -> option str) (n : nat) : Prop := forall i, i < n -> launch i = None.

Lemma start_threads_cases launch todo created :
  match start_threads launch todo created with
  | inl n => n = created + todo /\ forall i, created <= i < created + todo -> launch i = None
  | inr (i, e) => created <= i < created + todo /\ launch i = Some e /\
                  forall j, created <= j < i -> launch j = None
  end.
Proof.
  revert created. induction todo as [|todo IH]; intros created; simpl; [split; [lia|]; intros; lia|].
  destruct (launch created) as [e|] eqn:Hl; [split_and!; [lia|lia|done|]; intros; lia|].
  specialize (IH (S created)). destruct (start_threads _ _ _) as [n|[i e]].
  - destruct IH as [-> Hall]. split; [lia|]. intros i Hi.
    destruct (decide (i = created)) as [->|]; [done|]. apply Hall. lia.
  - destruct IH as (Hi & Hf & Hall). split_and!; [lia|lia|done|]. intros j Hj.
    destruct (decide (j = created)) as [->|]; [done|]. apply Hall. lia.
Qed.

(** How [main_boot] ends, by the call that fails first; it is [start_main] when none does. *)
Definition boot_spec (s0 : fs) (open_db : str -> DB + str) (bound : bool) (now : Z) (n : nat)
    (launch : nat -> option str) (m : process) : Prop :=
  match m with
  | Terminated e =>
      FileStore_new s0 config = Throw e \/
      MetadataStore_new (open_db (db_path app_config)) default_metaConfig = Throw e \/
      bound = true /\ exists i, 0 < i < n /\ launched launch i /\ launch i = Some e
  | Exited code err =>
      code = 1%Z /\
      (bound = false /\ err = lit "Fatal exception: bind" ++ [LF] \/
       bound = true /\ 0 < n /\ exists e, launch 0 = Some e /\ err = lit "Fatal exception: " ++ e ++ [LF])
  | Running y =>
      bound = true /\ launched launch n /\
      start_main config s0 (open_db (db_path app_config)) bound now n = Ok y
  end.

Lemma main_boot_spec s0 open_db bound now n launch :
  boot_spec s0 open_db bound now n launch (main_boot s0 open_db bound now n launch).
Proof.
  unfold main_boot, boot_spec, start_main.
  destruct (FileStore_new s0 config) as [s|e]; [|by left]. cbn [outcome_bind].
  destruct (MetadataStore_new _ _) as [st|e]; [|by right; left]. cbn [outcome_bind getInstance].
  destruct bound; cbn [cServer_new outcome_bind]; [|split; [done|by left]].
  pose proof (start_threads_cases launch n 0) as Hs.
  destruct (start_threads _ _ _) as [k|[[|i] e]]; cbn [fatal].
  - destruct Hs as [-> Hall]. split_and!; [done| |done]. intros i Hi. apply Hall. lia.
  - destruct Hs as (Hi & Hl & _). split; [done|]. right. split_and!; [done|lia|by exists e].
  - destruct Hs as (Hi & Hl & Hall). right; right. split; [done|]. exists (S i).
    split_and!; [lia|lia| |done]. intros j Hj. apply Hall. lia.
Qed.

Lemma serve_workers y i s bytes now leftover re rq :
  workers (serve config dir_st_size y i s bytes now leftover re rq) =
  if decide (read_code rq = ec_success) then
    match snd (handle_request config dir_st_size re (application_of y)
                 (add_received bytes (gl (server_of y))) rq) with
    | Throw _ => workers y - 1
    | Ok _ => workers y
    end
  else workers y.
Proof.
  unfold serve. cbv zeta. destruct (on_read _ _ _ _ _ _ _) as [g' s']. case_decide; [|done].
  by destruct (handle_request _ _ _ _ _ _) as [[ap g] [x|x]].
Qed.

(** A request that throws is a step of the system, and takes a thread away; nothing else
    does. *)
Lemma threw_workers y y' :
  threw y y' -> system_step config dir_st_size y y' /\ 0 < workers y /\ workers y' = workers y - 1.
Proof.
  intros (i & s & bytes & now & leftover & re & rq & e & Hw & Hi & Hp & Ho & -> & Hec & He).
  split_and!; [by apply sys_request|done|]. by rewrite serve_workers, decide_True, He.
Qed.

Lemma quiet_workers y y' : system_step config dir_st_size y y' -> ~ threw y y' -> workers y' = workers y.
Proof.
  intros [y0 i s bytes now leftover re rq| | |] Hn; try done. rewrite serve_workers. case_decide as Hec; [|done].
  destruct (snd (handle_request _ _ _ _ _ rq)) as [x|e] eqn:He; [done|]. destruct Hn.
  by exists i, s, bytes, now, leftover, re, rq, e.
Qed.

Lemma step_server_inv y y' :
  system_step config dir_st_size y y' -> server_inv (server_of y) -> server_inv (server_of y').
Proof. intros Hs%system_step_server H. by apply (server_step_inv _ _ H). Qed.

(** An accept is always pending, so [ioc.run()] never returns by itself. *)
Lemma run_workers k m m' :
  main_run k m m' -> forall y, m = Running y -> server_inv (server_of y) ->
  match m' with
  | Running y' => workers y' + k = workers y /\ server_inv (server_of y')
  | Exited code err => code = 0%Z /\ err = [] /\ k = workers y
  | Terminated _ => False
  end.
Proof.
  induction 1 as [m|k y y' m Ht _ IH|k y y' m Hs Hn _ IH|k y m Hw Hidle _ _|y Hw]; intros y1 E I; simplify_eq/=.
  - split; [lia|done].
  - destruct (threw_workers _ _ Ht) as (Hs & Hlt & Hw). specialize (IH y' eq_refl (step_server_inv _ _ Hs I)).
    destruct m as [z|c err|e]; [destruct IH; split; [lia|done]|destruct IH as (-> & -> & ->)|done]. split_and!; lia || done.
  - rewrite <- (quiet_workers _ _ Hs Hn). by apply IH; [|eapply step_server_inv].
  - destruct I as (_ & Ha & _), Hidle as [H0 _]. lia.
  - done.
Qed.

(** One connection with a malformed request takes one thread away. *)
Lemma malformed_run (re : request_env) n y :
  workers y = n -> server_inv (server_of y) -> main_run n (Running y) (Exited 0 []).
Proof.
  revert y. induction n as [|n IH]; intros y Hn I; [by apply run_join|].
  pose proof I as (_ & Ha & _).
  set (y1 := set_server y (on_accept (server_of y) false)).
  assert (system_step config dir_st_size y y1) as Hacc by (apply sys_accept; lia || done).
  set (i := length (sessions (server_of y))).
  assert (sessions (server_of y1) !! i = Some new_session) as Hi by by apply list_lookup_middle.
  apply (run_step _ _ y1); [done| |].
  { intros (_ & Hw & Hw')%threw_workers. change (workers y1) with (workers y) in Hw'. lia. }
  set (y2 := serve config dir_st_size y1 i new_session 20 0 [] re (malformed verb_get)).
  assert (threw y1 y2) as Ht.
  { destruct (handle_malformed config dir_st_size re (application_of y1) (add_received 20 (gl (server_of y1))))
      as (ap' & e & He).
    exists i, new_session, 20%Z, 0%Z, [], re, (malformed verb_get), e. rewrite He.
    split_and!; try done. change (workers y1) with (workers y). lia. }
  destruct (threw_workers _ _ Ht) as (Hs & _ & Hw). apply (run_throw _ _ y2); [done|]. apply IH.
  - rewrite Hw. change (workers y1) with (workers y). lia.
  - by apply (step_server_inv y1), (step_server_inv y).
Qed.

(** * Properties *)

(** C34: how the process ends. [std::terminate] ends it when a constructor of the stores
    throws, which are called before the [try], and when a thread after the first cannot
    be created, because the threads before it are destroyed without being joined. Exit
    code 1 means that the port could not be bound or that the first thread could not be
    created. Exit code 0, which stands for success, is reached only when every worker
    thread has been ended by a request that threw, because an accept is always pending;
    and that can always happen: as many malformed requests as there are threads lead to
    it. *)
Theorem main_exit_codes s0 open_db bound now n launch k m (re : request_env) :
  main_run k (main_boot s0 open_db bound now n launch) m ->
  match m with
  | Terminated e =>
      FileStore_new s0 config = Throw e \/
      MetadataStore_new (open_db (db_path app_config)) default_metaConfig = Throw e \/
      bound = true /\ exists i, 0 < i < n /\ launched launch i /\ launch i = Some e
  | Exited code err =>
      code = 1%Z /\
      (bound = false /\ err = lit "Fatal exception: bind" ++ [LF] \/
       bound = true /\ 0 < n /\ exists e, launch 0 = Some e /\ err = lit "Fatal exception: " ++ e ++ [LF]) \/
      code = 0%Z /\ bound = true /\ launched launch n /\ err = [] /\ k = n
  | Running y =>
      workers y + k = n /\ server_inv (server_of y) /\
      exists k', main_run k' (Running y) (Exited 0 [])
  end.
Proof.
  intros Hrun. pose proof (main_boot_spec s0 open_db bound now n launch) as Hboot.
  destruct (main_boot s0 open_db bound now n launch) as [y|c err|e].
  - destruct Hboot as (Hb & Hl & (Hsv & Hw & _)%start_main_inv).
    assert (server_inv (server_of y)) as I by (rewrite Hsv; apply boot_inv).
    apply (run_workers _ _ _ Hrun y eq_refl) in I. destruct m as [y'|c err|e]; [| |done].
    2: { right. destruct I as (-> & -> & ->). by rewrite Hw. }
    destruct I as [Hk I]. split_and!; [lia|done|]. exists (workers y'). by apply (malformed_run re).
  - inversion Hrun; subst. by left.
  - by inversion Hrun; subst.
Qed.

End Main.

(** * Witnesses *)

Import TaggedJson PadMd5 ListOrder PlainText MergeSort MemDB.

#[local] Instance process_beast : BeastLib := {| BOOST_BEAST_VERSION_STRING := lit "Boost.Beast/347" |}.

Definition demo_open (p : str) : @DB mem_leveldb + str := inl MemDB.empty.

(** Every thread can be created, or only the first one. *)
Definition all_threads (i : nat) : option str := None.
Definition one_thread (i : nat) : option str :=
  if decide (i = 0) then None else Some (lit "Resource temporarily unavailable").

Lemma demo_booted : main_boot bare_disk demo_open true 1500000000 2 all_threads = Running demo_system.
Proof.
  unfold main_boot.
  assert (FileStore_new bare_disk (ac_store app_config) = Ok store_disk) as -> by (vm_compute; reflexivity).
  reflexivity.
Qed.

Lemma demo_terminated :
  main_boot bare_disk demo_open true 1500000000 2 one_thread =
  Terminated (lit "Resource temporarily unavailable").
Proof.
  unfold main_boot.
  assert (FileStore_new bare_disk (ac_store app_config) = Ok store_disk) as -> by (vm_compute; reflexivity).
  reflexivity.
Qed.

(** A server with two threads that runs, and one whose second thread is not created. *)
Lemma main_exit_codes_witness :
  (exists k', main_run 4096 k' (Running demo_system) (Exited 0 [])) /\
  main_run 4096 0 (main_boot bare_disk demo_open true 1500000000 2 one_thread)
    (Terminated (lit "Resource temporarily unavailable")).
Proof.
  split.
  - refine (proj2 (proj2 (main_exit_codes 4096 bare_disk demo_open true 1500000000 2 all_threads 0
      (Running demo_system) demo_re _))).
    rewrite demo_booted. apply run_here.
  - rewrite demo_terminated. apply run_here.
Defined.
