(* ===== verification/Conformance.v ===== *)
(** The repository's own unit tests ([test/url_utils_test.cpp] and
    [test/meta_test.cc]) as programs over the definitions: each test is the list of its
    expectations, and all of them hold. The store of the metadata tests is the in-memory
    instance of the database with the concrete JSON text. *)

From stdpp Require Import base list strings gmap numbers.
From Stdlib Require Import ZArith Ascii Lia.
From S2P Require Import Prelude UrlUtils Json MetaFile LevelDB MetadataStore MetaRefine.

Import TaggedJson.

(** Every expectation holds. *)
Definition passes (expectations : list bool) : bool := forallb id expectations.

Definition same (a b : str) : bool := bool_decide (a = b).

(** ** [test/url_utils_test.cpp] *)

Definition splits (target path query : str) : bool :=
  let '(p, q) := splitTarget target in same p path && same q query.

Definition SplitTarget_NormalCases : list bool :=
  [ splits (lit "/path?a=1&b=2") (lit "/path") (lit "a=1&b=2");
    splits (lit "/api/user/detail") (lit "/api/user/detail") [];
    splits (lit "?name=test&age=18") [] (lit "name=test&age=18");
    splits [] [] [];
    splits (lit "/file?version=1?type=txt") (lit "/file") (lit "version=1?type=txt") ].

Definition decodes (encoded decoded : str) : bool :=
  match decode encoded with Ok s => same s decoded | Throw _ => false end.

Definition decode_throws (encoded : str) : bool :=
  match decode encoded with Ok _ => false | Throw _ => true end.

Definition Decode_NormalCases : list bool :=
  [ decodes (lit "%2Fpath%20test%41%E5%BC%A0%E4%B8%89") (lit "/path testA张三");
    decodes [] [];
    decodes (lit "normal-string_123") (lit "normal-string_123") ].

Definition Decode_ExceptionCases : list bool :=
  [ decode_throws (lit "/path%2"); decode_throws (lit "/path%g3"); decode_throws (lit "%2gtest") ].

(** [map["key"]] of a parsed query; a missing key reads as the empty string. *)
Definition param (query key value : str) : bool :=
  match parseQuery query with
  | Ok m => same (default [] (m !! key)) value
  | Throw _ => false
  end.

Definition params_count (query : str) (n : nat) : bool :=
  match parseQuery query with Ok m => bool_decide (base.size m = n) | Throw _ => false end.

Definition ParseQuery_NormalCases : list bool :=
  [ params_count (lit "a=1&b=2&c=3") 3; param (lit "a=1&b=2&c=3") (lit "a") (lit "1");
    param (lit "a=1&b=2&c=3") (lit "b") (lit "2"); param (lit "a=1&b=2&c=3") (lit "c") (lit "3");
    params_count [] 0;
    param (lit "a=&b=2&c=") (lit "a") []; param (lit "a=&b=2&c=") (lit "b") (lit "2");
    param (lit "a=&b=2&c=") (lit "c") [];
    param (lit "=123&b=456") [] (lit "123"); param (lit "=123&b=456") (lit "b") (lit "456");
    param (lit "a=1&a=999&b=2") (lit "a") (lit "999"); param (lit "a=1&a=999&b=2") (lit "b") (lit "2") ].

Definition FullUrlParse_EndToEnd : list bool :=
  let fullUrl := lit "http://localhost:8080/api/user?name=张三%20san&age=18#info" in
  let target := substr_from fullUrl (default 0 (find (lit "/api") fullUrl 0)) in
  let query := lit "name=张三%20san&age=18" in
  let query2 := lit "filename=report%202025%26%E5%B9%B4.xlsx" in
  [ splits target (lit "/api/user") query;
    param query (lit "name") (lit "张三 san"); param query (lit "age") (lit "18");
    splits (lit "/file/download?filename=report%202025%26%E5%B9%B4.xlsx") (lit "/file/download") query2;
    param query2 (lit "filename") (lit "report 2025&年.xlsx") ].

(** ** [test/meta_test.cc] *)

(** [SetUp] opens a store on an empty directory; its record is [test_meta]. *)
Definition store_ : store := fresh_store.

Definition found_with (st : store) (key : str) (P : MetaFile -> bool) : bool :=
  match get_meta st key with Some m => P m | None => false end.

Definition SaveAndGetMeta : list bool :=
  let '(st, save_ok) := save_meta store_ test_meta in
  [ save_ok;
    found_with st (md5 test_meta) (fun m =>
      same (md5 m) (md5 test_meta) && same (path m) (path test_meta) &&
      bool_decide (MetaFile.size m = MetaFile.size test_meta) &&
      bool_decide (status m = status test_meta));
    found_with st (path test_meta) (fun m => same (md5 m) (md5 test_meta));
    negb (bool_decide (is_Some (get_meta st (lit "invalid_file_id")))) ].

Definition Exists : list bool :=
  let '(st, _) := save_meta store_ test_meta in
  [ negb (exists_ store_ (md5 test_meta)); exists_ st (md5 test_meta); exists_ st (path test_meta);
    negb (exists_ st (lit "invalid_md5")) ].

Definition UpdateStatus : list bool :=
  let '(st, _) := save_meta store_ test_meta in
  match update_status st (md5 test_meta) DELETED with
  | Throw _ => [false]
  | Ok (st', update_ok) =>
      [ found_with st (md5 test_meta) (fun m => bool_decide (status m = NORMAL)); update_ok;
        found_with st' (md5 test_meta) (fun m => bool_decide (status m = DELETED)) ]
  end.

Definition DeleteMeta : list bool :=
  let '(st, _) := save_meta store_ test_meta in
  let '(st', delete_ok) := delete_meta st (md5 test_meta) in
  [ exists_ st (md5 test_meta); delete_ok; negb (exists_ st' (md5 test_meta));
    negb (bool_decide (is_Some (get_meta st' (md5 test_meta)))) ].

Definition stat_is (s : SystemStat) (count total : Z) : bool :=
  bool_decide (file_count s = count /\ total_size s = total).

Definition StatAndRepairStat : list bool :=
  let '(st, _) := save_meta store_ test_meta in
  let '(st', _) := delete_meta st (md5 test_meta) in
  [ stat_is (get_stat store_) 0 0; stat_is (get_stat st) 1 1024;
    match repair_stat 10 st' with Some r => stat_is (get_stat r) 0 0 | None => false end ].

(** The record [i] of the listing test. *)
Definition listed_meta (i : Z) : MetaFile :=
  {| md5 := lit "1234567890abcdef1234567890abcde" ++ to_string i; path := path test_meta;
     name := name test_meta; domain := domain test_meta; scene := lit "default"; src := src test_meta;
     MetaFile.size := (1024 + i)%Z; mtime := (1680000000 + i)%Z; status := NORMAL;
     is_sharded := is_sharded test_meta; shard_std_size := shard_std_size test_meta;
     shard_count := shard_count test_meta; shards := shards test_meta;
     uploaded_count := uploaded_count test_meta; uploaded_chunks := uploaded_chunks test_meta;
     peers := peers test_meta |}.

(** The loop that saves the five records, with what each call returned. *)
Definition save_listed : store * list bool :=
  foldl (fun acc i =>
           let '(st, oks) := acc in
           let '(st', save_ok) := save_meta st (listed_meta i) in
           (st', oks ++ [save_ok; exists_ st' (md5 (listed_meta i))]))
        (store_, []) (seqZ 0 5).

Definition page (st : store) (offset limit order : Z) (P : list Z -> bool) : bool :=
  match list_dir 30 st (lit "default") offset limit order with
  | Some ms => P (mtime <$> ms)
  | None => false
  end.

Definition ListDir : list bool :=
  let '(st, oks) := save_listed in
  oks ++
  [ page st 1 2 1 (fun ts => match ts with [a; b] => bool_decide (a <= b)%Z | _ => false end);
    page st 0 3 2 (fun ts => match ts with [a; b; _] => bool_decide (b <= a)%Z | _ => false end);
    page st (-1) 0 1 (fun ts => bool_decide (ts = [])) ].

(** * The tests pass *)

Theorem url_utils_tests_pass :
  passes (SplitTarget_NormalCases ++ Decode_NormalCases ++ Decode_ExceptionCases ++
          ParseQuery_NormalCases ++ FullUrlParse_EndToEnd) = true.
Proof. vm_compute. reflexivity. Qed.

Theorem metadata_store_tests_pass :
  passes (SaveAndGetMeta ++ Exists ++ UpdateStatus ++ DeleteMeta ++ StatAndRepairStat ++ ListDir) = true.
Proof. vm_compute. reflexivity. Qed.
