(* ===== verification/Timestamp.v ===== *)
(** [common/Timestamp.h] and [common/Timestamp.cc]: the wall clock in microseconds,
    as a 64-bit integer. *)

From stdpp Require Import base numbers.
From Stdlib Require Import ZArith Lia.
From S2P Require Import Prelude.

Local Open Scope Z_scope.

Definition kMicroSecondsPerSecond : Z := 1000 * 1000.

Record Timestamp : Type := { microsecondsSinceEpoch : Z }.

(** The default constructor. *)
Definition Timestamp_zero : Timestamp := {| microsecondsSinceEpoch := 0 |}.

(** What [gettimeofday] fills in. *)
Record timeval : Type := { tv_sec : Z; tv_usec : Z }.

Definition now (tv : timeval) : Timestamp :=
  let second := i64 (tv_sec tv) in
  {| microsecondsSinceEpoch := i64 (i64 (second * kMicroSecondsPerSecond) + tv_usec tv) |}.

(** A time since 1970 that the code can hold: up to the year 292277. *)
Definition tv_ok (tv : timeval) : Prop :=
  0 <= tv_sec tv < 9223372036854 /\ 0 <= tv_usec tv < kMicroSecondsPerSecond.

Lemma now_micros tv :
  tv_ok tv -> microsecondsSinceEpoch (now tv) = tv_sec tv * kMicroSecondsPerSecond + tv_usec tv.
Proof.
  unfold tv_ok, now, kMicroSecondsPerSecond. intros [Hs Hu]. cbn [microsecondsSinceEpoch].
  rewrite (swrap_small 64 (tv_sec tv)) by lia. rewrite (swrap_small 64 (tv_sec tv * _)) by lia.
  apply swrap_small; lia.
Qed.

(** The seconds and the microseconds are recovered by division, as [formatTime] does. *)
Lemma now_split tv :
  tv_ok tv ->
  Z.quot (microsecondsSinceEpoch (now tv)) kMicroSecondsPerSecond = tv_sec tv /\
  Z.rem (microsecondsSinceEpoch (now tv)) kMicroSecondsPerSecond = tv_usec tv.
Proof.
  intros Htv. rewrite now_micros by done. destruct Htv as [Hs Hu]. unfold kMicroSecondsPerSecond in *.
  rewrite Z.quot_div_nonneg, Z.rem_mod_nonneg by lia.
  rewrite Z.add_comm, Z.div_add, Z.mod_add, Z.div_small, Z.mod_small by lia. lia.
Qed.
