(* ===== verification/Logger.v ===== *)
(** [common/logStream.h], [common/logStream.cc], [common/logger.h] and
    [common/logger.cc]: the fixed buffer, the stream operators and a log line. *)

From stdpp Require Import base list strings gmap numbers.
From Stdlib Require Import ZArith Ascii Lia.
From S2P Require Import Prelude Timestamp.

(** ** [FixedBuffer] and [LogStream] *)

Definition kSmallBuffer : nat := 4000.
Definition kMaxNumericSize : nat := 48.

(** The bytes written so far; [current_] is their number. *)
Definition buffer : Type := str.

Definition avail (b : buffer) : nat := kSmallBuffer - length b.

(** [length], [reset] and [brezo]: the last clears the bytes and keeps their number. *)
Definition buffer_length (b : buffer) : Z := Z.of_nat (length b).
Definition reset (b : buffer) : buffer := [].
Definition brezo (b : buffer) : buffer := replicate (length b) (chr 0).

Definition append (b : buffer) (data : str) : buffer :=
  if decide (avail b < length data) then b else b ++ data.

(** [operator<<(const char* )]; [None] is a null pointer. *)
Definition put_cstr (b : buffer) (s : option str) : buffer :=
  match s with Some s => append b s | None => append b (lit "(null)") end.

Definition put_string (b : buffer) (s : str) : buffer := append b s.

(** [formatInteger]: [sprintf] into the buffer when enough room is left. *)
Definition put_int (b : buffer) (v : Z) : buffer :=
  if decide (kMaxNumericSize < avail b) then b ++ to_string v else b.

(** ** [Logger] *)

Inductive LogLevel : Type := TRACE | DEBUG | INFO | WARN | ERROR | FATAL.

Definition level_num (l : LogLevel) : nat :=
  match l with TRACE => 0 | DEBUG => 1 | INFO => 2 | WARN => 3 | ERROR => 4 | FATAL => 5 end.

Definition LogLevelName (l : LogLevel) : str :=
  match l with
  | TRACE => lit "TRACE " | DEBUG => lit "DEBUG " | INFO => lit "INFO  "
  | WARN => lit "WARN  " | ERROR => lit "ERROR " | FATAL => lit "FATAL "
  end.

(** An [OutPutFunc], as what it writes to the standard output for a message. *)
Definition OutPutFunc : Type := str -> str.

(** [g_logLevel] and [g_output]; the latter is a null pointer at first. *)
Record logger_globals : Type := { g_logLevel : LogLevel; g_output : option OutPutFunc }.

Definition initial_logger : logger_globals := {| g_logLevel := INFO; g_output := None |}.

Definition logLevel (g : logger_globals) : LogLevel := g_logLevel g.

Definition setLogLevel (g : logger_globals) (level : LogLevel) : logger_globals :=
  {| g_logLevel := level; g_output := g_output g |}.

Definition setOutPutFunc (g : logger_globals) (func : OutPutFunc) : logger_globals :=
  {| g_logLevel := g_logLevel g; g_output := Some func |}.

(** The free function of the same effect. *)
Definition SetLogLevel (g : logger_globals) (level : LogLevel) : logger_globals :=
  {| g_logLevel := level; g_output := g_output g |}.

(** [LOG_INIT]: its output function ends every message with [std::endl]. *)
Definition LOG_INIT (g : logger_globals) : logger_globals :=
  setOutPutFunc (setLogLevel g INFO) (fun msg => msg ++ [LF]).

(** [".%06d"]. *)
Definition format_micros (us : Z) : str :=
  let ds := to_string us in chr 46 :: replicate (6 - length ds) (chr 48) ++ ds.

Section Logger.
(** [localtime_r] and [snprintf]: the 17 characters of a second in local time. *)
Context (local_time : Z -> str).

(** The thread-local variables [_lastSecond] and [_time]. *)
Record thread_time : Type := { lastSecond : Z; time_buf : str }.

Definition formatTime (t : thread_time) (tv : timeval) (b : buffer) : thread_time * buffer :=
  let Microseconds := microsecondsSinceEpoch (now tv) in
  let seconds := Z.quot Microseconds kMicroSecondsPerSecond in
  let micros := i32 (Z.rem Microseconds kMicroSecondsPerSecond) in
  if decide (seconds <> lastSecond t) then
    let t' := {| lastSecond := seconds; time_buf := local_time seconds |} in
    (t', put_cstr (put_cstr b (Some (time_buf t'))) (Some (format_micros micros)))
  else (t, b).

(** The constructor of [Logger::Impl]. *)
Definition Logger_new (t : thread_time) (tv : timeval) (level : LogLevel) : thread_time * buffer :=
  let '(t, b) := formatTime t tv [] in
  (t, put_cstr (put_cstr b (Some (lit " "))) (Some (LogLevelName level))).

Definition finish (b : buffer) (file : str) (line : Z) : buffer :=
  put_cstr (put_int (put_cstr (put_string (put_cstr b (Some (lit " -"))) file) (Some (lit ":"))) line)
    (Some [LF]).

(** What a message consists of: [LOG_X << a << b ...]. *)
Inductive piece : Type := PStr (s : str) | PInt (v : Z).

Definition put_piece (b : buffer) (p : piece) : buffer :=
  match p with PStr s => put_string b s | PInt v => put_int b v end.

(** What the destructor does: nothing below the global level, else it calls
    [g_output] with the message. *)
Inductive log_effect : Type := Quiet | Output (s : str) | NullCall.

(** A whole log statement: construction, the pieces, and the destructor. *)
Definition log (g : logger_globals) (t : thread_time) (tv : timeval) (level : LogLevel)
    (file : str) (line : Z) (pieces : list piece) : thread_time * log_effect :=
  let '(t, b) := Logger_new t tv level in
  let b := foldl put_piece b pieces in
  if decide (level_num level < level_num (logLevel g)) then (t, Quiet)
  else
    let b := finish b file line in
    (t, match g_output g with Some _ => Output b | None => NullCall end).

(** The constructor without a level logs at [INFO]. *)
Definition log_at_INFO (g : logger_globals) (t : thread_time) (tv : timeval) (file : str) (line : Z)
    (pieces : list piece) : thread_time * log_effect := log g t tv INFO file line pieces.

(** What appears on the standard output. *)
Definition console (g : logger_globals) (e : log_effect) : str :=
  match e, g_output g with Output msg, Some f => f msg | _, _ => [] end.

(** * Lemmas *)

Lemma dec_length_bound n k : (0 <= n < 10 ^ Z.of_nat k)%Z -> 0 < k -> length (dec n) <= k.
Proof.
  intros Hn. assert (0 <= n)%Z as H0 by lia. revert n H0 k Hn.
  apply (dec_ind (fun n => forall k, (0 <= n < 10 ^ Z.of_nat k)%Z -> 0 < k -> length (dec n) <= k));
    intros n Hn.
  - intros k _ Hk. rewrite dec_step, decide_True by lia. simpl. lia.
  - intros IH k Hb Hk. rewrite dec_step, decide_False by lia. rewrite length_app. simpl.
    destruct k as [|[|k]]; [lia| |].
    { change (10 ^ Z.of_nat 1)%Z with 10%Z in Hb. lia. }
    cut (length (dec (n / 10)) <= S k); [lia|]. apply IH; [|lia].
    split; [apply Z.div_pos; lia|]. apply Z.div_lt_upper_bound; [lia|].
    rewrite (Nat2Z.inj_succ (S k)), Z.pow_succ_r in Hb by lia. lia.
Qed.

(** A 32-bit number, its sign and its terminator take at most 12 bytes. *)
Lemma to_string_int_length v : (- 2 ^ 31 <= v < 2 ^ 31)%Z -> length (to_string v) <= 11.
Proof.
  intros Hv. unfold to_string. case_decide.
  - simpl. cut (length (dec (- v)) <= 10); [lia|]. apply dec_length_bound; [|lia].
    change (10 ^ Z.of_nat 10)%Z with 10000000000%Z. lia.
  - cut (length (dec v) <= 10); [lia|]. apply dec_length_bound; [|lia].
    change (10 ^ Z.of_nat 10)%Z with 10000000000%Z. lia.
Qed.

Definition piece_ok (p : piece) : Prop :=
  match p with PStr _ => True | PInt v => (- 2 ^ 31 <= v < 2 ^ 31)%Z end.

(** Text that fits is appended whole. *)
Definition piece_text (p : piece) : str := match p with PStr s => s | PInt v => to_string v end.

Lemma put_pieces_text b ps :
  Forall piece_ok ps -> length b + length (concat (map piece_text ps)) + kMaxNumericSize < kSmallBuffer ->
  foldl put_piece b ps = b ++ concat (map piece_text ps).
Proof.
  intros H. revert b. induction H as [|p ps Hp _ IH]; intros b Hb; cbn [foldl map concat] in *.
  { by rewrite app_nil_r. }
  rewrite length_app in Hb.
  assert (put_piece b p = b ++ piece_text p) as ->.
  { destruct p as [s|v]; simpl in *.
    - unfold put_string, append, avail. by rewrite decide_False by lia.
    - unfold put_int, avail. by rewrite decide_True by lia. }
  rewrite IH by (rewrite length_app; lia). by rewrite <- app_assoc.
Qed.

Lemma append_text b s : length b + length s <= kSmallBuffer -> append b s = b ++ s.
Proof. intros H. unfold append, avail. by rewrite decide_False by lia. Qed.

Lemma format_micros_length us : (0 <= us < 1000000)%Z -> length (format_micros us) = 7.
Proof.
  intros Hu. unfold format_micros. simpl. rewrite length_app, length_replicate.
  unfold to_string. rewrite decide_False by lia.
  pose proof (dec_length_bound us 6 ltac:(change (10 ^ Z.of_nat 6)%Z with 1000000%Z; lia) ltac:(lia)).
  lia.
Qed.

Lemma LogLevelName_length l : length (LogLevelName l) = 6.
Proof. by destruct l. Qed.

(** The time stamp at the front of a line: only the first line of a second has one. *)
Definition stamp (t : thread_time) (tv : timeval) : str :=
  if decide (tv_sec tv <> lastSecond t) then local_time (tv_sec tv) ++ format_micros (tv_usec tv) else [].

(** What [snprintf] and the assertion on its result say of a formatted second. *)
Definition local_time_17 : Prop := forall s, length (local_time s) = 17.

Lemma stamp_length t tv : local_time_17 -> tv_ok tv -> length (stamp t tv) <= 24.
Proof.
  intros Hl [_ Hu]. unfold stamp. case_decide; [|simpl; lia].
  rewrite length_app, Hl, format_micros_length; [lia|exact Hu].
Qed.

Lemma formatTime_text t tv :
  local_time_17 -> tv_ok tv -> snd (formatTime t tv []) = stamp t tv.
Proof.
  intros Hl Htv. unfold formatTime, stamp. cbv zeta. destruct (now_split tv Htv) as [-> ->].
  case_decide; [|done]. destruct Htv as [_ Hu]. unfold kMicroSecondsPerSecond in Hu.
  rewrite swrap_small by lia.
  assert (length (format_micros (tv_usec tv)) = 7) as H7 by (apply format_micros_length; lia).
  cbn [snd time_buf put_cstr].
  rewrite (append_text []), append_text; [done|rewrite !app_nil_l, Hl, H7|rewrite Hl];
    unfold kSmallBuffer; simpl; lia.
Qed.

Lemma Logger_new_text t tv level :
  local_time_17 -> tv_ok tv ->
  snd (Logger_new t tv level) = stamp t tv ++ lit " " ++ LogLevelName level.
Proof.
  intros Hl Htv. unfold Logger_new. pose proof (formatTime_text t tv Hl Htv) as Hf.
  pose proof (stamp_length t tv Hl Htv).
  destruct (formatTime t tv []) as [t' b]. cbn [snd] in Hf |- *. subst b. cbn [put_cstr].
  rewrite (append_text (stamp _ _)), append_text, <- app_assoc; [done| |];
    rewrite ?length_app, ?LogLevelName_length; change (length (lit " ")) with 1;
    unfold kSmallBuffer; lia.
Qed.

(** The text of a log line. *)
Definition line_text (t : thread_time) (tv : timeval) (level : LogLevel) (file : str) (line : Z)
    (pieces : list piece) : str :=
  stamp t tv ++ lit " " ++ LogLevelName level ++ concat (map piece_text pieces) ++
  lit " -" ++ file ++ lit ":" ++ to_string line ++ [LF].

Definition int32 (v : Z) : Prop := (- 2 ^ 31 <= v < 2 ^ 31)%Z.

Lemma finish_text b file line :
  int32 line -> length b + length file + 52 <= kSmallBuffer ->
  finish b file line = b ++ lit " -" ++ file ++ lit ":" ++ to_string line ++ [LF].
Proof.
  intros Hv Hb. pose proof (to_string_int_length line Hv).
  unfold finish, put_string. cbn [put_cstr].
  assert (length (lit " -") = 2) as H2 by done. assert (length (lit ":") = 1) as H1 by done.
  rewrite (append_text b) by lia. rewrite (append_text (b ++ _)) by (rewrite length_app; lia).
  rewrite (append_text (_ ++ file)) by (rewrite !length_app; lia).
  unfold put_int. rewrite decide_True
    by (unfold avail, kMaxNumericSize; rewrite !length_app; unfold kSmallBuffer in *; lia).
  rewrite append_text by solve_length. by rewrite <- !app_assoc.
Qed.

Lemma log_output g f t tv level file line pieces :
  g_output g = Some f -> local_time_17 -> tv_ok tv -> int32 line -> Forall piece_ok pieces ->
  level_num (logLevel g) <= level_num level ->
  length file + length (concat (map piece_text pieces)) + 83 <= kSmallBuffer ->
  snd (log g t tv level file line pieces) = Output (line_text t tv level file line pieces) /\
  lastSecond (fst (log g t tv level file line pieces)) = tv_sec tv.
Proof.
  intros Hf Hl Hn Hv Hp Hg Hlen. unfold log.
  pose proof (Logger_new_text t tv level Hl Hn) as Ht.
  pose proof (stamp_length t tv Hl Hn) as Hs.
  assert (lastSecond (fst (Logger_new t tv level)) = tv_sec tv) as Hlast.
  { unfold Logger_new, formatTime. cbv zeta. rewrite (proj1 (now_split tv Hn)).
    case_decide as Hd; [done|]. simpl. by destruct (decide (tv_sec tv = lastSecond t)). }
  destruct (Logger_new t tv level) as [t' b]. cbn [fst snd] in Ht, Hlast. rewrite decide_False by lia.
  rewrite Hf. split; [|done]. cbn [snd]. f_equal.
  assert (length b <= 31) as Hb.
  { subst b. rewrite !length_app, LogLevelName_length. change (length (lit " ")) with 1. lia. }
  unfold kSmallBuffer in Hlen.
  rewrite put_pieces_text by (first [done | unfold kSmallBuffer, kMaxNumericSize; lia]).
  rewrite finish_text by (first [done | rewrite length_app; unfold kSmallBuffer; lia]).
  subst b. unfold line_text. by rewrite <- !app_assoc.
Qed.

(** C31: after [LOG_INIT] a message of level INFO or above whose file name and text
    leave 83 bytes of the 4000 appears whole on the standard output: the time stamp
    (only when the second differs from that of the thread's last message, which is
    then remembered), the level, the pieces in order, the file and the line number,
    and then an empty line; a message below INFO does not appear. *)
Theorem log_whole_line g0 t tv level file line pieces :
  local_time_17 -> tv_ok tv -> int32 line -> Forall piece_ok pieces ->
  length file + length (concat (map piece_text pieces)) + 83 <= kSmallBuffer ->
  let g := LOG_INIT g0 in let r := log g t tv level file line pieces in
  (2 <= level_num level ->
   console g (snd r) = line_text t tv level file line pieces ++ [LF] /\ lastSecond (fst r) = tv_sec tv) /\
  (level_num level < 2 -> console g (snd r) = []).
Proof.
  intros Hl Hn Hv Hp Hlen g r. split; intros Hlev.
  - destruct (log_output g (fun msg => msg ++ [LF]) t tv level file line pieces) as [H1 H2]; try done.
    subst r. by rewrite H1.
  - subst r. unfold log. destruct (Logger_new t tv level). by rewrite decide_True.
Qed.

(** Before [LOG_INIT] the first message that is not suppressed calls a null pointer. *)
Theorem log_before_init t tv level file line pieces :
  2 <= level_num level -> snd (log initial_logger t tv level file line pieces) = NullCall.
Proof. intros Hl. unfold log. destruct (Logger_new t tv level). by rewrite decide_False by (simpl; lia). Qed.

End Logger.

(** A clock whose text has the right length. *)
Definition clock17 (s : Z) : str := replicate 17 (chr 48).

Definition demo_tv : timeval := {| tv_sec := 1; tv_usec := 500000 |}.

Definition demo_thread : thread_time := {| lastSecond := 0; time_buf := [] |}.

Lemma log_whole_line_witness :
  console (LOG_INIT initial_logger)
    (snd (log clock17 (LOG_INIT initial_logger) demo_thread demo_tv WARN (lit "f.cc") 12
       [PStr (lit "n="); PInt (-5)])) =
  lit "00000000000000000.500000 WARN  n=-5 -f.cc:12" ++ [LF; LF].
Proof.
  refine (proj1 (proj1 (log_whole_line clock17 initial_logger demo_thread demo_tv WARN (lit "f.cc")
           12 [PStr (lit "n="); PInt (-5)] _ _ _ _ _) _)).
  - intros s. reflexivity.
  - unfold tv_ok, kMicroSecondsPerSecond. simpl. lia.
  - unfold int32. lia.
  - repeat constructor; simpl; lia.
  - apply Nat.leb_le. vm_compute. reflexivity.
  - simpl. lia.
Defined.
