(* ===== verification/LogBuffer.v ===== *)
(** The memory behind a log line ([common/logStream.h], [common/logStream.cc],
    [common/Type.h], [common/logger.h]): an array that is not initialised and a pointer
    into it, written by [memcpy] and [sprintf]. A write outside the array is [None]. The
    log statements of [Logger] are what this memory holds, and no write leaves it. *)

From stdpp Require Import base list strings gmap numbers option.
From Stdlib Require Import ZArith Ascii Lia.
From S2P Require Import Prelude Timestamp Logger.

Definition NUL : ascii := chr 0.

(** Writing [s] at position [pos] of an array. *)
Definition write_at (mem : list ascii) (pos : nat) (s : str) : option (list ascii) :=
  if decide (pos + length s <= length mem)
  then Some (take pos mem ++ s ++ drop (pos + length s) mem) else None.

(** A C string: the bytes before the first terminator; without one the read leaves the
    array. *)
Fixpoint c_string (mem : list ascii) : option str :=
  match mem with
  | [] => None
  | c :: mem' => if decide (c = NUL) then Some [] else (fun s => c :: s) <$> c_string mem'
  end.

(** [implicit_cast<To>(f)] is the conversion of the language. *)
Definition implicit_cast {From To} (conversion : From -> To) (f : From) : To := conversion f.

(** ** [FixedBuffer<kSmallBuffer>] *)

(** [current_] is the offset of the pointer. *)
Record FixedBuffer : Type := { buffer_ : list ascii; current_ : nat }.

(** The constructor, on the bytes that happen to be there. *)
Definition FixedBuffer_new (garbage : list ascii) : FixedBuffer :=
  {| buffer_ := garbage; current_ := 0 |}.

Definition fb_data (b : FixedBuffer) : list ascii := buffer_ b.
Definition fb_avail (b : FixedBuffer) : Z := i32 (Z.of_nat kSmallBuffer - Z.of_nat (current_ b)).
Definition fb_length (b : FixedBuffer) : Z := i32 (Z.of_nat (current_ b)).
Definition fb_reset (b : FixedBuffer) : FixedBuffer := {| buffer_ := buffer_ b; current_ := 0 |}.
Definition fb_brezo (b : FixedBuffer) : FixedBuffer :=
  {| buffer_ := replicate kSmallBuffer NUL; current_ := current_ b |}.
Definition fb_add (b : FixedBuffer) (len : nat) : FixedBuffer :=
  {| buffer_ := buffer_ b; current_ := current_ b + len |}.

Definition fb_append (b : FixedBuffer) (s : str) : option FixedBuffer :=
  if decide (implicit_cast u64 (fb_avail b) < Z.of_nat (length s))%Z then Some b
  else
    mem ← write_at (buffer_ b) (current_ b) s;
    Some {| buffer_ := mem; current_ := current_ b + length s |}.

(** ** [LogStream] *)

Definition ls_cstr (b : FixedBuffer) (s : option str) : option FixedBuffer :=
  match s with Some s => fb_append b s | None => fb_append b (lit "(null)") end.

Definition ls_string (b : FixedBuffer) (s : str) : option FixedBuffer := fb_append b s.

(** [formatInteger]: [sprintf] writes a terminator, over which the next piece goes. *)
Definition ls_int (b : FixedBuffer) (v : Z) : option FixedBuffer :=
  if decide (fb_avail b > Z.of_nat kMaxNumericSize)%Z then
    mem ← write_at (buffer_ b) (current_ b) (to_string v ++ [NUL]);
    Some (fb_add {| buffer_ := mem; current_ := current_ b |} (length (to_string v)))
  else Some b.

Definition ls_piece (b : FixedBuffer) (p : piece) : option FixedBuffer :=
  match p with PStr s => ls_string b s | PInt v => ls_int b v end.

(** ** [Fmt] *)

Record Fmt : Type := { buf_ : list ascii; length_ : Z }.

(** [snprintf] of the text of the number into 32 bytes, and the assertion. *)
Definition Fmt_new (garbage : list ascii) (text : str) : option Fmt :=
  mem ← write_at garbage 0 (take 31 text ++ [NUL]);
  if decide (length text < 32) then Some {| buf_ := mem; length_ := Z.of_nat (length text) |} else None.

(** ** [Logger] *)

Record Impl : Type := {
  level_ : LogLevel;
  stream_ : FixedBuffer;
  timestamp_ : Timestamp;
  filename_ : str;
  line_ : Z;
  tid_ : Z;
}.

Definition set_stream (i : Impl) (b : FixedBuffer) : Impl :=
  {| level_ := level_ i; stream_ := b; timestamp_ := timestamp_ i; filename_ := filename_ i;
     line_ := line_ i; tid_ := tid_ i |}.

(** What a [Logger] on the stack finds in its memory: the stream's array, the member
    [tid_], which no constructor sets, and the array of the [Fmt]. *)
Record stack : Type := { st_buffer : list ascii; st_tid : Z; st_fmt : list ascii }.

Definition stack_ok (k : stack) : Prop := length (st_buffer k) = kSmallBuffer /\ length (st_fmt k) = 32.

Section LogMemory.
Context (local_time : Z -> str).

Definition impl_formatTime (k : stack) (t : thread_time) (tv : timeval) (i : Impl)
  : option (thread_time * Impl) :=
  let Microseconds := microsecondsSinceEpoch (now tv) in
  let seconds := Z.quot Microseconds kMicroSecondsPerSecond in
  let micros := i32 (Z.rem Microseconds kMicroSecondsPerSecond) in
  if decide (seconds <> lastSecond t) then
    let t' := {| lastSecond := seconds; time_buf := local_time seconds |} in
    micorFmt ← Fmt_new (st_fmt k) (format_micros micros);
    b ← ls_cstr (stream_ i) (Some (time_buf t'));
    text ← c_string (buf_ micorFmt);
    b ← ls_cstr b (Some text);
    Some (t', set_stream i b)
  else Some (t, i).

Definition Impl_new (k : stack) (t : thread_time) (tv : timeval) (level : LogLevel) (file : str) (line : Z)
  : option (thread_time * Impl) :=
  '(t, i) ← impl_formatTime k t tv
    {| level_ := level; stream_ := FixedBuffer_new (st_buffer k); timestamp_ := Timestamp_zero;
       filename_ := file; line_ := line; tid_ := st_tid k |};
  b ← ls_cstr (stream_ i) (Some (lit " "));
  b ← ls_cstr b (Some (LogLevelName level));
  Some (t, set_stream i b).

Definition impl_finish (i : Impl) : option Impl :=
  b ← ls_cstr (stream_ i) (Some (lit " -"));
  b ← ls_string b (filename_ i);
  b ← ls_cstr b (Some (lit ":"));
  b ← ls_int b (line_ i);
  b ← ls_cstr b (Some [LF]);
  Some (set_stream i b).

Fixpoint ls_pieces (b : FixedBuffer) (ps : list piece) : option FixedBuffer :=
  match ps with
  | [] => Some b
  | p :: ps' => b ← ls_piece b p; ls_pieces b ps'
  end.

(** The output function gets a pointer to the array and a length. *)
Inductive memory_effect : Type := MQuiet | MOutput (data : list ascii) (len : Z) | MNullCall.

Definition log_memory (g : logger_globals) (k : stack) (t : thread_time) (tv : timeval)
    (level : LogLevel) (file : str) (line : Z) (pieces : list piece)
  : option (thread_time * memory_effect) :=
  '(t, i) ← Impl_new k t tv level file line;
  b ← ls_pieces (stream_ i) pieces;
  let i := set_stream i b in
  if decide (level_num (level_ i) < level_num (logLevel g)) then Some (t, MQuiet)
  else
    i ← impl_finish i;
    Some (t, match g_output g with
             | Some _ => MOutput (fb_data (stream_ i)) (fb_length (stream_ i))
             | None => MNullCall
             end).

(** ** What the memory holds *)

Record holds (b : FixedBuffer) (s : str) : Prop := {
  holds_size : length (buffer_ b) = kSmallBuffer;
  holds_current : current_ b = length s;
  holds_fits : length s <= kSmallBuffer;
  holds_text : take (length s) (buffer_ b) = s }.

Lemma fb_avail_holds b s : holds b s -> fb_avail b = Z.of_nat (avail s).
Proof.
  intros [_ Hc Hf _]. unfold fb_avail, avail, kSmallBuffer in *. rewrite Hc, swrap_small by lia. lia.
Qed.

Lemma write_at_length mem pos s mem' : write_at mem pos s = Some mem' -> length mem' = length mem.
Proof.
  unfold write_at. case_decide; [|done]. intros [= <-].
  rewrite !length_app, length_take, length_drop. lia.
Qed.

(** Writing behind the text extends it. *)
Lemma write_at_holds b s x tail_ :
  holds b s -> length s + length x + length tail_ <= kSmallBuffer ->
  exists mem, write_at (buffer_ b) (current_ b) (x ++ tail_) = Some mem /\
    holds {| buffer_ := mem; current_ := length (s ++ x) |} (s ++ x).
Proof.
  intros [Hsz Hc Hf Ht] Hfit. unfold write_at. rewrite Hc, decide_True by (rewrite length_app, Hsz; lia).
  eexists. split; [done|]. rewrite Ht. split; cbn [buffer_ current_].
  - rewrite !length_app, length_drop, Hsz. lia.
  - done.
  - rewrite length_app. lia.
  - rewrite <- (app_assoc x), app_assoc. apply take_app_length.
Qed.

Lemma fb_append_holds b s x : holds b s -> exists b', fb_append b x = Some b' /\ holds b' (append s x).
Proof.
  intros H. unfold fb_append, implicit_cast, append. rewrite (fb_avail_holds b s H).
  assert (u64 (Z.of_nat (avail s)) = Z.of_nat (avail s)) as ->.
  { apply wrap_small. unfold avail, kSmallBuffer. lia. }
  pose proof (holds_fits _ _ H) as Hf. destruct (decide (avail s < length x)) as [Hlt|Hge].
  - rewrite decide_True by lia. by exists b.
  - rewrite decide_False by lia. unfold avail in Hge.
    destruct (write_at_holds b s x [] H) as (mem & Hw & Hm); [simpl; lia|].
    rewrite app_nil_r in Hw. rewrite Hw. simpl. rewrite (holds_current _ _ H), <- length_app. by eexists.
Qed.

Lemma ls_cstr_holds b s x : holds b s -> exists b', ls_cstr b x = Some b' /\ holds b' (put_cstr s x).
Proof. destruct x; apply fb_append_holds. Qed.

Lemma ls_int_holds b s v :
  int32 v -> holds b s -> exists b', ls_int b v = Some b' /\ holds b' (put_int s v).
Proof.
  intros Hv H. unfold ls_int, put_int. rewrite (fb_avail_holds b s H).
  destruct (decide (kMaxNumericSize < avail s)) as [Hlt|Hge].
  - rewrite decide_True by lia. pose proof (to_string_int_length v Hv).
    destruct (write_at_holds b s (to_string v) [NUL] H) as (mem & Hw & Hm).
    { unfold avail, kMaxNumericSize in Hlt. simpl. lia. }
    rewrite Hw. simpl. unfold fb_add. cbn [buffer_ current_].
    rewrite (holds_current _ _ H), <- length_app. by eexists.
  - rewrite decide_False by lia. by exists b.
Qed.

Lemma ls_pieces_holds b s ps :
  Forall piece_ok ps -> holds b s ->
  exists b', ls_pieces b ps = Some b' /\ holds b' (foldl put_piece s ps).
Proof.
  intros Hps. revert b s. induction Hps as [|p ps Hp _ IH]; intros b s H; [by exists b|].
  assert (exists b', ls_piece b p = Some b' /\ holds b' (put_piece s p)) as (b' & Hb & H').
  { destruct p as [x|v]; [by apply fb_append_holds|by apply ls_int_holds]. }
  cbn [ls_pieces foldl]. rewrite Hb. cbn [mbind option_bind]. by apply IH.
Qed.

Lemma c_string_app s r : NUL ∉ s -> c_string (s ++ NUL :: r) = Some s.
Proof.
  induction s as [|c s IH]; simpl; [done|]. rewrite not_elem_of_cons. intros [Hc Hs].
  rewrite decide_False by done. by rewrite IH.
Qed.

Lemma format_micros_fresh us : (0 <= us)%Z -> NUL ∉ format_micros us.
Proof.
  intros Hu. assert (forall s, Forall (fun c => c <> NUL) s -> NUL ∉ s) as Hf.
  { intros s Hs Hin. by apply (proj1 (list.Forall_forall _ _) Hs NUL). }
  apply Hf. unfold format_micros. apply Forall_cons_2; [by_decide|]. apply Forall_app. split.
  - apply Forall_replicate. by_decide.
  - unfold to_string. rewrite decide_False by lia. eapply Forall_weaken; [|by apply dec_digits].
    unfold is_digit. intros c Hd ->. revert Hd. vm_compute. lia.
Qed.

(** The text of the microseconds fits the array of the [Fmt]. *)
Lemma Fmt_micros garbage us :
  length garbage = 32 -> (0 <= us < 1000000)%Z ->
  exists f, Fmt_new garbage (format_micros us) = Some f /\ c_string (buf_ f) = Some (format_micros us).
Proof.
  intros Hg Hu. pose proof (format_micros_length us Hu) as Hl.
  unfold Fmt_new, write_at. rewrite take_ge by lia.
  rewrite decide_True by (rewrite length_app, Hl, Hg; simpl; lia). cbn [mbind option_bind].
  rewrite decide_True by lia. eexists. split; [done|]. cbn [buf_]. rewrite take_0, app_nil_l.
  rewrite <- app_assoc. apply c_string_app, format_micros_fresh. lia.
Qed.

Lemma FixedBuffer_new_holds garbage : length garbage = kSmallBuffer -> holds (FixedBuffer_new garbage) [].
Proof. intros Hg. by split; [|done|unfold kSmallBuffer; simpl; lia|]. Qed.

(** The constructor writes what [Logger_new] says. *)
Lemma Impl_new_holds k t tv level file line :
  stack_ok k -> tv_ok tv ->
  exists i, Impl_new k t tv level file line = Some (fst (Logger_new local_time t tv level), i) /\
    holds (stream_ i) (snd (Logger_new local_time t tv level)) /\
    level_ i = level /\ filename_ i = file /\ line_ i = line.
Proof.
  intros [Hk Hf] Htv. unfold Impl_new, Logger_new, impl_formatTime, formatTime. cbv zeta.
  pose proof (FixedBuffer_new_holds _ Hk) as H0. destruct (now_split tv Htv) as [-> ->].
  assert (i32 (tv_usec tv) = tv_usec tv) as ->.
  { destruct Htv as [_ Hu]. unfold kMicroSecondsPerSecond in Hu. apply swrap_small; lia. }
  case_decide.
  - destruct (Fmt_micros (st_fmt k) (tv_usec tv) Hf) as (f & Hfm & Hc).
    { destruct Htv as [_ Hu]. unfold kMicroSecondsPerSecond in Hu. lia. }
    rewrite Hfm. cbn [mbind option_bind stream_ time_buf].
    destruct (ls_cstr_holds _ _ (Some (local_time (tv_sec tv))) H0) as (b1 & -> & H1).
    cbn [mbind option_bind]. rewrite Hc. cbn [mbind option_bind].
    destruct (ls_cstr_holds _ _ (Some (format_micros (tv_usec tv))) H1) as (b2 & -> & H2).
    cbn [mbind option_bind stream_ set_stream].
    destruct (ls_cstr_holds _ _ (Some (lit " ")) H2) as (b3 & -> & H3). cbn [mbind option_bind].
    destruct (ls_cstr_holds _ _ (Some (LogLevelName level)) H3) as (b4 & -> & H4).
    cbn [mbind option_bind]. by eexists.
  - cbn [mbind option_bind stream_].
    destruct (ls_cstr_holds _ _ (Some (lit " ")) H0) as (b3 & -> & H3). cbn [mbind option_bind].
    destruct (ls_cstr_holds _ _ (Some (LogLevelName level)) H3) as (b4 & -> & H4).
    cbn [mbind option_bind]. by eexists.
Qed.

Lemma impl_finish_holds i s :
  int32 (line_ i) -> holds (stream_ i) s ->
  exists i', impl_finish i = Some i' /\ holds (stream_ i') (finish s (filename_ i) (line_ i)).
Proof.
  intros Hl H. unfold impl_finish, finish.
  destruct (ls_cstr_holds _ _ (Some (lit " -")) H) as (b1 & -> & H1). cbn [mbind option_bind].
  destruct (fb_append_holds _ _ (filename_ i) H1) as (b2 & Hb2 & H2).
  unfold ls_string. rewrite Hb2. cbn [mbind option_bind].
  destruct (ls_cstr_holds _ _ (Some (lit ":")) H2) as (b3 & -> & H3). cbn [mbind option_bind].
  destruct (ls_int_holds _ _ (line_ i) Hl H3) as (b4 & -> & H4). cbn [mbind option_bind].
  destruct (ls_cstr_holds _ _ (Some [LF]) H4) as (b5 & -> & H5). cbn [mbind option_bind].
  by eexists.
Qed.

(** What the output function is given, in memory and as text. *)
Definition effect_matches (m : memory_effect) (e : log_effect) : Prop :=
  match m, e with
  | MQuiet, Quiet | MNullCall, NullCall => True
  | MOutput data len, Output s =>
      length data = kSmallBuffer /\ len = Z.of_nat (length s) /\
      length s <= kSmallBuffer /\ take (length s) data = s
  | _, _ => False
  end.

(** * Properties *)

(** C26: whatever the memory holds before, a log statement writes only inside its
    arrays: it runs to its end, however many and however long its pieces are, and hands
    the output function the array of 4000 bytes with a length up to which the array
    holds exactly the text of the message. *)
Theorem log_memory_safe g k t tv level file line pieces :
  stack_ok k -> tv_ok tv -> int32 line -> Forall piece_ok pieces ->
  exists m, log_memory g k t tv level file line pieces =
              Some (fst (log local_time g t tv level file line pieces), m) /\
    effect_matches m (snd (log local_time g t tv level file line pieces)).
Proof.
  intros Hk Htv Hl Hp. unfold log_memory, log.
  destruct (Impl_new_holds k t tv level file line Hk Htv) as (i & -> & H & Hlev & Hfile & Hline).
  destruct (Logger_new local_time t tv level) as [t1 b]. cbn [fst snd mbind option_bind] in *.
  destruct (ls_pieces_holds _ _ pieces Hp H) as (b1 & -> & H1). cbn [mbind option_bind set_stream level_].
  rewrite Hlev. case_decide; [by exists MQuiet|].
  destruct (impl_finish_holds (set_stream i b1) (foldl put_piece b pieces)) as (i2 & Hi2 & H2).
  { by cbn [set_stream line_]; rewrite Hline. }
  { exact H1. }
  unfold set_stream in Hi2. rewrite Hlev in Hi2. unfold set_stream. rewrite Hlev, Hi2.
  cbn [mbind option_bind fst snd set_stream filename_ line_] in *. rewrite Hfile, Hline in H2.
  destruct (g_output g); eexists; (split; [done|]); [|done]. simpl. destruct H2 as [Hsz Hc Hf Ht].
  split_and!; [done| |done|done]. unfold fb_length. rewrite Hc.
  apply swrap_small; unfold kSmallBuffer in Hf; lia.
Qed.

End LogMemory.

(** ** Output functions and [test/test_log.cc] *)

(** The function [LOG_INIT] installs writes [len] bytes, the one of the test writes a C
    string and does not look at [len]. *)
Definition write_len (data : list ascii) (len : Z) : option str :=
  if decide (0 <= len <= Z.of_nat (length data))%Z
  then Some (take (Z.to_nat len) data ++ [LF]) else None.

Definition write_cstr (data : list ascii) (len : Z) : option str :=
  s ← c_string data; Some (s ++ [LF]).

(** What an effect prints; [None] is a read outside the array. *)
Definition print_effect (out : list ascii -> Z -> option str) (m : memory_effect) : option str :=
  match m with MOutput data len => out data len | MQuiet | MNullCall => Some [] end.

(** The test: everything is logged, by its own output function. *)
Definition test_log (local_time : Z -> str) (k : stack) (tv : timeval) : option str :=
  let g := setOutPutFunc (setLogLevel initial_logger TRACE) (fun msg => msg ++ [LF]) in
  '(_, m) ← log_memory local_time g k {| lastSecond := 0; time_buf := replicate 32 NUL |} tv TRACE
              (lit "test/test_log.cc") 11 [PStr (lit "hello world")];
  print_effect write_cstr m.

Definition test_stack (c : ascii) : stack :=
  {| st_buffer := replicate kSmallBuffer c; st_tid := 0; st_fmt := replicate 32 c |}.

(** The output function of [test_log] treats the message as a C string, but nothing
    terminates it: on memory that happens to be zero the test prints its line, on other
    memory the output continues with stale bytes, up to a read outside the array. *)
Theorem test_log_unterminated :
  test_log clock17 (test_stack NUL) demo_tv =
    Some (lit "00000000000000000.500000 TRACE hello world -test/test_log.cc:11" ++ [LF; LF]) /\
  test_log clock17 (test_stack LF) demo_tv = None.
Proof. split; vm_compute; reflexivity. Qed.

(** The function of [LOG_INIT] prints the text of the message and a line break. *)
Theorem write_len_prints data s :
  effect_matches (MOutput data (Z.of_nat (length s))) (Output s) ->
  print_effect write_len (MOutput data (Z.of_nat (length s))) = Some (s ++ [LF]).
Proof.
  intros (Hd & _ & Hf & Ht). simpl. unfold write_len. rewrite decide_True by (rewrite Hd; lia).
  by rewrite Nat2Z.id, Ht.
Qed.

(** * Witnesses *)

Lemma log_memory_safe_witness :
  exists m, log_memory clock17 (LOG_INIT initial_logger) (test_stack LF) demo_thread demo_tv WARN
              (lit "f.cc") 12 [PStr (lit "n="); PInt (-5)] =
              Some (fst (log clock17 (LOG_INIT initial_logger) demo_thread demo_tv WARN (lit "f.cc") 12
                           [PStr (lit "n="); PInt (-5)]), m) /\
    effect_matches m (snd (log clock17 (LOG_INIT initial_logger) demo_thread demo_tv WARN (lit "f.cc") 12
                             [PStr (lit "n="); PInt (-5)])).
Proof.
  apply (log_memory_safe clock17 (LOG_INIT initial_logger) (test_stack LF) demo_thread demo_tv WARN
           (lit "f.cc") 12 [PStr (lit "n="); PInt (-5)]).
  - split; apply length_replicate.
  - unfold tv_ok, kMicroSecondsPerSecond. simpl. lia.
  - unfold int32. lia.
  - repeat constructor; simpl; lia.
Defined.
